(* ===== verification/_CoqProject ===== *)
-Q . S2P
Prelude.v
Wire.v
Keys.v
DecodePlan.v
DecodePlanSpec.v
DecodePlanCodec.v
Message.v
MessageCodec.v
Transaction.v
TransactionCodec.v
TransactionSign.v
Builder.v
StaticAccounts.v
BuilderLegacy.v
BuilderV0.v
BigUint.v
BigUintSpec.v
Reader.v
TokenState.v
TokenStateSpec.v
Token2022Spec.v
Pda.v
Ix.v
SystemIx.v
TokenIx.v
StakeIx.v
VoteIx.v
PrecompileIx.v
NativeIx.v
Token2022Ix.v
PriorityFee.v
Json.v
JsonSpec.v
Base64.v
TxError.v
TxErrorSpec.v
AccountInfo.v
AccountInfoSpec.v
Signer.v
SignerSpec.v
JsonRpc.v
JsonRpcSpec.v
JsonRpcOptions.v
Send.v
SendSpec.v
RpcTypes.v
Rpc.v
RpcSpec.v
SendRpc.v
Ws.v
WsInv.v
WsSpec.v
WsSubs.v
WsSubsSpec.v
