(* ===== verification/Prelude.v ===== *)
(** * A verification library for the solana-go SDK

    solana-go is a client SDK for the Solana blockchain written in Go: it
    builds messages and transactions from typed instructions, signs them,
    encodes them to the wire format and decodes them back, decodes on-chain
    accounts, and talks to nodes over JSON-RPC and WebSocket.  This library
    models the part of it that is computation on values and bytes, and proves
    what a user of the SDK relies on.

    ** The parts of the program, and the files that model them

    The wire layer.  [encoding/bincode.go] and [encoding/builder.go] are
    [Wire]: the append-only [Encoder], the cursor [Decoder] as a state monad
    [Dec] whose state survives an error, the compact-u16 length prefix.  Its
    proof interface is used by every decoder above it: [dec_spec m R] (on any
    bytes [m] never panics, only moves forward, and its result and the bytes it
    consumed are related by [R]) and [reads m bs a] (on a prefix [bs] it returns
    [a] and consumes exactly [bs]).  [encoding/reader.go] is [Reader], the
    error-accumulating reader, related to [Dec] by the simulation [sim].
    [encoding/u128.go] and [large_int.go] are [BigUint], proved in [BigUintSpec].
    [encoding/codec.go], [decode_plan.go] and [borsh.go] are [DecodePlan]: Go
    types as reflection sees them, the compiler from a type to a plan
    ([emitValue]) and the interpreter of plans ([execDecodeOp]), which stores at
    offsets of an object.  [DecodePlanSpec] proves a plan equal to a direct
    decoder of the type, and [DecodePlanCodec] that decoder inverse to an
    encoder.

    The primitives.  [solana.go], [errors.go] and [base58data.go] are [Keys]:
    public keys, hashes and signatures and their base58, JSON, text and SQL
    forms.  [pda.go] is [Pda]; [constants.go] is in [Ix].

    Messages and transactions.  [message.go] and [message_v1.go] are [Message]
    (legacy, v0 and v1), proved against the wire format [enc_message] in
    [MessageCodec]; [transaction.go] and [entry.go] are [Transaction], with the
    framing proved in [TransactionCodec] and signing in [TransactionSign].
    [account_info.go] and the JSON methods of messages and transactions, which
    read and write a payload as a pair of text and encoding, are [AccountInfo]
    over [Base64] and [Json], proved in [AccountInfoSpec].  [signer.go],
    [mnemonic.go], [internal/hdwallet] and [anchor] are [Signer], proved in
    [SignerSpec].
    [message_builder.go], [instruction.go] and [account_meta.go] are
    [Builder]; [StaticAccounts] refines its map-based account collector to an
    ordered list, and [BuilderLegacy] and [BuilderV0] prove the two builders.

    Programs.  [programs/*/instructions.go] are [SystemIx], [TokenIx],
    [StakeIx], [VoteIx], [Token2022Ix], [NativeIx] (compute budget, memo,
    associated token accounts, lookup tables) and [PrecompileIx] (ed25519 and
    secp256k1), over the shared [Ix]: an instruction is viewed as data bytes
    and a list of account roles, and each package is proved against a
    reference reader of its program's instruction enum.
    [programs/*/state.go] are [TokenState], proved in [TokenStateSpec] and
    [Token2022Spec].

    The network clients.  [jsonrpc/*.go] (calls, batches, retry policy, errors
    and their classifiers) is [JsonRpc], proved in [JsonRpcSpec];
    [rpc/priorityfee.go] is [PriorityFee]; [rpc/transaction_error.go] is [TxError]
    over [Json], the part of encoding/json it uses, proved in [TxErrorSpec] and
    [JsonSpec]; [rpc/send.go] is [Send], proved in [SendSpec] and, with the RPC
    methods as its environment, in [SendRpc]; [ws/client.go] is
    [Ws], a step relation, with its invariant in [WsInv] and its theorems in
    [WsSpec].  The client's options and headers are [JsonRpcOptions].
    [rpc/options.go], [rpc/types.go] and [transaction_meta.go] are the data of
    [RpcTypes]; [rpc/methods_*.go] are [Rpc], one definition a method, proved in
    [RpcSpec]: a method is the list of requests it makes and its outcome, over a
    [Transport], which [transport_of] takes from [JsonRpc]'s retry loop, and an
    [Envelope] codec for each result type.  [ws/util.go] and [ws/wsclient_*.go]
    are [WsSubs], proved in [WsSubsSpec]: a typed subscription is its request,
    its decoder and a bounded channel the consumer empties while the reader
    fills it.  What a node, a socket, a clock or a context does is an argument:
    in [JsonRpc] and [Send] an environment indexed by the attempt and by the
    poll, in [Ws] the choice of the next action.

    How they interact: builders produce [Instruction]s; [NewMessage] and
    [NewMessageV0] compile them into a [Message]; a [Transaction] wraps it, and
    [Sign] fills its signature slots over [Marshal] of the message; the wire
    layer serves every encoder and decoder.  Where the SDK calls code it does
    not contain, the model has a class, and the theorems hold for every
    instance of it satisfying the stated laws: [Keys.Base58] (base58 codec, of
    which nothing is asked on the empty value),
    [Transaction.Ed25519] (signature verification), [Pda.Curve] (SHA-256 and
    the edwards25519 decoder), [AccountInfo.Zstd] (compression),
    [Signer.Ed25519Keys], [Signer.Hmac512] and [Signer.Bip39] (keys, derivation
    and mnemonics), and [Builder.MapOrder] (the order in which Go ranges over a
    map: any permutation).  [AccountInfo.Base58Alphabet] states two more laws of
    the base58 codec, that its texts are letters and digits and that it decodes
    to bytes.

    ** Conventions

    A Go integer is a [Z] in the range of its type, with [wrapU]/[wrapS] where
    the code converts; the arithmetic on lengths is on machine [int]s, which
    no modelled length can overflow.  A byte slice or array is a list of [Z];
    [wf_bytes] and [wf_array] say that its elements are bytes and its size is
    right.  A nil and an empty slice are the same list.  Errors are values of
    [error] that keep the wrapping structure of [fmt.Errorf] but not the
    formatted text; a Go panic is the separate outcome [Panic], so "does not
    panic" is a theorem, not an assumption.  A method on a pointer receiver
    returns its result and the new receiver, also on an error.  Pointers that
    may be nil are options.  Strings are their bytes.

    Go maps are [gmap]s.  Loops are structural recursions over the list they
    range over, or over a count read from the input.  Fuel appears where a loop
    ends for another reason:
    [TokenState.parseTLV_loop], with one unit more than the bytes given (each
    turn consumes four or more; [parseTLV_loop_spec] holds for every data), and
    [Pda.find_loop], where it is the bump itself; [JsonRpc.sendRaw], proved to
    end within the policy's retries; [Send.confirm_poll], where more than
    [max_polls], the timeout over the interval, is enough
    ([confirmation_decides]); and the scanner of [Json], with the length of the
    text.  A [Signer] is its key and a
    function from the message bytes to a signature or an error.

    ** What the theorems show

    - Codecs ([MessageCodec], [TransactionCodec], [Wire]): marshalling a
      well-formed message and unmarshalling gives it back, and so for exactly the
      transactions that [survives] describes (not those with 129 signers in a
      legacy frame, nor legacy ones with 128 or more); any
      bytes that unmarshal are the marshalled form of a well-formed value, so
      the wire format is canonical; decoding arbitrary bytes never panics and
      leaves the receiver alone on failure; the size computed in advance is
      exact; the entry stream decoder accepts exactly the encodings of entry
      lists within its limits.
    - Signing ([TransactionSign]): which slots a call fills, when it succeeds,
      what it leaves behind when it fails, that calls accumulate, and that the
      result verifies; [VerifySignatures] is characterised exactly.
    - Builders ([BuilderLegacy], [BuilderV0]): the account list has no
      duplicates, the payer first, the four roles in order and in order of
      first mention; every account has exactly the privileges the instructions
      give it; compiled indexes resolve to the accounts meant, also through
      lookup tables of at most 256 addresses; signers stay static; success is characterised; map order
      is invisible; nothing panics; the result survives the wire.
    - Programs: every instruction builder is inverted by the reference reader
      (so discriminators are distinct, layouts unambiguous, account flags
      right); offsets in precompile data point at what they should; derived
      addresses are the ones [CreateProgramAddress] accepts.
    - State decoders: exact layouts both ways, total on long enough data, and
      independent of the order in which extensions are visited.
    - Integers: conversions are exact or refused; two's complement is right;
      the one conversion that drops bits is shown to.
    - The reflective decoder, on the types [decodable] describes (finite, laid
      out as on a 64-bit machine, of supported kinds, without slices of a defined
      byte type): a compiled plan stores, inside the object only, exactly what a
      direct decoder of the type returns; decoding arbitrary bytes never panics
      and leaves a value of the type; every encoding decodes back, if slice
      elements take a byte.  Which types compile is characterised.
    - Encoded payloads: the pair written for a payload reads back under every
      binary encoding, and a transaction sent as a pair is read as the same
      transaction.
    - Keys: a keypair imported in any form signs what its public key verifies,
      so that a transaction signed with keypairs verifies; the derivation path
      grammar and the child indexes are exactly SLIP-10's, with one exception.
    - JSON-RPC: the retry loop ends, with the outcome of its last attempt, and
      retries only what the policy allows; a batch gives each element the
      response with its id.
    - RPC methods: a transaction sent or simulated reads back, under the encoding
      declared next to it, as itself, or nothing is sent (for transactions that
      survive the wire); oversized lists are
      refused before anything is sent; every account method asks for an
      encoding.
    - Sending, with a clock that advances by the poll interval: the
      confirmation loop ends with the right verdict, and a
      transaction is sent again only when the last one was not seen past its
      block height.  End to end, each accepted signature answers a request that
      carries what the builder made, and a success is a status the node reported.
    - WebSocket: in every interleaving no channel is closed twice, the maps and
      the calls agree, and a successful subscription was registered; [Close]
      always completes; a notification after a reply is dispatched.  A typed
      subscription keeps the newest notifications and delivers in order, whatever
      its consumer does; the send that drops the oldest always returns.

    Deviations of the code from its own comments, and inputs on which it does
    not do what it means to, are theorems too: [Transaction_roundtrip_129],
    [Transaction_roundtrip_legacy_200], [NewMessageV0_wide_table],
    [NewMessageV0_header_wraps],
    [NewMessageV0_program_in_table], [Sign_rejects_stranger],
    [withdraw_count_truncated], [Uint256_Int256_values],
    [resend_after_failed_query], [expiry_not_classified],
    [http_429_not_rate_limited], [shutdown_runs_twice],
    [cancelled_but_registered], [empty_refusal_succeeds],
    [second_unsubscribe_ends_another], [defined_byte_slice_panics],
    [word_field_overruns], [empty_elements_refused], [Derived_unhardened],
    [EncodedData_loose_shape], [EncodedData_failure_assigns],
    [MessageVersion_255], [MessageVersion_256], [context_header_not_canonical],
    [drop_with_room].

    ** What is not modelled

    The codecs that fill the structs of [RpcTypes] and [Rpc] from JSON (a codec
    is an argument at each type), the random source and the key files' access to
    the disk (arguments too), the HTTP and WebSocket libraries, the benchmarks
    and the test utilities.  A payload's bytes do not travel through [Ws]: its
    actions say which subscription a frame is dispatched to, and [WsSubs] starts
    from the payloads so dispatched.

    This first file holds what all the others share: machine integers, results
    and errors, slices, little-endian bytes, and the automation. *)

From Stdlib Require Export ZArith Lia.
From stdpp Require Export base tactics numbers list list_numbers sorting option gmap strings.

#[export] Set Default Goal Selector "!".
#[global] Open Scope Z_scope.

(** ** Machine integers

    A Go unsigned integer of width [w] is a [Z] in [0, 2^w); a conversion
    [uintW(x)] is [wrapU W x] and [intW(x)] is [wrapS W x]. *)

Definition wrapU (w z : Z) : Z := z `mod` 2 ^ w.
Definition wrapS (w z : Z) : Z := (z + 2 ^ (w - 1)) `mod` 2 ^ w - 2 ^ (w - 1).

Arguments wrapU : simpl never.
Arguments wrapS : simpl never.

Abbreviation u8 := (wrapU 8).
Abbreviation u16 := (wrapU 16).
Abbreviation u32 := (wrapU 32).
Abbreviation u64 := (wrapU 64).
Abbreviation s8 := (wrapS 8).
Abbreviation s16 := (wrapS 16).
Abbreviation s32 := (wrapS 32).
Abbreviation s64 := (wrapS 64).

Definition is_u (w z : Z) : Prop := 0 ≤ z < 2 ^ w.
Definition is_s (w z : Z) : Prop := - 2 ^ (w - 1) ≤ z < 2 ^ (w - 1).

#[export] Instance is_u_dec w z : Decision (is_u w z).
Proof. unfold is_u. apply _. Defined.
#[export] Instance is_s_dec w z : Decision (is_s w z).
Proof. unfold is_s. apply _. Defined.

(** A byte slice or byte array. *)
Abbreviation bytes := (list Z).
Abbreviation wf_bytes := (Forall (is_u 8)).

(** The bytes of an ASCII string literal. *)
Fixpoint str (s : string) : bytes :=
  match s with
  | EmptyString => []
  | String c s => Z.of_nat (Ascii.nat_of_ascii c) :: str s
  end.

(** Go's [len]. *)
Definition zlen {A} (l : list A) : Z := Z.of_nat (length l).

(** ** Errors and results

    [ErrSentinel] is a package-level [errors.New] value (compared by
    identity in Go, by name here), [ErrFmt] an [fmt.Errorf] without [%w],
    [ErrWrap] one with [%w], and [ErrStruct] a struct type implementing
    [error].  [Panic] is a Go run-time panic. *)

Inductive fmt_arg :=
| AZ (z : Z)
| AB (b : list Z)
| AS (s : string).

Inductive error :=
| ErrSentinel (name : string)
| ErrFmt (msg : string) (args : list fmt_arg)
| ErrWrap (msg : string) (args : list fmt_arg) (cause : error)
| ErrStruct (type_name : string) (fields : list fmt_arg).

Inductive result (A : Type) :=
| Ok (a : A)
| Err (e : error)
| Panic (why : string).
Arguments Ok {A} a.
Arguments Err {A} e.
Arguments Panic {A} why.

#[export] Instance result_ret : MRet result := λ A a, Ok a.
#[export] Instance result_bind : MBind result := λ A B f m,
  match m with
  | Ok a => f a
  | Err e => Err e
  | Panic w => Panic w
  end.

(** [errors.Is(err, sentinel)]: walk the [%w] chain. *)
Fixpoint errors_is (e : error) (name : string) : bool :=
  match e with
  | ErrSentinel n => bool_decide (n = name)
  | ErrWrap _ _ c => errors_is c name
  | ErrFmt _ _ | ErrStruct _ _ => false
  end.

(** [if err != nil { return ..., fmt.Errorf("msg: %w", err) }] *)
Definition wrap_result {A} (msg : string) (args : list fmt_arg) (r : result A) : result A :=
  match r with
  | Err e => Err (ErrWrap msg args e)
  | r => r
  end.

Definition no_panic {A} (r : result A) : Prop :=
  match r with Panic _ => False | _ => True end.

Definition is_ok {A} (r : result A) : bool :=
  match r with Ok _ => true | _ => false end.

(** ** Slices: index and slice expressions panic out of range. *)

Definition index_at {A} (l : list A) (i : Z) : result A :=
  if i <? 0 then Panic "index out of range" else
  match l !! Z.to_nat i with
  | Some x => Ok x
  | None => Panic "index out of range"
  end.

Definition slice {A} (l : list A) (lo hi : Z) : result (list A) :=
  if (0 <=? lo) && (lo <=? hi) && (hi <=? zlen l)
  then Ok (take (Z.to_nat (hi - lo)) (drop (Z.to_nat lo) l))
  else Panic "slice bounds out of range".

Definition slice_from {A} (l : list A) (lo : Z) : result (list A) :=
  slice l lo (zlen l).

(** [l[i] = x] *)
Definition set_at {A} (l : list A) (i : Z) (x : A) : result (list A) :=
  if (0 <=? i) && (i <? zlen l) then Ok (<[Z.to_nat i := x]> l)
  else Panic "index out of range".

(** [var a [n]byte; copy(a[:], b)] *)
Definition copy_array (n : nat) (b : bytes) : bytes :=
  take n b ++ replicate (n - length b) 0.

(** Reverse application, for Go's chained method calls
    [e.U8(x).U64(y)]. *)
Declare Scope go_scope.
Delimit Scope go_scope with go.
Notation "e ▹ f" := (f e) (at level 61, left associativity, only parsing) : go_scope.

(** ** Little-endian specification *)

Definition le (n : Z) (v : Z) : bytes := Z_to_little_endian n 8 v.

Definition le_Z (bs : bytes) : Z := little_endian_to_Z 8 bs.

(** ** Generic lemmas *)

Create HintDb solana discriminated.
Create Rewrite HintDb zlen.
Create HintDb reads discriminated.

(** Split every boolean comparison in the goal and the hypotheses. *)
Ltac zbool :=
  repeat match goal with
  | H : (_ <? _) = true |- _ => apply Z.ltb_lt in H
  | H : (_ <? _) = false |- _ => apply Z.ltb_ge in H
  | H : (_ <=? _) = true |- _ => apply Z.leb_le in H
  | H : (_ <=? _) = false |- _ => apply Z.leb_gt in H
  | H : (_ =? _) = true |- _ => apply Z.eqb_eq in H
  | H : (_ =? _) = false |- _ => apply Z.eqb_neq in H
  | H : negb _ = true |- _ => apply negb_true_iff in H
  | H : negb _ = false |- _ => apply negb_false_iff in H
  | H : (_ || _)%bool = false |- _ => apply orb_false_iff in H as [? ?]
  | H : (_ && _)%bool = true |- _ => apply andb_true_iff in H as [? ?]
  end.

Ltac case_if :=
  match goal with
  | |- context [if ?b then _ else _] => destruct b eqn:?; zbool
  end.

Section integers.
Lemma wrapU_small w z : is_u w z → wrapU w z = z.
Proof. apply Z.mod_small. Qed.

Lemma wrapU_is_u w z : 0 ≤ w → is_u w (wrapU w z).
Proof. intros. apply Z.mod_pos_bound, Z.pow_pos_nonneg; lia. Qed.

Lemma wrapS_small w z : 0 < w → is_s w z → wrapS w z = z.
Proof.
  unfold wrapS, is_s. intros Hw Hz.
  assert (2 ^ w = 2 * 2 ^ (w - 1)).
  { replace w with (Z.succ (w - 1)) at 1 by lia. rewrite Z.pow_succ_r; lia. }
  rewrite Z.mod_small; lia.
Qed.

Lemma wrapS_wrapU w z : 0 < w → is_s w z → wrapS w (wrapU w z) = z.
Proof.
  intros Hw Hz. rewrite <- (wrapS_small w z) at 2 by done.
  unfold wrapS, wrapU. f_equal.
  assert (0 < 2 ^ w) by (apply Z.pow_pos_nonneg; lia).
  by rewrite Zplus_mod_idemp_l.
Qed.

Lemma wrapU_wrapS w z : 0 < w → is_u w z → wrapU w (wrapS w z) = z.
Proof.
  intros Hw Hz. unfold wrapS, wrapU.
  rewrite Zminus_mod_idemp_l. rewrite Z.add_simpl_r.
  by apply Z.mod_small.
Qed.

Lemma wrapS_is_s w z : 0 < w → is_s w (wrapS w z).
Proof.
  intros Hw. unfold is_s, wrapS.
  assert (2 ^ w = 2 * 2 ^ (w - 1)).
  { replace w with (Z.succ (w - 1)) at 1 by lia. rewrite Z.pow_succ_r; lia. }
  pose proof (Z.mod_pos_bound (z + 2 ^ (w - 1)) (2 ^ w)).
  assert (0 < 2 ^ w) by (apply Z.pow_pos_nonneg; lia). lia.
Qed.

Lemma is_u_mono w w' z : w ≤ w' → is_u w z → is_u w' z.
Proof. unfold is_u. intros ? [??]. pose proof (Z.pow_le_mono_r 2 w w'). lia. Qed.

(** Shifting a byte left inside a wider word loses nothing. *)
Lemma wrapU_shl w b k :
  is_u 8 b → 0 ≤ k → k + 8 ≤ w → wrapU w (b ≪ k) = b ≪ k.
Proof.
  intros [??] ??. apply wrapU_small. unfold is_u.
  rewrite Z.shiftl_mul_pow2 by lia.
  assert (2 ^ (k + 8) ≤ 2 ^ w) by (apply Z.pow_le_mono_r; lia).
  rewrite Z.pow_add_r in * by lia.
  assert (0 < 2 ^ k) by (apply Z.pow_pos_nonneg; lia). nia.
Qed.
End integers.

Section lists.
Context {A : Type}.
Implicit Types l pre mid post : list A.

Lemma zlen_app l1 l2 : zlen (l1 ++ l2) = zlen l1 + zlen l2.
Proof. unfold zlen. rewrite length_app. lia. Qed.

Lemma zlen_nonneg l: 0 ≤ zlen l.
Proof. unfold zlen. lia. Qed.

Lemma zlen_nil : zlen (A:=A) [] = 0.
Proof. done. Qed.

Lemma zlen_cons x l : zlen (x :: l) = 1 + zlen l.
Proof. unfold zlen. simpl. lia. Qed.

Lemma index_at_Some l i x :
  index_at l i = Ok x ↔ 0 ≤ i ∧ l !! Z.to_nat i = Some x.
Proof.
  unfold index_at. destruct (Z.ltb_spec i 0); [split; [done|lia]|].
  destruct (l !! Z.to_nat i); split; intros; destruct_and?; simplify_eq; done.
Qed.

Lemma index_at_lookup l (i : nat) x : l !! i = Some x → index_at l (Z.of_nat i) = Ok x.
Proof. intros. apply index_at_Some. rewrite Nat2Z.id. split; [lia|done]. Qed.

Lemma set_at_lt l (i : nat) x : (i < length l)%nat → set_at l (Z.of_nat i) x = Ok (<[i := x]> l).
Proof.
  intros Hi. unfold set_at, zlen.
  rewrite (proj2 (Z.leb_le _ _)), (proj2 (Z.ltb_lt _ _)), Nat2Z.id by lia. done.
Qed.

Lemma index_at_app pre x post :
  index_at (pre ++ x :: post) (zlen pre) = Ok x.
Proof.
  apply index_at_Some. split; [apply zlen_nonneg|].
  unfold zlen. rewrite Nat2Z.id. by rewrite list_lookup_middle.
Qed.

Lemma slice_app pre mid post :
  slice (pre ++ mid ++ post) (zlen pre) (zlen pre + zlen mid) = Ok mid.
Proof.
  unfold slice. rewrite !zlen_app.
  pose proof (zlen_nonneg pre). pose proof (zlen_nonneg mid).
  pose proof (zlen_nonneg post).
  rewrite !(proj2 (Z.leb_le _ _)) by lia. simpl. f_equal.
  replace (zlen pre + zlen mid - zlen pre) with (zlen mid) by lia.
  unfold zlen. rewrite !Nat2Z.id, drop_app_length. by apply take_app_length.
Qed.

Lemma slice_from_app pre post :
  slice_from (pre ++ post) (zlen pre) = Ok post.
Proof.
  unfold slice_from. rewrite zlen_app. rewrite <- (app_nil_r post) at 1.
  apply slice_app.
Qed.

Lemma zlen_replicate n (x : A) : zlen (replicate n x) = Z.of_nat n.
Proof. unfold zlen. by rewrite length_replicate. Qed.
End lists.

Lemma zlen_fmap {A B} (f : A → B) l : zlen (f <$> l) = zlen l.
Proof. unfold zlen. by rewrite length_fmap. Qed.

Lemma filter_all {A} (P : A → Prop) `{∀ x, Decision (P x)} l : Forall P l → filter P l = l.
Proof. induction 1 as [|x l Hx _ IH]; [done|]. by rewrite filter_cons_True, IH. Qed.

Lemma copy_array_id n b : length b = n → copy_array n b = b.
Proof.
  intros <-. unfold copy_array.
  by rewrite Nat.sub_diag, take_ge, app_nil_r.
Qed.

Lemma length_copy_array n b : length (copy_array n b) = n.
Proof.
  unfold copy_array. rewrite length_app, length_take, length_replicate. lia.
Qed.

Section little_endian.
Lemma le_0 v : le 0 v = [].
Proof. done. Qed.

Lemma le_S n v : 0 ≤ n → le (1 + n) v = u8 v :: le n (v ≫ 8).
Proof.
  intros. unfold le. replace (1 + n) with (Z.succ n) by lia.
  rewrite Z_to_little_endian_succ by done.
  by rewrite Z.land_ones by lia.
Qed.

Lemma length_le n v : 0 ≤ n → zlen (le n v) = n.
Proof. apply length_Z_to_little_endian. Qed.

Lemma length_le_nat n v : 0 ≤ n → length (le n v) = Z.to_nat n.
Proof. intros. pose proof (length_le n v). unfold zlen in *. lia. Qed.

Lemma wf_le n v : 0 ≤ n → wf_bytes (le n v).
Proof. intros. by apply Z_to_little_endian_bound. Qed.

Lemma le_Z_le n v : 0 ≤ n → is_u (n * 8) v → le_Z (le n v) = v.
Proof.
  intros ? Hv. unfold le_Z, le.
  rewrite little_endian_to_Z_to_little_endian by lia. by apply wrapU_small.
Qed.

Lemma le_Z_le_mod n v : 0 ≤ n → le_Z (le n v) = wrapU (n * 8) v.
Proof. intros. unfold le_Z, le. by rewrite little_endian_to_Z_to_little_endian by lia. Qed.

Lemma le_le_Z n bs : zlen bs = n → wf_bytes bs → le n (le_Z bs) = bs.
Proof. intros <- ?. by apply Z_to_little_endian_to_Z. Qed.

Lemma le_Z_is_u n bs : zlen bs = n → wf_bytes bs → is_u (n * 8) (le_Z bs).
Proof. intros <- ?. by apply little_endian_to_Z_bound. Qed.

Lemma le_Z_nil : le_Z [] = 0.
Proof. done. Qed.

Lemma le_Z_cons b bs : le_Z (b :: bs) = Z.lor b (le_Z bs ≪ 8).
Proof. done. Qed.
End little_endian.

(** Integers stay in little-endian form until a lemma expands them. *)
#[global] Opaque le le_Z.

#[export] Hint Rewrite @zlen_app @zlen_nil @zlen_cons @zlen_replicate @zlen_fmap : zlen.
#[export] Hint Resolve wf_le zlen_nonneg Forall_nil_2 : solana.
#[export] Hint Resolve Forall_app_2 : solana.

Section bits.
(** A decidable fact about bytes is checked on all 256 of them. *)
Lemma is_u8_cases (P : Z → bool) :
  forallb P (seqZ 0 256) = true → ∀ z, is_u 8 z → P z = true.
Proof.
  intros H z Hz. rewrite forallb_forall in H. apply H.
  apply list_elem_of_In, elem_of_seqZ. unfold is_u in *. lia.
Qed.

Lemma lor_shiftl_add a b k :
  0 ≤ k → 0 ≤ a < 2 ^ k → 0 ≤ b → Z.lor a (b ≪ k) = a + b * 2 ^ k.
Proof.
  intros Hk Ha Hb. rewrite <- Z.shiftl_mul_pow2 by done.
  symmetry. apply Z.add_nocarry_lor, Z.bits_inj_iff'. intros i Hi.
  rewrite Z.land_spec, Z.bits_0. destruct (decide (i < k)).
  - rewrite Z.shiftl_spec_low by done. apply andb_false_r.
  - rewrite <- (Z.mod_small a (2 ^ k)) by done.
    by rewrite Z.mod_pow2_bits_high by lia.
Qed.

Lemma land_ones_mod a k : 0 ≤ k → Z.land a (Z.ones k) = a `mod` 2 ^ k.
Proof. apply Z.land_ones. Qed.
End bits.
