(* ===== verification/Wire.v ===== *)
(** * The wire primitives: [encoding/bincode.go] and [encoding/builder.go]

    The append-only [Encoder], the cursor-based [Decoder] as a state monad
    whose state survives an error (as the Go pointer receiver does), and the
    compact-u16 length prefix.  The second half is the proof interface of
    the file: [dec_spec] (what a decoder may do on any buffer: never panic,
    only move forward, consume exactly the bytes its result is specified
    by) and [reads] (what it must do on a well-formed prefix). *)

From S2P Require Import Prelude.

(** ** Encoder *)

Record Encoder := mkEncoder { e_buf : bytes }.

(** The capacity only sizes the first allocation. *)
Definition NewEncoder (capacity : Z) : Encoder := mkEncoder [].
Definition New : Encoder := NewEncoder 128.
Definition Bytes (e : Encoder) : bytes := e_buf e.
Definition Len (e : Encoder) : Z := zlen (e_buf e).

Definition append (bs : bytes) (e : Encoder) : Encoder := mkEncoder (e_buf e ++ bs).

Definition WriteUint8 (v : Z) : Encoder → Encoder := append [v].

Definition WriteUint16 (v : Z) : Encoder → Encoder := append [u8 v; u8 (v ≫ 8)].

Definition WriteUint32 (v : Z) : Encoder → Encoder :=
  append [u8 v; u8 (v ≫ 8); u8 (v ≫ 16); u8 (v ≫ 24)].

Definition WriteUint64 (v : Z) : Encoder → Encoder :=
  append [u8 v; u8 (v ≫ 8); u8 (v ≫ 16); u8 (v ≫ 24);
          u8 (v ≫ 32); u8 (v ≫ 40); u8 (v ≫ 48); u8 (v ≫ 56)].

Definition WriteInt8 (v : Z) : Encoder → Encoder := WriteUint8 (u8 v).
Definition WriteInt16 (v : Z) : Encoder → Encoder := WriteUint16 (u16 v).
Definition WriteInt32 (v : Z) : Encoder → Encoder := WriteUint32 (u32 v).
Definition WriteInt64 (v : Z) : Encoder → Encoder := WriteUint64 (u64 v).

Definition WriteBytes (b : bytes) : Encoder → Encoder := append b.

(** ** Compact-u16 *)

(** The bytes written to the front of [b], and their number. *)
Definition EncodeShortvec (v : Z) : bytes * Z :=
  if v <? 0x80 then ([u8 v], 1)
  else if v <? 0x4000 then ([Z.lor (u8 v) 0x80; u8 (v ≫ 7)], 2)
  else ([Z.lor (u8 v) 0x80; Z.lor (u8 (v ≫ 7)) 0x80; u8 (v ≫ 14)], 3).

Definition ErrShortBuffer : error := ErrSentinel "solana/encoding: short buffer".
Definition ErrInvalidShortvec : error := ErrSentinel "solana/encoding: invalid shortvec".

(** Value and number of bytes consumed. *)
Definition DecodeShortvec (b : bytes) : result (Z * Z) :=
  if zlen b =? 0 then Err ErrShortBuffer else
  b0 ← index_at b 0;
  if b0 <? 0x80 then mret (b0, 1) else
  if zlen b <? 2 then Err ErrShortBuffer else
  b1 ← index_at b 1;
  let v := Z.lor (Z.land b0 0x7f) (u16 (Z.land b1 0x7f ≪ 7)) in
  if b1 <? 0x80 then
    if b1 =? 0 then Err ErrInvalidShortvec else mret (v, 2)
  else
  if zlen b <? 3 then Err ErrShortBuffer else
  b2 ← index_at b 2;
  if (b2 =? 0) || (0x03 <? b2) then Err ErrInvalidShortvec else
  mret (Z.lor v (u16 (b2 ≪ 14)), 3).

Definition WriteShortvec (v : Z) : Encoder → Encoder :=
  let '(tmp, n) := EncodeShortvec v in append (take (Z.to_nat n) tmp).

(** ** The chained builder methods *)

Definition U8 := WriteUint8.
Definition U16 := WriteUint16.
Definition U32 := WriteUint32.
Definition U64 := WriteUint64.
Definition I8 := WriteInt8.
Definition I16 := WriteInt16.
Definition I32 := WriteInt32.
Definition I64 := WriteInt64.
Definition Raw := WriteBytes.

Definition BoolW (v : bool) : Encoder → Encoder :=
  if v then WriteUint8 1 else WriteUint8 0.

Definition StrU64 (s : bytes) (e : Encoder) : Encoder :=
  append s (WriteUint64 (zlen s) e).

Definition OptU8 (v : option Z) (e : Encoder) : Encoder :=
  match v with None => U8 0 e | Some v => U8 v (U8 1 e) end.
Definition OptU32 (v : option Z) (e : Encoder) : Encoder :=
  match v with None => U8 0 e | Some v => U32 v (U8 1 e) end.
Definition OptU64 (v : option Z) (e : Encoder) : Encoder :=
  match v with None => U8 0 e | Some v => U64 v (U8 1 e) end.
Definition OptI64 (v : option Z) (e : Encoder) : Encoder :=
  match v with None => U8 0 e | Some v => I64 v (U8 1 e) end.
Definition OptBool (v : option bool) (e : Encoder) : Encoder :=
  match v with None => U8 0 e | Some v => BoolW v (U8 1 e) end.
Definition OptRaw (b : option bytes) (e : Encoder) : Encoder :=
  match b with None => U8 0 e | Some b => Raw b (U8 1 e) end.

(** ** Decoder *)

Record Decoder := mkDecoder { d_buf : bytes; d_pos : Z; d_borsh : bool }.

Definition NewDecoder (b : bytes) : Decoder := mkDecoder b 0 false.
Definition Pos (d : Decoder) : Z := d_pos d.
Definition Remaining (d : Decoder) : Z := zlen (d_buf d) - d_pos d.

(** A method of [*Decoder]: the receiver is updated even on error. *)
Definition Dec (A : Type) : Type := Decoder → result A * Decoder.

#[export] Instance Dec_ret : MRet Dec := λ A a d, (Ok a, d).
#[export] Instance Dec_bind : MBind Dec := λ A B f m d,
  match m d with
  | (Ok a, d') => f a d'
  | (Err e, d') => (Err e, d')
  | (Panic w, d') => (Panic w, d')
  end.

Definition getd : Dec Decoder := λ d, (Ok d, d).
Definition lift {A} (r : result A) : Dec A := λ d, (r, d).
Definition fail {A} (e : error) : Dec A := lift (Err e).
Definition advance (n : Z) : Dec () :=
  λ d, (Ok (), mkDecoder (d_buf d) (d_pos d + n) (d_borsh d)).

(** [if err != nil { return nil, fmt.Errorf("msg: %w", err) }] *)
Definition wrap {A} (msg : string) (args : list fmt_arg) (m : Dec A) : Dec A :=
  λ d, let '(r, d') := m d in (wrap_result msg args r, d').

Definition ReadUint8 : Dec Z :=
  d ← getd;
  if Remaining d <? 1 then fail ErrShortBuffer else
  v ← lift (index_at (d_buf d) (d_pos d));
  advance 1;; mret v.

Definition PeekUint8 : Dec Z :=
  d ← getd;
  if Remaining d <? 1 then fail ErrShortBuffer else
  lift (index_at (d_buf d) (d_pos d)).

Definition ReadUint16 : Dec Z :=
  d ← getd;
  if Remaining d <? 2 then fail ErrShortBuffer else
  b ← lift (slice_from (d_buf d) (d_pos d));
  b0 ← lift (index_at b 0); b1 ← lift (index_at b 1);
  let v := Z.lor b0 (u16 (b1 ≪ 8)) in
  advance 2;; mret v.

Definition ReadUint32 : Dec Z :=
  d ← getd;
  if Remaining d <? 4 then fail ErrShortBuffer else
  b ← lift (slice_from (d_buf d) (d_pos d));
  b0 ← lift (index_at b 0); b1 ← lift (index_at b 1);
  b2 ← lift (index_at b 2); b3 ← lift (index_at b 3);
  let v := Z.lor (Z.lor (Z.lor b0 (u32 (b1 ≪ 8))) (u32 (b2 ≪ 16))) (u32 (b3 ≪ 24)) in
  advance 4;; mret v.

Definition ReadUint64 : Dec Z :=
  d ← getd;
  if Remaining d <? 8 then fail ErrShortBuffer else
  b ← lift (slice_from (d_buf d) (d_pos d));
  b0 ← lift (index_at b 0); b1 ← lift (index_at b 1);
  b2 ← lift (index_at b 2); b3 ← lift (index_at b 3);
  b4 ← lift (index_at b 4); b5 ← lift (index_at b 5);
  b6 ← lift (index_at b 6); b7 ← lift (index_at b 7);
  let v :=
    Z.lor (Z.lor (Z.lor (Z.lor (Z.lor (Z.lor (Z.lor b0
      (u64 (b1 ≪ 8))) (u64 (b2 ≪ 16))) (u64 (b3 ≪ 24)))
      (u64 (b4 ≪ 32))) (u64 (b5 ≪ 40))) (u64 (b6 ≪ 48))) (u64 (b7 ≪ 56)) in
  advance 8;; mret v.

Definition ReadInt8 : Dec Z := v ← ReadUint8; mret (s8 v).
Definition ReadInt16 : Dec Z := v ← ReadUint16; mret (s16 v).
Definition ReadInt32 : Dec Z := v ← ReadUint32; mret (s32 v).
Definition ReadInt64 : Dec Z := v ← ReadUint64; mret (s64 v).

Definition ReadBytes (n : Z) : Dec bytes :=
  if n <? 0 then fail ErrShortBuffer else
  d ← getd;
  if Remaining d <? n then fail ErrShortBuffer else
  out ← lift (slice (d_buf d) (d_pos d) (d_pos d + n));
  advance n;; mret out.

Definition ReadShortvec : Dec Z :=
  d ← getd;
  '(v, n) ← lift (b ← slice_from (d_buf d) (d_pos d); DecodeShortvec b);
  advance n;; mret v.

(** A [for i := 0; i < n; i++] loop that decodes one element per turn. *)
Fixpoint for_range {A} (n : nat) (i : Z) (body : Z → Dec A) : Dec (list A) :=
  match n with
  | O => mret []
  | S n =>
      x ← body i;
      xs ← for_range n (i + 1) body;
      mret (x :: xs)
  end.

(** ** Decoder specifications *)

(** The decoder that has consumed [pre] and has [rest] left. *)
Definition at_ (pre rest : bytes) (bo : bool) : Decoder :=
  mkDecoder (pre ++ rest) (zlen pre) bo.

(** [m] never panics; on success it has consumed some [bs] related to its
    result by [R]; on error the cursor is still inside the buffer. *)
Definition dec_spec {A} (m : Dec A) (R : A → bytes → Prop) : Prop :=
  ∀ pre rest bo, wf_bytes rest →
    match m (at_ pre rest bo) with
    | (Ok a, d') => ∃ bs post, rest = bs ++ post ∧ d' = at_ (pre ++ bs) post bo ∧ R a bs
    | (Err _, d') => ∃ bs post, rest = bs ++ post ∧ d' = at_ (pre ++ bs) post bo
    | (Panic _, _) => False
    end.

(** [m] accepts the well-formed [bs], returns [a] and consumes exactly [bs],
    whatever follows. *)
Definition reads {A} (m : Dec A) (bs : bytes) (a : A) : Prop :=
  wf_bytes bs ∧
  ∀ pre post bo, wf_bytes post →
    m (at_ pre (bs ++ post) bo) = (Ok a, at_ (pre ++ bs) post bo).

Section spec_rules.
Context {A B : Type}.

Lemma dec_spec_ret (a : A) (R : A → bytes → Prop) : R a [] → dec_spec (mret a) R.
Proof. intros HR pre rest bo _. exists [], rest. by rewrite app_nil_r. Qed.

Lemma dec_spec_fail e (R : A → bytes → Prop) : dec_spec (fail e) R.
Proof. intros pre rest bo _. exists [], rest. by rewrite app_nil_r. Qed.

Lemma dec_spec_bind (m : Dec A) (f : A → Dec B) R1 (R : B → bytes → Prop) :
  dec_spec m R1 →
  (∀ a bs1, R1 a bs1 → wf_bytes bs1 → dec_spec (f a) (λ b bs2, R b (bs1 ++ bs2))) →
  dec_spec (m ≫= f) R.
Proof.
  intros Hm Hf pre rest bo Hwf. unfold mbind, Dec_bind.
  specialize (Hm pre rest bo Hwf).
  destruct (m _) as [[a|e|w] d']; [|done|done].
  destruct Hm as (bs1 & post & -> & -> & HR1).
  apply Forall_app in Hwf as [Hwf1 Hwf2].
  specialize (Hf a bs1 HR1 Hwf1 (pre ++ bs1) post bo Hwf2).
  destruct (f a _) as [[b|e|w] d'']; [| |done].
  - destruct Hf as (bs2 & post2 & -> & -> & HR).
    exists (bs1 ++ bs2), post2. by rewrite !(assoc_L (++)).
  - destruct Hf as (bs2 & post2 & -> & ->).
    exists (bs1 ++ bs2), post2. by rewrite !(assoc_L (++)).
Qed.

Lemma dec_spec_weaken (m : Dec A) (R R' : A → bytes → Prop) :
  dec_spec m R → (∀ a bs, R a bs → R' a bs) → dec_spec m R'.
Proof.
  intros Hm HR pre rest bo Hwf. specialize (Hm pre rest bo Hwf).
  destruct (m _) as [[a|e|w] d']; [|done|done].
  destruct Hm as (bs & post & ? & ? & ?). eauto 10.
Qed.

Lemma dec_spec_wrap msg args (m : Dec A) R : dec_spec m R → dec_spec (wrap msg args m) R.
Proof.
  intros Hm pre rest bo Hwf. specialize (Hm pre rest bo Hwf).
  unfold wrap. by destruct (m _) as [[a|e|w] d'].
Qed.

Lemma reads_ret (a : A) : reads (mret a) [] a.
Proof. split; [constructor|]. intros pre post bo _. by rewrite app_nil_r. Qed.

Lemma reads_bind (m : Dec A) (f : A → Dec B) bs1 bs2 bs (a : A) b :
  reads m bs1 a → reads (f a) bs2 b → bs = bs1 ++ bs2 → reads (m ≫= f) bs b.
Proof.
  intros [Hwf1 Hm] [Hwf2 Hf] ->. split; [by apply Forall_app_2|].
  intros pre post bo Hwf. unfold mbind, Dec_bind.
  rewrite <- (assoc_L (++)), Hm, Hf, (assoc_L (++)); [done|done|].
  by apply Forall_app_2.
Qed.

Lemma reads_wrap msg args (m : Dec A) bs a : reads m bs a → reads (wrap msg args m) bs a.
Proof.
  intros [Hwf Hm]. split; [done|]. intros pre post bo Hpost.
  unfold wrap. by rewrite Hm.
Qed.
End spec_rules.

(** Running the first statement of a decoder. *)
Section run.
Context {A B : Type} (m : Dec A) (f : A → Dec B) (d d' : Decoder).

Lemma Dec_bind_ok a : m d = (Ok a, d') → (m ≫= f) d = f a d'.
Proof. intros H. unfold mbind, Dec_bind. by rewrite H. Qed.

Lemma Dec_bind_err e : m d = (Err e, d') → (m ≫= f) d = (Err e, d').
Proof. intros H. unfold mbind, Dec_bind. by rewrite H. Qed.

Lemma wrap_ok msg args a : m d = (Ok a, d') → wrap msg args m d = (Ok a, d').
Proof. intros H. unfold wrap. by rewrite H. Qed.

Lemma wrap_err msg args e : m d = (Err e, d') → wrap msg args m d = (Err (ErrWrap msg args e), d').
Proof. intros H. unfold wrap. by rewrite H. Qed.
End run.

(** A successful [reads] on a whole buffer. *)
Lemma reads_run {A} (m : Dec A) bs a :
  reads m bs a → m (NewDecoder bs) = (Ok a, at_ bs [] false).
Proof.
  intros [_ Hm]. specialize (Hm [] [] false (Forall_nil_2 _)).
  by rewrite app_nil_r in Hm.
Qed.

Lemma Remaining_at pre rest bo : Remaining (at_ pre rest bo) = zlen rest.
Proof. unfold Remaining, at_. simpl. rewrite zlen_app. lia. Qed.

Lemma d_buf_at pre rest bo : d_buf (at_ pre rest bo) = pre ++ rest.
Proof. done. Qed.
Lemma d_pos_at pre rest bo : d_pos (at_ pre rest bo) = zlen pre.
Proof. done. Qed.

Arguments at_ : simpl never.
Arguments advance : simpl never.

(** *** The primitives *)


Section primitives.
Context (pre : bytes) (bo : bool).

Lemma advance_at bs post n :
  n = zlen bs → advance n (at_ pre (bs ++ post) bo) = (Ok (), at_ (pre ++ bs) post bo).
Proof.
  intros ->. unfold advance, at_. simpl. by rewrite zlen_app, (assoc_L (++)).
Qed.

Lemma ReadUint8_at rest :
  ReadUint8 (at_ pre rest bo) =
    match rest with
    | [] => (Err ErrShortBuffer, at_ pre rest bo)
    | b :: r => (Ok b, at_ (pre ++ [b]) r bo)
    end.
Proof.
  unfold ReadUint8, mbind, Dec_bind, getd, lift. rewrite Remaining_at.
  destruct rest as [|b r]; [done|].
  rewrite zlen_cons. pose proof (zlen_nonneg r).
  rewrite (proj2 (Z.ltb_ge _ _)), d_buf_at, d_pos_at, index_at_app by lia.
  by rewrite (advance_at [b] r).
Qed.

Lemma PeekUint8_at rest :
  PeekUint8 (at_ pre rest bo) =
    match rest with
    | [] => (Err ErrShortBuffer, at_ pre rest bo)
    | b :: r => (Ok b, at_ pre rest bo)
    end.
Proof.
  unfold PeekUint8, mbind, Dec_bind, getd, lift. rewrite Remaining_at.
  destruct rest as [|b r]; [done|].
  rewrite zlen_cons. pose proof (zlen_nonneg r).
  by rewrite (proj2 (Z.ltb_ge _ _)), d_buf_at, d_pos_at, index_at_app by lia.
Qed.

Lemma ReadBytes_at n bs post :
  n = zlen bs → ReadBytes n (at_ pre (bs ++ post) bo) = (Ok bs, at_ (pre ++ bs) post bo).
Proof.
  intros ->. pose proof (zlen_nonneg bs). pose proof (zlen_nonneg post).
  unfold ReadBytes. rewrite (proj2 (Z.ltb_ge _ _)) by lia.
  unfold mbind, Dec_bind, getd, lift.
  rewrite Remaining_at, zlen_app.
  rewrite (proj2 (Z.ltb_ge _ _)), d_buf_at, d_pos_at, slice_app by lia.
  by rewrite (advance_at bs post).
Qed.

Lemma ReadBytes_short n rest :
  n < 0 ∨ zlen rest < n →
  ReadBytes n (at_ pre rest bo) = (Err ErrShortBuffer, at_ pre rest bo).
Proof.
  intros Hn. unfold ReadBytes. destruct (Z.ltb_spec n 0); [done|].
  unfold mbind, Dec_bind, getd, lift, fail.
  rewrite Remaining_at. by rewrite (proj2 (Z.ltb_lt _ _)) by lia.
Qed.
End primitives.

Lemma list_split_len {A} (l : list A) (n : Z) :
  0 ≤ n ≤ zlen l → ∃ l1 l2, l = l1 ++ l2 ∧ zlen l1 = n.
Proof.
  intros Hn. exists (take (Z.to_nat n) l), (drop (Z.to_nat n) l).
  rewrite take_drop. split; [done|]. unfold zlen in *.
  rewrite length_take. lia.
Qed.

Section primitive_specs.
Lemma dec_spec_ReadUint8 : dec_spec ReadUint8 (λ v bs, is_u 8 v ∧ bs = [v]).
Proof.
  intros pre rest bo Hwf. rewrite ReadUint8_at. destruct rest as [|b r].
  - exists [], []. by rewrite (app_nil_r pre).
  - exists [b], r. inv Hwf. done.
Qed.

Lemma reads_ReadUint8 v : is_u 8 v → reads ReadUint8 [v] v.
Proof. split; [by apply Forall_singleton|]. intros. apply ReadUint8_at. Qed.

Lemma dec_spec_ReadBytes n : dec_spec (ReadBytes n) (λ v bs, zlen v = n ∧ wf_bytes v ∧ bs = v).
Proof.
  intros pre rest bo Hwf. destruct (decide (0 ≤ n ≤ zlen rest)) as [Hn|Hn].
  - destruct (list_split_len rest n Hn) as (bs & post & -> & Hlen).
    apply Forall_app in Hwf as [??].
    rewrite ReadBytes_at by done. eauto 10.
  - rewrite ReadBytes_short by lia. exists [], rest. by rewrite app_nil_r.
Qed.

Lemma reads_ReadBytes n bs : zlen bs = n → wf_bytes bs → reads (ReadBytes n) bs bs.
Proof. split; [done|]. intros. by apply ReadBytes_at. Qed.

(** The multi-byte reads all take the cursor tail, check its length and
    index into it; the lemmas below relate them to the little-endian
    specification. *)
Lemma le_Z_2 b0 b1 : is_u 8 b0 → is_u 8 b1 →
  Z.lor b0 (u16 (b1 ≪ 8)) = le_Z [b0; b1].
Proof.
  intros. rewrite wrapU_shl by first [assumption | lia].
  rewrite !le_Z_cons, le_Z_nil. by rewrite Z.shiftl_0_l, Z.lor_0_r.
Qed.

Lemma le_Z_4 b0 b1 b2 b3 : is_u 8 b0 → is_u 8 b1 → is_u 8 b2 → is_u 8 b3 →
  Z.lor (Z.lor (Z.lor b0 (u32 (b1 ≪ 8))) (u32 (b2 ≪ 16))) (u32 (b3 ≪ 24))
  = le_Z [b0; b1; b2; b3].
Proof.
  intros. rewrite !wrapU_shl by first [assumption | lia]. rewrite !le_Z_cons, le_Z_nil.
  rewrite Z.shiftl_0_l, Z.lor_0_r.
  rewrite !Z.shiftl_lor, !Z.shiftl_shiftl by lia. by rewrite !Z.lor_assoc.
Qed.

Lemma le_Z_8 b0 b1 b2 b3 b4 b5 b6 b7 :
  is_u 8 b0 → is_u 8 b1 → is_u 8 b2 → is_u 8 b3 →
  is_u 8 b4 → is_u 8 b5 → is_u 8 b6 → is_u 8 b7 →
  Z.lor (Z.lor (Z.lor (Z.lor (Z.lor (Z.lor (Z.lor b0
    (u64 (b1 ≪ 8))) (u64 (b2 ≪ 16))) (u64 (b3 ≪ 24)))
    (u64 (b4 ≪ 32))) (u64 (b5 ≪ 40))) (u64 (b6 ≪ 48))) (u64 (b7 ≪ 56))
  = le_Z [b0; b1; b2; b3; b4; b5; b6; b7].
Proof.
  intros. rewrite !wrapU_shl by first [assumption | lia]. rewrite !le_Z_cons, le_Z_nil.
  rewrite Z.shiftl_0_l, Z.lor_0_r.
  rewrite !Z.shiftl_lor, !Z.shiftl_shiftl by lia. by rewrite !Z.lor_assoc.
Qed.
End primitive_specs.

(** [m] reads an [n]-byte little-endian integer, or reports a short buffer
    without moving. *)
Definition reads_le (n : Z) (m : Dec Z) : Prop :=
  (∀ pre bs post bo, zlen bs = n → wf_bytes bs →
     m (at_ pre (bs ++ post) bo) = (Ok (le_Z bs), at_ (pre ++ bs) post bo)) ∧
  (∀ pre rest bo, zlen rest < n →
     m (at_ pre rest bo) = (Err ErrShortBuffer, at_ pre rest bo)).

Lemma dec_spec_le n m :
  0 ≤ n → reads_le n m → dec_spec m (λ v bs, is_u (n * 8) v ∧ bs = le n v).
Proof.
  intros Hn [Hok Hshort] pre rest bo Hwf.
  destruct (decide (n ≤ zlen rest)) as [Hle|Hle].
  - destruct (list_split_len rest n) as (bs & post & -> & Hlen); [lia|].
    apply Forall_app in Hwf as [??].
    rewrite Hok by done. exists bs, post.
    split; [done|]. split; [done|].
    split; [by apply le_Z_is_u|by rewrite le_le_Z].
  - rewrite Hshort by lia. exists [], rest. by rewrite app_nil_r.
Qed.

Lemma reads_le_intro n m v :
  0 ≤ n → reads_le n m → is_u (n * 8) v → reads m (le n v) v.
Proof.
  intros Hn [Hok _] Hv. split; [by apply wf_le|]. intros pre post bo _.
  rewrite Hok by (by apply length_le || by apply wf_le).
  by rewrite le_Z_le.
Qed.

(** Reduce the guard and the index expressions of a fixed-width read on a
    buffer tail whose first bytes are explicit. *)
Ltac reads_le_ok post :=
  cbv [mbind Dec_bind getd lift mret Dec_ret];
  rewrite Remaining_at, (proj2 (Z.ltb_ge _ _))
    by (rewrite zlen_app; pose proof (zlen_nonneg post); unfold zlen; simpl; lia);
  rewrite d_buf_at, d_pos_at, slice_from_app;
  repeat (cbv beta iota;
          match goal with |- context [index_at ?l ?k] =>
            let r := eval lazy in (index_at l k) in change (index_at l k) with r
          end);
  cbv beta iota zeta;
  match goal with |- _ = (_, at_ (_ ++ ?bs) _ _) =>
    rewrite (advance_at _ _ bs post) by done
  end.

Ltac reads_le_short :=
  intros; cbv [mbind Dec_bind getd lift mret Dec_ret fail];
  rewrite Remaining_at; by rewrite (proj2 (Z.ltb_lt _ _)) by lia.

Lemma length_cons_inv {A} (l : list A) n :
  zlen l = Z.of_nat (S n) → ∃ x l', l = x :: l' ∧ zlen l' = Z.of_nat n.
Proof. destruct l; unfold zlen; simpl; intros; [lia|]. eexists _, _. split; [done|lia]. Qed.

Lemma length_nil_inv {A} (l : list A) : zlen l = Z.of_nat 0 → l = [].
Proof. by destruct l. Qed.

(** Replace a list of known length by its elements. *)
Ltac explode_nat H :=
  lazymatch type of H with
  | _ = Z.of_nat O => apply length_nil_inv in H as ->
  | _ = Z.of_nat (S _) =>
      let l' := fresh "bs" in let H' := fresh "Hlen" in
      apply length_cons_inv in H as (? & l' & -> & H'); explode_nat H'
  end.

Ltac explode H :=
  lazymatch type of H with
  | _ = ?k => let n := eval compute in (Z.to_nat k) in change k with (Z.of_nat n) in H
  end;
  explode_nat H.

Lemma ReadUint16_le : reads_le 2 ReadUint16.
Proof.
  unfold ReadUint16. split; [|reads_le_short].
  intros pre bs post bo Hlen Hwf. explode Hlen.
  rewrite !Forall_cons in Hwf. destruct_and!.
  reads_le_ok post. by rewrite le_Z_2.
Qed.

Lemma ReadUint32_le : reads_le 4 ReadUint32.
Proof.
  unfold ReadUint32. split; [|reads_le_short].
  intros pre bs post bo Hlen Hwf. explode Hlen.
  rewrite !Forall_cons in Hwf. destruct_and!.
  reads_le_ok post. by rewrite le_Z_4.
Qed.

Lemma ReadUint64_le : reads_le 8 ReadUint64.
Proof.
  unfold ReadUint64. split; [|reads_le_short].
  intros pre bs post bo Hlen Hwf. explode Hlen.
  rewrite !Forall_cons in Hwf. destruct_and!.
  reads_le_ok post. by rewrite le_Z_8.
Qed.

(** *** Compact-u16 *)

Definition shortvec (v : Z) : bytes :=
  let '(tmp, n) := EncodeShortvec v in take (Z.to_nat n) tmp.

(** The encoder in arithmetic form: seven bits per byte, continuation in
    bit 7. *)
Lemma shortvec_spec v :
  is_u 16 v →
  shortvec v =
    if v <? 128 then [v]
    else if v <? 16384 then [128 + v `mod` 128; v `div` 128]
    else [128 + v `mod` 128; 128 + (v `div` 128) `mod` 128; v `div` 16384].
Proof.
  intros [Hv0 Hv1]. unfold shortvec, EncodeShortvec.
  assert (Hlor : ∀ z, is_u 8 z → Z.lor z 128 = 128 + z `mod` 128).
  { intros z Hz. apply Z.eqb_eq. revert z Hz. apply is_u8_cases. by vm_compute. }
  assert (Hmm : ∀ z, u8 z `mod` 128 = z `mod` 128).
  { intros z. unfold wrapU. Z.to_euclidean_division_equations. lia. }
  rewrite !Hlor by (by apply wrapU_is_u). rewrite !Hmm.
  rewrite !Z.shiftr_div_pow2 by done.
  change (2 ^ 7) with 128. change (2 ^ 14) with 16384.
  destruct (Z.ltb_spec v 128); [|destruct (Z.ltb_spec v 16384)]; simpl.
  - by rewrite wrapU_small by (unfold is_u; lia).
  - rewrite wrapU_small; [done|]. unfold is_u. change (2 ^ 8) with 256.
    Z.to_euclidean_division_equations. lia.
  - rewrite (wrapU_small 8 (v `div` 16384)); [done|].
    unfold is_u. change (2 ^ 8) with 256. change (2 ^ 16) with 65536 in *.
    Z.to_euclidean_division_equations. lia.
Qed.

(** The decoder in arithmetic form, on bytes. *)
Lemma DecodeShortvec_spec b :
  wf_bytes b →
  DecodeShortvec b =
    match b with
    | [] => Err ErrShortBuffer
    | b0 :: b =>
        if b0 <? 128 then Ok (b0, 1) else
        match b with
        | [] => Err ErrShortBuffer
        | b1 :: b =>
            if b1 <? 128 then
              if b1 =? 0 then Err ErrInvalidShortvec
              else Ok (b0 - 128 + b1 * 128, 2)
            else
            match b with
            | [] => Err ErrShortBuffer
            | b2 :: b =>
                if (b2 =? 0) || (3 <? b2) then Err ErrInvalidShortvec
                else Ok (b0 - 128 + (b1 - 128) * 128 + b2 * 16384, 3)
            end
        end
    end.
Proof.
  intros Hwf. unfold DecodeShortvec.
  assert (Hland : ∀ z, is_u 8 z → Z.land z 0x7f = if z <? 128 then z else z - 128).
  { intros z Hz. apply Z.eqb_eq. revert z Hz. apply is_u8_cases. by vm_compute. }
  destruct b as [|b0 b]; [done|]. inv Hwf as [|?? Hb0 Hwf'].
  rewrite zlen_cons. pose proof (zlen_nonneg b).
  rewrite (proj2 (Z.eqb_neq _ _)) by lia.
  change (index_at (b0 :: b) 0) with (Ok b0). cbn [mbind result_bind].
  destruct (Z.ltb_spec b0 128); [done|].
  destruct b as [|b1 b]; [done|]. inv Hwf' as [|?? Hb1 Hwf].
  rewrite zlen_cons in *. pose proof (zlen_nonneg b).
  rewrite (proj2 (Z.ltb_ge _ _)) by lia.
  change (index_at (b0 :: b1 :: b) 1) with (Ok b1). cbn [mbind result_bind].
  rewrite !Hland by done. rewrite (proj2 (Z.ltb_ge b0 _)) by done.
  assert (Hb0' : 0 ≤ b0 - 128 < 128) by (unfold is_u in *; lia).
  assert (Hb1' : 0 ≤ b1 < 256) by (unfold is_u in *; lia).
  rewrite wrapU_shl by first [lia | case_if; unfold is_u in *; lia].
  rewrite lor_shiftl_add by (first [lia | case_if; lia]).
  destruct (Z.ltb_spec b1 128); [done|].
  destruct b as [|b2 b]; [done|]. inv Hwf as [|?? Hb2 _].
  rewrite zlen_cons in *. pose proof (zlen_nonneg b).
  rewrite (proj2 (Z.ltb_ge _ _)) by lia.
  change (index_at (b0 :: b1 :: b2 :: b) 2) with (Ok b2). cbn [mbind result_bind].
  destruct ((b2 =? 0) || (3 <? b2)) eqn:Hb2'; [done|]. zbool.
  rewrite wrapU_small.
  2: { unfold is_u in *. rewrite Z.shiftl_mul_pow2 by lia. lia. }
  rewrite lor_shiftl_add by (unfold is_u in *; lia). done.
Qed.

(** Encoding then decoding gives the value back. *)
Lemma DecodeShortvec_shortvec v post :
  is_u 16 v → wf_bytes post →
  DecodeShortvec (shortvec v ++ post) = Ok (v, zlen (shortvec v)).
Proof.
  intros Hv Hpost. assert (Hv' := Hv). unfold is_u in Hv'. change (2 ^ 16) with 65536 in Hv'.
  assert (Hwf : wf_bytes (shortvec v)).
  { rewrite shortvec_spec by done. repeat case_if;
      rewrite ?Forall_cons; unfold is_u; change (2 ^ 8) with 256;
      repeat split; try apply Forall_nil_2;
      Z.to_euclidean_division_equations; lia. }
  rewrite DecodeShortvec_spec by (by apply Forall_app_2).
  rewrite shortvec_spec by done.
  destruct (Z.ltb_spec v 128) as [?|?]; [|destruct (Z.ltb_spec v 16384)]; cbn [app].
  - by rewrite (proj2 (Z.ltb_lt _ _)) by lia.
  - rewrite (proj2 (Z.ltb_ge _ _)) by (Z.to_euclidean_division_equations; lia).
    rewrite (proj2 (Z.ltb_lt _ _)) by (Z.to_euclidean_division_equations; lia).
    rewrite (proj2 (Z.eqb_neq _ _)) by (Z.to_euclidean_division_equations; lia).
    do 2 f_equal. Z.to_euclidean_division_equations; lia.
  - rewrite !(proj2 (Z.ltb_ge _ _)) by (Z.to_euclidean_division_equations; lia).
    rewrite (proj2 (Z.eqb_neq _ _)) by (Z.to_euclidean_division_equations; lia).
    simpl. do 2 f_equal. Z.to_euclidean_division_equations; lia.
Qed.

(** Only the canonical encoding of a value is accepted. *)
Lemma DecodeShortvec_canonical b v n :
  wf_bytes b → DecodeShortvec b = Ok (v, n) →
  is_u 16 v ∧ ∃ post, b = shortvec v ++ post ∧ n = zlen (shortvec v).
Proof.
  intros Hwf. rewrite DecodeShortvec_spec by done. unfold is_u in *.
  change (2 ^ 8) with 256 in *. change (2 ^ 16) with 65536.
  destruct b as [|b0 b]; [done|]. inv Hwf as [|?? Hb0 Hwf1].
  destruct (Z.ltb_spec b0 128).
  { intros [= <- <-]. split; [lia|]. exists b.
    rewrite shortvec_spec by (unfold is_u; lia).
    by rewrite (proj2 (Z.ltb_lt _ _)) by lia. }
  destruct b as [|b1 b]; [done|]. inv Hwf1 as [|?? Hb1 Hwf2].
  destruct (Z.ltb_spec b1 128).
  { destruct (Z.eqb_spec b1 0); [done|]. intros [= <- <-]. split; [lia|]. exists b.
    rewrite shortvec_spec by (unfold is_u; lia).
    rewrite (proj2 (Z.ltb_ge _ _)) by lia. rewrite (proj2 (Z.ltb_lt _ _)) by lia.
    split; [|done]. cbn [app]. f_equal; [|f_equal]; Z.to_euclidean_division_equations; lia. }
  destruct b as [|b2 b]; [done|]. inv Hwf2 as [|?? Hb2 Hwf3].
  destruct ((b2 =? 0) || (3 <? b2)) eqn:Hb2'; [done|]. zbool.
  intros [= <- <-]. split; [lia|]. exists b.
  rewrite shortvec_spec by (unfold is_u; lia).
  rewrite !(proj2 (Z.ltb_ge _ _)) by lia.
  split; [|done]. cbn [app]. f_equal; [|f_equal; [|f_equal]]; Z.to_euclidean_division_equations; lia.
Qed.

Lemma DecodeShortvec_no_panic b : wf_bytes b → no_panic (DecodeShortvec b).
Proof.
  intros. rewrite DecodeShortvec_spec by done.
  repeat (case_match; try done).
Qed.

Lemma wf_shortvec v : is_u 16 v → wf_bytes (shortvec v).
Proof.
  intros Hv. rewrite shortvec_spec by done. unfold is_u in Hv.
  change (2 ^ 16) with 65536 in Hv.
  repeat case_if; rewrite ?Forall_cons; unfold is_u; change (2 ^ 8) with 256;
    repeat split; try apply Forall_nil_2; Z.to_euclidean_division_equations; lia.
Qed.

Lemma ReadShortvec_at pre rest bo :
  ReadShortvec (at_ pre rest bo) =
    match DecodeShortvec rest with
    | Ok (v, n) => let '(_, d) := advance n (at_ pre rest bo) in (Ok v, d)
    | Err e => (Err e, at_ pre rest bo)
    | Panic w => (Panic w, at_ pre rest bo)
    end.
Proof.
  unfold ReadShortvec. cbv [mbind Dec_bind getd lift mret Dec_ret result_bind].
  rewrite d_buf_at, d_pos_at, slice_from_app.
  by destruct (DecodeShortvec rest) as [[v n]|e|w].
Qed.

Lemma dec_spec_ReadShortvec : dec_spec ReadShortvec (λ v bs, is_u 16 v ∧ bs = shortvec v).
Proof.
  intros pre rest bo Hwf. rewrite ReadShortvec_at.
  pose proof (DecodeShortvec_no_panic rest Hwf).
  destruct (DecodeShortvec rest) as [[v n]|e|w] eqn:Hd; [| |done].
  - apply DecodeShortvec_canonical in Hd as (? & post & -> & ->); [|done].
    rewrite advance_at by done. eauto 10.
  - exists [], rest. by rewrite app_nil_r.
Qed.

Lemma reads_ReadShortvec v : is_u 16 v → reads ReadShortvec (shortvec v) v.
Proof.
  intros Hv. split; [by apply wf_shortvec|]. intros pre post bo Hpost.
  rewrite ReadShortvec_at, DecodeShortvec_shortvec by done.
  by rewrite advance_at.
Qed.

(** ** Loops *)

Section loops.
Context {A : Type} (enc : A → bytes) (wf : A → Prop).

Lemma dec_spec_for_range n i (body : Z → Dec A) :
  (∀ i, dec_spec (body i) (λ a bs, wf a ∧ bs = enc a)) →
  dec_spec (for_range n i body)
    (λ l bs, length l = n ∧ Forall wf l ∧ bs = flat_map enc l).
Proof.
  intros Hbody. revert i. induction n as [|n IH]; intros i; simpl.
  { by apply dec_spec_ret. }
  eapply dec_spec_bind; [apply Hbody|]. intros a bs1 [Ha ->] _.
  eapply dec_spec_bind; [apply IH|]. intros l bs2 (<- & Hl & ->) _.
  apply dec_spec_ret. rewrite app_nil_r. eauto 10.
Qed.

Lemma reads_for_range i (body : Z → Dec A) l :
  (∀ i a, a ∈ l → reads (body i) (enc a) a) →
  reads (for_range (length l) i body) (flat_map enc l) l.
Proof.
  revert i. induction l as [|a l IH]; intros i Hbody; simpl.
  { apply reads_ret. }
  eapply reads_bind; [apply Hbody; left| |done].
  eapply reads_bind; [apply IH; intros; apply Hbody; by right|apply reads_ret|].
  by rewrite app_nil_r.
Qed.

Lemma zlen_flat_map_const k l :
  (∀ a, a ∈ l → zlen (enc a) = k) → zlen (flat_map enc l) = zlen l * k.
Proof.
  induction l as [|a l IH]; intros Hk; simpl; [done|].
  rewrite zlen_app, zlen_cons, IH, Hk; [lia|left|]. intros. apply Hk. by right.
Qed.
End loops.

(** ** The encoder appends its specified encoding *)

Lemma le_4_bytes v : le 4 v = [u8 v; u8 (v ≫ 8); u8 (v ≫ 16); u8 (v ≫ 24)].
Proof.
  rewrite (le_S 3), (le_S 2), (le_S 1), (le_S 0), le_0, !Z.shiftr_shiftr by lia. done.
Qed.

Lemma le_8_bytes v :
  le 8 v = [u8 v; u8 (v ≫ 8); u8 (v ≫ 16); u8 (v ≫ 24);
            u8 (v ≫ 32); u8 (v ≫ 40); u8 (v ≫ 48); u8 (v ≫ 56)].
Proof.
  rewrite (le_S 7), (le_S 6), (le_S 5), (le_S 4), (le_S 3), (le_S 2), (le_S 1),
    (le_S 0), le_0, !Z.shiftr_shiftr by lia. done.
Qed.

Lemma le_2_bytes v : le 2 v = [u8 v; u8 (v ≫ 8)].
Proof. by rewrite (le_S 1), (le_S 0), le_0 by lia. Qed.

Lemma le_1_byte v : is_u 8 v → le 1 v = [v].
Proof. intros. rewrite (le_S 0), le_0 by lia. by rewrite wrapU_small. Qed.

Section encoder.
Context (e : Encoder).

Lemma e_buf_append bs : e_buf (append bs e) = e_buf e ++ bs.
Proof. done. Qed.

Lemma e_buf_U8 v : e_buf (WriteUint8 v e) = e_buf e ++ [v].
Proof. done. Qed.

Lemma e_buf_U16 v : e_buf (WriteUint16 v e) = e_buf e ++ le 2 v.
Proof. by rewrite le_2_bytes. Qed.

Lemma e_buf_U32 v : e_buf (WriteUint32 v e) = e_buf e ++ le 4 v.
Proof. by rewrite le_4_bytes. Qed.

Lemma e_buf_U64 v : e_buf (WriteUint64 v e) = e_buf e ++ le 8 v.
Proof. by rewrite le_8_bytes. Qed.

Lemma e_buf_I16 v : e_buf (WriteInt16 v e) = e_buf e ++ le 2 (u16 v).
Proof. apply e_buf_U16. Qed.

Lemma e_buf_I64 v : e_buf (WriteInt64 v e) = e_buf e ++ le 8 (u64 v).
Proof. apply e_buf_U64. Qed.

Lemma e_buf_Raw bs : e_buf (WriteBytes bs e) = e_buf e ++ bs.
Proof. done. Qed.

Lemma e_buf_Shortvec v : e_buf (WriteShortvec v e) = e_buf e ++ shortvec v.
Proof. unfold WriteShortvec, shortvec. by destruct (EncodeShortvec v). Qed.
End encoder.

Lemma e_buf_fold {A} (f : A → Encoder → Encoder) (enc : A → bytes) l e :
  (∀ a e, e_buf (f a e) = e_buf e ++ enc a) →
  e_buf (fold_left (λ e a, f a e) l e) = e_buf e ++ flat_map enc l.
Proof.
  intros Hf. revert e. induction l as [|a l IH]; intros e; simpl.
  { by rewrite app_nil_r. }
  by rewrite IH, Hf, (assoc_L (++)).
Qed.

Create Rewrite HintDb enc.
#[export] Hint Rewrite e_buf_U8 e_buf_U16 e_buf_U32 e_buf_U64 e_buf_I16 e_buf_I64
  e_buf_Raw e_buf_Shortvec : enc.

(** ** Signed reads *)

Lemma dec_spec_signed w n m :
  0 < n → w = n * 8 → reads_le n m →
  dec_spec (v ← m; mret (wrapS w v)) (λ v bs, is_s w v ∧ bs = le n (wrapU w v)).
Proof.
  intros Hn -> Hm. eapply dec_spec_bind; [apply (dec_spec_le n); [lia|done]|].
  intros v bs [Hv ->] _. apply dec_spec_ret. rewrite app_nil_r.
  split; [apply wrapS_is_s; lia|]. by rewrite wrapU_wrapS by (done || lia).
Qed.

Lemma reads_signed w n m v :
  0 < n → w = n * 8 → reads_le n m → is_s w v →
  reads (v ← m; mret (wrapS w v)) (le n (wrapU w v)) v.
Proof.
  intros Hn -> Hm Hv.
  eapply reads_bind; [apply (reads_le_intro n m (wrapU (n * 8) v)); [lia|done|apply wrapU_is_u; lia]| |].
  - rewrite wrapS_wrapU by (done || lia). apply reads_ret.
  - by rewrite app_nil_r.
Qed.

(** ** Automation

    [dec_step] takes one bind off a [dec_spec] goal, [reads_step] one off a
    [reads] goal; the primitives come from the [wire] hint database. *)

Create HintDb wire discriminated.
#[export] Hint Resolve dec_spec_ReadUint8 dec_spec_ReadBytes dec_spec_ReadShortvec : wire.

Lemma dec_spec_ReadUint16 : dec_spec ReadUint16 (λ v bs, is_u 16 v ∧ bs = le 2 v).
Proof. apply (dec_spec_le 2); [lia|apply ReadUint16_le]. Qed.
Lemma dec_spec_ReadUint32 : dec_spec ReadUint32 (λ v bs, is_u 32 v ∧ bs = le 4 v).
Proof. apply (dec_spec_le 4); [lia|apply ReadUint32_le]. Qed.
Lemma dec_spec_ReadUint64 : dec_spec ReadUint64 (λ v bs, is_u 64 v ∧ bs = le 8 v).
Proof. apply (dec_spec_le 8); [lia|apply ReadUint64_le]. Qed.
Lemma reads_ReadUint16 v : is_u 16 v → reads ReadUint16 (le 2 v) v.
Proof. intros. apply (reads_le_intro 2); [lia|apply ReadUint16_le|done]. Qed.
Lemma reads_ReadUint32 v : is_u 32 v → reads ReadUint32 (le 4 v) v.
Proof. intros. apply (reads_le_intro 4); [lia|apply ReadUint32_le|done]. Qed.
Lemma reads_ReadUint64 v : is_u 64 v → reads ReadUint64 (le 8 v) v.
Proof. intros. apply (reads_le_intro 8); [lia|apply ReadUint64_le|done]. Qed.

#[export] Hint Resolve dec_spec_ReadUint16 dec_spec_ReadUint32 dec_spec_ReadUint64 : wire.
#[export] Hint Resolve reads_ReadUint8 reads_ReadUint16 reads_ReadUint32 reads_ReadUint64
  reads_ReadBytes reads_ReadShortvec reads_ret : wire.
#[export] Hint Resolve dec_spec_wrap reads_wrap : wire.

Ltac dec_step :=
  eapply dec_spec_bind;
  [ repeat apply dec_spec_wrap; solve [eauto with wire]
  | let HR := fresh in intros ? ? HR _; cbv beta in HR; destruct_and?; subst ].

(** [reads_step v]: the next read returns [v]. *)
Ltac reads_step v :=
  eapply reads_bind with (a := v);
  [ repeat apply reads_wrap; solve [eauto with wire] | | reflexivity ].

Lemma reads_eq {A} (m : Dec A) bs bs' a : reads m bs' a → bs = bs' → reads m bs a.
Proof. by intros ? ->. Qed.

(** Equalities between concatenations. *)
Ltac app_eq := simpl; rewrite ?app_nil_r, <- ?(assoc_L (++)); simpl; try reflexivity.

(** ** Property *)

(** The compact-u16 decoder accepts exactly the encoder's output: on any
    buffer it returns [v] and a length [n] if and only if [v] is a [uint16]
    and the buffer starts with the [n] bytes [EncodeShortvec] writes for [v].
    So decoding inverts encoding, and overlong or overflowing encodings
    (trailing zero bytes, a third byte above 3) are refused. *)
Theorem shortvec_canonical b v n :
  wf_bytes b →
  DecodeShortvec b = Ok (v, n) ↔
  is_u 16 v ∧ n = (EncodeShortvec v).2 ∧
  ∃ post, b = take (Z.to_nat n) (EncodeShortvec v).1 ++ post.
Proof.
  intros Hb.
  assert (Hlen : zlen (shortvec v) = (EncodeShortvec v).2).
  { unfold shortvec, EncodeShortvec. repeat case_if; done. }
  assert (Hsv : take (Z.to_nat (EncodeShortvec v).2) (EncodeShortvec v).1 = shortvec v).
  { unfold shortvec. by destruct (EncodeShortvec v). }
  split.
  - intros Hd. apply DecodeShortvec_canonical in Hd as (Hv & post & -> & ->); [|done].
    split; [done|]. rewrite Hlen, Hsv. eauto.
  - intros (Hv & -> & post & Hpost). rewrite Hsv in Hpost. subst b.
    apply Forall_app in Hb as [_ Hb]. by rewrite DecodeShortvec_shortvec, Hlen.
Qed.

Lemma shortvec_canonical_witness :
  DecodeShortvec [172; 2; 9] = Ok (300, 2) ∧ is_u 16 300.
Proof.
  assert (wf_bytes [172; 2; 9]) as Hwf by (apply (bool_decide_unpack _); by vm_compute).
  split; [|split; vm_compute; congruence].
  apply (shortvec_canonical [172; 2; 9] 300 2 Hwf).
  split; [split; vm_compute; congruence|]. split; [by vm_compute|]. by exists [9].
Defined.
