(* ===== verification/Keys.v ===== *)
(** * The core primitives: [solana.go], [errors.go] and [base58data.go]

    Public keys, hashes and signatures are byte arrays of a fixed size.  A Go
    [string] is its bytes.  The base58 codec is third-party code
    (mr-tron/base58): it is the class [Base58], whose laws are its documented
    behaviour. *)

From S2P Require Import Prelude Wire.

Definition PublicKeySize : Z := 32.
Definition HashSize : Z := 32.
Definition SignatureSize : Z := 64.

Abbreviation PublicKey := (list Z).
Abbreviation Hash := (list Z).
Abbreviation Signature := (list Z).

(** A value of the Go type [[n]byte]. *)
Definition wf_array (n : Z) (b : bytes) : Prop := zlen b = n ∧ wf_bytes b.

Abbreviation wf_key := (wf_array 32).
Abbreviation wf_sig := (wf_array 64).

#[export] Instance wf_array_dec n b : Decision (wf_array n b).
Proof. unfold wf_array. apply _. Defined.

Definition zero_array (n : Z) : bytes := replicate (Z.to_nat n) 0.

Definition ErrInvalidLength : error := ErrSentinel "solana: invalid length".
Definition ErrInvalidBase58 : error := ErrSentinel "solana: invalid base58".

(** ** Raw bytes *)

(** The shared body of the three [XFromBytes] constructors. *)
Definition fromBytes (size : Z) (label : string) (b : bytes) : result bytes :=
  if negb (zlen b =? size)
  then Err (ErrWrap label [AZ (zlen b); AZ size] ErrInvalidLength)
  else Ok (copy_array (Z.to_nat size) b).

Definition PublicKeyFromBytes : bytes → result PublicKey := fromBytes PublicKeySize "solana: public key".
Definition HashFromBytes : bytes → result Hash := fromBytes HashSize "solana: hash".
Definition SignatureFromBytes : bytes → result Signature := fromBytes SignatureSize "solana: signature".

Definition PublicKey_Bytes (p : PublicKey) : bytes := copy_array 32 p.
Definition Hash_Bytes (h : Hash) : bytes := copy_array 32 h.
Definition Signature_Bytes (s : Signature) : bytes := copy_array 64 s.
Definition PublicKey_Equal (p other : PublicKey) : bool := bool_decide (p = other).
Definition Hash_Equal (h other : Hash) : bool := bool_decide (h = other).
Definition Signature_Equal (s other : Signature) : bool := bool_decide (s = other).
Definition PublicKey_IsZero (p : PublicKey) : bool := bool_decide (p = zero_array 32).
Definition Hash_IsZero (h : Hash) : bool := bool_decide (h = zero_array 32).
Definition Signature_IsZero (s : Signature) : bool := bool_decide (s = zero_array 64).

(** ** JSON string tokens *)

Definition quote : Z := 34.

Definition jsonQuote (s : bytes) : bytes := [quote] ++ s ++ [quote].

Definition isJSONNull (data : bytes) : bool :=
  match data with
  | [c0; c1; c2; c3] => (c0 =? 110) && (c1 =? 117) && (c2 =? 108) && (c3 =? 108)
  | _ => false
  end.

Definition unquoteJSONString (data : bytes) : result bytes :=
  let bad := Err (ErrFmt "expected JSON string" [AB data]) in
  if zlen data <? 2 then bad else
  first ← index_at data 0;
  if negb (first =? quote) then bad else
  last ← index_at data (zlen data - 1);
  if negb (last =? quote) then bad else
  slice data 1 (zlen data - 1).

(** ** Base58 forms *)

(** mr-tron/base58: [Decode] inverts [Encode] on a value that is not empty (it
    refuses the empty string), and the alphabet is ASCII letters and digits, so
    it never contains a double quote. *)
Class Base58 := {
  base58_Encode : bytes → bytes;
  base58_Decode : bytes → result bytes;
}.

Class Base58Laws `{Base58} := {
  base58_roundtrip b : wf_bytes b → b ≠ [] → base58_Decode (base58_Encode b) = Ok b;
  base58_nonempty b : b ≠ [] → base58_Encode b ≠ [];
  base58_decode_no_panic s : no_panic (base58_Decode s);
}.

(** A method [func (p *T) M(...) error]: the error and the new receiver. *)
Abbreviation method T := (result () * T)%type.

(** [x, err := c; if err != nil { return err }; *p = x; return nil] *)
Definition assign {T} (p : T) (r : result T) : method T :=
  match r with
  | Ok x => (Ok (), x)
  | Err e => (Err e, p)
  | Panic w => (Panic w, p)
  end.

Section base58.
Context `{Base58}.

Definition decodeSizedBase58 (s : bytes) (size : Z) (label : string) : result bytes :=
  if decide (s = []) then Err (ErrWrap label [AS "empty string"] ErrInvalidBase58) else
  match base58_Decode s with
  | Err e => Err (ErrWrap label [] ErrInvalidBase58)   (* the cause is printed with %v *)
  | Panic w => Panic w
  | Ok b =>
      if negb (zlen b =? size)
      then Err (ErrWrap label [AZ (zlen b); AZ size] ErrInvalidLength)
      else Ok b
  end.

Definition PublicKeyFromBase58 (s : bytes) : result PublicKey :=
  b ← decodeSizedBase58 s PublicKeySize "public key"; mret (copy_array 32 b).
Definition HashFromBase58 (s : bytes) : result Hash :=
  b ← decodeSizedBase58 s HashSize "hash"; mret (copy_array 32 b).
Definition SignatureFromBase58 (s : bytes) : result Signature :=
  b ← decodeSizedBase58 s SignatureSize "signature"; mret (copy_array 64 b).

(** [MustX]: panics on an error. *)
Definition must {A} (r : result A) : result A :=
  match r with Err _ => Panic "Must" | r => r end.
Definition MustPublicKey (s : bytes) : result PublicKey := must (PublicKeyFromBase58 s).
Definition MustHash (s : bytes) : result Hash := must (HashFromBase58 s).
Definition MustSignature (s : bytes) : result Signature := must (SignatureFromBase58 s).

Definition PublicKey_String (p : PublicKey) : bytes := base58_Encode p.
Definition Hash_String (h : Hash) : bytes := base58_Encode h.
Definition Signature_String (s : Signature) : bytes := base58_Encode s.

Definition PublicKey_MarshalJSON (p : PublicKey) : result bytes := Ok (jsonQuote (PublicKey_String p)).
Definition Hash_MarshalJSON (h : Hash) : result bytes := Ok (jsonQuote (Hash_String h)).
Definition Signature_MarshalJSON (s : Signature) : result bytes := Ok (jsonQuote (Signature_String s)).

(** The shared body of the three [UnmarshalJSON] methods. *)
Definition unmarshalJSON (label : string) (from : bytes → result bytes)
    (p : bytes) (data : bytes) : method bytes :=
  if isJSONNull data then (Ok (), p) else
  match unquoteJSONString data with
  | Err e => (Err (ErrWrap label [] ErrInvalidBase58), p)
  | Panic w => (Panic w, p)
  | Ok s => assign p (from s)
  end.

Definition PublicKey_UnmarshalJSON := unmarshalJSON "solana: public key" PublicKeyFromBase58.
Definition Hash_UnmarshalJSON := unmarshalJSON "solana: hash" HashFromBase58.
Definition Signature_UnmarshalJSON := unmarshalJSON "solana: signature" SignatureFromBase58.

Definition PublicKey_MarshalText (p : PublicKey) : result bytes := Ok (PublicKey_String p).
Definition Hash_MarshalText (h : Hash) : result bytes := Ok (Hash_String h).
Definition Signature_MarshalText (s : Signature) : result bytes := Ok (Signature_String s).
Definition PublicKey_UnmarshalText (p : PublicKey) (text : bytes) : method PublicKey :=
  assign p (PublicKeyFromBase58 text).
Definition Hash_UnmarshalText (h : Hash) (text : bytes) : method Hash :=
  assign h (HashFromBase58 text).
Definition Signature_UnmarshalText (s : Signature) (text : bytes) : method Signature :=
  assign s (SignatureFromBase58 text).

(** A [database/sql] source value. *)
Inductive sql_value := SqlNil | SqlString (s : bytes) | SqlBytes (b : bytes) | SqlOther.

Definition scanBase58String (src : sql_value) (label : string) : result bytes :=
  match src with
  | SqlString v => Ok v
  | SqlBytes v => Ok v
  | _ => Err (ErrFmt "cannot Scan into base58 string" [AS label])
  end.

Definition scan (label : string) (from : bytes → result bytes) (p : bytes) (src : sql_value) : method bytes :=
  match src with
  | SqlNil => (Ok (), p)
  | _ => assign p (s ← scanBase58String src label; from s)
  end.

Definition PublicKey_Value (p : PublicKey) : result sql_value := Ok (SqlString (PublicKey_String p)).
Definition Hash_Value (h : Hash) : result sql_value := Ok (SqlString (Hash_String h)).
Definition Signature_Value (s : Signature) : result sql_value := Ok (SqlString (Signature_String s)).
Definition PublicKey_Scan := scan "public key" PublicKeyFromBase58.
Definition Hash_Scan := scan "hash" HashFromBase58.
Definition Signature_Scan := scan "signature" SignatureFromBase58.

(** *** [Base58Data] *)

(** A nil and an empty slice are the same sequence of bytes. *)
Definition Base58Data_MarshalJSON (t : bytes) : result bytes := Ok (jsonQuote (base58_Encode t)).

Definition Base58Data_UnmarshalJSON (t : bytes) (data : bytes) : method bytes :=
  if isJSONNull data then (Ok (), []) else
  match unquoteJSONString data with
  | Err e => (Err (ErrWrap "solana: Base58Data" [] e), t)
  | Panic w => (Panic w, t)
  | Ok s =>
      if decide (s = []) then (Ok (), []) else
      assign t (wrap_result "solana: Base58Data" [] (base58_Decode s))
  end.
End base58.

(** ** Lemmas *)

Lemma fromBytes_ok size label b :
  0 ≤ size → zlen b = size → fromBytes size label b = Ok b.
Proof.
  intros ? Hlen. unfold fromBytes. rewrite (proj2 (Z.eqb_eq _ _)) by done. simpl.
  rewrite copy_array_id; [done|]. unfold zlen in Hlen. lia.
Qed.

Lemma unquote_jsonQuote s : unquoteJSONString (jsonQuote s) = Ok s.
Proof.
  unfold unquoteJSONString, jsonQuote. rewrite !zlen_app. pose proof (zlen_nonneg s).
  change (zlen [quote]) with 1.
  rewrite (proj2 (Z.ltb_ge _ _)) by lia.
  change (index_at ([quote] ++ s ++ [quote]) 0) with (Ok quote).
  cbn [mbind result_bind negb]. rewrite Z.eqb_refl. cbn [negb].
  replace (1 + (zlen s + 1) - 1) with (zlen ([quote] ++ s)) by (rewrite zlen_app; change (zlen [quote]) with 1; lia).
  rewrite (assoc_L (++)), index_at_app. cbn [mbind result_bind]. rewrite Z.eqb_refl. cbn [negb].
  rewrite <- (assoc_L (++)), zlen_app. apply (slice_app [quote] s [quote]).
Qed.

Lemma not_null_jsonQuote s : isJSONNull (jsonQuote s) = false.
Proof. unfold jsonQuote. by destruct s as [|? [|? [|? [|? ?]]]]. Qed.

Lemma zlen_copy_array n b : zlen (copy_array n b) = Z.of_nat n.
Proof. unfold zlen. by rewrite length_copy_array. Qed.

Section base58_lemmas.
Context `{HB : Base58, !Base58Laws}.

Lemma decodeSizedBase58_Encode b size label :
  0 < size → wf_array size b → decodeSizedBase58 (base58_Encode b) size label = Ok b.
Proof.
  intros Hs [Hlen Hwf]. assert (b ≠ []) as Hne by (intros ->; unfold zlen in Hlen; simpl in Hlen; lia).
  unfold decodeSizedBase58. case_decide as Hnil; [by apply base58_nonempty in Hne|].
  by rewrite base58_roundtrip, Hlen, Z.eqb_refl.
Qed.

Lemma decodeSizedBase58_len s size label b :
  decodeSizedBase58 s size label = Ok b → zlen b = size.
Proof.
  unfold decodeSizedBase58. case_decide; [done|].
  destruct (base58_Decode s) as [b'|e|w]; [|done|done].
  destruct (Z.eqb_spec (zlen b') size); simpl; [|done]. by intros [= <-].
Qed.

Lemma FromBase58_Encode size label b :
  0 < size → wf_array size b →
  (b' ← decodeSizedBase58 (base58_Encode b) size label; mret (copy_array (Z.to_nat size) b')) = Ok b.
Proof.
  intros Hs Hb. rewrite decodeSizedBase58_Encode by done. simpl.
  rewrite copy_array_id; [done|]. destruct Hb as [Hb _]. unfold zlen in Hb. lia.
Qed.
End base58_lemmas.

(** A codec on which the definitions run: the digits of a value are its bytes
    after a leading 1. *)
Module ToyBase58.
#[export] Instance toy_base58 : Base58 := {|
  base58_Encode b := 49 :: b;
  base58_Decode s :=
    match s with
    | c :: b => if c =? 49 then Ok b else Err (ErrFmt "invalid base58 digit" [])
    | [] => Err (ErrFmt "zero length string" [])
    end;
|}.

#[export] Instance toy_base58_laws : Base58Laws.
Proof. constructor; [done|done|]. intros [|c b]; simpl; [done|]. by case_if. Qed.
End ToyBase58.

(** ** Properties *)

(** One of the three fixed-size types: its size, its constructors and the
    forms it is written in. *)
Inductive sized_kind := KPublicKey | KHash | KSignature.

Definition kind_size (k : sized_kind) : Z :=
  match k with KPublicKey => PublicKeySize | KHash => HashSize | KSignature => SignatureSize end.

Section kinds.
Context `{Base58}.

Definition kind_methods (k : sized_kind) :
    (bytes → result bytes) * (bytes → bytes) * (bytes → result bytes) *
    (bytes → bytes → method bytes) * (bytes → result bytes) * (bytes → bytes → method bytes) *
    (bytes → result sql_value) * (bytes → sql_value → method bytes) :=
  match k with
  | KPublicKey => (PublicKeyFromBytes, PublicKey_String, PublicKey_MarshalJSON, PublicKey_UnmarshalJSON,
                   PublicKey_MarshalText, PublicKey_UnmarshalText, PublicKey_Value, PublicKey_Scan)
  | KHash => (HashFromBytes, Hash_String, Hash_MarshalJSON, Hash_UnmarshalJSON,
              Hash_MarshalText, Hash_UnmarshalText, Hash_Value, Hash_Scan)
  | KSignature => (SignatureFromBytes, Signature_String, Signature_MarshalJSON, Signature_UnmarshalJSON,
                   Signature_MarshalText, Signature_UnmarshalText, Signature_Value, Signature_Scan)
  end.

Definition kind_FromBase58 (k : sized_kind) : bytes → result bytes :=
  match k with KPublicKey => PublicKeyFromBase58 | KHash => HashFromBase58 | KSignature => SignatureFromBase58 end.
End kinds.

Section kind_lemmas.
Context `{HB : Base58, !Base58Laws}.

Lemma kind_roundtrip k b : wf_array (kind_size k) b → kind_FromBase58 k (base58_Encode b) = Ok b.
Proof. destruct k; intros; by apply FromBase58_Encode. Qed.

Lemma decodeSizedBase58_no_panic s size label : no_panic (decodeSizedBase58 s size label).
Proof.
  unfold decodeSizedBase58. case_decide; [done|].
  pose proof (base58_decode_no_panic s). destruct (base58_Decode s); [|done..]. by case_if.
Qed.

Lemma kind_no_panic k s : no_panic (kind_FromBase58 k s).
Proof.
  destruct k; unfold kind_FromBase58, PublicKeyFromBase58, HashFromBase58, SignatureFromBase58;
    match goal with |- context [decodeSizedBase58 ?a ?b ?c] =>
      pose proof (decodeSizedBase58_no_panic a b c); by destruct (decodeSizedBase58 a b c) end.
Qed.

Lemma kind_length k s b : kind_FromBase58 k s = Ok b → zlen b = kind_size k.
Proof.
  destruct k; unfold kind_FromBase58, PublicKeyFromBase58, HashFromBase58, SignatureFromBase58;
    match goal with |- context [decodeSizedBase58 ?a ?b ?c] => destruct (decodeSizedBase58 a b c) end;
    simpl; intros [= <-]; by rewrite zlen_copy_array.
Qed.

Lemma index_at_bound {A} (l : list A) i : 0 ≤ i < zlen l → no_panic (index_at l i).
Proof.
  intros [??]. unfold index_at. rewrite (proj2 (Z.ltb_ge _ _)) by done.
  destruct (l !! Z.to_nat i) eqn:Hl; [done|].
  apply lookup_ge_None in Hl. unfold zlen in *. lia.
Qed.

Lemma unquoteJSONString_no_panic data : no_panic (unquoteJSONString data).
Proof.
  unfold unquoteJSONString. destruct (Z.ltb_spec (zlen data) 2) as [|Hlen]; [done|].
  pose proof (index_at_bound data 0 ltac:(lia)). destruct (index_at data 0); [|done..].
  cbn [mbind result_bind]. case_if; [done|].
  pose proof (index_at_bound data (zlen data - 1) ltac:(lia)).
  destruct (index_at data (zlen data - 1)); [|done..].
  cbn [mbind result_bind]. case_if; [done|].
  unfold slice. rewrite !(proj2 (Z.leb_le _ _)) by lia. done.
Qed.
End kind_lemmas.

(** For the three fixed-size types (public key, hash, signature), every
    way of writing a value is undone by the matching way of reading it,
    whatever the receiver held before: raw bytes, the base58 string, the JSON
    string token, the text form and the SQL value. *)
Theorem keys_roundtrip `{HB : Base58, !Base58Laws} k b p :
  wf_array (kind_size k) b →
  let '(FromBytes, ToString, MarshalJSON, UnmarshalJSON, MarshalText, UnmarshalText, Value, Scan) :=
    kind_methods k in
  FromBytes b = Ok b ∧
  kind_FromBase58 k (ToString b) = Ok b ∧
  (∃ j, MarshalJSON b = Ok j ∧ UnmarshalJSON p j = (Ok (), b)) ∧
  (∃ t, MarshalText b = Ok t ∧ UnmarshalText p t = (Ok (), b)) ∧
  (∃ v, Value b = Ok v ∧ Scan p v = (Ok (), b)).
Proof.
  intros Hb. pose proof (kind_roundtrip k b Hb) as Hr. destruct k; cbn [kind_methods kind_FromBase58] in *;
    (split_and!; [by apply fromBytes_ok, Hb|done|eexists; split; [done|] ..]).
  all: unfold PublicKey_UnmarshalJSON, Hash_UnmarshalJSON, Signature_UnmarshalJSON, unmarshalJSON,
    PublicKey_UnmarshalText, Hash_UnmarshalText, Signature_UnmarshalText,
    PublicKey_Scan, Hash_Scan, Signature_Scan, scan, PublicKey_String, Hash_String, Signature_String;
    rewrite ?not_null_jsonQuote, ?unquote_jsonQuote; cbn [scanBase58String mbind result_bind];
    by rewrite Hr.
Qed.

Lemma keys_roundtrip_witness :
  wf_array 32 (zero_array 32) ∧
  @PublicKeyFromBase58 ToyBase58.toy_base58 (@PublicKey_String ToyBase58.toy_base58 (zero_array 32)) = Ok (zero_array 32).
Proof.
  split; [split; [done|by repeat constructor]|].
  apply (@keys_roundtrip ToyBase58.toy_base58 ToyBase58.toy_base58_laws KPublicKey (zero_array 32) []).
  split; [done|by repeat constructor].
Defined.

(** Reading untrusted input into a fixed-size type never panics and never
    leaves a half-written value: on any bytes whatsoever the JSON, text and SQL
    readers either succeed and store a value of exactly the type's size (or,
    for JSON null and SQL NULL, keep the receiver), or return an error and keep
    the receiver. *)
Theorem keys_parse_total `{HB : Base58, !Base58Laws} k p data src :
  let '(_, _, _, UnmarshalJSON, _, UnmarshalText, _, Scan) := kind_methods k in
  let safe (r : method bytes) (is_null : bool) :=
    match r with
    | (Ok _, v) => if is_null then v = p else zlen v = kind_size k
    | (Err _, v) => v = p
    | (Panic _, _) => False
    end in
  safe (UnmarshalJSON p data) (isJSONNull data) ∧
  safe (UnmarshalText p data) false ∧
  safe (Scan p src) (match src with SqlNil => true | _ => false end).
Proof.
  assert (Hassign : ∀ s, match assign p (kind_FromBase58 k s) with
    | (Ok _, v) => zlen v = kind_size k | (Err _, v) => v = p | (Panic _, _) => False end).
  { intros s. pose proof (kind_no_panic k s). pose proof (kind_length k s).
    destruct (kind_FromBase58 k s); simpl; eauto. }
  pose proof (unquoteJSONString_no_panic data) as Hq.
  destruct k; cbn [kind_methods kind_FromBase58] in *;
    unfold PublicKey_UnmarshalJSON, Hash_UnmarshalJSON, Signature_UnmarshalJSON, unmarshalJSON,
      PublicKey_Scan, Hash_Scan, Signature_Scan, scan;
    (split_and!;
     [destruct (isJSONNull data); [done|]; destruct (unquoteJSONString data); [apply Hassign|done|done]
     |apply Hassign
     |destruct src; cbn [scanBase58String mbind result_bind]; try done; apply Hassign]).
Qed.

Lemma keys_parse_total_witness :
  let data := [34; 49; 1; 34] in
  @Hash_UnmarshalJSON ToyBase58.toy_base58 [7] data =
    (Err (ErrWrap "hash" [AZ 1; AZ 32] ErrInvalidLength), [7]).
Proof.
  intros data.
  pose proof (@keys_parse_total ToyBase58.toy_base58 ToyBase58.toy_base58_laws KHash [7] data SqlNil)
    as [H _].
  change (@Hash_UnmarshalJSON ToyBase58.toy_base58 [7] data) with
    (Err (A:=()) (ErrWrap "hash" [AZ 1; AZ 32] ErrInvalidLength),
     snd (@Hash_UnmarshalJSON ToyBase58.toy_base58 [7] data)).
  by f_equal.
Defined.
