(* ===== verification/DecodePlan.v ===== *)
(** * The reflective decoder: [encoding/codec.go], [decode_plan.go], [borsh.go]

    A Go type is a value of [gotype] that carries what [reflect] says of it:
    sizes and field offsets, and for a type that implements [Unmarshaler] the
    identity of its method.  [emitValue] compiles it to a plan, [execDecodeOp]
    runs a plan by pointer arithmetic on a memory object.  The memory of an
    object is the log of what was stored in it, newest first: a store is an
    offset, a width and a cell; reading is exact, so a store that overlaps what
    is read without being it is visible as a failure. *)

From S2P Require Import Prelude Wire.

(** ** Types *)

Inductive width := W8 | W16 | W32 | W64.

Definition nbytes (w : width) : Z := match w with W8 => 1 | W16 => 2 | W32 => 4 | W64 => 8 end.

(** What [reflect.StructField] says, its type apart; [f_skip] is the tag
    [bin:"-"]. *)
Record field_info := mkField { f_name : string; f_exported : bool; f_skip : bool; f_offset : Z }.

(** [TUintWord] and [TIntWord] are [uint] and [int]; the flag of [TUint] and
    [TSlice] says that the type is a defined one ([type B byte], [type Bytes
    []byte]), which matters only to those two; [TOther] is any kind the decoder
    does not support; [TUnmarshaler i t] has the underlying type [t] and the
    method [i]. *)
#[warnings="-register-all"]
Inductive gotype :=
| TUint (named : bool) (w : width) | TUintWord
| TInt (w : width) | TIntWord
| TBool
| TString
| TSlice (named : bool) (e : gotype)
| TArray (n : Z) (e : gotype)
| TPointer (e : gotype)
| TStruct (name : string) (size : Z) (fields : list (field_info * gotype))
| TInterface
| TOther (size : Z)
| TUnmarshaler (i : Z) (t : gotype).

(** [t.Kind() == reflect.Uint8] *)
Fixpoint is_uint8 (t : gotype) : bool :=
  match t with
  | TUint _ W8 => true
  | TUnmarshaler _ t => is_uint8 t
  | _ => false
  end.

(** [t] is [uint8] itself. *)
Definition is_byte (t : gotype) : bool :=
  match t with TUint false W8 => true | _ => false end.

(** ** Plans *)

Inductive opKind :=
| opU8 | opU16 | opU32 | opU64 | opI8 | opI16 | opI32 | opI64 | opBool
| opFixedBytes | opFixedArray | opByteSlice | opSlice | opString | opPointer | opCallIface.

(** [iface] is the method and the size of [ifaceType], [byteElem] whether the
    elements of [sliceType] are [uint8] itself; a plan is its list of
    operations, its type and size are never read. *)
#[warnings="-register-all"]
Inductive op := mkOp {
  kind : opKind;
  offset : Z;
  count : Z;
  elemSize : Z;
  plainByteSlice : bool;
  byteElem : bool;
  iface : Z * Z;
  sub : list op;
}.

Definition decodePlan := list op.

Definition simple (k : opKind) (off : Z) : op := mkOp k off 0 0 false false (0, 0) [].

Section word.
(** The size of a machine word in bytes. *)
Context (word : Z).

(** [t.Size()] *)
Fixpoint sizeof (t : gotype) : Z :=
  match t with
  | TUint _ w | TInt w => nbytes w
  | TUintWord | TIntWord | TPointer _ => word
  | TBool => 1
  | TString | TInterface => 2 * word
  | TSlice _ _ => 3 * word
  | TArray n e => n * sizeof e
  | TStruct _ size _ | TOther size => size
  | TUnmarshaler _ t => sizeof t
  end.

(** The loop over the fields of a struct. *)
Section fields.
Context (emitValue : gotype → Z → result decodePlan) (name : string) (off : Z).

Fixpoint emit_fields (fs : list (field_info * gotype)) : result decodePlan :=
  match fs with
  | [] => Ok []
  | (f, ft) :: fs =>
      if negb (f_exported f) then emit_fields fs else
      if f_skip f then emit_fields fs else
      ops ← wrap_result "%s.%s" [AS name; AS (f_name f)] (emitValue ft (off + f_offset f));
      rest ← emit_fields fs;
      Ok (ops ++ rest)
  end.
End fields.

(** The operations [emitValue] appends; an error abandons the plan. *)
Fixpoint emitValue (t : gotype) (off : Z) : result decodePlan :=
  match t with
  | TUnmarshaler i t => Ok [mkOp opCallIface off 0 0 false false (i, sizeof t) []]
  | TUint _ W8 => Ok [simple opU8 off]
  | TUint _ W16 => Ok [simple opU16 off]
  | TUint _ W32 => Ok [simple opU32 off]
  | TUint _ W64 | TUintWord => Ok [simple opU64 off]
  | TInt W8 => Ok [simple opI8 off]
  | TInt W16 => Ok [simple opI16 off]
  | TInt W32 => Ok [simple opI32 off]
  | TInt W64 | TIntWord => Ok [simple opI64 off]
  | TBool => Ok [simple opBool off]
  | TArray n e =>
      if is_uint8 e then Ok [mkOp opFixedBytes off (u32 n) 0 false false (0, 0) []] else
      sub ← emitValue e 0;
      Ok [mkOp opFixedArray off (u32 n) (sizeof e) false false (0, 0) sub]
  | TSlice named e =>
      if is_uint8 e then Ok [mkOp opByteSlice off 0 0 (negb named && is_byte e) (is_byte e) (0, 0) []] else
      sub ← emitValue e 0;
      Ok [mkOp opSlice off 0 (sizeof e) false false (0, 0) sub]
  | TString => Ok [simple opString off]
  | TPointer e =>
      sub ← emitValue e 0;
      Ok [mkOp opPointer off 0 (sizeof e) false false (0, 0) sub]
  | TStruct name _ fields => emit_fields emitValue name off fields
  | TInterface => Err (ErrFmt "encoding: cannot decode into %s: binary decoding needs a concrete type" [])
  | TOther _ => Err (ErrFmt "encoding: cannot compile plan for kind %s (%s)" [])
  end.

Definition compileDecodePlan (t : gotype) : result decodePlan := emitValue t 0.

(** ** Memory *)

Section exec.
(** What a type's own [UnmarshalFromDecoder] reads, by method. *)
Context {user : Type} (UnmarshalFromDecoder : Z → Dec user).

(** The value stored by one write; a pointer or slice is stored with the object
    it points to. *)
#[warnings="-register-all"]
Inductive cell :=
| CInt (z : Z)
| CBool (b : bool)
| CBytes (b : bytes)                              (* the bytes of an array *)
| CByteSlice (b : bytes)
| CString (b : bytes)
| CNil
| CPtr (obj : list (Z * Z * cell))
| CSlice (n : Z) (obj : list (Z * Z * cell))
| CUser (u : user).

Definition region := list (Z * Z * cell).

(** Decoding with an object at hand: the decoder and the object are updated
    even on error. *)
Definition Dx (A : Type) : Type := Decoder → region → result A * Decoder * region.

#[export] Instance Dx_ret : MRet Dx := λ A a d r, (Ok a, d, r).
#[export] Instance Dx_bind : MBind Dx := λ A B f m d r,
  match m d r with
  | (Ok a, d, r) => f a d r
  | (Err e, d, r) => (Err e, d, r)
  | (Panic w, d, r) => (Panic w, d, r)
  end.

Definition dec {A} (m : Dec A) : Dx A := λ d r, let '(x, d) := m d in (x, d, r).
Definition store (ptr w : Z) (c : cell) : Dx () := λ d r, (Ok (), d, (ptr, w, c) :: r).
Definition dx_wrap {A} (msg : string) (args : list fmt_arg) (m : Dx A) : Dx A :=
  λ d r, let '(x, d, r) := m d r in (wrap_result msg args x, d, r).

(** [m] fills a fresh object, which is stored even if [m] fails. *)
Definition store_fresh (ptr w : Z) (c : region → cell) (m : Dx ()) : Dx () :=
  λ d r, let '(x, d, obj) := m d [] in (x, d, (ptr, w, c obj) :: r).

(** [for i := 0; i < n; i++] *)
Fixpoint loop (n : nat) (i : Z) (body : Z → Dx ()) : Dx () :=
  match n with
  | O => mret ()
  | S n => body i;; loop n (i + 1) body
  end.

Definition readLen : Dec Z :=
  d ← getd;
  if d_borsh d then ReadUint32 else ReadUint64.

(** A length that the remaining bytes cannot hold is refused. *)
Definition readLenChecked (msg : string) : Dec Z :=
  n ← readLen;
  d ← getd;
  if Remaining d <? n then fail (ErrFmt msg [AZ n; AZ (Remaining d)]) else mret n.

(** The loop of [execDecodePlan]. *)
Section ops.
Context (execDecodeOp : op → Z → Dx ()).

Fixpoint exec_ops (ops : decodePlan) (base : Z) : Dx () :=
  match ops with
  | [] => mret ()
  | o :: ops => execDecodeOp o base;; exec_ops ops base
  end.
End ops.

Fixpoint execDecodeOp (o : op) (base : Z) : Dx () :=
  match o with
  | mkOp kind off count elemSize plain byteElem (i, isize) sub =>
      let ptr := base + off in
      let exec_sub := exec_ops execDecodeOp sub in
      match kind with
      | opU8 => v ← dec ReadUint8; store ptr 1 (CInt v)
      | opU16 => v ← dec ReadUint16; store ptr 2 (CInt v)
      | opU32 => v ← dec ReadUint32; store ptr 4 (CInt v)
      | opU64 => v ← dec ReadUint64; store ptr 8 (CInt v)
      | opI8 => v ← dec ReadUint8; store ptr 1 (CInt (s8 v))
      | opI16 => v ← dec ReadUint16; store ptr 2 (CInt (s16 v))
      | opI32 => v ← dec ReadUint32; store ptr 4 (CInt (s32 v))
      | opI64 => v ← dec ReadUint64; store ptr 8 (CInt (s64 v))
      | opBool =>
          b ← dec ReadUint8;
          if b =? 0 then store ptr 1 (CBool false) else
          if b =? 1 then store ptr 1 (CBool true) else
          dec (fail (ErrFmt "encoding: invalid bool byte 0x%02x" [AZ b]))
      | opFixedBytes => b ← dec (ReadBytes count); store ptr count (CBytes b)
      | opFixedArray =>
          loop (Z.to_nat count) 0 (λ i, dx_wrap "[%d]" [AZ i] (exec_sub (ptr + i * elemSize)))
      | opByteSlice =>
          n ← dec (readLenChecked "byte slice length %d exceeds %d remaining bytes");
          b ← dec (ReadBytes n);
          if plain then store ptr (3 * word) (CByteSlice b) else
          if (0 <? n) && negb byteElem then dec (lift (Panic "reflect.Copy: type mismatch")) else
          store ptr (3 * word) (CByteSlice b)
      | opSlice =>
          n ← dec (readLenChecked "slice length %d exceeds %d remaining bytes");
          store_fresh ptr (3 * word) (CSlice n)
            (loop (Z.to_nat n) 0 (λ i, dx_wrap "[%d]" [AZ i] (exec_sub (i * elemSize))))
      | opString =>
          n ← dec (readLenChecked "string length %d exceeds %d remaining bytes");
          b ← dec (ReadBytes n);
          store ptr (2 * word) (CString b)
      | opPointer =>
          tag ← dec ReadUint8;
          if tag =? 0 then store ptr word CNil else
          if tag =? 1 then store_fresh ptr word CPtr (exec_sub 0) else
          dec (fail (ErrFmt "encoding: invalid Option tag 0x%02x" [AZ tag]))
      | opCallIface => u ← dec (UnmarshalFromDecoder i); store ptr isize (CUser u)
      end
  end.

Definition execDecodePlan (p : decodePlan) (base : Z) : Dx () := exec_ops execDecodeOp p base.

(** [v] is a pointer to a [t], or not ([None]: nil, or no pointer); its object
    holds [r].  The plan cache returns what compiling returns. *)
Definition DecodeFast (v : option gotype) : Dx () :=
  match v with
  | None => dec (fail (ErrFmt "encoding: DecodeFast requires a non-nil pointer, got %T" []))
  | Some t => p ← dec (lift (compileDecodePlan t)); execDecodePlan p 0
  end.

Definition DecodeTo (v : option gotype) : Dx () := DecodeFast v.

Definition UseBorsh (d : Decoder) : Decoder := mkDecoder (d_buf d) (d_pos d) true.

Definition BorshDecodeTo (data : bytes) (v : option gotype) : region → result () * Decoder * region :=
  DecodeTo v (UseBorsh (NewDecoder data)).
Definition BinDecodeTo (data : bytes) (v : option gotype) : region → result () * Decoder * region :=
  DecodeTo v (NewDecoder data).
End exec.
End word.
