(* ===== verification/DecodePlanSpec.v ===== *)
(** * A compiled plan implements the type

    [decode_type] is the decoder the documentation describes, directly on types
    and values, with no plan, no offsets and no memory.  [plan_refines]: on
    every well-laid-out type, running the plan stores in the object, within its
    bounds, exactly the value [decode_type] returns, with the same error and
    the same cursor. *)

From S2P Require Import Prelude Wire DecodePlan.

(** ** Values *)

Section spec.
Context {user : Type} (UnmarshalFromDecoder : Z → Dec user).
Abbreviation cell := (@cell user).
Abbreviation region := (@region user).
Abbreviation Dx := (@Dx user).

(** Byte arrays and byte slices are [VBytes]; a struct is its decoded fields. *)
#[warnings="-register-all"]
Inductive val :=
| VInt (z : Z)
| VBool (b : bool)
| VBytes (b : bytes)
| VString (b : bytes)
| VNil
| VPtr (v : val)
| VList (l : list val)
| VStruct (l : list val)
| VUser (u : user).

(** ** The reference decoder *)

Definition read_uint (w : width) : Dec Z :=
  match w with W8 => ReadUint8 | W16 => ReadUint16 | W32 => ReadUint32 | W64 => ReadUint64 end.

Definition wire_field (f : field_info) : bool := f_exported f && negb (f_skip f).

Definition unsupported : error := ErrFmt "unsupported" [].

Section fields.
Context (decode_type : gotype → Dec val).

Fixpoint decode_fields (fs : list (field_info * gotype)) : Dec (list val) :=
  match fs with
  | [] => mret []
  | (f, ft) :: fs =>
      if wire_field f then v ← decode_type ft; l ← decode_fields fs; mret (v :: l)
      else decode_fields fs
  end.
End fields.

Fixpoint decode_type (t : gotype) : Dec val :=
  match t with
  | TUnmarshaler i _ => u ← UnmarshalFromDecoder i; mret (VUser u)
  | TUint _ w => v ← read_uint w; mret (VInt v)
  | TUintWord => v ← ReadUint64; mret (VInt v)
  | TInt w => v ← read_uint w; mret (VInt (wrapS (8 * nbytes w) v))
  | TIntWord => v ← ReadUint64; mret (VInt (s64 v))
  | TBool =>
      b ← ReadUint8;
      if b =? 0 then mret (VBool false) else
      if b =? 1 then mret (VBool true) else
      fail (ErrFmt "encoding: invalid bool byte 0x%02x" [AZ b])
  | TArray n e =>
      if is_uint8 e then b ← ReadBytes n; mret (VBytes b) else
      l ← for_range (Z.to_nat n) 0 (λ i, wrap "[%d]" [AZ i] (decode_type e));
      mret (VList l)
  | TSlice _ e =>
      if is_uint8 e then
        n ← readLenChecked "byte slice length %d exceeds %d remaining bytes";
        b ← ReadBytes n; mret (VBytes b)
      else
        n ← readLenChecked "slice length %d exceeds %d remaining bytes";
        l ← for_range (Z.to_nat n) 0 (λ i, wrap "[%d]" [AZ i] (decode_type e));
        mret (VList l)
  | TString =>
      n ← readLenChecked "string length %d exceeds %d remaining bytes";
      b ← ReadBytes n; mret (VString b)
  | TPointer e =>
      tag ← ReadUint8;
      if tag =? 0 then mret VNil else
      if tag =? 1 then v ← decode_type e; mret (VPtr v) else
      fail (ErrFmt "encoding: invalid Option tag 0x%02x" [AZ tag])
  | TStruct _ _ fields =>
      l ← decode_fields decode_type fields;
      mret (VStruct l)
  | TInterface | TOther _ => fail unsupported
  end.

Section word.
Context (word : Z).

(** ** What a type has in memory *)

Definition overlaps (off w : Z) (e : Z * Z * cell) : bool :=
  let '(o, w', _) := e in (o <? off + w) && (off <? o + w').

(** The newest store that touches [off, off + w), if it is exactly there. *)
Fixpoint read_at (r : region) (off w : Z) : option cell :=
  match r with
  | [] => None
  | (o, w', c) :: r =>
      if overlaps off w (o, w', c) then (if (o =? off) && (w' =? w) then Some c else None)
      else read_at r off w
  end.

Section fields.
Context (load : gotype → Z → option val).

Fixpoint load_fields (fs : list (field_info * gotype)) : option (list val) :=
  match fs with
  | [] => Some []
  | (f, ft) :: fs =>
      if wire_field f then v ← load ft (f_offset f); l ← load_fields fs; Some (v :: l)
      else load_fields fs
  end.
End fields.

Fixpoint load (t : gotype) (r : region) (off : Z) : option val :=
  match t with
  | TUint _ _ | TUintWord | TInt _ | TIntWord =>
      match read_at r off (sizeof word t) with Some (CInt z) => Some (VInt z) | _ => None end
  | TBool => match read_at r off 1 with Some (CBool b) => Some (VBool b) | _ => None end
  | TString => match read_at r off (2 * word) with Some (CString b) => Some (VString b) | _ => None end
  | TArray n e =>
      if is_uint8 e then
        if n =? 0 then Some (VBytes []) else
        match read_at r off n with Some (CBytes b) => Some (VBytes b) | _ => None end
      else
        l ← mapM (λ i, load e r (off + i * sizeof word e)) (seqZ 0 n);
        Some (VList l)
  | TSlice _ e =>
      match read_at r off (3 * word) with
      | Some (CByteSlice b) => if is_uint8 e then Some (VBytes b) else None
      | Some (CSlice n obj) =>
          if is_uint8 e then None else
          l ← mapM (λ i, load e obj (i * sizeof word e)) (seqZ 0 n);
          Some (VList l)
      | _ => None
      end
  | TPointer e =>
      match read_at r off word with
      | Some CNil => Some VNil
      | Some (CPtr obj) => v ← load e obj 0; Some (VPtr v)
      | _ => None
      end
  | TStruct _ _ fields =>
      l ← load_fields (λ ft o, load ft r (off + o)) fields;
      Some (VStruct l)
  | TUnmarshaler _ t =>
      match read_at r off (sizeof word t) with Some (CUser u) => Some (VUser u) | _ => None end
  | TInterface | TOther _ => None
  end.

(** ** Layout *)

(** What the compiler of the language guarantees of sizes and offsets: fields
    in order, without overlap, inside the struct; and an array short enough
    for its plan's 32-bit count.  A type with its own method has at least a
    byte. *)
Section fields.
Context (layout_ok : gotype → Prop) (size : Z).

Fixpoint fields_ok (lo : Z) (fs : list (field_info * gotype)) : Prop :=
  match fs with
  | [] => lo ≤ size
  | (f, ft) :: fs => lo ≤ f_offset f ∧ layout_ok ft ∧ fields_ok (f_offset f + sizeof word ft) fs
  end.
End fields.

Fixpoint layout_ok (t : gotype) : Prop :=
  match t with
  | TArray n e => 0 ≤ n < 2 ^ 32 ∧ layout_ok e
  | TSlice _ e | TPointer e => layout_ok e
  | TStruct _ size fields => fields_ok layout_ok size 0 fields
  | TOther size => 0 ≤ size
  | TUnmarshaler _ t => 0 < sizeof word t
  | _ => True
  end.

(** No slice of a defined byte type: decoding one panics
    ([defined_byte_slice_panics]). *)
Fixpoint slices_ok (t : gotype) : bool :=
  match t with
  | TSlice _ e => if is_uint8 e then is_byte e else slices_ok e
  | TArray _ e => is_uint8 e || slices_ok e
  | TPointer e => slices_ok e
  | TStruct _ _ fields => forallb (λ '(f, ft), negb (wire_field f) || slices_ok ft) fields
  | _ => true
  end.

Section induction.
Context (P : gotype → Prop).
Context (HUint : ∀ b w, P (TUint b w)) (HUintWord : P TUintWord) (HInt : ∀ w, P (TInt w)) (HIntWord : P TIntWord)
  (HBool : P TBool) (HString : P TString) (HSlice : ∀ b e, P e → P (TSlice b e)) (HArray : ∀ n e, P e → P (TArray n e))
  (HPointer : ∀ e, P e → P (TPointer e))
  (HStruct : ∀ name size fields, Forall (λ f, P f.2) fields → P (TStruct name size fields))
  (HInterface : P TInterface) (HOther : ∀ size, P (TOther size)) (HUnm : ∀ i t, P t → P (TUnmarshaler i t)).

Fixpoint gotype_ind' (t : gotype) : P t :=
  match t with
  | TUint b w => HUint b w | TUintWord => HUintWord | TInt w => HInt w | TIntWord => HIntWord
  | TBool => HBool | TString => HString
  | TSlice b e => HSlice b e (gotype_ind' e) | TArray n e => HArray n e (gotype_ind' e)
  | TPointer e => HPointer e (gotype_ind' e)
  | TStruct name size fields => HStruct name size fields
      ((fix go fs : Forall (λ f, P f.2) fs :=
          match fs with [] => Forall_nil_2 _ | f :: fs => Forall_cons_2 _ _ _ (gotype_ind' f.2) (go fs) end) fields)
  | TInterface => HInterface | TOther size => HOther size | TUnmarshaler i t => HUnm i t (gotype_ind' t)
  end.
End induction.

(** ** Inside and outside a range *)

Definition inside (lo hi : Z) (e : Z * Z * cell) : Prop := let '(o, w, _) := e in lo ≤ o ∧ 0 ≤ w ∧ o + w ≤ hi.
Definition outside (lo hi : Z) (e : Z * Z * cell) : Prop := let '(o, w, _) := e in o + w ≤ lo ∨ hi ≤ o.

Lemma inside_mono lo hi lo' hi' (ws : region) :
  lo' ≤ lo → hi ≤ hi' → Forall (inside lo hi) ws → Forall (inside lo' hi') ws.
Proof. intros ?? H. apply (Forall_impl _ _ _ H). intros [[o w] c]. simpl. lia. Qed.

Lemma outside_mono lo hi lo' hi' (ws : region) :
  lo ≤ lo' → hi' ≤ hi → Forall (outside lo hi) ws → Forall (outside lo' hi') ws.
Proof. intros ?? H. apply (Forall_impl _ _ _ H). intros [[o w] c]. simpl. lia. Qed.

Lemma inside_outside lo hi lo' hi' (ws : region) :
  hi ≤ lo' ∨ hi' ≤ lo → Forall (inside lo hi) ws → Forall (outside lo' hi') ws.
Proof. intros ? H. apply (Forall_impl _ _ _ H). intros [[o w] c]. simpl. lia. Qed.

Lemma read_at_frame ws r off w :
  Forall (outside off (off + w)) ws → read_at (ws ++ r) off w = read_at r off w.
Proof.
  induction 1 as [|[[o w'] c] ws Ho _ IH]; [done|]. cbn [app read_at overlaps].
  simpl in Ho. case_if; [|done]. lia.
Qed.

Lemma read_at_here r off w c : 0 < w → read_at ((off, w, c) :: r) off w = Some c.
Proof.
  intros. cbn [read_at overlaps]. rewrite !(proj2 (Z.ltb_lt _ _)) by lia. simpl.
  by rewrite !Z.eqb_refl.
Qed.

(** ** Sizes *)

Section sizes.
Context (Hword : 0 < word).

Lemma nbytes_pos w : 0 < nbytes w.
Proof. by destruct w. Qed.

Lemma fields_ok_size size fs : ∀ lo,
  Forall (λ f, layout_ok f.2 → 0 ≤ sizeof word f.2) fs → fields_ok layout_ok size lo fs → lo ≤ size.
Proof.
  induction fs as [|[f ft] fs IH]; intros lo Hs Hok; [done|]. simpl in Hok.
  destruct Hok as (? & Hft & Hfs). inv Hs. apply IH in Hfs; [|done]. simpl in *. naive_solver lia.
Qed.

Lemma sizeof_nonneg t : layout_ok t → 0 ≤ sizeof word t.
Proof.
  induction t using gotype_ind'; cbn [layout_ok sizeof]; try lia;
    try (pose proof (nbytes_pos w); lia).
  - intros [? ?%IHt]. nia.
  - by apply fields_ok_size.
Qed.

(** A field lies between what precedes it and the end of the struct. *)
Lemma fields_ok_cons size lo f ft fs :
  fields_ok layout_ok size lo ((f, ft) :: fs) →
  lo ≤ f_offset f ∧ layout_ok ft ∧ 0 ≤ sizeof word ft ∧ f_offset f + sizeof word ft ≤ size ∧
  fields_ok layout_ok size (f_offset f + sizeof word ft) fs.
Proof.
  intros (? & ? & Hfs). pose proof (sizeof_nonneg ft ltac:(done)).
  assert (f_offset f + sizeof word ft ≤ size); [|done].
  apply (fields_ok_size size fs); [|done]. apply Forall_forall. eauto using sizeof_nonneg.
Qed.

(** ** Stores outside a value do not change it *)

Lemma load_fields_frame size ws r off fs : ∀ lo, 0 ≤ lo →
  Forall (λ f, ∀ o, layout_ok f.2 → Forall (outside o (o + sizeof word f.2)) ws →
                    load f.2 (ws ++ r) o = load f.2 r o) fs →
  fields_ok layout_ok size lo fs → Forall (outside off (off + size)) ws →
  load_fields (λ ft o, load ft (ws ++ r) (off + o)) fs = load_fields (λ ft o, load ft r (off + o)) fs.
Proof.
  induction fs as [|[f ft] fs IH]; intros lo Hlo Hfs Hok Hws; [done|].
  apply fields_ok_cons in Hok as (? & ? & ? & ? & Hok). apply Forall_cons in Hfs as [Hf Hfs].
  cbn [load_fields]. rewrite (IH (f_offset f + sizeof word ft)) by (done || lia).
  case_if; [|done]. simpl in Hf. rewrite Hf; [done..|].
  eapply outside_mono; [..|done]; lia.
Qed.

Lemma sizeof_uint8 t : is_uint8 t = true → sizeof word t = 1.
Proof. induction t; try done. by destruct w. Qed.

Lemma load_frame t : ∀ ws r off,
  layout_ok t → Forall (outside off (off + sizeof word t)) ws → load t (ws ++ r) off = load t r off.
Proof.
  induction t using gotype_ind'; intros ws r off Hok Hws; cbn [load sizeof layout_ok] in *;
    try (by rewrite read_at_frame); try done.
  - destruct Hok as [Hn He]. case_if.
    + case_if; [done|]. rewrite sizeof_uint8, Z.mul_1_r in Hws by done. by rewrite read_at_frame.
    + pose proof (sizeof_nonneg t He).
      rewrite (Forall_mapM_ext _ (λ i, load t r (off + i * sizeof word t))); [done|].
      apply Forall_forall. intros i [??]%elem_of_seqZ. apply IHt; [done|].
      eapply outside_mono; [..|done]; nia.
  - rewrite (load_fields_frame size _ _ _ _ 0); [done|lia|..|done|done].
    eapply Forall_impl; [done|]. naive_solver.
Qed.
End sizes.

(** ** Implementing a decoder by stores *)

Definition forget {A} (x : result A) : result () := x ≫= λ _, Ok ().

(** Whatever the decoder and the object, [x] ends as [m] does and stores only
    inside [lo, hi); when [m] succeeds, [rd] finds its result in the object. *)
Definition implements {A} (m : Dec A) (x : Dx ()) (lo hi : Z) (rd : region → option A) : Prop :=
  ∀ d r, ∃ ws, x d r = (forget (m d).1, (m d).2, ws ++ r) ∧ Forall (inside lo hi) ws ∧
               ∀ a, (m d).1 = Ok a → rd (ws ++ r) = Some a.

Lemma Dec_bind_eq {A B} (m : Dec A) (f : A → Dec B) d :
  (m ≫= f) d = match m d with (Ok a, d) => f a d | (Err e, d) => (Err e, d) | (Panic w, d) => (Panic w, d) end.
Proof. done. Qed.

Section rules.
Context {A B C : Type}.

Lemma impl_fail e lo hi (rd : region → option A) : implements (fail e) (dec (fail e)) lo hi rd.
Proof. intros d r. by exists []. Qed.

Lemma impl_ret (a : A) lo hi (rd : region → option A) :
  (∀ r, rd r = Some a) → implements (mret a) (mret ()) lo hi rd.
Proof. intros H d r. exists []. split; [done|]. split; [done|]. intros ? [= <-]. apply H. Qed.

Lemma impl_dec (m : Dec A) (f : A → Dec B) (x : A → Dx ()) lo hi rd :
  (∀ a d d', m d = (Ok a, d') → implements (f a) (x a) lo hi rd) →
  implements (m ≫= f) (dec m ≫= x) lo hi rd.
Proof.
  intros H d r. unfold mbind, Dec_bind, Dx_bind, dec. destruct (m d) as [[a|e|w] d'] eqn:E.
  - by eapply H.
  - by exists [].
  - by exists [].
Qed.

Lemma impl_store (a : A) off w c (rd : region → option A) :
  0 ≤ w → (∀ r, rd ((off, w, c) :: r) = Some a) → implements (mret a) (store off w c) off (off + w) rd.
Proof.
  intros Hw H d r. exists [(off, w, c)]. split; [done|]. split.
  - apply Forall_singleton. simpl. lia.
  - intros ? [= <-]. apply H.
Qed.

Lemma impl_store_fresh (m : Dec A) x lo hi (f : A → B) off w c (rd : region → option A) (rd' : region → option B) :
  0 ≤ w → implements m x lo hi rd →
  (∀ r obj a, rd obj = Some a → rd' ((off, w, c obj) :: r) = Some (f a)) →
  implements (a ← m; mret (f a)) (store_fresh off w c x) off (off + w) rd'.
Proof.
  intros Hw Hm H d r. destruct (Hm d []) as (ws & E & _ & Hws). exists [(off, w, c (ws ++ []))].
  unfold store_fresh. rewrite E. unfold mbind, Dec_bind. split; [|split].
  - by destruct (m d) as [[a|e|y] d'].
  - apply Forall_singleton. simpl. lia.
  - intros b. destruct (m d) as [[a|e|y] d']; intros Hb; inv Hb. by apply H, Hws.
Qed.

Lemma impl_map (f : A → B) (m : Dec A) x lo hi rd :
  implements m x lo hi rd → implements (a ← m; mret (f a)) x lo hi (λ r, a ← rd r; Some (f a)).
Proof.
  intros Hm d r. destruct (Hm d r) as (ws & E & Hin & Hws). exists ws. rewrite E.
  unfold mbind at 1 2 3, Dec_bind. destruct (m d) as [[a|e|y] d']; [|done..]. split; [done|]. split; [done|].
  intros b [= <-]. by rewrite (Hws a).
Qed.

Lemma impl_wrap msg args (m : Dec A) x lo hi rd :
  implements m x lo hi rd → implements (wrap msg args m) (dx_wrap msg args x) lo hi rd.
Proof.
  intros Hm d r. destruct (Hm d r) as (ws & E & Hin & Hws). exists ws.
  unfold wrap, dx_wrap. rewrite E. by destruct (m d) as [[a|e|y] d'].
Qed.

Lemma impl_seq (f : A → B → C) m1 m2 x1 x2 lo mid hi rd1 rd2 :
  lo ≤ mid ≤ hi → implements m1 x1 lo mid rd1 → implements m2 x2 mid hi rd2 →
  (∀ ws r, Forall (inside mid hi) ws → rd1 (ws ++ r) = rd1 r) →
  implements (a ← m1; b ← m2; mret (f a b)) (x1;; x2) lo hi (λ r, a ← rd1 r; b ← rd2 r; Some (f a b)).
Proof.
  intros Hle H1 H2 Hframe d r. destruct (H1 d r) as (ws1 & E1 & Hin1 & Hws1).
  unfold mbind at 1, Dx_bind. rewrite E1.
  apply (inside_mono lo mid lo hi) in Hin1; [|lia..].
  rewrite Dec_bind_eq. destruct (m1 d) as [[a|e|y] d']; simpl; [|exists ws1; split_and!; done..].
  destruct (H2 d' (ws1 ++ r)) as (ws2 & E2 & Hin2 & Hws2). rewrite E2.
  exists (ws2 ++ ws1). rewrite <- (assoc_L (++)).
  pose proof (inside_mono mid hi lo hi ws2 ltac:(lia) ltac:(lia) Hin2).
  rewrite Dec_bind_eq. destruct (m2 d') as [[b|e|y] d'']; simpl; (split; [done|]); (split; [by apply Forall_app_2|]); [|done..].
  intros c [= <-]. rewrite Hframe, (Hws1 a), (Hws2 b) by done. done.
Qed.
End rules.

Lemma impl_ext {A} (m m' : Dec A) x x' lo hi lo' hi' (rd rd' : region → option A) :
  implements m x lo hi rd → (∀ d, m' d = m d) → (∀ d r, x' d r = x d r) → (∀ r, rd' r = rd r) →
  lo' ≤ lo → hi ≤ hi' → implements m' x' lo' hi' rd'.
Proof.
  intros H Hm Hx Hrd ?? d r. destruct (H d r) as (ws & E & Hin & Hws). exists ws.
  rewrite Hx, Hm, Hrd. split; [done|]. split; [|done]. by eapply inside_mono.
Qed.

(** ** Plans *)

Section plans.
Context (Hword : word = 8).
Abbreviation exec := (execDecodePlan word UnmarshalFromDecoder).
Abbreviation exec_op := (execDecodeOp word UnmarshalFromDecoder).

Lemma exec_app p q base d r : exec (p ++ q) base d r = (exec p base;; exec q base) d r.
Proof.
  revert d r. unfold execDecodePlan. induction p as [|o p IH]; intros d r; [done|].
  cbn [app exec_ops]. unfold mbind, Dx_bind. destruct (exec_op o base d r) as [[[[]|e|w] d'] r']; [|done..].
  rewrite IH. done.
Qed.

Lemma exec_1 o base d r : exec [o] base d r = exec_op o base d r.
Proof.
  unfold execDecodePlan. cbn [exec_ops]. unfold mbind, Dx_bind.
  by destruct (exec_op o base d r) as [[[[]|e|w] d'] r'].
Qed.

(** One operation, at one place. *)
Definition op_implements (t : gotype) (o : op) (base off : Z) : Prop :=
  implements (decode_type t) (exec_op o base) (base + off) (base + off + sizeof word t) (λ r, load t r (base + off)).

Definition plan_implements (t : gotype) : Prop :=
  ∀ off ops base, layout_ok t → slices_ok t = true → emitValue word t off = Ok ops →
  implements (decode_type t) (exec ops base) (base + off) (base + off + sizeof word t) (λ r, load t r (base + off)).

Lemma op_plan t o base off : op_implements t o base off →
  implements (decode_type t) (exec [o] base) (base + off) (base + off + sizeof word t) (λ r, load t r (base + off)).
Proof. intros H. eapply impl_ext; [exact H|done|by intros; rewrite exec_1|done|lia|lia]. Qed.

(** *** Loops *)

Lemma elems_implement t sub ptr : plan_implements t → layout_ok t → slices_ok t = true →
  emitValue word t 0 = Ok sub →
  ∀ n i, 0 ≤ i →
  implements (for_range n i (λ i, wrap "[%d]" [AZ i] (decode_type t)))
    (loop n i (λ i, dx_wrap "[%d]" [AZ i] (exec sub (ptr + i * sizeof word t))))
    (ptr + i * sizeof word t) (ptr + (i + Z.of_nat n) * sizeof word t)
    (λ r, mapM (λ j, load t r (ptr + j * sizeof word t)) (seqZ i (Z.of_nat n))).
Proof.
  intros Ht Hok Hs Hsub n. pose proof (sizeof_nonneg ltac:(lia) t Hok) as Hsize.
  induction n as [|n IH]; intros i Hi; [by apply impl_ret|].
  eapply impl_ext; [eapply (impl_seq cons)
    with (lo := ptr + i * sizeof word t) (mid := ptr + (i + 1) * sizeof word t)
         (hi := ptr + (i + 1 + Z.of_nat n) * sizeof word t)
         (rd1 := λ r, load t r (ptr + i * sizeof word t))| | | |..].
  - nia.
  - apply impl_wrap. eapply impl_ext; [by apply (Ht 0 sub (ptr + i * sizeof word t))|done|done| |lia|lia].
    intros r. by rewrite Z.add_0_r.
  - apply IH. lia.
  - intros ws r Hws. apply load_frame; [lia|done|]. eapply inside_outside; [|done]. nia.
  - done.
  - done.
  - intros r. rewrite seqZ_cons by lia. simpl. replace (Z.pred (Z.of_nat (S n))) with (Z.of_nat n) by lia. done.
  - lia.
  - nia.
Qed.

Lemma fields_implement name size off base fs : Forall (λ f, plan_implements f.2) fs → ∀ lo ops, 0 ≤ lo →
  fields_ok layout_ok size lo fs → forallb (λ '(f, ft), negb (wire_field f) || slices_ok ft) fs = true →
  emit_fields (emitValue word) name off fs = Ok ops →
  implements (decode_fields decode_type fs) (exec ops base) (base + off + lo) (base + off + size)
    (λ r, load_fields (λ ft o, load ft r (base + off + o)) fs).
Proof.
  induction 1 as [|[f ft] fs Hf _ IH]; intros lo ops Hlo Hok Hs Hops.
  { injection Hops as <-. by apply impl_ret. }
  apply fields_ok_cons in Hok as (? & Hft & ? & ? & Hok); [|lia].
  cbn [forallb] in Hs. apply andb_true_iff in Hs as [Hs1 Hs2].
  cbn [emit_fields] in Hops. unfold wire_field in *.
  assert (emit_fields (emitValue word) name off fs = Ok ops → wire_field f = false →
    implements (decode_fields decode_type ((f, ft) :: fs)) (exec ops base) (base + off + lo) (base + off + size)
    (λ r, load_fields (λ ft o, load ft r (base + off + o)) ((f, ft) :: fs))) as Hskip.
  { intros Hops' Hw. cbn [decode_fields load_fields]. rewrite Hw.
    eapply impl_ext; [by eapply (IH (f_offset f + sizeof word ft)); [lia|..]|done..| |]; lia. }
  unfold wire_field in Hskip. change (plan_implements ft) in Hf.
  destruct (f_exported f) eqn:He; [|by apply Hskip].
  destruct (f_skip f) eqn:Hsk; [by apply Hskip|]. cbn [negb andb] in *. clear Hskip.
  destruct (emitValue word ft (off + f_offset f)) as [ops1|e|w] eqn:Ho1; [|done..].
  cbn [wrap_result mbind result_bind] in Hops.
  destruct (emit_fields _ _ _ fs) as [ops2|e|w] eqn:Ho2; [|done..]. injection Hops as <-.
  eapply impl_ext; [eapply (impl_seq cons)
    with (lo := base + off + lo) (mid := base + off + f_offset f + sizeof word ft) (hi := base + off + size)
         (rd1 := λ r, load ft r (base + off + f_offset f))| | | |..]; [lia|..].
  - eapply impl_ext; [by apply (Hf (off + f_offset f) ops1 base)|done|done| |lia|lia].
    intros r. by rewrite Z.add_assoc.
  - eapply impl_ext; [by apply (IH (f_offset f + sizeof word ft) ops2 ltac:(lia))|done..|lia|lia].
  - intros ws r Hws. apply load_frame; [lia|done|]. eapply inside_outside; [|done]. lia.
  - intros d. cbn [decode_fields]. unfold wire_field. by rewrite He, Hsk.
  - intros d r. apply exec_app.
  - intros r. cbn [load_fields]. unfold wire_field. by rewrite He, Hsk.
  - lia.
  - lia.
Qed.

(** *** The leaves *)

Ltac leaf := apply op_plan; unfold op_implements; cbn [decode_type execDecodeOp simple].
Ltac put := apply impl_store; [lia|intros; rewrite ?Hword; cbn [load sizeof nbytes]; rewrite ?Hword, read_at_here by lia; done].

Lemma plan_uint b w : plan_implements (TUint b w).
Proof.
  intros off ops base _ _ Hops. destruct w; injection Hops as <-; leaf; apply impl_dec; intros a d d' _;
    cbn [sizeof nbytes]. all: put.
Qed.

Lemma plan_int w : plan_implements (TInt w).
Proof.
  intros off ops base _ _ Hops. destruct w; injection Hops as <-; leaf; apply impl_dec; intros a d d' _;
    cbn [sizeof nbytes]. all: put.
Qed.

Lemma plan_bool : plan_implements TBool.
Proof.
  intros off ops base _ _ [= <-]. leaf. apply impl_dec. intros b d d' _. cbn [sizeof].
  destruct (b =? 0); [put|]. destruct (b =? 1); [put|]. apply impl_fail.
Qed.

Lemma plan_string : plan_implements TString.
Proof.
  intros off ops base _ _ [= <-]. leaf. apply impl_dec. intros n d d' _. apply impl_dec. intros b d2 d2' _.
  cbn [sizeof]. put.
Qed.

Lemma plan_words : plan_implements TUintWord ∧ plan_implements TIntWord.
Proof.
  split; intros off ops base _ _ [= <-]; leaf; apply impl_dec; intros a d d' _; cbn [sizeof]; rewrite Hword; put.
Qed.

Lemma plan_unmarshaler i t : plan_implements (TUnmarshaler i t).
Proof.
  intros off ops base Hsize _ [= <-]. leaf. apply impl_dec. intros u d d' _. cbn [layout_ok] in Hsize.
  cbn [sizeof]. rewrite Hword in *. put.
Qed.

Lemma ReadBytes_0 d d' b : ReadBytes 0 d = (Ok b, d') → b = [].
Proof.
  unfold ReadBytes. simpl. unfold mbind, Dec_bind, getd, lift, fail, slice.
  destruct (_ <? _); [done|]. rewrite Z.add_0_r, Z.sub_diag. destruct (_ && _); [|done].
  by intros [= <- _].
Qed.

Lemma plan_array n e : plan_implements e → plan_implements (TArray n e).
Proof.
  intros He off ops base [Hn Hok] Hs Hops. cbn [emitValue] in Hops.
  cbn [slices_ok] in Hs. rewrite (wrapU_small 32 n Hn) in Hops.
  destruct (is_uint8 e) eqn:H8.
  - injection Hops as <-. leaf. cbn [sizeof]. rewrite H8, sizeof_uint8, Z.mul_1_r by done.
    apply impl_dec. intros b d d' Hb. apply impl_store; [lia|]. intros r. cbn [load]. rewrite H8.
    case_if; [|by rewrite read_at_here by lia]. subst n. by apply ReadBytes_0 in Hb as ->.
  - destruct (emitValue word e 0) as [sub|?|?] eqn:Hsub; [|done..]. injection Hops as <-. leaf. rewrite H8.
    eapply impl_ext; [apply (impl_map VList), (elems_implement e sub (base + off) He Hok Hs Hsub (Z.to_nat n) 0 ltac:(lia))
                     |done|done| |lia|cbn [sizeof]; rewrite Z2Nat.id; lia].
    intros r. cbn [load]. by rewrite H8, Z2Nat.id by lia.
Qed.

Lemma seqZ_to_nat n : seqZ 0 (Z.of_nat (Z.to_nat n)) = seqZ 0 n.
Proof. unfold seqZ. by rewrite Nat2Z.id. Qed.

Lemma plan_slice b e : plan_implements e → plan_implements (TSlice b e).
Proof.
  intros He off ops base Hok Hs Hops. cbn [emitValue] in Hops. cbn [slices_ok layout_ok] in Hs, Hok.
  destruct (is_uint8 e) eqn:H8.
  - injection Hops as <-. leaf. cbn [sizeof]. rewrite H8, Hs.
    apply impl_dec. intros n d d' _. apply impl_dec. intros bs d2 d2' _. rewrite andb_false_r.
    assert (∀ r, load (TSlice b e) ((base + off, 3 * word, CByteSlice bs) :: r) (base + off) = Some (VBytes bs)) as Hl.
    { intros r. cbn [load]. by rewrite read_at_here, H8 by lia. }
    destruct (negb b && true); by (apply impl_store; [lia|]).
  - destruct (emitValue word e 0) as [sub|?|?] eqn:Hsub; [|done..]. injection Hops as <-. leaf. rewrite H8.
    apply impl_dec. intros n d d' _. cbn [sizeof].
    eapply (impl_store_fresh _ _ _ _ VList); [lia|apply (elems_implement e sub 0 He Hok Hs Hsub _ 0 ltac:(lia))|].
    intros r obj l Hl. cbn [load]. rewrite read_at_here, H8 by lia.
    rewrite seqZ_to_nat in Hl.
    change (mapM (λ j, load e obj (j * sizeof word e)) (seqZ 0 n) = Some l) in Hl. by rewrite Hl.
Qed.

Lemma plan_pointer e : plan_implements e → plan_implements (TPointer e).
Proof.
  intros He off ops base Hok Hs Hops. cbn [emitValue] in Hops.
  destruct (emitValue word e 0) as [sub|?|?] eqn:Hsub; [|done..]. injection Hops as <-. leaf. cbn [sizeof].
  apply impl_dec. intros tag d d' _.
  destruct (tag =? 0); [apply impl_store; [lia|]; intros; cbn [load]; by rewrite read_at_here by lia|].
  destruct (tag =? 1); [|apply impl_fail].
  eapply (impl_store_fresh _ _ _ _ VPtr); [lia|apply (He 0 sub 0 Hok Hs Hsub)|].
  intros r obj v Hv. cbn [load]. rewrite read_at_here by lia. change (load e obj 0 = Some v) in Hv. by rewrite Hv.
Qed.

Lemma plan_struct name size fs : Forall (λ f, plan_implements f.2) fs → plan_implements (TStruct name size fs).
Proof.
  intros Hfs off ops base Hok Hs Hops. cbn [decode_type load sizeof].
  eapply impl_ext; [by eapply (impl_map VStruct), (fields_implement name size off base fs Hfs 0); [lia|..]
                   |done|done|done|lia|lia].
Qed.

Lemma plans_implement t : plan_implements t.
Proof.
  induction t using gotype_ind'; auto using plan_uint, plan_int, plan_bool, plan_string, plan_array, plan_slice,
    plan_pointer, plan_struct, plan_unmarshaler; [apply plan_words..| |]; by intros ????.
Qed.
End plans.

(** ** Which types compile *)

(** Every kind reached, through fields that take part, is a supported one. *)
Fixpoint supported (t : gotype) : bool :=
  match t with
  | TArray _ e | TSlice _ e => is_uint8 e || supported e
  | TPointer e => supported e
  | TStruct _ _ fields => forallb (λ '(f, ft), negb (wire_field f) || supported ft) fields
  | TInterface | TOther _ => false
  | _ => true
  end.

Definition compiles (t : gotype) : Prop :=
  ∀ off, no_panic (emitValue word t off) ∧ is_ok (emitValue word t off) = supported t.

Lemma compiles_sub t {off} (k : decodePlan → decodePlan) : compiles t →
  no_panic (sub ← emitValue word t off; Ok (k sub)) ∧ is_ok (sub ← emitValue word t off; Ok (k sub)) = supported t.
Proof. intros H. destruct (H off) as [Hp <-]. by destruct (emitValue word t off). Qed.

Lemma compiles_fields name off fs : Forall (λ f, compiles f.2) fs →
  no_panic (emit_fields (emitValue word) name off fs) ∧
  is_ok (emit_fields (emitValue word) name off fs) =
    forallb (λ '(f, ft), negb (wire_field f) || supported ft) fs.
Proof.
  induction 1 as [|[f ft] fs Hf _ [IHp IHo]]; [done|]. cbn [emit_fields forallb]. unfold wire_field in *.
  destruct (f_exported f); [|done]. destruct (f_skip f); [done|].
  destruct (Hf (off + f_offset f)) as [Hp Ho]. cbn [negb andb orb] in *. simpl in Hp, Ho. rewrite <- Ho, <- IHo.
  destruct (emitValue word ft _); [|done..]. simpl. by destruct (emit_fields _ _ _ fs).
Qed.

Lemma all_compile t : compiles t.
Proof.
  induction t using gotype_ind'; intros off; cbn [emitValue supported]; try done; try by destruct w.
  - destruct (is_uint8 t); [done|]. by apply (compiles_sub t (λ sub, [mkOp _ _ _ _ _ _ _ sub])).
  - destruct (is_uint8 t); [done|]. by apply (compiles_sub t (λ sub, [mkOp _ _ _ _ _ _ _ sub])).
  - by apply (compiles_sub t (λ sub, [mkOp _ _ _ _ _ _ _ sub])).
  - by apply compiles_fields.
Qed.

Lemma compile_supported t : supported t = true → ∃ p, compileDecodePlan word t = Ok p.
Proof.
  intros H. destruct (all_compile t 0) as [_ Ho]. rewrite H in Ho. unfold compileDecodePlan.
  destruct (emitValue word t 0); [by eexists|done..].
Qed.
End word.

(** A type has a plan exactly when every kind it reaches is supported;
    decoding into any other type returns an error before anything is read or
    stored. *)
Theorem compile_exactly_supported (word : Z) (t : gotype) :
  if supported t then ∃ p, compileDecodePlan word t = Ok p
  else ∃ e, ∀ d r, DecodeTo word UnmarshalFromDecoder (Some t) d r = (Err e, d, r).
Proof.
  destruct (all_compile word t 0) as [Hp Ho]. unfold DecodeTo, DecodeFast, compileDecodePlan.
  destruct (emitValue word t 0) as [p|e|w]; rewrite <- Ho; [by exists p|by exists e|done].
Qed.

(** A 64-bit machine, and a well-laid-out type. *)
Definition decodable (t : gotype) : Prop := layout_ok 8 t ∧ slices_ok t = true ∧ supported t = true.

(** *** The plan of a type is its decoder *)

Lemma DecodeFast_implements t : decodable t →
  implements (decode_type t) (DecodeFast 8 UnmarshalFromDecoder (Some t)) 0 (sizeof 8 t) (λ r, load 8 t r 0).
Proof.
  intros (Hok & Hs & Hsup). destruct (compile_supported 8 t Hsup) as [p Hp].
  eapply impl_ext; [apply (plans_implement 8 eq_refl t 0 p 0 Hok Hs Hp)|done| |done|done|done].
  intros d r. cbn [DecodeFast]. rewrite Hp. done.
Qed.

(** C18: on a 64-bit machine, for every type whose kinds are supported, as the
    language lays it out (a type is a finite tree: a recursive type, on which
    the compiler does not return, is not one; arrays have fewer than 2^32
    elements, and a type with its own method is not empty), and whose slices of
    bytes are slices of [uint8] itself: compiling succeeds, and running the plan
    on any decoder and any object ends with the result, the error and the cursor
    of the reference decoder, stores only inside the object, and when it
    succeeds the object holds, field by field through pointers and slices, the
    value the reference decoder returns. *)
Theorem plan_refines (t : gotype) (H : decodable t) (d : Decoder) (r : region) : ∃ ws,
  DecodeTo 8 UnmarshalFromDecoder (Some t) d r = (forget (decode_type t d).1, (decode_type t d).2, ws ++ r) ∧
  Forall (inside 0 (sizeof 8 t)) ws ∧
  ∀ v, (decode_type t d).1 = Ok v → load 8 t (ws ++ r) 0 = Some v.
Proof. by apply DecodeFast_implements. Qed.
End spec.

(** ** An instance *)

(** A method that reads 32 bytes, as [PublicKey]'s does. *)
Definition read_key (i : Z) : Dec bytes := ReadBytes 32.

(** [struct { Owner PublicKey; Amount uint64; Frozen bool; cache uint32;
    Delegate *PublicKey; Levels []int16; Seed [4]byte; Name string }] *)
Definition Holding : gotype :=
  let field n exported o := mkField n exported false o in
  TStruct "Holding" 112 [
    (field "Owner" true 0, TUnmarshaler 0 (TArray 32 (TUint false W8)));
    (field "Amount" true 32, TUint false W64);
    (field "Frozen" true 40, TBool);
    (field "cache" false 44, TUint false W32);
    (field "Delegate" true 48, TPointer (TUnmarshaler 0 (TArray 32 (TUint false W8))));
    (field "Levels" true 56, TSlice false (TInt W16));
    (field "Seed" true 80, TArray 4 (TUint false W8));
    (field "Name" true 88, TString)].

Definition Holding_bytes : bytes :=
  replicate 32 7 ++ le 8 1000 ++ [1] ++ [1] ++ replicate 32 9 ++ le 4 2 ++ le 2 5 ++ le 2 65535 ++
  [1; 2; 3; 4] ++ le 4 3 ++ str "abc".

Definition Holding_val : @val bytes :=
  VStruct [VUser (replicate 32 7); VInt 1000; VBool true; VPtr (VUser (replicate 32 9));
           VList [VInt 5; VInt (-1)]; VBytes [1; 2; 3; 4]; VString (str "abc")].

Lemma Holding_decodable : decodable Holding.
Proof. repeat split; simpl; lia. Defined.

Lemma plan_refines_witness :
  (decode_type read_key Holding (UseBorsh (NewDecoder Holding_bytes))).1 = Ok Holding_val ∧
  ∃ ws, DecodeTo 8 read_key (Some Holding) (UseBorsh (NewDecoder Holding_bytes)) [] =
    (Ok (), mkDecoder Holding_bytes (zlen Holding_bytes) true, ws ++ []) ∧
    load 8 Holding (ws ++ []) 0 = Some Holding_val.
Proof.
  assert (decode_type read_key Holding (UseBorsh (NewDecoder Holding_bytes)) =
          (Ok Holding_val, mkDecoder Holding_bytes (zlen Holding_bytes) true)) as E by by vm_compute.
  split; [by rewrite E|].
  destruct (plan_refines read_key Holding Holding_decodable (UseBorsh (NewDecoder Holding_bytes)) [])
    as (ws & Hws & _ & Hload).
  exists ws. rewrite Hws, Hload with (v := Holding_val); rewrite E; done.
Defined.

(** ** Where the plan is not the decoder *)

(** A slice of a defined byte type ([type Flag byte; []Flag]) compiles, and
    decoding any element into it panics: [reflect.Copy] refuses to copy a
    [[]byte] there. *)
Lemma defined_byte_slice_panics {user} word (U : Z → Dec user) (named : bool) (e : gotype) :
  is_uint8 e = true → is_byte e = false →
  supported (TSlice named e) = true ∧
  (BorshDecodeTo word U ([1; 0; 0; 0; 7]) (Some (TSlice named e)) []).1.1 = Panic "reflect.Copy: type mismatch".
Proof.
  intros H8 Hb. split; [by simpl; rewrite H8|].
  unfold BorshDecodeTo, DecodeTo, DecodeFast, compileDecodePlan. cbn [emitValue]. rewrite H8, Hb, andb_false_r.
  vm_compute. reflexivity.
Qed.

(** On a 32-bit machine [uint] and [int] hold four bytes and the plan stores
    eight. *)
Lemma word_field_overruns {user} (U : Z → Dec user) (v : Z) : is_u 64 v →
  sizeof 4 TUintWord = 4 ∧
  (BinDecodeTo 4 U (le 8 v) (Some TUintWord) []) = (Ok (), mkDecoder (le 8 v) 8 false, [(0, 8, CInt v)]).
Proof.
  intros Hv. split; [done|].
  pose proof (reads_run ReadUint64 (le 8 v) v (reads_ReadUint64 v Hv)) as E.
  unfold at_ in E. rewrite app_nil_r, length_le in E by done.
  cbv [BinDecodeTo DecodeTo DecodeFast compileDecodePlan emitValue execDecodePlan exec_ops execDecodeOp simple
       mbind Dx_bind dec lift]. by rewrite E.
Qed.
