(* ===== verification/DecodePlanCodec.v ===== *)
(** * What the reflective decoder accepts

    [encode] is the encoding of a value of a Go type, bincode or Borsh; it is
    defined on the values that have the type.  [decode_sound]: what decodes has
    the type, and was its encoding; [decode_complete]: every encoding decodes
    back.  A type's own [UnmarshalFromDecoder] is a parameter, with the same two
    laws. *)

From S2P Require Import Prelude Wire DecodePlan DecodePlanSpec.

(** ** The encoding of a value *)

Section codec.
Context {user : Type} (UnmarshalFromDecoder : Z → Dec user).
Context (encode_user : bool → Z → user → option bytes).
Abbreviation val := (@val user).

Definition len_bytes (bo : bool) : Z := if bo then 4 else 8.

(** A length prefix, if the length fits. *)
Definition encode_len (bo : bool) (n : Z) : option bytes :=
  if n <? 2 ^ (8 * len_bytes bo) then Some (le (len_bytes bo) n) else None.

Definition encode_uint (w : width) (z : Z) : option bytes :=
  if decide (is_u (8 * nbytes w) z) then Some (le (nbytes w) z) else None.

Definition encode_int (w : width) (z : Z) : option bytes :=
  if decide (is_s (8 * nbytes w) z) then Some (le (nbytes w) (wrapU (8 * nbytes w) z)) else None.

Definition encode_bytes (b : bytes) : option bytes :=
  if decide (wf_bytes b) then Some b else None.

Section fields.
Context (encode : gotype → val → option bytes).

Fixpoint encode_fields (fs : list (field_info * gotype)) (l : list val) : option bytes :=
  match fs with
  | [] => match l with [] => Some [] | _ => None end
  | (f, ft) :: fs =>
      if wire_field f then
        match l with
        | v :: l => b ← encode ft v; bs ← encode_fields fs l; Some (b ++ bs)
        | [] => None
        end
      else encode_fields fs l
  end.
End fields.

(** The elements of an array or slice, one after the other. *)
Definition encode_list (encode : val → option bytes) (l : list val) : option bytes :=
  bs ← mapM encode l; Some (mjoin bs).

Fixpoint encode (bo : bool) (t : gotype) (v : val) {struct t} : option bytes :=
  match t, v with
  | TUnmarshaler i _, VUser u => encode_user bo i u
  | TUint _ w, VInt z => encode_uint w z
  | TUintWord, VInt z => encode_uint W64 z
  | TInt w, VInt z => encode_int w z
  | TIntWord, VInt z => encode_int W64 z
  | TBool, VBool b => Some [if b then 1 else 0]
  | TArray n e, VBytes b => if is_uint8 e && (zlen b =? n) then encode_bytes b else None
  | TArray n e, VList l => if negb (is_uint8 e) && (zlen l =? n) then encode_list (encode bo e) l else None
  | TSlice _ e, VBytes b =>
      if is_uint8 e then n ← encode_len bo (zlen b); c ← encode_bytes b; Some (n ++ c) else None
  | TSlice _ e, VList l =>
      if is_uint8 e then None else n ← encode_len bo (zlen l); c ← encode_list (encode bo e) l; Some (n ++ c)
  | TString, VString b => n ← encode_len bo (zlen b); c ← encode_bytes b; Some (n ++ c)
  | TPointer _, VNil => Some [0]
  | TPointer e, VPtr v => b ← encode bo e v; Some (1 :: b)
  | TStruct _ _ fields, VStruct l => encode_fields (encode bo) fields l
  | _, _ => None
  end.

(** A value of the type has at least one byte on the wire. *)
Fixpoint never_empty (t : gotype) : bool :=
  match t with
  | TArray n e => (0 <? n) && (is_uint8 e || never_empty e)
  | TStruct _ _ fields => existsb (λ '(f, ft), wire_field f && never_empty ft) fields
  | TInterface | TOther _ => false
  | _ => true
  end.

(** Every slice's elements have. *)
Fixpoint slices_sized (t : gotype) : bool :=
  match t with
  | TArray _ e => is_uint8 e || slices_sized e
  | TSlice _ e => is_uint8 e || (never_empty e && slices_sized e)
  | TPointer e => slices_sized e
  | TStruct _ _ fields => forallb (λ '(f, ft), negb (wire_field f) || slices_sized ft) fields
  | _ => true
  end.

(** ** Decoding at a given prefix width *)

(** [dec_spec] and [reads] at one setting of [UseBorsh]. *)
Definition decodes {A} (bo : bool) (m : Dec A) (R : A → bytes → Prop) : Prop :=
  ∀ pre rest, wf_bytes rest →
    match m (at_ pre rest bo) with
    | (Ok a, d') => ∃ bs post, rest = bs ++ post ∧ d' = at_ (pre ++ bs) post bo ∧ R a bs
    | (Err _, d') => ∃ bs post, rest = bs ++ post ∧ d' = at_ (pre ++ bs) post bo
    | (Panic _, _) => False
    end.

Definition accepts {A} (bo : bool) (m : Dec A) (bs : bytes) (a : A) : Prop :=
  wf_bytes bs ∧
  ∀ pre post, wf_bytes post → m (at_ pre (bs ++ post) bo) = (Ok a, at_ (pre ++ bs) post bo).

Section rules.
Context {A B : Type} (bo : bool).

Lemma decodes_spec (m : Dec A) R : dec_spec m R → decodes bo m R.
Proof. intros H pre rest. apply H. Qed.

Lemma decodes_ret (a : A) (R : A → bytes → Prop) : R a [] → decodes bo (mret a) R.
Proof. intros. by apply decodes_spec, dec_spec_ret. Qed.

Lemma decodes_fail e (R : A → bytes → Prop) : decodes bo (fail e) R.
Proof. apply decodes_spec, dec_spec_fail. Qed.

Lemma decodes_wrap msg args (m : Dec A) R : decodes bo m R → decodes bo (wrap msg args m) R.
Proof.
  intros Hm pre rest Hwf. specialize (Hm pre rest Hwf). unfold wrap. by destruct (m _) as [[a|e|w] d'].
Qed.

Lemma decodes_bind (m : Dec A) (f : A → Dec B) R1 (R : B → bytes → Prop) :
  decodes bo m R1 →
  (∀ a bs1, R1 a bs1 → wf_bytes bs1 → decodes bo (f a) (λ b bs2, R b (bs1 ++ bs2))) →
  decodes bo (m ≫= f) R.
Proof.
  intros Hm Hf pre rest Hwf. rewrite Dec_bind_eq. specialize (Hm pre rest Hwf).
  destruct (m _) as [[a|e|w] d']; [|done|done].
  destruct Hm as (bs1 & post & -> & -> & HR1). apply Forall_app in Hwf as [Hwf1 Hwf2].
  specialize (Hf a bs1 HR1 Hwf1 (pre ++ bs1) post Hwf2).
  destruct (f a _) as [[b|e|w] d'']; [| |done].
  - destruct Hf as (bs2 & post2 & -> & -> & HR). exists (bs1 ++ bs2), post2. by rewrite !(assoc_L (++)).
  - destruct Hf as (bs2 & post2 & -> & ->). exists (bs1 ++ bs2), post2. by rewrite !(assoc_L (++)).
Qed.

Lemma accepts_reads (m : Dec A) bs a : reads m bs a → accepts bo m bs a.
Proof. intros [Hwf H]. split; [done|]. auto. Qed.

Lemma accepts_ret (a : A) : accepts bo (mret a) [] a.
Proof. apply accepts_reads, reads_ret. Qed.

Lemma accepts_wrap msg args (m : Dec A) bs a : accepts bo m bs a → accepts bo (wrap msg args m) bs a.
Proof. intros [Hwf Hm]. split; [done|]. intros pre post Hpost. unfold wrap. by rewrite Hm. Qed.

Lemma accepts_bind (m : Dec A) (f : A → Dec B) bs1 bs2 bs (a : A) b :
  accepts bo m bs1 a → accepts bo (f a) bs2 b → bs = bs1 ++ bs2 → accepts bo (m ≫= f) bs b.
Proof.
  intros [Hwf1 Hm] [Hwf2 Hf] ->. split; [by apply Forall_app_2|].
  intros pre post Hwf. rewrite Dec_bind_eq, <- (assoc_L (++)), Hm by (by apply Forall_app_2).
  by rewrite Hf, (assoc_L (++)).
Qed.
End rules.

(** ** The parts *)

Lemma encode_list_cons enc v l :
  encode_list enc (v :: l) = b ← enc v; bs ← encode_list enc l; Some (b ++ bs).
Proof.
  unfold encode_list. simpl. destruct (enc v); [|done]. simpl. by destruct (mapM enc l).
Qed.

Lemma encode_bytes_Some b bs : encode_bytes b = Some bs ↔ bs = b ∧ wf_bytes b.
Proof. unfold encode_bytes. destruct (decide _); naive_solver. Qed.

Lemma ReadUint8_le : reads_le 1 ReadUint8.
Proof.
  split.
  - intros pre bs post bo Hlen Hwf. explode Hlen. cbn [app]. rewrite ReadUint8_at.
    by rewrite le_Z_cons, le_Z_nil, Z.shiftl_0_l, Z.lor_0_r.
  - intros pre rest bo Hlen. rewrite ReadUint8_at. destruct rest as [|b r]; [done|].
    rewrite zlen_cons in Hlen. pose proof (zlen_nonneg r). lia.
Qed.

Lemma read_uint_le w : reads_le (nbytes w) (read_uint w).
Proof. destruct w; [apply ReadUint8_le|apply ReadUint16_le|apply ReadUint32_le|apply ReadUint64_le]. Qed.

Section parts.
Context (bo : bool).

Lemma decodes_uint w : decodes bo (read_uint w) (λ v bs, encode_uint w v = Some bs).
Proof.
  apply decodes_spec. eapply dec_spec_weaken; [apply (dec_spec_le (nbytes w)); [by destruct w|apply read_uint_le]|].
  intros v bs [Hv ->]. unfold encode_uint. rewrite Z.mul_comm. by rewrite decide_True.
Qed.

Lemma accepts_uint w v bs : encode_uint w v = Some bs → accepts bo (read_uint w) bs v.
Proof.
  unfold encode_uint. case_decide as Hv; [|done]. intros [= <-]. rewrite Z.mul_comm in Hv.
  apply accepts_reads, reads_le_intro; [by destruct w|apply read_uint_le|done].
Qed.

(** A signed integer is the unsigned one, converted. *)
Lemma encode_int_wrapS w v bs : encode_uint w v = Some bs → encode_int w (wrapS (8 * nbytes w) v) = Some bs.
Proof.
  unfold encode_uint, encode_int. pose proof (nbytes_pos w). case_decide; [|done].
  rewrite decide_True by (apply wrapS_is_s; lia). by rewrite wrapU_wrapS by (done || lia).
Qed.

Lemma encode_int_uint w v bs :
  encode_int w v = Some bs →
  encode_uint w (wrapU (8 * nbytes w) v) = Some bs ∧ wrapS (8 * nbytes w) (wrapU (8 * nbytes w) v) = v.
Proof.
  unfold encode_uint, encode_int. pose proof (nbytes_pos w). case_decide; [|done].
  rewrite decide_True by (apply wrapU_is_u; lia). split; [done|]. apply wrapS_wrapU; [lia|done].
Qed.

Lemma readLen_eq pre rest :
  readLen (at_ pre rest bo) = read_uint (if bo then W32 else W64) (at_ pre rest bo).
Proof. by destruct bo. Qed.

Lemma encode_len_uint n : 0 ≤ n → encode_len bo n = encode_uint (if bo then W32 else W64) n.
Proof.
  intros. unfold encode_len, encode_uint, is_u. destruct bo; cbn [nbytes len_bytes]; case_if; case_decide; done || lia.
Qed.

Lemma encode_uint_nonneg w n bs : encode_uint w n = Some bs → 0 ≤ n.
Proof. unfold encode_uint, is_u. case_decide; [lia|done]. Qed.

Lemma decodes_len msg : decodes bo (readLenChecked msg) (λ n bs, encode_len bo n = Some bs ∧ 0 ≤ n).
Proof.
  unfold readLenChecked. apply (decodes_bind _ _ _ (λ n bs, encode_uint (if bo then W32 else W64) n = Some bs)).
  - intros pre rest. rewrite readLen_eq. apply decodes_uint.
  - intros n bs Hn _ pre rest _. rewrite Dec_bind_eq. cbn [getd]. case_if.
    + exists [], rest. by rewrite (app_nil_r pre).
    + exists [], rest. rewrite !app_nil_r. pose proof (encode_uint_nonneg _ _ _ Hn). by rewrite encode_len_uint.
Qed.

Lemma accepts_len {B} msg (f : Z → Dec B) n lb bs b :
  encode_len bo n = Some lb → 0 ≤ n ≤ zlen bs → accepts bo (f n) bs b →
  accepts bo (readLenChecked msg ≫= f) (lb ++ bs) b.
Proof.
  intros Hl Hn [Hwf Hf]. rewrite encode_len_uint in Hl by lia. apply accepts_uint in Hl as [Hwfl Hl].
  split; [by apply Forall_app_2|]. intros pre post Hpost.
  unfold readLenChecked. rewrite !Dec_bind_eq, readLen_eq, <- (assoc_L (++)), Hl by (by apply Forall_app_2).
  rewrite Dec_bind_eq. cbn [getd]. rewrite Remaining_at, zlen_app. pose proof (zlen_nonneg post).
  rewrite (proj2 (Z.ltb_ge _ _)) by lia. cbn [mret Dec_ret]. by rewrite Hf, (assoc_L (++)).
Qed.

Lemma decodes_bytes n : decodes bo (ReadBytes n) (λ b bs, zlen b = n ∧ encode_bytes b = Some bs).
Proof.
  apply decodes_spec. eapply dec_spec_weaken; [apply dec_spec_ReadBytes|].
  intros v bs (? & ? & ->). split; [done|]. by apply encode_bytes_Some.
Qed.

Lemma accepts_bytes n b bs : zlen b = n → encode_bytes b = Some bs → accepts bo (ReadBytes n) bs b.
Proof. intros Hn [-> Hwf]%encode_bytes_Some. by apply accepts_reads, reads_ReadBytes. Qed.

(** *** Elements *)

Lemma decodes_list (m : Dec val) enc : decodes bo m (λ v bs, enc v = Some bs) → ∀ n i,
  decodes bo (for_range n i (λ i, wrap "[%d]" [AZ i] m))
    (λ l bs, zlen l = Z.of_nat n ∧ encode_list enc l = Some bs).
Proof.
  intros Hm n. induction n as [|n IH]; intros i; [by apply decodes_ret|].
  cbn [for_range]. eapply decodes_bind; [by apply decodes_wrap|]. intros v b Hv _. cbv beta in Hv.
  eapply decodes_bind; [apply IH|]. intros l bs [Hn Hl] _. apply decodes_ret.
  rewrite encode_list_cons, Hv, zlen_cons, Hn. simpl. rewrite Hl. simpl. rewrite app_nil_r. split; [lia|done].
Qed.

Lemma accepts_list (m : Dec val) enc : (∀ v bs, enc v = Some bs → accepts bo m bs v) → ∀ l bs i,
  encode_list enc l = Some bs → accepts bo (for_range (length l) i (λ i, wrap "[%d]" [AZ i] m)) bs l.
Proof.
  intros Hm l. induction l as [|v l IH]; intros bs i Hl.
  { injection Hl as <-. apply accepts_ret. }
  rewrite encode_list_cons in Hl. destruct (enc v) as [b|] eqn:Hv; [|done]. simpl in Hl.
  destruct (encode_list enc l) as [bs'|] eqn:Hl'; [|done]. injection Hl as <-.
  cbn [length for_range]. eapply accepts_bind; [by apply accepts_wrap, Hm| |done].
  eapply accepts_bind; [by apply IH|apply accepts_ret|by rewrite app_nil_r].
Qed.

(** Elements that are never empty are at most as many as their bytes. *)
Lemma encode_list_length enc l bs : (∀ v b, enc v = Some b → 1 ≤ zlen b) →
  encode_list enc l = Some bs → zlen l ≤ zlen bs.
Proof.
  intros Henc. revert bs. induction l as [|v l IH]; intros bs Hl; [by injection Hl as <-|].
  rewrite encode_list_cons in Hl. destruct (enc v) as [b|] eqn:Hv; [|done]. simpl in Hl.
  destruct (encode_list enc l) as [bs'|]; [|done]. injection Hl as <-.
  rewrite zlen_cons, zlen_app. apply Henc in Hv. specialize (IH bs' eq_refl). lia.
Qed.
End parts.

(** ** Soundness *)

Section soundness.
Context (Huser : ∀ bo i, decodes bo (UnmarshalFromDecoder i) (λ u bs, encode_user bo i u = Some bs)).
Context (bo : bool).
Abbreviation decode_type := (decode_type UnmarshalFromDecoder).

Definition sound (t : gotype) : Prop := decodes bo (decode_type t) (λ v bs, encode bo t v = Some bs).

Lemma sound_ret {A} (m : Dec A) (f : A → val) (R : A → bytes → Prop) t :
  decodes bo m R → (∀ a bs, R a bs → encode bo t (f a) = Some bs) →
  decodes bo (a ← m; mret (f a)) (λ v bs, encode bo t v = Some bs).
Proof.
  intros Hm HR. eapply decodes_bind; [done|]. intros a bs Ha _. apply decodes_ret. rewrite app_nil_r. auto.
Qed.

Lemma sound_fields fs : Forall (λ f, layout_ok 8 f.2 → sound f.2) fs → Forall (λ f, layout_ok 8 f.2) fs →
  decodes bo (decode_fields decode_type fs) (λ l bs, encode_fields (encode bo) fs l = Some bs).
Proof.
  induction 1 as [|[f ft] fs Hf _ IH]; intros Hok; [by apply decodes_ret|].
  apply Forall_cons in Hok as [Hft Hok]. cbn [decode_fields encode_fields]. case_if; [|by apply IH].
  eapply decodes_bind; [by apply Hf|]. intros v b Hv _. simpl in Hv.
  eapply decodes_bind; [by apply IH|]. intros l bs Hl _. apply decodes_ret.
  rewrite Hv. simpl. rewrite Hl. simpl. by rewrite app_nil_r.
Qed.

Lemma fields_ok_Forall size fs : ∀ lo, fields_ok 8 (layout_ok 8) size lo fs → Forall (λ f, layout_ok 8 f.2) fs.
Proof. induction fs as [|[f ft] fs IH]; intros lo Hok; constructor; naive_solver. Qed.

Lemma sound_bool : sound TBool.
Proof.
  unfold sound. cbn [decode_type]. eapply decodes_bind; [apply decodes_spec, dec_spec_ReadUint8|].
  intros b bs [_ ->] _. repeat case_if; subst; [by apply decodes_ret..|apply decodes_fail].
Qed.

Lemma sound_bytes msg (t : gotype) (f : bytes → val) :
  (∀ b, encode bo t (f b) = n ← encode_len bo (zlen b); c ← encode_bytes b; Some (n ++ c)) →
  decodes bo (n ← readLenChecked msg; b ← ReadBytes n; mret (f b)) (λ v bs, encode bo t v = Some bs).
Proof.
  intros Hf. eapply decodes_bind; [apply decodes_len|]. intros n lb [Hn _] _.
  eapply decodes_bind; [apply decodes_bytes|]. intros b bs [<- Hb] _. apply decodes_ret.
  rewrite app_nil_r, Hf, Hn. simpl. by rewrite Hb.
Qed.

Lemma sound_array n e : (layout_ok 8 e → sound e) → layout_ok 8 (TArray n e) → sound (TArray n e).
Proof.
  intros He [Hn Hok]. unfold sound. cbn [decode_type]. case_if.
  - eapply sound_ret; [apply decodes_bytes|]. intros b bs [Hl Hb]. cbn [encode]. rewrite Heqb, Hl, Z.eqb_refl. done.
  - eapply sound_ret; [apply decodes_list; by apply He|]. intros l bs [Hl Hb]. cbn [encode].
    rewrite Heqb, Hl, Z2Nat.id, Z.eqb_refl by lia. done.
Qed.

Lemma sound_slice b e : (layout_ok 8 e → sound e) → layout_ok 8 e → sound (TSlice b e).
Proof.
  intros He Hok. unfold sound. cbn [decode_type]. case_if.
  - apply sound_bytes. intros bs. cbn [encode]. by rewrite Heqb0.
  - eapply decodes_bind; [apply decodes_len|]. intros n lb [Hn Hpos] _.
    eapply decodes_bind; [apply decodes_list; by apply He|]. intros l bs [Hl Hb] _. apply decodes_ret.
    rewrite app_nil_r. cbn [encode]. rewrite Heqb0, Hl, Z2Nat.id, Hn by lia. simpl. by rewrite Hb.
Qed.

Lemma sound_pointer e : (layout_ok 8 e → sound e) → layout_ok 8 e → sound (TPointer e).
Proof.
  intros He Hok. unfold sound. cbn [decode_type].
  eapply decodes_bind; [apply decodes_spec, dec_spec_ReadUint8|]. intros b bs [_ ->] _.
  case_if; subst; [by apply decodes_ret|]. case_if; subst; [|apply decodes_fail].
  eapply decodes_bind; [by apply He|]. intros v vb Hv _. apply decodes_ret. cbn [encode]. rewrite Hv. simpl.
  by rewrite app_nil_r.
Qed.

Lemma all_sound t : layout_ok 8 t → sound t.
Proof.
  induction t using gotype_ind'; intros Hok; try (by apply decodes_fail).
  - eapply sound_ret; [apply decodes_uint|]. done.
  - eapply sound_ret; [apply (decodes_uint bo W64)|]. done.
  - eapply sound_ret; [apply decodes_uint|]. intros. by apply encode_int_wrapS.
  - eapply sound_ret; [apply (decodes_uint bo W64)|]. intros. by apply (encode_int_wrapS W64).
  - apply sound_bool.
  - by apply (sound_bytes _ TString).
  - by apply sound_slice.
  - by apply sound_array.
  - by apply sound_pointer.
  - apply fields_ok_Forall in Hok. by eapply sound_ret; [apply sound_fields|].
  - by eapply sound_ret; [apply Huser|].
Qed.
End soundness.

(** ** Completeness *)

Section completeness.
Context (Huser : ∀ bo i u bs, encode_user bo i u = Some bs → accepts bo (UnmarshalFromDecoder i) bs u).
Context (Hnonempty : ∀ bo i u bs, encode_user bo i u = Some bs → 1 ≤ zlen bs).
Context (bo : bool).
Abbreviation decode_type := (decode_type UnmarshalFromDecoder).

Lemma encode_len_nonempty n lb : encode_len bo n = Some lb → 1 ≤ zlen lb.
Proof. unfold encode_len. case_if; [|done]. intros [= <-]. destruct bo; by rewrite length_le. Qed.

Lemma encode_uint_nonempty w v bs : encode_uint w v = Some bs → 1 ≤ zlen bs.
Proof. unfold encode_uint. case_decide; [|done]. intros [= <-]. destruct w; by rewrite length_le. Qed.

Lemma len_bind_nonempty n (k : option bytes) bs : (lb ← encode_len bo n; c ← k; Some (lb ++ c)) = Some bs → 1 ≤ zlen bs.
Proof.
  destruct (encode_len bo n) as [lb|] eqn:Hl; [|done]. simpl. destruct k as [c|]; [|done]. intros [= <-].
  apply encode_len_nonempty in Hl. rewrite zlen_app. pose proof (zlen_nonneg c). lia.
Qed.

Lemma fields_nonempty fs : Forall (λ f, never_empty f.2 = true → ∀ v bs, encode bo f.2 v = Some bs → 1 ≤ zlen bs) fs →
  existsb (λ '(f, ft), wire_field f && never_empty ft) fs = true →
  ∀ l bs, encode_fields (encode bo) fs l = Some bs → 1 ≤ zlen bs.
Proof.
  induction 1 as [|[f ft] fs Hf _ IH]; intros He l bs; [done|]. cbn [existsb encode_fields] in *.
  destruct (wire_field f) eqn:Hw; [|by apply IH]. destruct l as [|v l]; [done|].
  destruct (encode bo ft v) as [b|] eqn:Hb; [|done]. simpl.
  destruct (encode_fields _ fs l) as [bs'|] eqn:Hl; [|done]. intros [= <-]. rewrite zlen_app.
  pose proof (zlen_nonneg b). pose proof (zlen_nonneg bs'). simpl in *.
  apply orb_true_iff in He as [He|He]; [apply Hf in Hb; [lia|done]|].
  specialize (IH He l bs' Hl). lia.
Qed.

Lemma encode_nonempty t : never_empty t = true → ∀ v bs, encode bo t v = Some bs → 1 ≤ zlen bs.
Proof.
  induction t using gotype_ind'; intros Hne v bs; destruct v; try done; cbn [encode never_empty] in *.
  - apply encode_uint_nonempty.
  - apply encode_uint_nonempty.
  - intros [H _]%encode_int_uint. by eapply encode_uint_nonempty.
  - intros [H _]%encode_int_uint. by eapply encode_uint_nonempty.
  - by intros [= <-].
  - apply len_bind_nonempty.
  - case_if; [|done]. apply len_bind_nonempty.
  - case_if; [done|]. apply len_bind_nonempty.
  - case_if; [|done]. intros [-> _]%encode_bytes_Some. zbool. lia.
  - apply andb_true_iff in Hne as [Hn%Z.ltb_lt Hne]. destruct (is_uint8 t); [done|]. cbn [negb andb orb] in *.
    case_if; [|done]. intros Hb. apply (encode_list_length _ _ _ (IHt Hne)) in Hb. lia.
  - by intros [= <-].
  - destruct (encode bo t v) as [b|]; [|done]. intros [= <-]. rewrite zlen_cons. pose proof (zlen_nonneg b). lia.
  - by apply fields_nonempty.
  - apply Hnonempty.
Qed.

Definition complete (t : gotype) : Prop :=
  slices_sized t = true → ∀ v bs, encode bo t v = Some bs → accepts bo (decode_type t) bs v.

Lemma accepts_ret_bind {A} (m : Dec A) (f : A → val) a bs : accepts bo m bs a → accepts bo (a ← m; mret (f a)) bs (f a).
Proof. intros H. eapply accepts_bind; [done|apply accepts_ret|by rewrite app_nil_r]. Qed.

Lemma complete_int w (f : Z → val) z bs : encode_int w z = Some bs →
  accepts bo (v ← read_uint w; mret (f (wrapS (8 * nbytes w) v))) bs (f z).
Proof.
  intros [H E]%encode_int_uint. replace (f z) with (f (wrapS (8 * nbytes w) (wrapU (8 * nbytes w) z))) by by rewrite E.
  by apply (accepts_ret_bind _ (λ v, f (wrapS _ v))), accepts_uint.
Qed.

Lemma complete_bytes msg (f : bytes → val) b bs :
  (n ← encode_len bo (zlen b); c ← encode_bytes b; Some (n ++ c)) = Some bs →
  accepts bo (n ← readLenChecked msg; b ← ReadBytes n; mret (f b)) bs (f b).
Proof.
  destruct (encode_len _ _) as [lb|] eqn:Hl; [|done]. simpl.
  destruct (encode_bytes b) as [c|] eqn:Hc; [|done]. intros [= <-]. pose proof (zlen_nonneg b).
  apply encode_bytes_Some in Hc as Hc'. destruct Hc' as [-> _].
  eapply accepts_len; [done|lia|]. by apply (accepts_ret_bind _ f), accepts_bytes.
Qed.

Lemma complete_bool (b : bool) : accepts bo (decode_type TBool) [if b then 1 else 0] (VBool b).
Proof.
  destruct b.
  - eapply accepts_bind; [by apply accepts_reads, (reads_ReadUint8 1)|apply accepts_ret|done].
  - eapply accepts_bind; [by apply accepts_reads, (reads_ReadUint8 0)|apply accepts_ret|done].
Qed.

Lemma complete_array n e : complete e → complete (TArray n e).
Proof.
  unfold complete. intros He Hs v bs. cbn [encode slices_sized decode_type] in *. destruct v; try done.
  - destruct (is_uint8 e); [|done]. cbn [andb]. case_if; [|done]. intros Hb.
    by apply (accepts_ret_bind _ VBytes), accepts_bytes.
  - destruct (is_uint8 e); [done|]. cbn [negb andb]. case_if; [|done]. intros Hl.
    subst n. unfold zlen. rewrite Nat2Z.id. eapply (accepts_ret_bind _ VList), accepts_list; [|done]. by apply He.
Qed.

Lemma complete_slice b e : complete e → complete (TSlice b e).
Proof.
  unfold complete. intros He Hs v bs. cbn [encode slices_sized decode_type] in *. destruct v; try done.
  - destruct (is_uint8 e); [|done]. apply complete_bytes.
  - destruct (is_uint8 e); [done|]. apply andb_true_iff in Hs as [Hne Hs].
    destruct (encode_len _ _) as [lb|] eqn:Hl; [|done]. simpl.
    destruct (encode_list _ l) as [c|] eqn:Hc; [|done]. intros [= <-].
    pose proof (encode_list_length _ _ _ (encode_nonempty e Hne) Hc). pose proof (zlen_nonneg l).
    eapply accepts_len; [done|lia|]. unfold zlen. rewrite Nat2Z.id.
    eapply (accepts_ret_bind _ VList), accepts_list; [|done]. by apply He.
Qed.

Lemma complete_pointer e : complete e → complete (TPointer e).
Proof.
  unfold complete. intros He Hs v bs. cbn [encode slices_sized decode_type] in *. destruct v; try done.
  - intros [= <-]. eapply accepts_bind; [by apply accepts_reads, (reads_ReadUint8 0)|apply accepts_ret|done].
  - destruct (encode bo e v) as [b|] eqn:Hb; [|done]. intros [= <-].
    eapply accepts_bind; [by apply accepts_reads, (reads_ReadUint8 1)| |done].
    by apply (accepts_ret_bind _ VPtr), He.
Qed.

Lemma complete_fields fs : Forall (λ f, complete f.2) fs →
  forallb (λ '(f, ft), negb (wire_field f) || slices_sized ft) fs = true →
  ∀ l bs, encode_fields (encode bo) fs l = Some bs → accepts bo (decode_fields decode_type fs) bs l.
Proof.
  induction 1 as [|[f ft] fs Hf _ IH]; intros Hs l bs; cbn [encode_fields decode_fields forallb] in *.
  { destruct l; [|done]. intros [= <-]. apply accepts_ret. }
  apply andb_true_iff in Hs as [Hs1 Hs2]. destruct (wire_field f); [|by apply IH]. destruct l as [|v l]; [done|].
  destruct (encode bo ft v) as [b|] eqn:Hb; [|done]. simpl.
  destruct (encode_fields _ fs l) as [bs'|] eqn:Hl; [|done]. intros [= <-].
  eapply accepts_bind; [by apply Hf| |done].
  eapply accepts_bind; [by apply IH|apply accepts_ret|by rewrite app_nil_r].
Qed.

Lemma all_complete t : complete t.
Proof.
  induction t using gotype_ind'; auto using complete_array, complete_slice, complete_pointer;
    intros Hs v bs; destruct v; try done; cbn [encode].
  - intros. by apply (accepts_ret_bind _ VInt), accepts_uint.
  - intros. by apply (accepts_ret_bind _ VInt), (accepts_uint bo W64).
  - apply complete_int.
  - apply (complete_int W64).
  - intros [= <-]. apply complete_bool.
  - apply complete_bytes.
  - intros. by apply (accepts_ret_bind _ VStruct), complete_fields.
  - intros. by apply (accepts_ret_bind _ VUser), Huser.
Qed.
End completeness.
End codec.

(** ** The entry points *)

Section entry.
Context {user : Type} (UnmarshalFromDecoder : Z → Dec user).
Context (encode_user : bool → Z → user → option bytes).
Abbreviation encode := (encode encode_user).

(** [BorshDecodeTo] or [BinDecodeTo]. *)
Definition decode_into (bo : bool) : bytes → option gotype → region → result () * Decoder * region :=
  if bo then BorshDecodeTo 8 UnmarshalFromDecoder else BinDecodeTo 8 UnmarshalFromDecoder.

Lemma decode_into_run bo data t r :
  decode_into bo data (Some t) r = DecodeTo 8 UnmarshalFromDecoder (Some t) (at_ [] data bo) r.
Proof. by destruct bo. Qed.

(** C19: let a type be decodable: of supported kinds, not recursive, laid out as
    on a 64-bit machine, its arrays shorter than 2^32, its types with their own
    method not empty, and no slice in it with elements of a byte type other than
    [uint8] itself (such a slice panics: [defined_byte_slice_panics]); and let
    the types' own methods never panic, keep the cursor inside the data and return only what they consumed an
    encoding of. Then decoding any bytes into it never panics; when it succeeds
    the object holds a value of the type (every integer in range, every array of
    its length, every pointer nil or to a value), and the bytes consumed are
    exactly its bincode or Borsh encoding; when it fails the cursor is still
    inside the data. *)
Theorem decode_typed (bo : bool) (t : gotype) (data : bytes) (r : region)
  (Huser : ∀ bo i, decodes bo (UnmarshalFromDecoder i) (λ u bs, encode_user bo i u = Some bs))
  (Ht : decodable t) (Hdata : wf_bytes data) :
  match decode_into bo data (Some t) r with
  | (Ok _, d, r') => ∃ v bs post, load 8 t r' 0 = Some v ∧ encode bo t v = Some bs ∧
                                  data = bs ++ post ∧ d = at_ bs post bo
  | (Err _, d, _) => ∃ bs post, data = bs ++ post ∧ d = at_ bs post bo
  | (Panic _, _, _) => False
  end.
Proof.
  rewrite decode_into_run. destruct (DecodeFast_implements UnmarshalFromDecoder t Ht (at_ [] data bo) r) as (ws & E & _ & Hload).
  unfold DecodeTo. rewrite E. pose proof (all_sound _ _ Huser bo t (proj1 Ht) [] data Hdata) as Hs.
  destruct (decode_type _ t _) as [[v|e|w] d]; simpl in *; [|done|done].
  destruct Hs as (bs & post & ? & ? & ?). exists v, bs, post. by rewrite (Hload v).
Qed.

(** C20: for a decodable type (of supported kinds, not recursive, laid out as on
    a 64-bit machine, its arrays shorter than 2^32, its types with their own
    method not empty, no slice in it with elements of a byte type other than
    [uint8] itself) in which the elements of every slice take at least a byte
    ([empty_elements_refused]), and types' own methods that accept their
    encodings, none of which is empty: the encoding of every value, whatever
    follows it, decodes; exactly the encoding is consumed and the object holds
    the value. *)
Theorem decode_roundtrip (bo : bool) (t : gotype) (v : val) (bs post : bytes) (r : region)
  (Huser : ∀ bo i u bs, encode_user bo i u = Some bs → accepts bo (UnmarshalFromDecoder i) bs u)
  (Hnonempty : ∀ bo i u bs, encode_user bo i u = Some bs → 1 ≤ zlen bs)
  (Ht : decodable t) (Hs : slices_sized t = true) (Hv : encode bo t v = Some bs) (Hpost : wf_bytes post) :
  ∃ r', decode_into bo (bs ++ post) (Some t) r = (Ok (), at_ bs post bo, r') ∧ load 8 t r' 0 = Some v.
Proof.
  rewrite decode_into_run. destruct (DecodeFast_implements UnmarshalFromDecoder t Ht (at_ [] (bs ++ post) bo) r) as (ws & E & _ & Hload).
  destruct (all_complete _ _ Huser Hnonempty bo t Hs v bs Hv) as [_ Hrun].
  unfold DecodeTo. rewrite E, (Hrun [] post) in * by done. exists (ws ++ r). split; [done|]. by apply Hload.
Qed.
End entry.

(** ** An instance *)

Definition encode_key (bo : bool) (i : Z) (k : bytes) : option bytes :=
  if zlen k =? 32 then encode_bytes k else None.

Lemma read_key_sound bo i : decodes bo (read_key i) (λ u bs, encode_key bo i u = Some bs).
Proof.
  intros pre rest Hwf. pose proof (decodes_bytes bo 32 pre rest Hwf) as H. unfold read_key.
  destruct (ReadBytes 32 _) as [[k|e|w] d]; [|done..].
  destruct H as (bs & post & ? & ? & Hl & ?). exists bs, post. unfold encode_key. by rewrite Hl.
Qed.

Lemma read_key_complete bo i u bs : encode_key bo i u = Some bs → accepts bo (read_key i) bs u.
Proof. unfold encode_key. case_if; [|done]. by apply accepts_bytes. Qed.

Lemma encode_key_nonempty bo i u bs : encode_key bo i u = Some bs → 1 ≤ zlen bs.
Proof. unfold encode_key. case_if; [|done]. intros [-> _]%encode_bytes_Some. lia. Qed.

Lemma decode_typed_witness :
  ∃ d r', decode_into read_key true (Holding_bytes ++ [42]) (Some Holding) [] = (Ok (), d, r') ∧
  ∃ v bs post, load 8 Holding r' 0 = Some v ∧ encode encode_key true Holding v = Some bs ∧
               Holding_bytes ++ [42] = bs ++ post ∧ d = at_ bs post true.
Proof.
  assert (wf_bytes (Holding_bytes ++ [42])) as Hwf by (apply (bool_decide_unpack _); by vm_compute).
  pose proof (decode_typed read_key encode_key true Holding (Holding_bytes ++ [42]) [] read_key_sound Holding_decodable Hwf) as H.
  assert ((decode_into read_key true (Holding_bytes ++ [42]) (Some Holding) []).1.1 = Ok ()) as E by by vm_compute.
  destruct (decode_into _ _ _ _ _) as [[x d] r']. simpl in E. subst x. eexists _, _. split; [done|exact H].
Defined.

Lemma decode_roundtrip_witness :
  encode encode_key true Holding Holding_val = Some Holding_bytes ∧
  ∃ r', decode_into read_key true (Holding_bytes ++ [42]) (Some Holding) [] = (Ok (), at_ Holding_bytes [42] true, r') ∧
        load 8 Holding r' 0 = Some Holding_val.
Proof.
  assert (encode encode_key true Holding Holding_val = Some Holding_bytes) as E by by vm_compute.
  split; [done|]. apply (decode_roundtrip read_key encode_key); try done.
  - exact read_key_complete.
  - exact encode_key_nonempty.
  - apply (bool_decide_unpack _). by vm_compute.
Defined.

(** The length check assumes a byte per element, so a slice whose elements
    take none is refused when nothing follows it. *)
Lemma empty_elements_refused :
  let t := TSlice false (TStruct "Unit" 0 []) in
  encode encode_key false t (VList [VStruct []]) = Some (le 8 1) ∧
  (decode_into read_key false (le 8 1) (Some t) []).1.1 =
    Err (ErrFmt "slice length %d exceeds %d remaining bytes" [AZ 1; AZ 0]).
Proof. split; by vm_compute. Qed.
