(* ===== verification/Message.v ===== *)
(** * Messages: [message.go] and [message_v1.go]

    The legacy, v0 and v1 message formats: validation, size computation,
    marshalling and decoding, and address-table resolution.  The decoders
    are monadic programs over [Wire.Dec] with the source's reads in the
    source's order; [enc_message] is the wire format they are proved
    against. *)

From S2P Require Import Prelude Wire Keys.

Definition MessageVersionLegacy : Z := 0xFF.
Definition MessageVersion0 : Z := 0.
Definition MessageVersion1 : Z := 1.
Definition versionPrefixMask : Z := 0x80.
Definition maxMessageVersion : Z := 1.

Record MessageHeader := mkHeader {
  NumRequiredSignatures : Z;
  NumReadonlySignedAccounts : Z;
  NumReadonlyUnsignedAccounts : Z;
}.

Record CompiledInstruction := mkCompiled {
  ProgramIDIndex : Z;
  Accounts : bytes;
  Data : bytes;
}.

Record MessageAddressTableLookup := mkLookup {
  AccountKey : PublicKey;
  WritableIndexes : bytes;
  ReadonlyIndexes : bytes;
}.

Record TransactionConfig := mkConfig {
  PriorityFee : option Z;
  ComputeUnitLimit : option Z;
  LoadedAccountsDataSizeLimit : option Z;
  HeapSize : option Z;
}.

Record Message := mkMessage {
  Version : Z;
  Header : MessageHeader;
  AccountKeys : list PublicKey;
  RecentBlockhash : Hash;
  Instructions : list CompiledInstruction;
  AddressTableLookups : list MessageAddressTableLookup;
  TxConfig : option TransactionConfig;
}.

(** ** Sizes *)

Definition svSize (n : Z) : Z :=
  if n <? 128 then 1 else if n <? 16384 then 2 else 3.

Definition sum_map {A} (f : A → Z) (l : list A) : Z := foldr (λ a acc, f a + acc) 0 l.

Definition opt_size {A} (n : Z) (o : option A) : Z :=
  match o with Some _ => n | None => 0 end.

Definition serializedSizeV1 (m : Message) : Z :=
  1 + 3 + 4 + HashSize + 1 + 1 + zlen (AccountKeys m) * PublicKeySize
  + match TxConfig m with
    | None => 0
    | Some c => opt_size 8 (PriorityFee c) + opt_size 4 (ComputeUnitLimit c)
                + opt_size 4 (LoadedAccountsDataSizeLimit c) + opt_size 4 (HeapSize c)
    end
  + sum_map (λ ix, 4 + zlen (Accounts ix) + zlen (Data ix)) (Instructions m).

Definition SerializedSize (m : Message) : Z :=
  if Version m =? MessageVersion1 then serializedSizeV1 m else
  3 + (if negb (Version m =? MessageVersionLegacy) then 1 else 0)
  + svSize (zlen (AccountKeys m)) + zlen (AccountKeys m) * PublicKeySize
  + HashSize
  + svSize (zlen (Instructions m))
  + sum_map (λ ix, 1 + svSize (zlen (Accounts ix)) + zlen (Accounts ix)
                     + svSize (zlen (Data ix)) + zlen (Data ix)) (Instructions m)
  + (if Version m =? MessageVersion0 then
       svSize (zlen (AddressTableLookups m))
       + sum_map (λ lk, PublicKeySize
                          + svSize (zlen (WritableIndexes lk)) + zlen (WritableIndexes lk)
                          + svSize (zlen (ReadonlyIndexes lk)) + zlen (ReadonlyIndexes lk))
                 (AddressTableLookups m)
     else 0).

(** ** Marshalling *)

Definition validate (m : Message) : result () :=
  if Version m =? MessageVersionLegacy then
    if 0 <? zlen (AddressTableLookups m)
    then Err (ErrFmt "solana: message: legacy messages cannot carry address table lookups" [])
    else Ok ()
  else if Version m =? MessageVersion0 then Ok ()
  else if Version m =? MessageVersion1 then
    if 0 <? zlen (AddressTableLookups m)
    then Err (ErrFmt "solana: message: v1 messages cannot carry address table lookups" [])
    else Ok ()
  else Err (ErrFmt "solana: message: unsupported version" [AZ (Version m)]).

Definition v1PriorityFeeMask : Z := 0x03.
Definition v1ComputeUnitLimitMask : Z := 0x04.
Definition v1LoadedDataSizeMask : Z := 0x08.
Definition v1HeapSizeMask : Z := 0x10.
Definition v1KnownConfigMask : Z := 0x1f.

Definition or_mask {A} (o : option A) (bit : Z) (mask : Z) : Z :=
  match o with Some _ => Z.lor mask bit | None => mask end.

(** The method has a nil receiver when the message has no config. *)
Definition mask (c : option TransactionConfig) : Z :=
  match c with
  | None => 0
  | Some c =>
      or_mask (HeapSize c) v1HeapSizeMask
        (or_mask (LoadedAccountsDataSizeLimit c) v1LoadedDataSizeMask
          (or_mask (ComputeUnitLimit c) v1ComputeUnitLimitMask
            (or_mask (PriorityFee c) v1PriorityFeeMask 0)))
  end.

(** [if c.F != nil], write the value it points to. *)
Definition write_opt (f : Z → Encoder → Encoder) (o : option Z) (e : Encoder) : Encoder :=
  match o with Some v => f v e | None => e end.

(** The first [for] loop of [marshalV1Into]: reject oversized instructions. *)
Fixpoint check_v1_lengths (i : Z) (ixs : list CompiledInstruction) : result () :=
  match ixs with
  | [] => Ok ()
  | ix :: ixs =>
      if (255 <? zlen (Accounts ix)) || (65535 <? zlen (Data ix))
      then Err (ErrFmt "solana: message: v1 instruction exceeds wire length" [AZ i])
      else check_v1_lengths (i + 1) ixs
  end.

Definition marshalV1Into (m : Message) (e : Encoder) : result Encoder :=
  if (255 <? zlen (AccountKeys m)) || (255 <? zlen (Instructions m))
  then Err (ErrFmt "solana: message: v1 account or instruction count exceeds 255" [])
  else
  check_v1_lengths 0 (Instructions m);;
  let e := WriteUint8 (Z.lor versionPrefixMask MessageVersion1) e in
  let e := WriteUint8 (NumRequiredSignatures (Header m)) e in
  let e := WriteUint8 (NumReadonlySignedAccounts (Header m)) e in
  let e := WriteUint8 (NumReadonlyUnsignedAccounts (Header m)) e in
  let e := WriteUint32 (mask (TxConfig m)) e in
  let e := WriteBytes (RecentBlockhash m) e in
  let e := WriteUint8 (u8 (zlen (Instructions m))) e in
  let e := WriteUint8 (u8 (zlen (AccountKeys m))) e in
  let e := fold_left (λ e k, WriteBytes k e) (AccountKeys m) e in
  let e :=
    match TxConfig m with
    | None => e
    | Some c =>
        let e := write_opt WriteUint64 (PriorityFee c) e in
        let e := write_opt WriteUint32 (ComputeUnitLimit c) e in
        let e := write_opt WriteUint32 (LoadedAccountsDataSizeLimit c) e in
        write_opt WriteUint32 (HeapSize c) e
    end in
  let e := fold_left (λ e ix,
      WriteUint16 (u16 (zlen (Data ix)))
        (WriteUint8 (u8 (zlen (Accounts ix))) (WriteUint8 (ProgramIDIndex ix) e)))
    (Instructions m) e in
  Ok (fold_left (λ e ix, WriteBytes (Data ix) (WriteBytes (Accounts ix) e)) (Instructions m) e).

Fixpoint marshalInstructions (i : Z) (ixs : list CompiledInstruction) (e : Encoder) : result Encoder :=
  match ixs with
  | [] => Ok e
  | ix :: ixs =>
      let e := WriteUint8 (ProgramIDIndex ix) e in
      if 0xFFFF <? zlen (Accounts ix)
      then Err (ErrFmt "solana: message: marshal: instruction has too many account indices" [AZ i; AZ (zlen (Accounts ix))])
      else
      let e := WriteBytes (Accounts ix) (WriteShortvec (u16 (zlen (Accounts ix))) e) in
      if 0xFFFF <? zlen (Data ix)
      then Err (ErrFmt "solana: message: marshal: instruction data too long" [AZ i; AZ (zlen (Data ix))])
      else
      let e := WriteBytes (Data ix) (WriteShortvec (u16 (zlen (Data ix))) e) in
      marshalInstructions (i + 1) ixs e
  end.

Fixpoint marshalLookups (i : Z) (lks : list MessageAddressTableLookup) (e : Encoder) : result Encoder :=
  match lks with
  | [] => Ok e
  | lk :: lks =>
      let e := WriteBytes (AccountKey lk) e in
      if 0xFFFF <? zlen (WritableIndexes lk)
      then Err (ErrFmt "solana: message: marshal: lookup has too many writable indices" [AZ i; AZ (zlen (WritableIndexes lk))])
      else
      let e := WriteBytes (WritableIndexes lk) (WriteShortvec (u16 (zlen (WritableIndexes lk))) e) in
      if 0xFFFF <? zlen (ReadonlyIndexes lk)
      then Err (ErrFmt "solana: message: marshal: lookup has too many readonly indices" [AZ i; AZ (zlen (ReadonlyIndexes lk))])
      else
      let e := WriteBytes (ReadonlyIndexes lk) (WriteShortvec (u16 (zlen (ReadonlyIndexes lk))) e) in
      marshalLookups (i + 1) lks e
  end.

Definition marshalInto (m : Message) (e : Encoder) : result Encoder :=
  if Version m =? MessageVersion1 then marshalV1Into m e else
  (* 1. Version prefix (absent for legacy). *)
  let e := if negb (Version m =? MessageVersionLegacy)
           then WriteUint8 (Z.lor versionPrefixMask (Version m)) e else e in
  (* 2. Header. *)
  let e := WriteUint8 (NumRequiredSignatures (Header m)) e in
  let e := WriteUint8 (NumReadonlySignedAccounts (Header m)) e in
  let e := WriteUint8 (NumReadonlyUnsignedAccounts (Header m)) e in
  (* 3. Static account keys. *)
  if 0xFFFF <? zlen (AccountKeys m)
  then Err (ErrFmt "solana: message: marshal: too many account keys" [AZ (zlen (AccountKeys m))])
  else
  let e := WriteShortvec (u16 (zlen (AccountKeys m))) e in
  let e := fold_left (λ e k, WriteBytes k e) (AccountKeys m) e in
  (* 4. Recent blockhash. *)
  let e := WriteBytes (RecentBlockhash m) e in
  (* 5. Compiled instructions. *)
  if 0xFFFF <? zlen (Instructions m)
  then Err (ErrFmt "solana: message: marshal: too many instructions" [AZ (zlen (Instructions m))])
  else
  let e := WriteShortvec (u16 (zlen (Instructions m))) e in
  e ← marshalInstructions 0 (Instructions m) e;
  (* 6. Address table lookups (v0 only). *)
  if Version m =? MessageVersion0 then
    if 0xFFFF <? zlen (AddressTableLookups m)
    then Err (ErrFmt "solana: message: marshal: too many address table lookups" [AZ (zlen (AddressTableLookups m))])
    else
    let e := WriteShortvec (u16 (zlen (AddressTableLookups m))) e in
    marshalLookups 0 (AddressTableLookups m) e
  else Ok e.

Definition Marshal (m : Message) : result bytes :=
  validate m;;
  e ← marshalInto m (NewEncoder (SerializedSize m));
  Ok (Bytes e).

(** [MarshalBinary] is an alias of [Marshal]. *)
Definition MarshalBinary (m : Message) : result bytes := Marshal m.

(** ** Decoding *)

(** [make(Uint8Slice, n); copy(dst, alias)] *)
Definition copy_bytes (n : Z) (b : bytes) : bytes := copy_array (Z.to_nat n) b.

(** [v, _ := m]: the error is dropped and the zero value used. *)
Definition ignore_err {A} (zero : A) (m : Dec A) : Dec A :=
  λ d, match m d with
       | (Err _, d') => (Ok zero, d')
       | r => r
       end.

Definition decode_key (msg : string) (i : Z) : Dec PublicKey :=
  kb ← wrap msg [AZ i] (ReadBytes PublicKeySize); mret (copy_array 32 kb).

Definition decode_instruction (i : Z) : Dec CompiledInstruction :=
  pid ← wrap "solana: message: instruction program index" [AZ i] ReadUint8;
  ac ← wrap "solana: message: instruction accounts count" [AZ i] ReadShortvec;
  accAlias ← wrap "solana: message: instruction accounts" [AZ i] (ReadBytes ac);
  dl ← wrap "solana: message: instruction data count" [AZ i] ReadShortvec;
  dataAlias ← wrap "solana: message: instruction data" [AZ i] (ReadBytes dl);
  mret (mkCompiled pid (copy_bytes ac accAlias) (copy_bytes dl dataAlias)).

Definition decode_lookup (i : Z) : Dec MessageAddressTableLookup :=
  kb ← wrap "solana: message: lookup account key" [AZ i] (ReadBytes PublicKeySize);
  wc ← wrap "solana: message: lookup writable count" [AZ i] ReadShortvec;
  wAlias ← wrap "solana: message: lookup writable" [AZ i] (ReadBytes wc);
  rc ← wrap "solana: message: lookup readonly count" [AZ i] ReadShortvec;
  rAlias ← wrap "solana: message: lookup readonly" [AZ i] (ReadBytes rc);
  mret (mkLookup (copy_array 32 kb) (copy_bytes wc wAlias) (copy_bytes rc rAlias)).

(** [if mask & bit != 0], read the field and point [c.F] at it. *)
Definition read_opt (msk bit : Z) (msg : string) (read : Dec Z) : Dec (option Z) :=
  if negb (Z.land msk bit =? 0) then v ← wrap msg [] read; mret (Some v) else mret None.

(** The per-instruction header of a v1 message. *)
Definition decode_v1_header (i : Z) : Dec (Z * (Z * Z)) :=
  pid ← wrap "solana: message: v1 instruction program index" [AZ i] ReadUint8;
  na ← wrap "solana: message: v1 instruction account count" [AZ i] ReadUint8;
  nd ← wrap "solana: message: v1 instruction data count" [AZ i] ReadUint16;
  mret (pid, (na, nd)).

(** The last loop of [decodeMessageV1], over the instruction headers. *)
Fixpoint decode_v1_payloads (i : Z) (hs : list (Z * (Z * Z))) : Dec (list CompiledInstruction) :=
  match hs with
  | [] => mret []
  | (pid, (na, nd)) :: hs =>
      accounts ← wrap "solana: message: v1 instruction accounts" [AZ i] (ReadBytes na);
      data ← wrap "solana: message: v1 instruction data" [AZ i] (ReadBytes nd);
      rest ← decode_v1_payloads (i + 1) hs;
      mret (mkCompiled pid accounts data :: rest)
  end.

Definition decodeMessageV1 : Dec Message :=
  wrap "solana: message: v1 version" [] ReadUint8;;
  h1 ← wrap "solana: message: v1 header" [] ReadUint8;
  h2 ← wrap "solana: message: v1 header" [] ReadUint8;
  h3 ← wrap "solana: message: v1 header" [] ReadUint8;
  msk ← wrap "solana: message: v1 config mask" [] ReadUint32;
  if negb (Z.ldiff msk v1KnownConfigMask =? 0)
     || (Z.land msk v1PriorityFeeMask =? 1) || (Z.land msk v1PriorityFeeMask =? 2)
  then fail (ErrFmt "solana: message: invalid v1 config mask" [AZ msk]) else
  blockhash ← wrap "solana: message: v1 lifetime" [] (ReadBytes HashSize);
  ixCount ← wrap "solana: message: v1 instruction count" [] ReadUint8;
  keyCount ← wrap "solana: message: v1 account count" [] ReadUint8;
  keys ← for_range (Z.to_nat keyCount) 0 (decode_key "solana: message: v1 account");
  fee ← read_opt msk v1PriorityFeeMask "solana: message: v1 priority fee" ReadUint64;
  cul ← read_opt msk v1ComputeUnitLimitMask "solana: message: v1 compute unit limit" ReadUint32;
  lds ← read_opt msk v1LoadedDataSizeMask "solana: message: v1 loaded account data size" ReadUint32;
  hs ← read_opt msk v1HeapSizeMask "solana: message: v1 heap size" ReadUint32;
  headers ← for_range (Z.to_nat ixCount) 0 decode_v1_header;
  ixs ← decode_v1_payloads 0 headers;
  mret (mkMessage MessageVersion1 (mkHeader h1 h2 h3) keys (copy_array 32 blockhash)
          ixs [] (Some (mkConfig fee cul lds hs))).

(** The version branch of [DecodeMessage], after the v1 dispatch. *)
Definition decode_version (first : Z) : Dec Z :=
  if negb (Z.land first versionPrefixMask =? 0) then
    b ← ignore_err 0 ReadUint8;
    let v := Z.ldiff b versionPrefixMask in
    if maxMessageVersion <? v
    then fail (ErrFmt "solana: message: unsupported version" [AZ v])
    else mret v
  else mret MessageVersionLegacy.

(** Steps 2 to 6 of [DecodeMessage]. *)
Definition decode_body (version : Z) : Dec Message :=
  h1 ← wrap "solana: message: header numRequiredSignatures" [] ReadUint8;
  h2 ← wrap "solana: message: header numReadonlySignedAccounts" [] ReadUint8;
  h3 ← wrap "solana: message: header numReadonlyUnsignedAccounts" [] ReadUint8;
  keyCount ← wrap "solana: message: account keys count" [] ReadShortvec;
  keys ← for_range (Z.to_nat keyCount) 0 (decode_key "solana: message: account key");
  bh ← wrap "solana: message: recent blockhash" [] (ReadBytes HashSize);
  ixCount ← wrap "solana: message: instruction count" [] ReadShortvec;
  ixs ← for_range (Z.to_nat ixCount) 0 decode_instruction;
  lks ← (if version =? MessageVersion0 then
           lkCount ← wrap "solana: message: address table lookups count" [] ReadShortvec;
           for_range (Z.to_nat lkCount) 0 decode_lookup
         else mret []);
  mret (mkMessage version (mkHeader h1 h2 h3) keys (copy_array 32 bh) ixs lks None).

Definition DecodeMessage : Dec Message :=
  first ← wrap "solana: message: version byte" [] PeekUint8;
  if first =? Z.lor versionPrefixMask MessageVersion1 then decodeMessageV1 else
  version ← decode_version first;
  decode_body version.

Definition UnmarshalBinary (m : Message) (data : bytes) : method Message :=
  if zlen data =? 0 then (Err (ErrFmt "solana: message: empty input" []), m) else
  match DecodeMessage (NewDecoder data) with
  | (Ok decoded, d) =>
      let r := Remaining d in
      if negb (r =? 0)
      then (Err (ErrFmt "solana: message: trailing bytes after message body" [AZ r]), m)
      else (Ok (), decoded)
  | (Err e, _) => (Err e, m)
  | (Panic w, _) => (Panic w, m)
  end.

(** ** Accessors *)

Definition Signers (m : Message) : result (list PublicKey) :=
  let n := NumRequiredSignatures (Header m) in
  let n := if zlen (AccountKeys m) <? n then zlen (AccountKeys m) else n in
  slice (AccountKeys m) 0 n.

(** [for _, idx := range idxs { if int(idx) >= len(addrs) {...}; out = append(out, addrs[idx]) }] *)
Fixpoint resolve_indexes (kind : string) (key : PublicKey) (addrs : list PublicKey)
    (idxs : bytes) : result (list PublicKey) :=
  match idxs with
  | [] => Ok []
  | idx :: idxs =>
      if zlen addrs <=? idx
      then Err (ErrFmt kind [AB key; AZ idx; AZ (zlen addrs)])
      else
      a ← index_at addrs idx;
      rest ← resolve_indexes kind key addrs idxs;
      Ok (a :: rest)
  end.

(** The first loop: writable entries, with the presence check. *)
Fixpoint resolve_writable (alts : gmap PublicKey (list PublicKey))
    (lks : list MessageAddressTableLookup) : result (list PublicKey) :=
  match lks with
  | [] => Ok []
  | lk :: lks =>
      match alts !! AccountKey lk with
      | None => Err (ErrFmt "solana: message: ALT not in alts map" [AB (AccountKey lk)])
      | Some addrs =>
          out ← resolve_indexes "solana: message: ALT writable index out of range"
                  (AccountKey lk) addrs (WritableIndexes lk);
          rest ← resolve_writable alts lks;
          Ok (out ++ rest)
      end
  end.

(** The second loop: readonly entries; a missing map key reads as nil. *)
Fixpoint resolve_readonly (alts : gmap PublicKey (list PublicKey))
    (lks : list MessageAddressTableLookup) : result (list PublicKey) :=
  match lks with
  | [] => Ok []
  | lk :: lks =>
      let addrs := default [] (alts !! AccountKey lk) in
      out ← resolve_indexes "solana: message: ALT readonly index out of range"
              (AccountKey lk) addrs (ReadonlyIndexes lk);
      rest ← resolve_readonly alts lks;
      Ok (out ++ rest)
  end.

Definition ResolvedAccountKeys (m : Message) (alts : gmap PublicKey (list PublicKey)) : result (list PublicKey) :=
  if zlen (AddressTableLookups m) =? 0 then Ok (AccountKeys m) else
  w ← resolve_writable alts (AddressTableLookups m);
  r ← resolve_readonly alts (AddressTableLookups m);
  Ok (AccountKeys m ++ w ++ r).
