(* ===== verification/MessageCodec.v ===== *)
(** * The message codec: marshalling and decoding are inverse

    [enc_message] is the wire format; [Marshal] produces exactly it on
    well-formed messages, with the size [SerializedSize] announces, and
    [DecodeMessage] accepts exactly the encodings of well-formed
    messages. *)

From S2P Require Import Prelude Wire Keys Message.

(** ** The wire format *)

Definition enc_vec (b : bytes) : bytes := shortvec (zlen b) ++ b.

Definition enc_ix (ix : CompiledInstruction) : bytes :=
  [ProgramIDIndex ix] ++ enc_vec (Accounts ix) ++ enc_vec (Data ix).

Definition enc_lookup (lk : MessageAddressTableLookup) : bytes :=
  AccountKey lk ++ enc_vec (WritableIndexes lk) ++ enc_vec (ReadonlyIndexes lk).

Definition enc_header (h : MessageHeader) : bytes :=
  [NumRequiredSignatures h; NumReadonlySignedAccounts h; NumReadonlyUnsignedAccounts h].

Definition enc_keys (keys : list PublicKey) : bytes := flat_map (λ k, k) keys.

Definition enc_body (m : Message) : bytes :=
  enc_header (Header m) ++ shortvec (zlen (AccountKeys m)) ++ enc_keys (AccountKeys m)
  ++ RecentBlockhash m
  ++ shortvec (zlen (Instructions m)) ++ flat_map enc_ix (Instructions m)
  ++ (if Version m =? MessageVersion0
      then shortvec (zlen (AddressTableLookups m)) ++ flat_map enc_lookup (AddressTableLookups m)
      else []).

Definition enc_opt (n : Z) (o : option Z) : bytes :=
  match o with Some v => le n v | None => [] end.

Definition enc_config (c : option TransactionConfig) : bytes :=
  match c with
  | None => []
  | Some c => enc_opt 8 (PriorityFee c) ++ enc_opt 4 (ComputeUnitLimit c)
              ++ enc_opt 4 (LoadedAccountsDataSizeLimit c) ++ enc_opt 4 (HeapSize c)
  end.

Definition enc_v1_header (ix : CompiledInstruction) : bytes :=
  [ProgramIDIndex ix; zlen (Accounts ix)] ++ le 2 (zlen (Data ix)).

Definition enc_v1 (m : Message) : bytes :=
  [0x81] ++ enc_header (Header m) ++ le 4 (mask (TxConfig m)) ++ RecentBlockhash m
  ++ [zlen (Instructions m); zlen (AccountKeys m)] ++ enc_keys (AccountKeys m)
  ++ enc_config (TxConfig m)
  ++ flat_map enc_v1_header (Instructions m)
  ++ flat_map (λ ix, Accounts ix ++ Data ix) (Instructions m).

Definition enc_message (m : Message) : bytes :=
  if Version m =? MessageVersion1 then enc_v1 m
  else (if Version m =? MessageVersionLegacy then [] else [Z.lor 0x80 (Version m)]) ++ enc_body m.

(** ** Well-formedness *)

Definition wf_vec (b : bytes) : Prop := zlen b ≤ 0xFFFF ∧ wf_bytes b.

Definition wf_ix (ix : CompiledInstruction) : Prop :=
  is_u 8 (ProgramIDIndex ix) ∧ wf_vec (Accounts ix) ∧ wf_vec (Data ix).

Definition wf_v1_ix (ix : CompiledInstruction) : Prop :=
  wf_ix ix ∧ zlen (Accounts ix) ≤ 255.

Definition wf_lookup (lk : MessageAddressTableLookup) : Prop :=
  wf_key (AccountKey lk) ∧ wf_vec (WritableIndexes lk) ∧ wf_vec (ReadonlyIndexes lk).

Definition wf_header (h : MessageHeader) : Prop :=
  is_u 8 (NumRequiredSignatures h) ∧ is_u 8 (NumReadonlySignedAccounts h)
  ∧ is_u 8 (NumReadonlyUnsignedAccounts h).

Definition wf_opt (w : Z) (o : option Z) : Prop :=
  match o with Some v => is_u w v | None => True end.

Definition wf_config (c : option TransactionConfig) : Prop :=
  match c with
  | None => False
  | Some c => wf_opt 64 (PriorityFee c) ∧ wf_opt 32 (ComputeUnitLimit c)
              ∧ wf_opt 32 (LoadedAccountsDataSizeLimit c) ∧ wf_opt 32 (HeapSize c)
  end.

(** What a legacy or v0 message must satisfy to have a wire form. *)
Definition wf_body (m : Message) : Prop :=
  wf_header (Header m) ∧ Forall wf_key (AccountKeys m) ∧ wf_key (RecentBlockhash m)
  ∧ zlen (AccountKeys m) ≤ 0xFFFF
  ∧ zlen (Instructions m) ≤ 0xFFFF ∧ Forall wf_ix (Instructions m)
  ∧ zlen (AddressTableLookups m) ≤ 0xFFFF ∧ Forall wf_lookup (AddressTableLookups m)
  ∧ (Version m = MessageVersion0 ∨ AddressTableLookups m = [])
  ∧ TxConfig m = None.

Definition wf_v1 (m : Message) : Prop :=
  wf_header (Header m) ∧ Forall wf_key (AccountKeys m) ∧ wf_key (RecentBlockhash m)
  ∧ zlen (AccountKeys m) ≤ 255
  ∧ zlen (Instructions m) ≤ 255 ∧ Forall wf_v1_ix (Instructions m)
  ∧ AddressTableLookups m = [] ∧ wf_config (TxConfig m).

Definition wf_message (m : Message) : Prop :=
  (Version m = MessageVersionLegacy ∧ NumRequiredSignatures (Header m) < 128 ∧ wf_body m)
  ∨ (Version m = MessageVersion0 ∧ wf_body m)
  ∨ (Version m = MessageVersion1 ∧ wf_v1 m).

#[export] Instance wf_opt_dec w o : Decision (wf_opt w o).
Proof. destruct o; apply _. Defined.
#[export] Instance wf_config_dec c : Decision (wf_config c).
Proof. destruct c; unfold wf_config; apply _. Defined.
#[export] Instance CompiledInstruction_eq_dec : EqDecision CompiledInstruction.
Proof. solve_decision. Defined.
#[export] Instance MessageAddressTableLookup_eq_dec : EqDecision MessageAddressTableLookup.
Proof. solve_decision. Defined.
#[export] Instance TransactionConfig_eq_dec : EqDecision TransactionConfig.
Proof. solve_decision. Defined.
#[export] Instance wf_message_dec m : Decision (wf_message m).
Proof.
  unfold wf_message, wf_body, wf_v1, wf_v1_ix, wf_ix, wf_lookup, wf_header, wf_vec. apply _.
Defined.

(** ** Marshalling produces the wire format *)

Create Rewrite HintDb msg.

Lemma e_buf_marshalInstructions i ixs e :
  Forall wf_ix ixs →
  ∃ e', marshalInstructions i ixs e = Ok e' ∧ e_buf e' = e_buf e ++ flat_map enc_ix ixs.
Proof.
  intros Hwf. revert i e. induction Hwf as [|ix ixs (_ & [Ha _] & [Hd _]) _ IH]; intros i e; simpl.
  { exists e. by rewrite app_nil_r. }
  rewrite !(proj2 (Z.ltb_ge _ _)) by done.
  edestruct IH as (e' & -> & He'). exists e'. split; [done|]. rewrite He'.
  autorewrite with enc. unfold enc_ix, enc_vec.
  pose proof (zlen_nonneg (Accounts ix)). pose proof (zlen_nonneg (Data ix)).
  rewrite !wrapU_small by (unfold is_u; lia). app_eq.
Qed.

Lemma e_buf_marshalLookups i lks e :
  Forall wf_lookup lks →
  ∃ e', marshalLookups i lks e = Ok e' ∧ e_buf e' = e_buf e ++ flat_map enc_lookup lks.
Proof.
  intros Hwf. revert i e. induction Hwf as [|lk lks (_ & [Hw _] & [Hr _]) _ IH]; intros i e; simpl.
  { exists e. by rewrite app_nil_r. }
  rewrite !(proj2 (Z.ltb_ge _ _)) by done.
  edestruct IH as (e' & -> & He'). exists e'. split; [done|]. rewrite He'.
  autorewrite with enc. unfold enc_lookup, enc_vec.
  pose proof (zlen_nonneg (WritableIndexes lk)). pose proof (zlen_nonneg (ReadonlyIndexes lk)).
  rewrite !wrapU_small by (unfold is_u; lia). app_eq.
Qed.

Lemma e_buf_keys keys e :
  e_buf (fold_left (λ e k, WriteBytes k e) keys e) = e_buf e ++ enc_keys keys.
Proof. by apply (e_buf_fold WriteBytes (λ k, k)). Qed.

Lemma marshalInto_body m e :
  wf_body m → Version m ≠ MessageVersion1 →
  ∃ e', marshalInto m e = Ok e' ∧ e_buf e' = e_buf e ++ enc_message m.
Proof.
  intros (_ & _ & _ & Hk & Hi & Hix & Hl & Hlk & Hleg & _) Hv.
  unfold marshalInto, enc_message, enc_body.
  rewrite (proj2 (Z.eqb_neq _ _)) by done.
  rewrite !(proj2 (Z.ltb_ge _ _)) by done.
  edestruct (e_buf_marshalInstructions 0 (Instructions m)) as (e' & -> & He'); [done|].
  cbn [mbind result_bind].
  pose proof (zlen_nonneg (AccountKeys m)). pose proof (zlen_nonneg (Instructions m)).
  pose proof (zlen_nonneg (AddressTableLookups m)).
  assert (Hpre : e_buf (if negb (Version m =? MessageVersionLegacy)
      then WriteUint8 (Z.lor versionPrefixMask (Version m)) e else e)
    = e_buf e ++ (if Version m =? MessageVersionLegacy then [] else [Z.lor 128 (Version m)])).
  { destruct (Version m =? _); simpl; [by rewrite app_nil_r|done]. }
  autorewrite with enc in He'. rewrite e_buf_keys in He'. autorewrite with enc in He'.
  rewrite Hpre, !wrapU_small in He' by (unfold is_u; lia).
  destruct (Version m =? MessageVersion0).
  - rewrite !wrapU_small by (unfold is_u; lia).
    edestruct (e_buf_marshalLookups 0 (AddressTableLookups m)) as (e'' & -> & He''); [done|].
    eexists. split; [done|]. rewrite He''. autorewrite with enc. rewrite He'. app_eq.
  - eexists. split; [done|]. rewrite He'. app_eq.
Qed.

Lemma check_v1_lengths_ok i ixs : Forall wf_v1_ix ixs → check_v1_lengths i ixs = Ok ().
Proof.
  intros Hwf. revert i. induction Hwf as [|ix ixs ((_ & _ & [Hd _]) & Ha) _ IH]; intros i; simpl; [done|].
  rewrite !(proj2 (Z.ltb_ge _ _)) by done. apply IH.
Qed.

Lemma e_buf_v1_headers ixs e :
  Forall wf_v1_ix ixs →
  e_buf (fold_left (λ e ix,
      WriteUint16 (u16 (zlen (Data ix)))
        (WriteUint8 (u8 (zlen (Accounts ix))) (WriteUint8 (ProgramIDIndex ix) e))) ixs e)
  = e_buf e ++ flat_map enc_v1_header ixs.
Proof.
  intros Hwf. revert e. induction Hwf as [|ix ixs ((_ & _ & [Hd _]) & Ha) _ IH]; intros e; simpl.
  { by rewrite app_nil_r. }
  rewrite IH. autorewrite with enc. unfold enc_v1_header.
  pose proof (zlen_nonneg (Accounts ix)). pose proof (zlen_nonneg (Data ix)).
  rewrite (wrapU_small 16), (wrapU_small 8) by (unfold is_u; lia). app_eq.
Qed.

Lemma e_buf_write_opt f n o e :
  (∀ v e, e_buf (f v e) = e_buf e ++ le n v) →
  e_buf (write_opt f o e) = e_buf e ++ enc_opt n o.
Proof. intros Hf. destruct o; simpl; [apply Hf|by rewrite app_nil_r]. Qed.

Lemma marshalV1Into_ok m e :
  wf_v1 m → Version m = MessageVersion1 →
  ∃ e', marshalInto m e = Ok e' ∧ e_buf e' = e_buf e ++ enc_message m.
Proof.
  intros (_ & _ & _ & Hk & Hi & Hix & _ & Hc) Hv.
  unfold marshalInto, enc_message. rewrite Hv, Z.eqb_refl.
  unfold marshalV1Into. rewrite !(proj2 (Z.ltb_ge _ _)) by done.
  rewrite check_v1_lengths_ok by done. cbn [orb mbind result_bind].
  eexists. split; [done|].
  rewrite (e_buf_fold (λ ix e, WriteBytes (Data ix) (WriteBytes (Accounts ix) e))
             (λ ix, Accounts ix ++ Data ix)) by (intros; autorewrite with enc; app_eq).
  rewrite e_buf_v1_headers by done.
  unfold enc_v1, enc_config. destruct (TxConfig m) as [c|]; [|done].
  rewrite !(e_buf_write_opt WriteUint32 4) by (intros; apply e_buf_U32).
  rewrite !(e_buf_write_opt WriteUint64 8) by (intros; apply e_buf_U64).
  rewrite e_buf_keys. autorewrite with enc.
  pose proof (zlen_nonneg (AccountKeys m)). pose proof (zlen_nonneg (Instructions m)).
  rewrite !(wrapU_small 8) by (unfold is_u; lia). app_eq.
Qed.

Lemma marshalInto_ok m e :
  wf_message m → ∃ e', marshalInto m e = Ok e' ∧ e_buf e' = e_buf e ++ enc_message m.
Proof.
  intros [(Hv & _ & Hwf)|[(Hv & Hwf)|(Hv & Hwf)]].
  - apply marshalInto_body; [done|by rewrite Hv].
  - apply marshalInto_body; [done|by rewrite Hv].
  - by apply marshalV1Into_ok.
Qed.

Lemma validate_ok m : wf_message m → validate m = Ok ().
Proof.
  unfold validate.
  intros [(Hv & _ & Hwf)|[(Hv & Hwf)|(Hv & Hwf)]]; rewrite Hv; simpl; [| done |].
  - destruct Hwf as (_ & _ & _ & _ & _ & _ & _ & _ & [Hleg|Hleg] & _).
    + by rewrite Hv in Hleg.
    + by rewrite Hleg.
  - destruct Hwf as (_ & _ & _ & _ & _ & _ & Hleg & _). by rewrite Hleg.
Qed.

Lemma Marshal_enc m : wf_message m → Marshal m = Ok (enc_message m).
Proof.
  intros Hwf. unfold Marshal. rewrite validate_ok by done. cbn [mbind result_bind].
  edestruct (marshalInto_ok m) as (e' & -> & He'); [done|].
  cbn [mbind result_bind]. unfold Bytes. by rewrite He'.
Qed.

(** ** The announced size *)

Lemma zlen_shortvec n : is_u 16 n → zlen (shortvec n) = svSize n.
Proof.
  intros Hn. rewrite shortvec_spec by done. unfold svSize. by repeat case_if.
Qed.

Lemma zlen_enc_vec b : wf_vec b → zlen (enc_vec b) = svSize (zlen b) + zlen b.
Proof.
  intros [Hb _]. unfold enc_vec. rewrite zlen_app, zlen_shortvec; [done|].
  pose proof (zlen_nonneg b). unfold is_u. lia.
Qed.

Lemma zlen_flat_map {A} (enc : A → bytes) (f : A → Z) l :
  Forall (λ a, zlen (enc a) = f a) l → zlen (flat_map enc l) = sum_map f l.
Proof.
  induction 1 as [|a l Ha _ IH]; simpl; [done|]. by rewrite zlen_app, Ha, IH.
Qed.

Lemma zlen_enc_keys keys : Forall wf_key keys → zlen (enc_keys keys) = zlen keys * 32.
Proof.
  intros Hwf. apply zlen_flat_map_const. intros k Hk.
  rewrite Forall_forall in Hwf. by apply Hwf.
Qed.

Lemma zlen_enc_header h : zlen (enc_header h) = 3.
Proof. done. Qed.

Lemma zlen_enc_body m :
  wf_body m → Version m ≠ MessageVersion1 → zlen (enc_message m) = SerializedSize m.
Proof.
  intros (_ & Hkeys & Hbh & Hk & Hi & Hix & Hl & Hlk & _ & _) Hv.
  pose proof (zlen_nonneg (AccountKeys m)). pose proof (zlen_nonneg (Instructions m)).
  pose proof (zlen_nonneg (AddressTableLookups m)).
  unfold enc_message, SerializedSize, enc_body. rewrite (proj2 (Z.eqb_neq _ _)) by done.
  rewrite !zlen_app, zlen_enc_keys, !(zlen_shortvec) by (done || unfold is_u; lia).
  rewrite (zlen_flat_map enc_ix (λ ix, 1 + svSize (zlen (Accounts ix)) + zlen (Accounts ix)
                     + svSize (zlen (Data ix)) + zlen (Data ix))).
  2: { eapply Forall_impl; [exact Hix|]. intros ix (_ & Ha & Hd). unfold enc_ix.
       rewrite !zlen_app, !zlen_enc_vec by done. simpl. unfold zlen; simpl. lia. }
  destruct Hbh as [-> _]. rewrite zlen_enc_header.
  assert (zlen (if Version m =? MessageVersionLegacy then [] else [Z.lor 128 (Version m)])
    = if negb (Version m =? MessageVersionLegacy) then 1 else 0) as ->.
  { by destruct (_ =? _). }
  destruct (Version m =? MessageVersion0).
  - rewrite zlen_app, zlen_shortvec by (unfold is_u; lia).
    rewrite (zlen_flat_map enc_lookup (λ lk, PublicKeySize
                          + svSize (zlen (WritableIndexes lk)) + zlen (WritableIndexes lk)
                          + svSize (zlen (ReadonlyIndexes lk)) + zlen (ReadonlyIndexes lk))).
    2: { eapply Forall_impl; [exact Hlk|]. intros lk ([Hkey _] & Hw & Hr). unfold enc_lookup.
         rewrite !zlen_app, !zlen_enc_vec, Hkey by done. unfold PublicKeySize. lia. }
    unfold HashSize, PublicKeySize. lia.
  - change (zlen (@nil Z)) with 0. unfold HashSize, PublicKeySize. lia.
Qed.

Lemma zlen_enc_opt n o : 0 ≤ n → zlen (enc_opt n o) = opt_size n o.
Proof. intros. destruct o; simpl; [by apply length_le|done]. Qed.

Lemma zlen_enc_v1 m :
  wf_v1 m → Version m = MessageVersion1 → zlen (enc_message m) = SerializedSize m.
Proof.
  intros (_ & Hkeys & Hbh & Hk & Hi & Hix & _ & Hc) Hv.
  unfold enc_message, SerializedSize, enc_v1. rewrite Hv, Z.eqb_refl.
  unfold serializedSizeV1.
  rewrite !zlen_app, zlen_enc_keys, length_le by (done || lia).
  assert (zlen (flat_map enc_v1_header (Instructions m))
     + zlen (flat_map (λ ix, Accounts ix ++ Data ix) (Instructions m))
     = sum_map (λ ix, 4 + zlen (Accounts ix) + zlen (Data ix)) (Instructions m)) as <-.
  { clear. induction (Instructions m) as [|ix ixs IH]; simpl; [done|].
    rewrite !zlen_app, <- IH. unfold enc_v1_header.
    rewrite !zlen_cons, zlen_app, length_le by lia.
    lia. }
  destruct Hbh as [-> _]. destruct (TxConfig m) as [c|]; [|done]. unfold enc_config.
  rewrite !zlen_app, !zlen_enc_opt by lia.
  rewrite zlen_enc_header. unfold HashSize, PublicKeySize.
  change (zlen [0x81]) with 1. change (zlen [zlen (Instructions m); zlen (AccountKeys m)]) with 2. lia.
Qed.

Lemma zlen_enc_message m : wf_message m → zlen (enc_message m) = SerializedSize m.
Proof.
  intros [(Hv & _ & Hwf)|[(Hv & Hwf)|(Hv & Hwf)]].
  - apply zlen_enc_body; [done|by rewrite Hv].
  - apply zlen_enc_body; [done|by rewrite Hv].
  - by apply zlen_enc_v1.
Qed.

(** ** The pieces of a decoded message *)

Lemma copy_bytes_id n b : zlen b = n → copy_bytes n b = b.
Proof. intros <-. unfold copy_bytes. apply copy_array_id. unfold zlen. lia. Qed.

Lemma dec_spec_ReadArray msg args n :
  dec_spec (wrap msg args (ReadBytes n)) (λ v bs, wf_array n v ∧ bs = v).
Proof.
  apply dec_spec_wrap. eapply dec_spec_weaken; [apply dec_spec_ReadBytes|].
  intros a bs (?&?&->). done.
Qed.

Lemma wf_array_copy n b : wf_array (Z.of_nat n) b → copy_array n b = b.
Proof. intros [Hb _]. apply copy_array_id. unfold zlen in Hb. lia. Qed.

Lemma dec_spec_decode_key msg i : dec_spec (decode_key msg i) (λ k bs, wf_key k ∧ bs = k).
Proof.
  unfold decode_key. eapply dec_spec_bind; [apply dec_spec_ReadArray|].
  intros k bs [Hk ->] _. apply dec_spec_ret.
  rewrite (wf_array_copy 32) by done. by rewrite app_nil_r.
Qed.

Lemma reads_decode_key msg i k : wf_key k → reads (decode_key msg i) k k.
Proof.
  intros [Hlen Hwf]. unfold decode_key. eapply (reads_eq _ _ (k ++ [])); [|app_eq].
  reads_step k. rewrite (wf_array_copy 32) by done. apply reads_ret.
Qed.

(** A length-prefixed vector: [n := ReadShortvec(); b := ReadBytes(n)]. *)
Lemma dec_spec_vec {B} msg1 args1 msg2 args2 (k : Z → bytes → Dec B) R :
  (∀ b, wf_vec b → dec_spec (k (zlen b) b) (λ r bs, R r (enc_vec b ++ bs))) →
  dec_spec (n ← wrap msg1 args1 ReadShortvec; b ← wrap msg2 args2 (ReadBytes n); k n b) R.
Proof.
  intros Hk. dec_step. eapply dec_spec_bind; [apply dec_spec_ReadArray|].
  intros b bs [[Hlen Hb] ->] _. subst. unfold enc_vec in Hk.
  eapply dec_spec_weaken; [apply Hk|].
  - split; [|done]. unfold is_u in *. lia.
  - intros r bs Hr. cbv beta in Hr. by rewrite <- (assoc_L (++)) in Hr.
Qed.

Lemma wf_vec_u16 b : wf_vec b → is_u 16 (zlen b).
Proof. intros [Hb _]. pose proof (zlen_nonneg b). unfold is_u. lia. Qed.

Lemma reads_vec {B} msg1 args1 msg2 args2 (k : Z → bytes → Dec B) b bs r :
  wf_vec b → reads (k (zlen b) b) bs r →
  reads (n ← wrap msg1 args1 ReadShortvec; b ← wrap msg2 args2 (ReadBytes n); k n b)
    (enc_vec b ++ bs) r.
Proof.
  intros Hb Hk. pose proof (wf_vec_u16 _ Hb). destruct Hb as [_ Hb]. unfold enc_vec.
  rewrite <- (assoc_L (++)). reads_step (zlen b). reads_step b. done.
Qed.

Lemma dec_spec_decode_instruction i :
  dec_spec (decode_instruction i) (λ ix bs, wf_ix ix ∧ bs = enc_ix ix).
Proof.
  unfold decode_instruction. dec_step.
  apply dec_spec_vec. intros acc Hacc. apply dec_spec_vec. intros data Hdata.
  apply dec_spec_ret. rewrite !copy_bytes_id by done. split; [done|]. unfold enc_ix. app_eq.
Qed.

Lemma reads_decode_instruction i ix : wf_ix ix → reads (decode_instruction i) (enc_ix ix) ix.
Proof.
  destruct ix as [pid acc data]. intros (Hp & Ha & Hd). simpl in *.
  unfold decode_instruction, enc_ix. reads_step pid.
  apply reads_vec; [done|]. rewrite <- (app_nil_r (enc_vec _)). apply reads_vec; [done|].
  rewrite !copy_bytes_id by done. apply reads_ret.
Qed.

Lemma dec_spec_decode_lookup i :
  dec_spec (decode_lookup i) (λ lk bs, wf_lookup lk ∧ bs = enc_lookup lk).
Proof.
  unfold decode_lookup. eapply dec_spec_bind; [apply dec_spec_ReadArray|].
  intros k bs [Hk ->] _.
  apply dec_spec_vec. intros w Hw. apply dec_spec_vec. intros r Hr.
  apply dec_spec_ret. rewrite !copy_bytes_id, (wf_array_copy 32) by done.
  split; [done|]. unfold enc_lookup. app_eq.
Qed.

Lemma reads_decode_lookup i lk : wf_lookup lk → reads (decode_lookup i) (enc_lookup lk) lk.
Proof.
  destruct lk as [k w r]. intros ([Hk Hk'] & Hw & Hr). simpl in *.
  unfold decode_lookup, enc_lookup. simpl. reads_step k.
  apply reads_vec; [done|]. rewrite <- (app_nil_r (enc_vec _)). apply reads_vec; [done|].
  rewrite !copy_bytes_id, (wf_array_copy 32) by done. apply reads_ret.
Qed.

(** ** The v1 configuration mask *)

Definition present {A} (o : option A) : bool := match o with Some _ => true | None => false end.

Definition valid_mask (msk : Z) : bool :=
  negb (negb (Z.ldiff msk v1KnownConfigMask =? 0)
        || (Z.land msk v1PriorityFeeMask =? 1) || (Z.land msk v1PriorityFeeMask =? 2)).

Definition mask_has (msk bit : Z) : bool := negb (Z.land msk bit =? 0).

Lemma mask_valid c :
  valid_mask (mask (Some c)) = true ∧ is_u 32 (mask (Some c))
  ∧ mask_has (mask (Some c)) v1PriorityFeeMask = present (PriorityFee c)
  ∧ mask_has (mask (Some c)) v1ComputeUnitLimitMask = present (ComputeUnitLimit c)
  ∧ mask_has (mask (Some c)) v1LoadedDataSizeMask = present (LoadedAccountsDataSizeLimit c)
  ∧ mask_has (mask (Some c)) v1HeapSizeMask = present (HeapSize c).
Proof.
  unfold is_u. destruct c as [[] [] [] []]; vm_compute; repeat split; congruence.
Qed.

Lemma valid_mask_bound msk : valid_mask msk = true → is_u 8 msk.
Proof.
  unfold valid_mask. intros H. zbool.
  assert (H' : Z.ldiff msk v1KnownConfigMask = 0) by done.
  apply Z.ldiff_le in H'; [|done]. unfold is_u, v1KnownConfigMask in *. lia.
Qed.

Lemma mask_of_presence msk c :
  valid_mask msk = true →
  mask_has msk v1PriorityFeeMask = present (PriorityFee c) →
  mask_has msk v1ComputeUnitLimitMask = present (ComputeUnitLimit c) →
  mask_has msk v1LoadedDataSizeMask = present (LoadedAccountsDataSizeLimit c) →
  mask_has msk v1HeapSizeMask = present (HeapSize c) →
  mask (Some c) = msk.
Proof.
  assert (Hm : mask (Some c) =
    Z.lor (Z.lor (Z.lor (if present (PriorityFee c) then 3 else 0)
      (if present (ComputeUnitLimit c) then 4 else 0))
      (if present (LoadedAccountsDataSizeLimit c) then 8 else 0))
      (if present (HeapSize c) then 16 else 0)).
  { by destruct c as [[] [] [] []]. }
  intros Hv H1 H2 H3 H4. rewrite Hm, <- H1, <- H2, <- H3, <- H4. clear -Hv.
  pose proof (valid_mask_bound _ Hv) as Hb.
  assert (Hall := is_u8_cases (λ msk, implb (valid_mask msk)
    (Z.lor (Z.lor (Z.lor (if mask_has msk v1PriorityFeeMask then 3 else 0)
      (if mask_has msk v1ComputeUnitLimitMask then 4 else 0))
      (if mask_has msk v1LoadedDataSizeMask then 8 else 0))
      (if mask_has msk v1HeapSizeMask then 16 else 0) =? msk)) ltac:(by vm_compute) msk Hb).
  cbv beta in Hall. rewrite Hv in Hall. by apply Z.eqb_eq in Hall.
Qed.

Lemma dec_spec_read_opt msk bit msg read n w :
  dec_spec read (λ v bs, is_u w v ∧ bs = le n v) →
  dec_spec (read_opt msk bit msg read)
    (λ o bs, wf_opt w o ∧ mask_has msk bit = present o ∧ bs = enc_opt n o).
Proof.
  intros Hread. unfold read_opt, mask_has. destruct (negb (Z.land msk bit =? 0)).
  - eapply dec_spec_bind; [by apply dec_spec_wrap|]. intros v bs [Hv ->] _.
    apply dec_spec_ret. by rewrite app_nil_r.
  - by apply dec_spec_ret.
Qed.

Lemma reads_read_opt msk bit msg read n w o :
  (∀ v, is_u w v → reads read (le n v) v) →
  wf_opt w o → mask_has msk bit = present o →
  reads (read_opt msk bit msg read) (enc_opt n o) o.
Proof.
  intros Hread Ho Hm. unfold read_opt. fold (mask_has msk bit). rewrite Hm.
  destruct o as [v|]; simpl; [|apply reads_ret].
  eapply reads_eq; [eapply reads_bind; [by apply reads_wrap, Hread|apply reads_ret|done]|app_eq].
Qed.

(** ** v1 instructions *)

Definition enc_hdr (h : Z * (Z * Z)) : bytes := [h.1; h.2.1] ++ le 2 h.2.2.

Definition wf_hdr (h : Z * (Z * Z)) : Prop := is_u 8 h.1 ∧ is_u 8 h.2.1 ∧ is_u 16 h.2.2.

Definition hdr_of (ix : CompiledInstruction) : Z * (Z * Z) :=
  (ProgramIDIndex ix, (zlen (Accounts ix), zlen (Data ix))).

Definition enc_payload (ix : CompiledInstruction) : bytes := Accounts ix ++ Data ix.

Lemma enc_v1_header_hdr ixs : flat_map enc_hdr (hdr_of <$> ixs) = flat_map enc_v1_header ixs.
Proof.
  induction ixs as [|ix ixs IH]; [done|]. exact (f_equal (app (enc_v1_header ix)) IH).
Qed.

Lemma wf_hdr_of ix : wf_v1_ix ix → wf_hdr (hdr_of ix).
Proof.
  intros ((Hp & [Ha _] & [Hd _]) & Ha'). unfold wf_hdr, is_u in *. simpl.
  pose proof (zlen_nonneg (Accounts ix)). pose proof (zlen_nonneg (Data ix)). lia.
Qed.

Lemma dec_spec_decode_v1_header i :
  dec_spec (decode_v1_header i) (λ h bs, wf_hdr h ∧ bs = enc_hdr h).
Proof.
  unfold decode_v1_header. repeat dec_step. apply dec_spec_ret.
  split; [done|]. unfold enc_hdr. app_eq.
Qed.

Lemma reads_decode_v1_header i h : wf_hdr h → reads (decode_v1_header i) (enc_hdr h) h.
Proof.
  destruct h as (pid & na & nd). intros (? & ? & ?); simpl in *.
  eapply (reads_eq _ _ ([pid] ++ [na] ++ le 2 nd ++ [])); [|unfold enc_hdr; app_eq].
  unfold decode_v1_header. reads_step pid. reads_step na. reads_step nd. apply reads_ret.
Qed.

Lemma dec_spec_decode_v1_payloads i hs :
  Forall wf_hdr hs →
  dec_spec (decode_v1_payloads i hs)
    (λ ixs bs, Forall wf_v1_ix ixs ∧ hdr_of <$> ixs = hs ∧ bs = flat_map enc_payload ixs).
Proof.
  intros Hwf. revert i. induction Hwf as [|(pid & na & nd) hs (Hp & Ha & Hd) _ IH]; intros i; simpl.
  { by apply dec_spec_ret. }
  eapply dec_spec_bind; [apply dec_spec_ReadArray|]. intros acc bs [[Hla Hwa] ->] _.
  eapply dec_spec_bind; [apply dec_spec_ReadArray|]. intros data bs [[Hld Hwd] ->] _.
  eapply dec_spec_bind; [apply IH|]. intros ixs bs (Hix & <- & ->) _.
  apply dec_spec_ret. subst. simpl in *. split; [|split; [done|]].
  - constructor; [|done]. unfold wf_v1_ix, wf_ix, wf_vec. simpl.
    unfold is_u in *. repeat split; try done; lia.
  - unfold enc_payload. app_eq.
Qed.

Lemma reads_decode_v1_payloads i ixs :
  Forall wf_v1_ix ixs →
  reads (decode_v1_payloads i (hdr_of <$> ixs)) (flat_map enc_payload ixs) ixs.
Proof.
  intros Hwf. revert i.
  induction Hwf as [|[pid acc data] ixs ((_ & [_ Ha] & [_ Hd]) & _) _ IH]; intros i; simpl.
  { apply reads_ret. }
  simpl in *. eapply (reads_eq _ _ (acc ++ data ++ flat_map enc_payload ixs ++ [])).
  2: { unfold enc_payload. app_eq. }
  reads_step acc. reads_step data. eapply reads_bind; [apply IH|apply reads_ret|done].
Qed.

(** ** Whole messages *)

#[local] Arguments mask : simpl never.

Lemma dec_spec_decode_body version :
  version = MessageVersionLegacy ∨ version = MessageVersion0 →
  dec_spec (decode_body version) (λ m bs, Version m = version ∧ wf_body m ∧ bs = enc_body m).
Proof.
  intros Hversion. unfold decode_body.
  dec_step. dec_step. dec_step. dec_step.
  eapply dec_spec_bind; [apply dec_spec_for_range, dec_spec_decode_key|].
  intros keys bs (Hlk & Hk & ->) _.
  eapply dec_spec_bind; [apply dec_spec_ReadArray|]. intros bh bs [Hbh ->] _.
  dec_step.
  eapply dec_spec_bind; [apply dec_spec_for_range, dec_spec_decode_instruction|].
  intros ixs bs (Hlix & Hix & ->) _.
  eapply dec_spec_bind with (R1 := λ lks bs,
    zlen lks ≤ 0xFFFF ∧ Forall wf_lookup lks ∧ (version = MessageVersion0 ∨ lks = [])
    ∧ bs = if version =? MessageVersion0
           then shortvec (zlen lks) ++ flat_map enc_lookup lks else []).
  { destruct (Z.eqb_spec version MessageVersion0).
    - dec_step. eapply dec_spec_weaken; [apply dec_spec_for_range, dec_spec_decode_lookup|].
      intros lks bs (Hllk & Hl & ->). unfold zlen. rewrite Hllk.
      unfold is_u in *. rewrite Z2Nat.id by lia. split; [lia|]. eauto.
    - apply dec_spec_ret. unfold zlen. simpl. repeat split; [lia|by constructor|by right]. }
  intros lks bs (Hllk & Hl & Hleg & ->) _.
  apply dec_spec_ret. unfold enc_body, wf_body, wf_header, zlen, is_u in *. simpl.
  rewrite Hlk, Hlix, (wf_array_copy 32), !Z2Nat.id by (done || lia).
  destruct Hbh. repeat split; try done; try lia. app_eq.
Qed.

Lemma reads_decode_body m :
  Version m = MessageVersionLegacy ∨ Version m = MessageVersion0 → wf_body m →
  reads (decode_body (Version m)) (enc_body m) m.
Proof.
  destruct m as [v [h1 h2 h3] keys bh ixs lks cfg]. simpl.
  intros Hv ((? & ? & ?) & Hk & [Hbh Hbh'] & Hlk & Hlix & Hix & Hllk & Hl & Hleg & Hcfg). simpl in *.
  rewrite Hcfg. pose proof (zlen_nonneg keys). pose proof (zlen_nonneg ixs).
  pose proof (zlen_nonneg lks).
  assert (is_u 16 (zlen keys)) by (unfold is_u; lia).
  assert (is_u 16 (zlen ixs)) by (unfold is_u; lia).
  assert (is_u 16 (zlen lks)) by (unfold is_u; lia).
  rewrite Forall_forall in Hk. rewrite Forall_forall in Hix. rewrite Forall_forall in Hl.
  unfold enc_body, enc_header, decode_body. simpl.
  eapply (reads_eq _ _ ([h1] ++ [h2] ++ [h3] ++ shortvec (zlen keys) ++ enc_keys keys ++ bh
     ++ shortvec (zlen ixs) ++ flat_map enc_ix ixs ++ (if v =? MessageVersion0
      then shortvec (zlen lks) ++ flat_map enc_lookup lks else []) ++ [])); [|app_eq].
  reads_step h1. reads_step h2. reads_step h3. reads_step (zlen keys).
  unfold zlen at 1. rewrite Nat2Z.id. unfold enc_keys.
  eapply reads_bind; [apply (reads_for_range (λ k, k)); intros; apply reads_decode_key; auto| |done].
  reads_step bh. reads_step (zlen ixs). unfold zlen at 1. rewrite Nat2Z.id.
  eapply reads_bind; [apply reads_for_range; intros; apply reads_decode_instruction; auto| |done].
  eapply reads_bind with (a := lks); [| |done].
  - destruct (Z.eqb_spec v MessageVersion0).
    + reads_step (zlen lks). unfold zlen at 1. rewrite Nat2Z.id.
      apply reads_for_range; intros; apply reads_decode_lookup; auto.
    + destruct Hleg as [?| ->]; [done|]. apply reads_ret.
  - rewrite (wf_array_copy 32) by done. apply reads_ret.
Qed.

(** The first byte is skipped unchecked: the caller has peeked at it. *)
Lemma dec_spec_decodeMessageV1 :
  dec_spec decodeMessageV1
    (λ m bs, Version m = MessageVersion1 ∧ wf_v1 m ∧ ∃ b tl, bs = b :: tl ∧ enc_v1 m = 0x81 :: tl).
Proof.
  unfold decodeMessageV1. dec_step. dec_step. dec_step. dec_step. dec_step.
  match goal with |- context [if ?c then _ else _] => destruct c eqn:Hmask end;
    [apply dec_spec_fail|].
  apply negb_true_iff in Hmask. fold (valid_mask a3) in Hmask.
  eapply dec_spec_bind; [apply dec_spec_ReadArray|]. intros bh bs [Hbh ->] _.
  dec_step. dec_step.
  eapply dec_spec_bind; [apply dec_spec_for_range, dec_spec_decode_key|].
  intros keys bs (Hlk & Hk & ->) _.
  eapply dec_spec_bind; [apply dec_spec_read_opt, dec_spec_ReadUint64|].
  intros fee bs (Hfee & Hfeem & ->) _.
  eapply dec_spec_bind; [apply dec_spec_read_opt, dec_spec_ReadUint32|].
  intros cul bs (Hcul & Hculm & ->) _.
  eapply dec_spec_bind; [apply dec_spec_read_opt, dec_spec_ReadUint32|].
  intros lds bs (Hlds & Hldsm & ->) _.
  eapply dec_spec_bind; [apply dec_spec_read_opt, dec_spec_ReadUint32|].
  intros hs bs (Hhs & Hhsm & ->) _.
  eapply dec_spec_bind; [apply dec_spec_for_range, dec_spec_decode_v1_header|].
  intros headers bs (Hlh & Hh & ->) _.
  eapply dec_spec_bind; [by apply dec_spec_decode_v1_payloads|].
  intros ixs bs (Hix & <- & ->) _.
  rewrite length_fmap in Hlh.
  apply dec_spec_ret. split; [done|].
  unfold wf_v1, wf_header, zlen, is_u in *. simpl. rewrite Hlk, Hlh.
  split.
  { rewrite !Z2Nat.id, (wf_array_copy 32) by (done || lia). destruct Hbh.
    repeat split; try done; lia. }
  eexists _, _. split; [done|]. unfold enc_v1, enc_config, zlen. simpl.
  rewrite Hlk, Hlh, !Z2Nat.id, (wf_array_copy 32), enc_v1_header_hdr by (done || lia).
  rewrite (mask_of_presence a3) by done. unfold enc_payload. app_eq.
Qed.

Lemma reads_decodeMessageV1 m :
  Version m = MessageVersion1 → wf_v1 m → reads decodeMessageV1 (enc_v1 m) m.
Proof.
  destruct m as [v [h1 h2 h3] keys bh ixs lks cfg]. simpl.
  intros Hv ((? & ? & ?) & Hk & [Hbh Hbh'] & Hlk & Hlix & Hix & Hl & Hcfg). simpl in *.
  destruct cfg as [c|]; [|done]. destruct Hcfg as (Hfee & Hcul & Hlds & Hhs). subst v lks.
  destruct (mask_valid c) as (Hvm & Hum & Hmfee & Hmcul & Hmlds & Hmhs).
  pose proof (zlen_nonneg keys). pose proof (zlen_nonneg ixs).
  assert (is_u 8 (zlen keys)) by (unfold is_u; lia).
  assert (is_u 8 (zlen ixs)) by (unfold is_u; lia).
  rewrite Forall_forall in Hk.
  assert (Hh : ∀ h, h ∈ hdr_of <$> ixs → wf_hdr h).
  { rewrite <- Forall_forall, Forall_fmap. eapply Forall_impl; [exact Hix|apply wf_hdr_of]. }
  set (msk := mask (Some c)) in *.
  eapply (reads_eq _ _ ([0x81] ++ [h1] ++ [h2] ++ [h3] ++ le 4 msk ++ bh
     ++ [zlen ixs] ++ [zlen keys] ++ enc_keys keys
     ++ enc_opt 8 (PriorityFee c) ++ enc_opt 4 (ComputeUnitLimit c)
     ++ enc_opt 4 (LoadedAccountsDataSizeLimit c) ++ enc_opt 4 (HeapSize c)
     ++ flat_map enc_hdr (hdr_of <$> ixs) ++ flat_map enc_payload ixs ++ [])).
  2: { rewrite enc_v1_header_hdr. unfold enc_v1, enc_header, enc_payload, enc_config. simpl. app_eq. }
  unfold decodeMessageV1. eapply reads_bind with (a := 0x81); [apply reads_wrap, reads_ReadUint8; unfold is_u; lia| |done].
  reads_step h1. reads_step h2. reads_step h3. reads_step msk.
  unfold valid_mask in Hvm. apply negb_true_iff in Hvm. rewrite Hvm.
  reads_step bh. reads_step (zlen ixs). reads_step (zlen keys).
  unfold enc_keys, zlen. rewrite !Nat2Z.id.
  eapply reads_bind; [apply (reads_for_range (λ k, k)); intros; apply reads_decode_key; auto| |done].
  eapply reads_bind; [by apply (reads_read_opt _ _ _ _ 8 64 (PriorityFee c)); [apply reads_ReadUint64|..]| |done].
  eapply reads_bind; [by apply (reads_read_opt _ _ _ _ 4 32 (ComputeUnitLimit c)); [apply reads_ReadUint32|..]| |done].
  eapply reads_bind; [by apply (reads_read_opt _ _ _ _ 4 32 (LoadedAccountsDataSizeLimit c)); [apply reads_ReadUint32|..]| |done].
  eapply reads_bind; [by apply (reads_read_opt _ _ _ _ 4 32 (HeapSize c)); [apply reads_ReadUint32|..]| |done].
  rewrite <- (length_fmap hdr_of).
  eapply reads_bind; [apply reads_for_range; intros; apply reads_decode_v1_header; auto| |done].
  eapply reads_bind; [by apply reads_decode_v1_payloads| |done].
  rewrite (wf_array_copy 32) by done. destruct c. apply reads_ret.
Qed.

Section version_dispatch.
Context (pre rest : bytes) (bo : bool).

(** What [DecodeMessage] does after it has seen the first byte. *)
Lemma DecodeMessage_at b :
  is_u 8 b →
  DecodeMessage (at_ pre (b :: rest) bo) =
    if b =? 0x81 then decodeMessageV1 (at_ pre (b :: rest) bo)
    else if b =? 0x80 then decode_body MessageVersion0 (at_ (pre ++ [b]) rest bo)
    else if b <? 0x80 then decode_body MessageVersionLegacy (at_ pre (b :: rest) bo)
    else (Err (ErrFmt "solana: message: unsupported version" [AZ (b - 128)]), at_ (pre ++ [b]) rest bo).
Proof.
  intros Hb.
  assert (Hland : (Z.land b 128 =? 0) = (b <? 128)).
  { apply eqb_true_iff. revert b Hb. apply is_u8_cases. by vm_compute. }
  assert (Hldiff : Z.ldiff b 128 = if b <? 128 then b else b - 128).
  { apply Z.eqb_eq. clear Hland. revert b Hb. apply is_u8_cases. by vm_compute. }
  unfold DecodeMessage, wrap. cbv [mbind Dec_bind]. rewrite PeekUint8_at. cbn [wrap_result].
  change (Z.lor versionPrefixMask MessageVersion1) with 0x81.
  destruct (Z.eqb_spec b 0x81); [done|].
  unfold decode_version. change versionPrefixMask with 128. rewrite Hland.
  destruct (Z.ltb_spec b 128).
  { by destruct (Z.eqb_spec b 128); [lia|]. }
  cbn [negb]. cbv [mbind Dec_bind ignore_err]. rewrite ReadUint8_at. cbv zeta.
  rewrite Hldiff. unfold maxMessageVersion.
  destruct (Z.eqb_spec b 128) as [->|?]; [done|].
  by rewrite (proj2 (Z.ltb_lt 1 _)) by lia.
Qed.
End version_dispatch.

Lemma DecodeMessage_nil pre bo :
  DecodeMessage (at_ pre [] bo)
  = (Err (ErrWrap "solana: message: version byte" [] ErrShortBuffer), at_ pre [] bo).
Proof.
  unfold DecodeMessage, wrap. cbv [mbind Dec_bind]. by rewrite PeekUint8_at.
Qed.

Lemma dec_spec_DecodeMessage :
  dec_spec DecodeMessage (λ m bs, wf_message m ∧ bs = enc_message m).
Proof.
  intros pre rest bo Hwf. destruct rest as [|b rest].
  { rewrite DecodeMessage_nil. exists [], []. by rewrite (app_nil_r pre). }
  rewrite Forall_cons in Hwf. destruct Hwf as [Hb Hwf]. rewrite DecodeMessage_at by done.
  destruct (Z.eqb_spec b 0x81) as [->|?]; [|destruct (Z.eqb_spec b 0x80) as [->|?]];
    [| |destruct (Z.ltb_spec b 0x80)].
  - pose proof (dec_spec_decodeMessageV1 pre (0x81 :: rest) bo ltac:(by constructor)) as Hd.
    destruct (decodeMessageV1 _) as [[m|e|w] d']; [|done|done].
    destruct Hd as (bs & post & Hbs & -> & Hv & Hm & b & tl & -> & Henc).
    exists (b :: tl), post. split; [done|]. split; [done|]. split; [by right; right|].
    unfold enc_message. rewrite Hv. simpl. rewrite Henc. by simplify_list_eq.
  - pose proof (dec_spec_decode_body MessageVersion0 ltac:(by right) (pre ++ [0x80]) rest bo Hwf) as Hd.
    destruct (decode_body _ _) as [[m|e|w] d']; [| |done].
    + destruct Hd as (bs & post & -> & -> & Hv & Hm & ->).
      exists (0x80 :: enc_body m), post. rewrite <- (assoc_L (++)). split; [done|]. split; [done|].
      split; [right; left; done|]. unfold enc_message. by rewrite Hv.
    + destruct Hd as (bs & post & -> & ->). exists (0x80 :: bs), post. by rewrite <- (assoc_L (++)).
  - pose proof (dec_spec_decode_body MessageVersionLegacy ltac:(by left) pre (b :: rest) bo
      ltac:(by constructor)) as Hd.
    destruct (decode_body _ _) as [[m|e|w] d']; [|done|done].
    destruct Hd as (bs & post & Hbs & -> & Hv & Hm & ->).
    exists (enc_body m), post. split; [done|]. split; [done|].
    split; [left; split; [done|]; split; [|done]|unfold enc_message; by rewrite Hv].
    unfold enc_body, enc_header in Hbs. simpl in Hbs. by simplify_list_eq.
  - exists [b], rest. done.
Qed.

Lemma reads_DecodeMessage m : wf_message m → reads DecodeMessage (enc_message m) m.
Proof.
  intros [(Hv & Hn & Hwf)|[(Hv & Hwf)|(Hv & Hwf)]].
  - pose proof (reads_decode_body m ltac:(by left) Hwf) as [Hb Hr].
    unfold enc_message. rewrite Hv in *. simpl. split; [done|]. intros pre post bo Hpost.
    specialize (Hr pre post bo Hpost). unfold enc_body, enc_header in *. simpl in *.
    rewrite Forall_cons in Hb. destruct Hb as [Hb _].
    rewrite DecodeMessage_at by done. unfold is_u in Hb.
    rewrite !(proj2 (Z.eqb_neq _ _)), (proj2 (Z.ltb_lt _ _)) by lia. apply Hr.
  - pose proof (reads_decode_body m ltac:(by right) Hwf) as [Hb Hr].
    unfold enc_message. rewrite Hv in *. simpl. change (Z.lor 128 MessageVersion0) with 0x80.
    split; [by constructor|]. intros pre post bo Hpost. cbn [app].
    rewrite DecodeMessage_at by done. rewrite (proj2 (Z.eqb_neq 0x80 _)), Z.eqb_refl by lia.
    rewrite Hr by done. by rewrite <- (assoc_L (++)).
  - pose proof (reads_decodeMessageV1 m Hv Hwf) as [Hb Hr].
    unfold enc_message. rewrite Hv. simpl. split; [done|]. intros pre post bo Hpost.
    specialize (Hr pre post bo Hpost). unfold enc_v1 in *. simpl in *.
    by rewrite DecodeMessage_at by done.
Qed.

Lemma UnmarshalBinary_spec m0 data :
  wf_bytes data →
  match UnmarshalBinary m0 data with
  | (Ok _, m) => wf_message m ∧ data = enc_message m
  | (Err _, m) => m = m0
  | (Panic _, _) => False
  end.
Proof.
  intros Hwf. unfold UnmarshalBinary. case_if; [done|].
  pose proof (dec_spec_DecodeMessage [] data false Hwf) as Hd.
  change (at_ [] data false) with (NewDecoder data) in Hd.
  destruct (DecodeMessage _) as [[m|e|w] d']; [|done|done].
  destruct Hd as (bs & post & -> & -> & Hm & ->). cbv zeta.
  rewrite Remaining_at. destruct post as [|b post].
  - by rewrite app_nil_r.
  - rewrite zlen_cons. pose proof (zlen_nonneg post).
    by rewrite (proj2 (Z.eqb_neq _ _)) by lia.
Qed.

Lemma enc_message_nonempty m : enc_message m ≠ [].
Proof.
  unfold enc_message, enc_v1, enc_body, enc_header. destruct (_ =? _); [done|].
  by destruct (_ =? _).
Qed.

Lemma zlen_eq_0 {A} (l : list A) : l ≠ [] → (zlen l =? 0) = false.
Proof. by destruct l. Qed.

Lemma UnmarshalBinary_enc m0 m :
  wf_message m → UnmarshalBinary m0 (enc_message m) = (Ok (), m).
Proof.
  intros Hm. unfold UnmarshalBinary. rewrite zlen_eq_0 by (apply enc_message_nonempty).
  rewrite (reads_run DecodeMessage _ m) by (by apply reads_DecodeMessage).
  cbv zeta. by rewrite Remaining_at.
Qed.

(** ** Properties *)

(** A message of each version, for the witnesses. *)
Definition sample_key (b : Z) : PublicKey := replicate 32 b.

Definition sample_v0 : Message :=
  mkMessage MessageVersion0 (mkHeader 1 0 1) [sample_key 1; sample_key 2] (sample_key 9)
    [mkCompiled 1 [0; 1; 2] [7; 8]] [mkLookup (sample_key 3) [4] [5; 6]] None.

Definition sample_v1 : Message :=
  mkMessage MessageVersion1 (mkHeader 1 0 1) [sample_key 1; sample_key 2] (sample_key 9)
    [mkCompiled 1 [0; 1] [7; 8; 9]] [] (Some (mkConfig (Some 5000) None (Some 70000) None)).

(** C1: a well-formed message of any version marshals, and unmarshalling
    the bytes gives the message back, whatever the receiver held. *)
Theorem UnmarshalBinary_Marshal (m0 m : Message) :
  wf_message m → ∃ data, Marshal m = Ok data ∧ UnmarshalBinary m0 data = (Ok (), m).
Proof. intros Hm. eauto using Marshal_enc, UnmarshalBinary_enc. Qed.

Lemma UnmarshalBinary_Marshal_witness :
  wf_message sample_v0 ∧
  ∃ data, Marshal sample_v0 = Ok data ∧ UnmarshalBinary sample_v1 data = (Ok (), sample_v0).
Proof.
  assert (H : wf_message sample_v0) by (apply (bool_decide_unpack _); by vm_compute).
  split; [exact H|]. exact (UnmarshalBinary_Marshal sample_v1 sample_v0 H).
Defined.

(** C2: the decoder is canonical: any bytes it accepts are exactly what
    [Marshal] produces for the decoded message, so no two byte strings
    decode to one message and nothing malformed is accepted. *)
Theorem Marshal_UnmarshalBinary (m0 m : Message) (data : bytes) :
  wf_bytes data → UnmarshalBinary m0 data = (Ok (), m) →
  wf_message m ∧ Marshal m = Ok data.
Proof.
  intros Hwf Hu. pose proof (UnmarshalBinary_spec m0 data Hwf) as H. rewrite Hu in H.
  destruct H as [Hm ->]. split; [done|]. by apply Marshal_enc.
Qed.

Lemma Marshal_UnmarshalBinary_witness :
  wf_message sample_v1 ∧ Marshal sample_v1 = Ok (enc_message sample_v1).
Proof.
  apply (Marshal_UnmarshalBinary sample_v0 sample_v1 (enc_message sample_v1)).
  - apply (bool_decide_unpack _); by vm_compute.
  - by vm_compute.
Defined.

(** C11: decoding untrusted bytes never panics, whatever they are, and a
    failed decode leaves the receiver as it was. *)
Theorem UnmarshalBinary_total (m0 : Message) (data : bytes) :
  wf_bytes data →
  no_panic (UnmarshalBinary m0 data).1 ∧
  ((UnmarshalBinary m0 data).1 ≠ Ok () → (UnmarshalBinary m0 data).2 = m0).
Proof.
  intros Hwf. pose proof (UnmarshalBinary_spec m0 data Hwf) as H.
  by destruct (UnmarshalBinary m0 data) as [[[]|e|w] m].
Qed.

Lemma UnmarshalBinary_total_witness :
  no_panic (UnmarshalBinary sample_v0 [0x81; 1; 2]).1 ∧
  ((UnmarshalBinary sample_v0 [0x81; 1; 2]).1 ≠ Ok () →
   (UnmarshalBinary sample_v0 [0x81; 1; 2]).2 = sample_v0).
Proof.
  apply (UnmarshalBinary_total sample_v0 [0x81; 1; 2]).
  apply (bool_decide_unpack _); by vm_compute.
Defined.

(** [SerializedSize] is the exact length of what [Marshal] writes, so
    the encoder's buffer never grows. *)
Theorem SerializedSize_exact (m : Message) (data : bytes) :
  wf_message m → Marshal m = Ok data → zlen data = SerializedSize m.
Proof.
  intros Hm. rewrite Marshal_enc by done. intros [= <-]. by apply zlen_enc_message.
Qed.

Lemma SerializedSize_exact_witness : zlen (enc_message sample_v0) = SerializedSize sample_v0.
Proof.
  apply (SerializedSize_exact sample_v0).
  - apply (bool_decide_unpack _); by vm_compute.
  - by vm_compute.
Defined.
