(* ===== verification/Transaction.v ===== *)
(** * Transactions: [transaction.go] and [entry.go]

    A transaction is a message with one signature slot per required signer.
    Signing keys live behind the [Signer] interface, so a signer is its
    public key and the result of its [Sign] call; signature verification is
    the class [Ed25519].  The Proof-of-History entries of [entry.go] are
    sequences of transactions. *)

From S2P Require Import Prelude Wire Keys Message MessageCodec.

Record Transaction := mkTransaction {
  Signatures : list Signature;
  TxMessage : Message;
}.

(** One signer argument of one [Sign] call.  The context is dropped: a
    cancellation is one of the errors [Signer_Sign] may return. *)
Record Signer := mkSigner {
  Signer_PublicKey : PublicKey;
  Signer_Sign : bytes → result Signature;
}.

Definition NewTransaction (message : Message) : Transaction :=
  mkTransaction (replicate (Z.to_nat (NumRequiredSignatures (Header message))) (zero_array 64)) message.

(** Also the [SerializedSize] method of the Go type [*Transaction]. *)
Definition Transaction_SerializedSize (tx : Transaction) : Z :=
  let n := zlen (Signatures tx) in
  if Version (TxMessage tx) =? MessageVersion1
  then SerializedSize (TxMessage tx) + n * SignatureSize
  else
  let svLen := if 128 <=? n then 2 else 1 in
  svLen + n * SignatureSize + SerializedSize (TxMessage tx).

Definition MessageBytes (tx : Transaction) : result bytes := Marshal (TxMessage tx).

(** ** Signing *)

(** [grown := make([]Signature, n); copy(grown, sigs)] when too short. *)
Definition grow (n : Z) (sigs : list Signature) : list Signature :=
  if zlen sigs <? n
  then sigs ++ replicate (Z.to_nat n - length sigs) (zero_array 64)
  else sigs.

(** [for i := 0; i < numReq; i++ { index[AccountKeys[i]] = i }] *)
Fixpoint build_index (i : Z) (keys : list PublicKey) (index : gmap PublicKey Z) : gmap PublicKey Z :=
  match keys with
  | [] => index
  | k :: keys => build_index (i + 1) keys (<[k := i]> index)
  end.

Fixpoint find_slots (index : gmap PublicKey Z) (signers : list Signer) : result (list Z) :=
  match signers with
  | [] => Ok []
  | s :: signers =>
      match index !! Signer_PublicKey s with
      | None => Err (ErrFmt "solana: transaction: signer is not a required signer" [AB (Signer_PublicKey s)])
      | Some slot => slots ← find_slots index signers; Ok (slot :: slots)
      end
  end.

(** The last loop: signatures stored before a failing signer remain. *)
Fixpoint sign_all (msgBytes : bytes) (signers : list Signer) (slots : list Z)
    (sigs : list Signature) : method (list Signature) :=
  match signers, slots with
  | s :: signers, slot :: slots =>
      match Signer_Sign s msgBytes with
      | Err e => (Err (ErrWrap "solana: transaction: signer" [AB (Signer_PublicKey s)] e), sigs)
      | Panic w => (Panic w, sigs)
      | Ok sig =>
          match set_at sigs slot sig with
          | Ok sigs => sign_all msgBytes signers slots sigs
          | Err e => (Err e, sigs)
          | Panic w => (Panic w, sigs)
          end
      end
  | _, _ => (Ok (), sigs)
  end.

Definition Sign (tx : Transaction) (signers : list Signer) : method Transaction :=
  let m := TxMessage tx in
  let numReq := NumRequiredSignatures (Header m) in
  if numReq =? 0
  then (Err (ErrFmt "solana: transaction: message requires zero signatures" []), tx) else
  if zlen (AccountKeys m) <? numReq
  then (Err (ErrFmt "solana: transaction: message has fewer account keys than required signatures"
              [AZ (zlen (AccountKeys m)); AZ numReq]), tx) else
  let tx := mkTransaction (grow numReq (Signatures tx)) m in
  let index := build_index 0 (take (Z.to_nat numReq) (AccountKeys m)) ∅ in
  match find_slots index signers with
  | Err e => (Err e, tx)
  | Panic w => (Panic w, tx)
  | Ok slots =>
      match Marshal m with
      | Err e => (Err (ErrWrap "solana: transaction: marshal message" [] e), tx)
      | Panic w => (Panic w, tx)
      | Ok msgBytes =>
          let '(r, sigs) := sign_all msgBytes signers slots (Signatures tx) in
          (r, mkTransaction sigs m)
      end
  end.

(** ** The wire form *)

Definition Transaction_Marshal (tx : Transaction) : result bytes :=
  if 0xFFFF <? zlen (Signatures tx)
  then Err (ErrFmt "solana: transaction: too many signatures" [AZ (zlen (Signatures tx))]) else
  validate (TxMessage tx);;
  if negb (zlen (Signatures tx) =? NumRequiredSignatures (Header (TxMessage tx)))
  then Err (ErrFmt "solana: transaction: signatures for required signers"
             [AZ (zlen (Signatures tx)); AZ (NumRequiredSignatures (Header (TxMessage tx)))]) else
  let e := NewEncoder (Transaction_SerializedSize tx) in
  if Version (TxMessage tx) =? MessageVersion1 then
    e ← marshalInto (TxMessage tx) e;
    Ok (Bytes (fold_left (λ e s, WriteBytes s e) (Signatures tx) e))
  else
  let e := WriteShortvec (u16 (zlen (Signatures tx))) e in
  let e := fold_left (λ e s, WriteBytes s e) (Signatures tx) e in
  e ← marshalInto (TxMessage tx) e;
  Ok (Bytes e).

Definition Transaction_MarshalBinary (tx : Transaction) : result bytes := Transaction_Marshal tx.

Definition decode_signature (i : Z) : Dec Signature :=
  b ← wrap "solana: transaction: signature" [AZ i] (ReadBytes SignatureSize);
  mret (copy_array 64 b).

Definition DecodeTransaction : Dec Transaction :=
  first ← wrap "solana: transaction: version byte" [] PeekUint8;
  if first =? Z.lor versionPrefixMask MessageVersion1 then
    msg ← wrap "solana: transaction: message" [] DecodeMessage;
    sigs ← for_range (Z.to_nat (NumRequiredSignatures (Header msg))) 0 decode_signature;
    mret (mkTransaction sigs msg)
  else
  sigCount ← wrap "solana: transaction: signatures count" [] ReadShortvec;
  sigs ← for_range (Z.to_nat sigCount) 0 decode_signature;
  msg ← wrap "solana: transaction: message" [] DecodeMessage;
  mret (mkTransaction sigs msg).

Definition Transaction_UnmarshalBinary (tx : Transaction) (data : bytes) : method Transaction :=
  if zlen data =? 0 then (Err (ErrFmt "solana: transaction: empty input" []), tx) else
  match DecodeTransaction (NewDecoder data) with
  | (Ok decoded, d) =>
      let r := Remaining d in
      if negb (r =? 0)
      then (Err (ErrFmt "solana: transaction: trailing bytes" [AZ r]), tx)
      else (Ok (), decoded)
  | (Err e, _) => (Err e, tx)
  | (Panic w, _) => (Panic w, tx)
  end.

(** The receiver, the error and the advanced cursor. *)
Definition Transaction_UnmarshalFromDecoder (tx : Transaction) : Decoder → method Transaction * Decoder :=
  λ d, let '(r, d') := DecodeTransaction d in (assign tx r, d').

Definition ToBase58 `{Base58} (tx : Transaction) : result bytes :=
  data ← Transaction_Marshal tx; Ok (base58_Encode data).

(** ** Verification *)

(** [crypto/ed25519]: [Verify publicKey message signature]. *)
Class Ed25519 := { ed25519_Verify : bytes → bytes → bytes → bool }.

Section verify.
Context `{Ed25519}.

(** The loop over the first [n] slots, at slot [i]. *)
Fixpoint verify_slots (n : nat) (i : Z) (msgBytes : bytes) (keys : list PublicKey)
    (sigs : list Signature) : result () :=
  match n with
  | O => Ok ()
  | S n =>
      sig ← index_at sigs i;
      if Signature_IsZero sig then verify_slots n (i + 1) msgBytes keys sigs else
      pub ← index_at keys i;
      if negb (ed25519_Verify pub msgBytes sig)
      then Err (ErrFmt "solana: transaction: signature does not verify" [AZ i; AB pub])
      else verify_slots n (i + 1) msgBytes keys sigs
  end.

Definition VerifySignatures (tx : Transaction) : result () :=
  let m := TxMessage tx in
  let numReq := NumRequiredSignatures (Header m) in
  if zlen (Signatures tx) <? numReq
  then Err (ErrFmt "solana: transaction: only signature slots for required signers"
             [AZ (zlen (Signatures tx)); AZ numReq]) else
  if zlen (AccountKeys m) <? numReq
  then Err (ErrFmt "solana: transaction: only account keys for required signers"
             [AZ (zlen (AccountKeys m)); AZ numReq]) else
  msgBytes ← Marshal m;
  verify_slots (Z.to_nat numReq) 0 msgBytes (AccountKeys m) (Signatures tx).
End verify.

(** ** Entries *)

Definition maxEntriesPerDecode : Z := 1000000.
Definition maxTxPerEntry : Z := 10000.

Record Entry := mkEntry {
  NumHashes : Z;
  Entry_Hash : Hash;
  Transactions : list Transaction;
}.

(** The receiver starts zeroed; only a successful decode is returned. *)
Definition decodeEntryInto : Dec Entry :=
  n ← wrap "num_hashes" [] ReadUint64;
  hb ← wrap "hash" [] (ReadBytes HashSize);
  txCount ← wrap "tx count" [] ReadUint64;
  if maxTxPerEntry <? txCount
  then fail (ErrFmt "tx count exceeds limit" [AZ txCount; AZ maxTxPerEntry]) else
  txs ← for_range (Z.to_nat txCount) 0 (λ j, wrap "tx" [AZ j] DecodeTransaction);
  mret (mkEntry n (copy_array 32 hb) txs).

Definition DecodeEntry : Dec Entry := decodeEntryInto.

Definition decode_entries : Dec (list Entry) :=
  entryCount ← wrap "solana: entries: count" [] ReadUint64;
  if maxEntriesPerDecode <? entryCount
  then fail (ErrFmt "solana: entries: count exceeds limit" [AZ entryCount; AZ maxEntriesPerDecode]) else
  for_range (Z.to_nat entryCount) 0 (λ i, wrap "solana: entries: entry" [AZ i] decodeEntryInto).

Definition DecodeEntries (data : bytes) : result (list Entry) :=
  match decode_entries (NewDecoder data) with
  | (Ok entries, d) =>
      let r := Remaining d in
      if negb (r =? 0)
      then Err (ErrFmt "solana: entries: trailing bytes" [AZ r])
      else Ok entries
  | (Err e, _) => Err e
  | (Panic w, _) => Panic w
  end.
