(* ===== verification/TransactionCodec.v ===== *)
(** * The transaction codec and entry decoding

    [enc_tx] is the wire form of a transaction; [framing] says which byte
    strings [DecodeTransaction] accepts, including the ones [Marshal] never
    produces. *)

From S2P Require Import Prelude Wire Keys Message MessageCodec Transaction.

Definition enc_sigs (sigs : list Signature) : bytes := flat_map (λ s, s) sigs.

Definition enc_legacy (tx : Transaction) : bytes :=
  shortvec (zlen (Signatures tx)) ++ enc_sigs (Signatures tx) ++ enc_message (TxMessage tx).

Definition enc_suffix (tx : Transaction) : bytes :=
  enc_message (TxMessage tx) ++ enc_sigs (Signatures tx).

Definition enc_tx (tx : Transaction) : bytes :=
  if Version (TxMessage tx) =? MessageVersion1 then enc_suffix tx else enc_legacy tx.

(** A signature count whose compact-u16 starts with the v1 prefix byte. *)
Definition looks_v1 (n : Z) : bool := (128 <=? n) && (n `mod` 128 =? 1).

Definition wf_slots (tx : Transaction) : Prop :=
  wf_message (TxMessage tx) ∧ Forall wf_sig (Signatures tx) ∧ zlen (Signatures tx) ≤ 0xFFFF.

(** A transaction [Marshal] accepts: one slot per required signer. *)
Definition wf_tx (tx : Transaction) : Prop :=
  wf_slots tx ∧ zlen (Signatures tx) = NumRequiredSignatures (Header (TxMessage tx)).

#[export] Instance wf_tx_dec tx : Decision (wf_tx tx).
Proof. unfold wf_tx, wf_slots. apply _. Defined.

(** The byte strings [DecodeTransaction] reads as [tx]. *)
Definition framing (tx : Transaction) (bs : bytes) : Prop :=
  wf_slots tx ∧
  ((Version (TxMessage tx) = MessageVersion1
    ∧ zlen (Signatures tx) = NumRequiredSignatures (Header (TxMessage tx)) ∧ bs = enc_suffix tx)
   ∨ (looks_v1 (zlen (Signatures tx)) = false ∧ bs = enc_legacy tx)).

(** ** First bytes *)

Lemma head_shortvec n :
  is_u 16 n → ∃ b tl, shortvec n = b :: tl ∧ (b =? 0x81) = looks_v1 n.
Proof.
  intros Hn. rewrite shortvec_spec by done. unfold looks_v1, is_u in *.
  destruct (Z.ltb_spec n 128); [|destruct (Z.ltb_spec n 16384)];
    eexists _, _; (split; [reflexivity|]).
  - rewrite (proj2 (Z.leb_gt _ _)) by lia. apply Z.eqb_neq. lia.
  - rewrite (proj2 (Z.leb_le _ _)) by lia.
    destruct (Z.eqb_spec (n `mod` 128) 1); [apply Z.eqb_eq|apply Z.eqb_neq]; lia.
  - rewrite (proj2 (Z.leb_le _ _)) by lia.
    destruct (Z.eqb_spec (n `mod` 128) 1); [apply Z.eqb_eq|apply Z.eqb_neq]; lia.
Qed.

Lemma head_enc_message m :
  wf_message m →
  ∃ b tl, enc_message m = b :: tl ∧ (b =? 0x81) = (Version m =? MessageVersion1).
Proof.
  unfold enc_message, enc_body, enc_header, enc_v1.
  intros [(Hv & Hn & Hwf)|[(Hv & Hwf)|(Hv & Hwf)]]; rewrite Hv; simpl;
    eexists _, _; (split; [reflexivity|]); try done.
  apply Z.eqb_neq. lia.
Qed.

Lemma wf_slots_u16 tx : wf_slots tx → is_u 16 (zlen (Signatures tx)).
Proof. intros (_ & _ & ?). pose proof (zlen_nonneg (Signatures tx)). unfold is_u. lia. Qed.

Lemma wf_message_sigs m : wf_message m → is_u 8 (NumRequiredSignatures (Header m)).
Proof.
  intros [(_ & _ & Hwf)|[(_ & Hwf)|(_ & Hwf)]]; destruct Hwf as ((? & ?) & _); done.
Qed.

(** ** Marshalling *)

Lemma e_buf_sigs sigs e :
  e_buf (fold_left (λ e s, WriteBytes s e) sigs e) = e_buf e ++ enc_sigs sigs.
Proof. by apply (e_buf_fold WriteBytes (λ k, k)). Qed.

Lemma Transaction_Marshal_enc tx : wf_tx tx → Transaction_Marshal tx = Ok (enc_tx tx).
Proof.
  intros [Hwf Hn]. pose proof (wf_slots_u16 _ Hwf). destruct Hwf as (Hm & _ & Hlen).
  unfold Transaction_Marshal, enc_tx, enc_legacy, enc_suffix.
  rewrite (proj2 (Z.ltb_ge _ _)), validate_ok, Hn, Z.eqb_refl by done. cbn [mbind result_bind negb].
  destruct (Version (TxMessage tx) =? MessageVersion1).
  - edestruct (marshalInto_ok (TxMessage tx)) as (e & -> & He); [done|].
    cbn [mbind result_bind]. unfold Bytes. by rewrite e_buf_sigs, He.
  - edestruct (marshalInto_ok (TxMessage tx)) as (e & -> & He); [done|].
    cbn [mbind result_bind]. unfold Bytes. rewrite He, e_buf_sigs. autorewrite with enc.
    rewrite <- Hn, wrapU_small by done. app_eq.
Qed.

Lemma zlen_enc_sigs sigs : Forall wf_sig sigs → zlen (enc_sigs sigs) = zlen sigs * 64.
Proof.
  intros Hwf. apply zlen_flat_map_const. intros s Hs.
  rewrite Forall_forall in Hwf. by apply Hwf.
Qed.

Lemma zlen_enc_tx tx : wf_tx tx → zlen (enc_tx tx) = Transaction_SerializedSize tx.
Proof.
  intros [Hwf Hn]. pose proof (wf_slots_u16 _ Hwf). destruct Hwf as (Hm & Hs & Hlen).
  pose proof (wf_message_sigs _ Hm) as Hu. unfold is_u in Hu.
  unfold enc_tx, enc_legacy, enc_suffix, Transaction_SerializedSize, SignatureSize.
  destruct (_ =? _); rewrite !zlen_app, zlen_enc_sigs, zlen_enc_message by done; [lia|].
  rewrite zlen_shortvec by done. unfold svSize.
  destruct (Z.ltb_spec (zlen (Signatures tx)) 128), (Z.leb_spec 128 (zlen (Signatures tx))); try lia.
  rewrite (proj2 (Z.ltb_lt _ 16384)) by lia. lia.
Qed.

(** ** Decoding *)

Lemma dec_spec_decode_signature i : dec_spec (decode_signature i) (λ s bs, wf_sig s ∧ bs = s).
Proof.
  unfold decode_signature. eapply dec_spec_bind; [apply dec_spec_ReadArray|].
  intros k bs [Hk ->] _. apply dec_spec_ret.
  rewrite (wf_array_copy 64) by done. by rewrite app_nil_r.
Qed.

Lemma reads_decode_signature i s : wf_sig s → reads (decode_signature i) s s.
Proof.
  intros [Hlen Hwf]. unfold decode_signature. eapply (reads_eq _ _ (s ++ [])); [|app_eq].
  reads_step s. rewrite (wf_array_copy 64) by done. apply reads_ret.
Qed.

Lemma dec_spec_signatures n :
  is_u 16 n →
  dec_spec (for_range (Z.to_nat n) 0 decode_signature)
    (λ sigs bs, zlen sigs = n ∧ Forall wf_sig sigs ∧ bs = enc_sigs sigs).
Proof.
  intros Hn. eapply dec_spec_weaken; [apply dec_spec_for_range, dec_spec_decode_signature|].
  intros sigs bs (Hlen & Hs & ->). unfold zlen, is_u in *. rewrite Hlen, Z2Nat.id by lia. done.
Qed.

Lemma reads_signatures sigs :
  Forall wf_sig sigs →
  reads (for_range (Z.to_nat (zlen sigs)) 0 decode_signature) (enc_sigs sigs) sigs.
Proof.
  intros Hs. rewrite Forall_forall in Hs. unfold zlen. rewrite Nat2Z.id.
  apply (reads_for_range (λ s, s)). intros. by apply reads_decode_signature, Hs.
Qed.

(** The two branches of [DecodeTransaction], after the peek. *)
Definition decode_suffix : Dec Transaction :=
  msg ← wrap "solana: transaction: message" [] DecodeMessage;
  sigs ← for_range (Z.to_nat (NumRequiredSignatures (Header msg))) 0 decode_signature;
  mret (mkTransaction sigs msg).

Definition decode_legacy : Dec Transaction :=
  sigCount ← wrap "solana: transaction: signatures count" [] ReadShortvec;
  sigs ← for_range (Z.to_nat sigCount) 0 decode_signature;
  msg ← wrap "solana: transaction: message" [] DecodeMessage;
  mret (mkTransaction sigs msg).

Lemma DecodeTransaction_at pre b rest bo :
  DecodeTransaction (at_ pre (b :: rest) bo) =
    if b =? 0x81 then decode_suffix (at_ pre (b :: rest) bo)
    else decode_legacy (at_ pre (b :: rest) bo).
Proof.
  unfold DecodeTransaction.
  erewrite Dec_bind_ok by (apply wrap_ok; by rewrite PeekUint8_at).
  change (Z.lor versionPrefixMask MessageVersion1) with 0x81. by destruct (b =? 0x81).
Qed.

Lemma DecodeTransaction_nil pre bo :
  DecodeTransaction (at_ pre [] bo)
  = (Err (ErrWrap "solana: transaction: version byte" [] ErrShortBuffer), at_ pre [] bo).
Proof.
  apply Dec_bind_err, wrap_err. by rewrite PeekUint8_at.
Qed.

Lemma dec_spec_decode_suffix :
  dec_spec decode_suffix (λ tx bs,
    wf_slots tx ∧ zlen (Signatures tx) = NumRequiredSignatures (Header (TxMessage tx))
    ∧ bs = enc_suffix tx).
Proof.
  unfold decode_suffix.
  eapply dec_spec_bind; [apply dec_spec_wrap, dec_spec_DecodeMessage|]. intros m bs [Hm ->] _.
  pose proof (wf_message_sigs _ Hm) as Hu.
  eapply dec_spec_bind; [apply dec_spec_signatures; by apply (is_u_mono 8)|].
  intros sigs bs (Hlen & Hs & ->) _. apply dec_spec_ret. rewrite app_nil_r.
  unfold wf_slots. simpl. unfold is_u in Hu. repeat split; try done. lia.
Qed.

Lemma dec_spec_decode_legacy :
  dec_spec decode_legacy (λ tx bs, wf_slots tx ∧ bs = enc_legacy tx).
Proof.
  unfold decode_legacy. dec_step.
  eapply dec_spec_bind; [by apply dec_spec_signatures|]. intros sigs bs (Hlen & Hs & ->) _.
  eapply dec_spec_bind; [apply dec_spec_wrap, dec_spec_DecodeMessage|]. intros m bs [Hm ->] _.
  apply dec_spec_ret. unfold wf_slots, enc_legacy. simpl. subst. unfold is_u in *.
  split; [repeat split; try done; lia|app_eq].
Qed.

Lemma dec_spec_DecodeTransaction : dec_spec DecodeTransaction framing.
Proof.
  intros pre rest bo Hwf. destruct rest as [|b rest].
  { rewrite DecodeTransaction_nil. exists [], []. by rewrite (app_nil_r pre). }
  rewrite DecodeTransaction_at. destruct (Z.eqb_spec b 0x81) as [->|Hb].
  - pose proof (dec_spec_decode_suffix pre _ bo Hwf) as Hd.
    destruct (decode_suffix _) as [[tx|e|w] d']; [|done|done].
    destruct Hd as (bs & post & Hbs & -> & Hs & Hn & ->).
    exists (enc_suffix tx), post. split; [done|]. split; [done|]. split; [done|]. left.
    split; [|done]. unfold enc_suffix in Hbs.
    destruct (head_enc_message _ (proj1 Hs)) as (c & tl & Hc & Hv).
    rewrite Hc in Hbs. simplify_list_eq. symmetry in Hv. by apply Z.eqb_eq in Hv.
  - pose proof (dec_spec_decode_legacy pre _ bo Hwf) as Hd.
    destruct (decode_legacy _) as [[tx|e|w] d']; [|done|done].
    destruct Hd as (bs & post & Hbs & -> & Hs & ->).
    exists (enc_legacy tx), post. split; [done|]. split; [done|]. split; [done|]. right.
    split; [|done]. unfold enc_legacy in Hbs.
    destruct (head_shortvec _ (wf_slots_u16 _ Hs)) as (c & tl & Hc & <-).
    rewrite Hc in Hbs. simplify_list_eq. by apply Z.eqb_neq.
Qed.

Lemma reads_decode_suffix tx :
  wf_slots tx → zlen (Signatures tx) = NumRequiredSignatures (Header (TxMessage tx)) →
  reads decode_suffix (enc_suffix tx) tx.
Proof.
  destruct tx as [sigs m]. intros (Hm & Hs & Hlen) Hn. simpl in *.
  eapply (reads_eq _ _ (enc_message m ++ enc_sigs sigs ++ [])); [|unfold enc_suffix; app_eq].
  unfold decode_suffix. eapply reads_bind; [by apply reads_wrap, reads_DecodeMessage| |done].
  rewrite <- Hn. eapply reads_bind; [by apply reads_signatures|apply reads_ret|done].
Qed.

Lemma reads_decode_legacy tx : wf_slots tx → reads decode_legacy (enc_legacy tx) tx.
Proof.
  intros Hwf. pose proof (wf_slots_u16 _ Hwf).
  destruct tx as [sigs m], Hwf as (Hm & Hs & Hlen). simpl in *.
  eapply (reads_eq _ _ (shortvec (zlen sigs) ++ enc_sigs sigs ++ enc_message m ++ []));
    [|unfold enc_legacy; app_eq].
  unfold decode_legacy. reads_step (zlen sigs).
  eapply reads_bind; [by apply reads_signatures| |done].
  eapply reads_bind; [by apply reads_wrap, reads_DecodeMessage|apply reads_ret|done].
Qed.

Lemma reads_DecodeTransaction tx bs : framing tx bs → reads DecodeTransaction bs tx.
Proof.
  intros [Hwf [(Hv & Hn & ->)|[Hl ->]]].
  - destruct (reads_decode_suffix tx Hwf Hn) as [Hb Hr]. split; [done|]. intros pre post bo Hpost.
    specialize (Hr pre post bo Hpost). unfold enc_suffix in *.
    destruct (head_enc_message _ (proj1 Hwf)) as (c & tl & Hc & Hc1).
    rewrite Hc in *. cbn [app] in *. by rewrite DecodeTransaction_at, Hc1, Hv.
  - destruct (reads_decode_legacy tx Hwf) as [Hb Hr]. split; [done|]. intros pre post bo Hpost.
    specialize (Hr pre post bo Hpost). unfold enc_legacy in *.
    destruct (head_shortvec _ (wf_slots_u16 _ Hwf)) as (c & tl & Hc & Hc1).
    rewrite Hc in *. cbn [app] in *. by rewrite DecodeTransaction_at, Hc1, Hl.
Qed.

Lemma framing_nonempty tx bs : framing tx bs → bs ≠ [].
Proof.
  intros [Hwf [(_ & _ & ->)|[_ ->]]].
  - unfold enc_suffix. by destruct (head_enc_message _ (proj1 Hwf)) as (c & tl & -> & _).
  - unfold enc_legacy. by destruct (head_shortvec _ (wf_slots_u16 _ Hwf)) as (c & tl & -> & _).
Qed.

Lemma Transaction_UnmarshalBinary_spec tx0 data :
  wf_bytes data →
  match Transaction_UnmarshalBinary tx0 data with
  | (Ok _, tx) => framing tx data
  | (Err _, tx) => tx = tx0
  | (Panic _, _) => False
  end.
Proof.
  intros Hwf. unfold Transaction_UnmarshalBinary. case_if; [done|].
  pose proof (dec_spec_DecodeTransaction [] data false Hwf) as Hd.
  change (at_ [] data false) with (NewDecoder data) in Hd.
  destruct (DecodeTransaction _) as [[m|e|w] d']; [|done|done].
  destruct Hd as (bs & post & -> & -> & Hm). cbv zeta.
  rewrite Remaining_at. destruct post as [|b post].
  - by rewrite app_nil_r.
  - rewrite zlen_cons. pose proof (zlen_nonneg post).
    by rewrite (proj2 (Z.eqb_neq _ _)) by lia.
Qed.

Lemma Transaction_UnmarshalBinary_framing tx0 tx data :
  framing tx data → Transaction_UnmarshalBinary tx0 data = (Ok (), tx).
Proof.
  intros Hf. unfold Transaction_UnmarshalBinary.
  rewrite zlen_eq_0 by (by eapply framing_nonempty).
  rewrite (reads_run DecodeTransaction _ tx) by (by apply reads_DecodeTransaction).
  cbv zeta. by rewrite Remaining_at.
Qed.

Lemma framing_enc_tx tx :
  wf_tx tx →
  Version (TxMessage tx) = MessageVersion1 ∨ NumRequiredSignatures (Header (TxMessage tx)) ≠ 129 →
  framing tx (enc_tx tx).
Proof.
  intros [Hwf Hn] Hor. split; [done|]. unfold enc_tx.
  destruct (Z.eqb_spec (Version (TxMessage tx)) MessageVersion1) as [Hv|Hv]; [by left|right].
  destruct Hor as [?|Hne]; [done|]. split; [|done]. rewrite Hn.
  pose proof (wf_message_sigs _ (proj1 Hwf)) as Hu. unfold is_u in Hu. unfold looks_v1.
  apply andb_false_iff. destruct (Z.leb_spec 128 (NumRequiredSignatures (Header (TxMessage tx)))); [right|by left].
  apply Z.eqb_neq. intros Hmod. Z.to_euclidean_division_equations. lia.
Qed.

(** ** Entries *)

(** The encodings of a PoH entry: a transaction may have two. *)
Definition enc_entry (e : Entry) (bs : bytes) : Prop :=
  is_u 64 (NumHashes e) ∧ wf_key (Entry_Hash e) ∧ zlen (Transactions e) ≤ maxTxPerEntry ∧
  ∃ parts, Forall2 framing (Transactions e) parts ∧
    bs = le 8 (NumHashes e) ++ Entry_Hash e ++ le 8 (zlen (Transactions e)) ++ concat parts.

Definition enc_entries (es : list Entry) (bs : bytes) : Prop :=
  zlen es ≤ maxEntriesPerDecode ∧
  ∃ parts, Forall2 enc_entry es parts ∧ bs = le 8 (zlen es) ++ concat parts.

Section loops_rel.
Context {A : Type} (R : A → bytes → Prop).

Lemma dec_spec_for_range_rel n i (body : Z → Dec A) :
  (∀ i, dec_spec (body i) R) →
  dec_spec (for_range n i body)
    (λ l bs, length l = n ∧ ∃ parts, Forall2 R l parts ∧ bs = concat parts).
Proof.
  intros Hbody. revert i. induction n as [|n IH]; intros i; simpl.
  { apply dec_spec_ret. split; [done|]. by exists []. }
  eapply dec_spec_bind; [apply Hbody|]. intros a bs1 Ha _.
  eapply dec_spec_bind; [apply IH|]. intros l bs2 (<- & parts & Hl & ->) _.
  apply dec_spec_ret. rewrite app_nil_r. split; [done|]. exists (bs1 :: parts). eauto.
Qed.

Lemma reads_for_range_rel i (body : Z → Dec A) l parts :
  (∀ i a bs, R a bs → reads (body i) bs a) →
  Forall2 R l parts → reads (for_range (length l) i body) (concat parts) l.
Proof.
  intros Hbody Hl. revert i. induction Hl as [|a bs l parts Ha _ IH]; intros i; simpl.
  { apply reads_ret. }
  eapply reads_bind; [by apply Hbody| |done].
  eapply reads_bind; [apply IH|apply reads_ret|by rewrite app_nil_r].
Qed.
End loops_rel.

Lemma dec_spec_decodeEntryInto : dec_spec decodeEntryInto enc_entry.
Proof.
  unfold decodeEntryInto. dec_step.
  eapply dec_spec_bind; [apply dec_spec_ReadArray|]. intros hb bs [Hhb ->] _.
  dec_step. case_if; [apply dec_spec_fail|].
  eapply dec_spec_bind;
    [apply dec_spec_for_range_rel; intros; apply dec_spec_wrap, dec_spec_DecodeTransaction|].
  intros txs bs (Hlen & parts & Htx & ->) _. apply dec_spec_ret.
  unfold enc_entry, zlen, is_u in *. simpl.
  rewrite Hlen, (wf_array_copy 32), Z2Nat.id by (done || lia).
  repeat (split; [done|]). exists parts. split; [done|]. app_eq.
Qed.

Lemma reads_decodeEntryInto e bs : enc_entry e bs → reads decodeEntryInto bs e.
Proof.
  destruct e as [n h txs]. intros (Hn & [Hh Hh'] & Hlen & parts & Htx & ->). simpl in *.
  pose proof (zlen_nonneg txs).
  assert (is_u 64 (zlen txs)) by (unfold is_u, maxTxPerEntry in *; lia).
  eapply (reads_eq _ _ (le 8 n ++ h ++ le 8 (zlen txs) ++ concat parts ++ [])); [|app_eq].
  unfold decodeEntryInto. reads_step n. reads_step h. reads_step (zlen txs).
  rewrite (proj2 (Z.ltb_ge _ _)) by done. unfold zlen. rewrite Nat2Z.id.
  eapply reads_bind; [eapply (reads_for_range_rel framing); [|done]| |done].
  { intros. by apply reads_wrap, reads_DecodeTransaction. }
  rewrite (wf_array_copy 32) by done. apply reads_ret.
Qed.

Lemma dec_spec_decode_entries : dec_spec decode_entries enc_entries.
Proof.
  unfold decode_entries. dec_step. case_if; [apply dec_spec_fail|].
  eapply dec_spec_weaken;
    [apply dec_spec_for_range_rel; intros; apply dec_spec_wrap, dec_spec_decodeEntryInto|].
  intros es bs (Hlen & parts & Hes & ->).
  unfold enc_entries, zlen, is_u in *. rewrite Hlen, Z2Nat.id by lia. eauto.
Qed.

Lemma reads_decode_entries es bs : enc_entries es bs → reads decode_entries bs es.
Proof.
  intros (Hlen & parts & Hes & ->). pose proof (zlen_nonneg es).
  assert (is_u 64 (zlen es)) by (unfold is_u, maxEntriesPerDecode in *; lia).
  unfold decode_entries. reads_step (zlen es).
  rewrite (proj2 (Z.ltb_ge _ _)) by done. unfold zlen. rewrite Nat2Z.id.
  eapply (reads_for_range_rel enc_entry); [|done].
  intros. by apply reads_wrap, reads_decodeEntryInto.
Qed.

Lemma DecodeEntries_spec data :
  wf_bytes data →
  match DecodeEntries data with
  | Ok es => enc_entries es data
  | Err _ => True
  | Panic _ => False
  end.
Proof.
  intros Hwf. unfold DecodeEntries.
  pose proof (dec_spec_decode_entries [] data false Hwf) as Hd.
  change (at_ [] data false) with (NewDecoder data) in Hd.
  destruct (decode_entries _) as [[es|e|w] d']; [|done|done].
  destruct Hd as (bs & post & -> & -> & Hm). cbv zeta.
  rewrite Remaining_at. destruct post as [|b post].
  - by rewrite app_nil_r.
  - rewrite zlen_cons. pose proof (zlen_nonneg post).
    by rewrite (proj2 (Z.eqb_neq _ _)) by lia.
Qed.

(** ** Properties *)

Definition sample_sig (b : Z) : Signature := replicate 64 b.
Definition sample_tx_v0 : Transaction := mkTransaction [sample_sig 5] sample_v0.
Definition sample_tx_v1 : Transaction := mkTransaction [sample_sig 6] sample_v1.

(** A v0 transaction with [n] required signers. *)
Definition many_signers_tx (n : Z) : Transaction :=
  NewTransaction (mkMessage MessageVersion0 (mkHeader n 0 0)
    (replicate (Z.to_nat n) (sample_key 1)) (sample_key 9) [] [] None).

Definition legacy_signers_tx (n : Z) : Transaction :=
  NewTransaction (mkMessage MessageVersionLegacy (mkHeader n 0 0)
    (replicate (Z.to_nat n) (sample_key 1)) (sample_key 9) [] [] None).

(** The transactions that survive the wire. *)
Definition survives (tx : Transaction) : Prop :=
  wf_tx tx ∧ (Version (TxMessage tx) = MessageVersion1 ∨ NumRequiredSignatures (Header (TxMessage tx)) ≠ 129).

Lemma marshalled_signers tx data :
  Transaction_Marshal tx = Ok data → zlen (Signatures tx) = NumRequiredSignatures (Header (TxMessage tx)).
Proof.
  unfold Transaction_Marshal. case_if; [done|]. destruct (validate (TxMessage tx)) as [[]| |]; [|done..].
  cbn [mbind result_bind]. by destruct (Z.eqb_spec (zlen (Signatures tx)) (NumRequiredSignatures (Header (TxMessage tx)))).
Qed.

(** A transaction that marshals and that some bytes are read as survives. *)
Lemma marshalled_framing_survives tx data bs : Transaction_Marshal tx = Ok data → framing tx bs → survives tx.
Proof.
  intros Hn%marshalled_signers [Hs Hf]. split; [by split|]. destruct Hf as [[Hv _]|[Hl _]]; [by left|].
  right. intros H129. rewrite Hn, H129 in Hl. done.
Qed.

(** C3: exactly which transactions survive the wire.  A transaction whose
    message is well formed, with one slot per required signer, marshals, and
    unmarshalling the bytes gives it back, except a legacy or v0 transaction with
    129 signers; well formed asks for values in the range of their Go types,
    lengths within the wire's limits, the fields of the message's version only
    and, of a legacy message, fewer than 128 signers.  Conversely, a transaction
    outside that scope never comes back, also when it marshals. *)
Theorem Transaction_roundtrip (tx0 tx : Transaction) :
  (survives tx →
     ∃ data, Transaction_Marshal tx = Ok data ∧ wf_bytes data ∧ Transaction_UnmarshalBinary tx0 data = (Ok (), tx)) ∧
  (∀ data, Transaction_Marshal tx = Ok data → wf_bytes data →
     Transaction_UnmarshalBinary tx0 data = (Ok (), tx) → survives tx).
Proof.
  split.
  - intros [Hwf Hor]. exists (enc_tx tx). split; [by apply Transaction_Marshal_enc|].
    pose proof (framing_enc_tx tx Hwf Hor) as Hf. split; [by apply (reads_DecodeTransaction tx)|].
    by apply Transaction_UnmarshalBinary_framing.
  - intros data Hm Hb Hu. pose proof (Transaction_UnmarshalBinary_spec tx0 data Hb) as Hf.
    rewrite Hu in Hf. by eapply marshalled_framing_survives.
Qed.

Lemma Transaction_roundtrip_witness :
  ∃ data, Transaction_Marshal sample_tx_v1 = Ok data ∧
    Transaction_UnmarshalBinary sample_tx_v0 data = (Ok (), sample_tx_v1).
Proof.
  destruct (proj1 (Transaction_roundtrip sample_tx_v0 sample_tx_v1)) as (data & Hm & _ & Hu).
  - split; [apply (bool_decide_unpack _); by vm_compute|left; reflexivity].
  - by exists data.
Defined.

(** A legacy transaction with 128 signers or more marshals, and its first
    message byte is then read as a version. *)
Lemma Transaction_roundtrip_legacy_200 :
  let tx := legacy_signers_tx 200 in
  match Transaction_Marshal tx with
  | Ok data => is_ok (Transaction_UnmarshalBinary tx data).1 = false
  | _ => False
  end.
Proof. by vm_compute. Qed.

(** The exception is real.  With 129 signers the compact-u16 count
    starts with the byte 0x81, which the decoder takes for the v1 prefix: a
    transaction [Marshal] accepts does not come back. *)
Theorem Transaction_roundtrip_129 :
  let tx := many_signers_tx 129 in
  wf_tx tx ∧ is_ok (Transaction_Marshal tx) = true ∧
  match Transaction_Marshal tx with
  | Ok data => is_ok (Transaction_UnmarshalBinary tx data).1 = false
  | _ => False
  end.
Proof.
  cbv zeta. split; [apply (bool_decide_unpack _); by vm_compute|]. split; by vm_compute.
Qed.

(** C12: exactly which bytes are accepted, and as what: the wire form of the
    version, or a legacy frame (which may also carry a v1 message).  Hence
    accepted bytes determine every field, and nothing else is accepted. *)
Theorem Transaction_UnmarshalBinary_iff (tx0 tx : Transaction) (data : bytes) :
  wf_bytes data →
  Transaction_UnmarshalBinary tx0 data = (Ok (), tx) ↔ framing tx data.
Proof.
  intros Hwf. split; [|apply Transaction_UnmarshalBinary_framing].
  intros Hu. pose proof (Transaction_UnmarshalBinary_spec tx0 data Hwf) as H. by rewrite Hu in H.
Qed.

Lemma Transaction_UnmarshalBinary_iff_witness :
  Transaction_UnmarshalBinary sample_tx_v1 (enc_tx sample_tx_v0) = (Ok (), sample_tx_v0)
  ↔ framing sample_tx_v0 (enc_tx sample_tx_v0).
Proof.
  apply (Transaction_UnmarshalBinary_iff sample_tx_v1 sample_tx_v0).
  apply (bool_decide_unpack _); by vm_compute.
Defined.

(** [SerializedSize] is the exact length of the marshalled bytes. *)
Theorem Transaction_SerializedSize_exact (tx : Transaction) (data : bytes) :
  wf_tx tx → Transaction_Marshal tx = Ok data → zlen data = Transaction_SerializedSize tx.
Proof.
  intros Hwf. rewrite Transaction_Marshal_enc by done. intros [= <-]. by apply zlen_enc_tx.
Qed.

Lemma Transaction_SerializedSize_exact_witness :
  zlen (enc_tx sample_tx_v0) = Transaction_SerializedSize sample_tx_v0.
Proof.
  apply (Transaction_SerializedSize_exact sample_tx_v0).
  - apply (bool_decide_unpack _); by vm_compute.
  - by vm_compute.
Defined.

(** [DecodeEntries] on untrusted bytes never panics, and what it
    accepts is a vector of entries within the two count limits whose
    encoding is the whole input. *)
Theorem DecodeEntries_sound (data : bytes) :
  wf_bytes data →
  match DecodeEntries data with
  | Ok es => enc_entries es data
  | Err _ => True
  | Panic _ => False
  end.
Proof. apply DecodeEntries_spec. Qed.

Definition sample_entries : bytes :=
  le 8 1 ++ le 8 7 ++ sample_key 3 ++ le 8 2 ++ enc_tx sample_tx_v0 ++ enc_tx sample_tx_v1.

Lemma DecodeEntries_sound_witness :
  is_ok (DecodeEntries sample_entries) = true ∧
  match DecodeEntries sample_entries with
  | Ok es => enc_entries es sample_entries
  | Err _ => True
  | Panic _ => False
  end.
Proof.
  split; [by vm_compute|].
  apply (DecodeEntries_sound sample_entries). apply (bool_decide_unpack _); by vm_compute.
Defined.

(** Conversely every encoding of entries within the limits is decoded
    to those entries. *)
Theorem DecodeEntries_complete (es : list Entry) (data : bytes) :
  enc_entries es data → DecodeEntries data = Ok es.
Proof.
  intros He. unfold DecodeEntries.
  rewrite (reads_run decode_entries _ es) by (by apply reads_decode_entries).
  cbv zeta. by rewrite Remaining_at.
Qed.

Lemma DecodeEntries_complete_witness :
  DecodeEntries (le 8 1 ++ (le 8 7 ++ sample_key 3 ++ le 8 1 ++ enc_tx sample_tx_v0))
  = Ok [mkEntry 7 (sample_key 3) [sample_tx_v0]].
Proof.
  apply (DecodeEntries_complete [mkEntry 7 (sample_key 3) [sample_tx_v0]]).
  split; [by vm_compute|].
  exists [le 8 7 ++ sample_key 3 ++ le 8 1 ++ enc_tx sample_tx_v0].
  split; [|cbn [concat]; by rewrite app_nil_r]. constructor; [|constructor].
  split; [split; by vm_compute|]. split; [apply (bool_decide_unpack _); by vm_compute|].
  split; [by vm_compute|]. exists [enc_tx sample_tx_v0].
  split; [|cbn [concat]; by rewrite app_nil_r]. constructor; [|constructor].
  apply framing_enc_tx; [apply (bool_decide_unpack _); by vm_compute|right; by vm_compute].
Defined.
