(* ===== verification/TransactionSign.v ===== *)
(** * Signing and verifying transactions

    Which slots [Sign] writes, what it leaves alone, when it refuses, and
    that a transaction signed by honest signers passes
    [VerifySignatures]. *)

From S2P Require Import Prelude Wire Keys Message MessageCodec Transaction TransactionCodec.

Definition num_required (tx : Transaction) : nat :=
  Z.to_nat (NumRequiredSignatures (Header (TxMessage tx))).

(** ** The slot index *)

Lemma build_index_None i keys index k :
  k ∉ keys → build_index i keys index !! k = index !! k.
Proof.
  revert i index. induction keys as [|k' keys IH]; intros i index Hk; simpl; [done|].
  rewrite IH by set_solver. apply lookup_insert_ne. set_solver.
Qed.

Lemma build_index_Some i keys index k s :
  k ∈ keys → build_index i keys index !! k = Some s →
  ∃ j : nat, keys !! j = Some k ∧ s = i + Z.of_nat j.
Proof.
  revert i index. induction keys as [|k' keys IH]; intros i index Hk; simpl; [set_solver|].
  intros Hs. destruct (decide (k ∈ keys)) as [Hin|Hnin].
  - destruct (IH _ _ Hin Hs) as (j & Hj & ->). exists (S j). split; [done|lia].
  - assert (k = k') as -> by set_solver. rewrite build_index_None, lookup_insert_eq in Hs by done.
    exists O. simplify_eq. split; [done|lia].
Qed.

Lemma build_index_elem i keys index k :
  k ∈ keys → is_Some (build_index i keys index !! k).
Proof.
  revert i index. induction keys as [|k' keys IH]; intros i index Hk; simpl; [set_solver|].
  destruct (decide (k ∈ keys)) as [Hin|Hnin]; [by apply IH|].
  assert (k = k') as -> by set_solver. rewrite build_index_None, lookup_insert_eq by done. eauto.
Qed.

(** The map [Sign] builds: a required key to one of its positions. *)
Definition slot_index (tx : Transaction) : gmap PublicKey Z :=
  build_index 0 (take (num_required tx) (AccountKeys (TxMessage tx))) ∅.

Lemma slot_index_Some tx k s :
  slot_index tx !! k = Some s →
  ∃ i : nat, (i < num_required tx)%nat ∧ AccountKeys (TxMessage tx) !! i = Some k ∧ s = Z.of_nat i.
Proof.
  unfold slot_index. intros Hs.
  destruct (decide (k ∈ take (num_required tx) (AccountKeys (TxMessage tx)))) as [Hin|Hnin].
  - destruct (build_index_Some _ _ _ _ _ Hin Hs) as (j & Hj & ->).
    apply lookup_take_Some in Hj as [Hj Hlt]. exists j. split; [done|]. split; [done|lia].
  - by rewrite build_index_None, lookup_empty in Hs.
Qed.

Lemma slot_index_None tx k :
  slot_index tx !! k = None ↔ k ∉ take (num_required tx) (AccountKeys (TxMessage tx)).
Proof.
  unfold slot_index. split.
  - intros Hn Hin. destruct (build_index_elem 0 _ ∅ _ Hin) as [? Hs]. congruence.
  - intros Hin. by rewrite build_index_None.
Qed.

Lemma find_slots_spec index signers :
  match find_slots index signers with
  | Ok slots => Forall2 (λ s slot, index !! Signer_PublicKey s = Some slot) signers slots
  | Err _ => ∃ s, s ∈ signers ∧ index !! Signer_PublicKey s = None
  | Panic _ => False
  end.
Proof.
  induction signers as [|s signers IH]; simpl; [constructor|].
  destruct (index !! Signer_PublicKey s) as [slot|] eqn:Hs; [|exists s; split; [left|done]].
  destruct (find_slots index signers); simpl; [by constructor| |done].
  destruct IH as (s' & ? & ?). exists s'. split; [by right|done].
Qed.

Lemma find_slots_Ok index signers slots :
  Forall2 (λ s slot, index !! Signer_PublicKey s = Some slot) signers slots →
  find_slots index signers = Ok slots.
Proof. induction 1 as [|s slot signers slots Hs _ IH]; simpl; [done|]. by rewrite Hs, IH. Qed.

(** ** The signing loop *)

(** The slots after every signer has stored its signature. *)
Inductive signed (msg : bytes) : list Signer → list Z → list Signature → list Signature → Prop :=
| signed_nil sigs : signed msg [] [] sigs sigs
| signed_cons s signers i slots sigs sig sigs' :
    Signer_Sign s msg = Ok sig → (i < length sigs)%nat →
    signed msg signers slots (<[i := sig]> sigs) sigs' →
    signed msg (s :: signers) (Z.of_nat i :: slots) sigs sigs'.

Lemma sign_all_signed msg signers slots sigs sigs' :
  Forall (λ slot, ∃ i : nat, (i < length sigs)%nat ∧ slot = Z.of_nat i) slots →
  length signers = length slots →
  sign_all msg signers slots sigs = (Ok (), sigs') ↔ signed msg signers slots sigs sigs'.
Proof.
  intros Hslots. revert signers sigs Hslots.
  induction slots as [|slot slots IH]; intros [|s signers] sigs Hslots Hlen; try done.
  { simpl. split; [by intros [= ->]; constructor|by inversion 1]. }
  rewrite Forall_cons in Hslots. destruct Hslots as [(i & Hi & ->) Hslots].
  simpl. destruct (Signer_Sign s msg) as [sig|e|w] eqn:Hs.
  2, 3: split; [done|]; inversion 1; congruence.
  rewrite set_at_lt by done. rewrite IH; [| |by simplify_eq/=].
  - split; [by econstructor|]. inversion 1; simplify_eq. congruence.
  - eapply Forall_impl; [exact Hslots|]. intros ? (j & Hj & ->). exists j. by rewrite length_insert.
Qed.

Lemma signed_length msg signers slots sigs sigs' :
  signed msg signers slots sigs sigs' → length sigs' = length sigs.
Proof. induction 1 as [|??????? _ _ _ IH]; [done|]. by rewrite IH, length_insert. Qed.

Lemma signed_untouched msg signers slots sigs sigs' (i : nat) :
  signed msg signers slots sigs sigs' → Z.of_nat i ∉ slots → sigs' !! i = sigs !! i.
Proof.
  induction 1 as [|s signers j slots sigs sig sigs' _ _ _ IH]; intros Hi; [done|].
  rewrite IH by set_solver. apply list_lookup_insert_ne. set_solver.
Qed.

(** A slot holds the signature of the last signer that maps to it. *)
Lemma signed_stored msg signers slots sigs sigs' (i : nat) :
  signed msg signers slots sigs sigs' → Z.of_nat i ∈ slots →
  ∃ (j : nat) s sig, signers !! j = Some s ∧ slots !! j = Some (Z.of_nat i)
    ∧ Signer_Sign s msg = Ok sig ∧ sigs' !! i = Some sig.
Proof.
  induction 1 as [|s signers k slots sigs sig sigs' Hs Hk Hrest IH]; intros Hi; [set_solver|].
  destruct (decide (Z.of_nat i ∈ slots)) as [Hin|Hnin].
  - destruct (IH Hin) as (j & s' & sig' & ? & ? & ? & ?). exists (S j), s', sig'. done.
  - assert (i = k) as -> by set_solver. exists O, s, sig. repeat split; [done|].
    rewrite (signed_untouched _ _ _ _ _ _ Hrest) by done. by apply list_lookup_insert_eq.
Qed.

(** ** [Sign] *)

Definition grown (tx : Transaction) : list Signature :=
  grow (NumRequiredSignatures (Header (TxMessage tx))) (Signatures tx).

Lemma length_grow n sigs : n ≤ zlen (grow n sigs).
Proof.
  unfold grow. destruct (Z.ltb_spec (zlen sigs) n); [|done].
  rewrite zlen_app, zlen_replicate. unfold zlen in *. lia.
Qed.

Lemma grow_id n sigs : n ≤ zlen sigs → grow n sigs = sigs.
Proof. intros. unfold grow. by rewrite (proj2 (Z.ltb_ge _ _)). Qed.

Definition sign_slots (tx : Transaction) (signers : list Signer) (slots : list Z) : Prop :=
  Forall2 (λ s slot, slot_index tx !! Signer_PublicKey s = Some slot) signers slots.

Lemma sign_slots_bound tx signers slots :
  sign_slots tx signers slots →
  Forall (λ slot, ∃ i : nat, (i < length (grown tx))%nat ∧ slot = Z.of_nat i) slots.
Proof.
  intros H. apply Forall_forall. intros slot Hin.
  apply list_elem_of_lookup in Hin as (j & Hj).
  destruct (Forall2_lookup_r _ _ _ _ _ H Hj) as (s & _ & Hs).
  apply slot_index_Some in Hs as (i & Hi & _ & ->). exists i. split; [|done].
  pose proof (length_grow (NumRequiredSignatures (Header (TxMessage tx))) (Signatures tx)).
  fold (grown tx) in H0. unfold num_required, zlen in *. lia.
Qed.

(** When and how [Sign] succeeds. *)
Lemma Sign_Ok tx signers tx' :
  Sign tx signers = (Ok (), tx') ↔
  NumRequiredSignatures (Header (TxMessage tx)) ≠ 0 ∧
  NumRequiredSignatures (Header (TxMessage tx)) ≤ zlen (AccountKeys (TxMessage tx)) ∧
  TxMessage tx' = TxMessage tx ∧
  ∃ slots msg, sign_slots tx signers slots ∧ Marshal (TxMessage tx) = Ok msg ∧
    signed msg signers slots (grown tx) (Signatures tx').
Proof.
  unfold Sign. cbv zeta.
  destruct (Z.eqb_spec (NumRequiredSignatures (Header (TxMessage tx))) 0); [naive_solver|].
  destruct (Z.ltb_spec (zlen (AccountKeys (TxMessage tx)))
    (NumRequiredSignatures (Header (TxMessage tx)))); [naive_solver lia|].
  fold (num_required tx). fold (slot_index tx). fold (grown tx). cbn [Signatures].
  pose proof (find_slots_spec (slot_index tx) signers) as Hslots.
  destruct (find_slots _ _) as [slots|e|w] eqn:Hfs; [| |done].
  2: { split; [done|]. intros (_ & _ & _ & slots & _ & Hs & _). apply find_slots_Ok in Hs. congruence. }
  pose proof (sign_slots_bound _ _ _ Hslots) as Hb. pose proof (Forall2_length _ _ _ Hslots) as Hlen.
  destruct (Marshal (TxMessage tx)) as [msg|e|w]; [|naive_solver|naive_solver].
  destruct (sign_all msg signers slots (grown tx)) as [r sigs] eqn:Hall.
  split.
  - intros [= -> <-]. apply sign_all_signed in Hall; [|done..]. simpl. eauto 10.
  - intros (_ & _ & Hm & slots' & msg' & Hs & Hmsg & Hsig). apply find_slots_Ok in Hs.
    simplify_eq. rewrite Hfs in Hs. simplify_eq. apply sign_all_signed in Hsig; [|done..].
    rewrite Hall in Hsig. simplify_eq. destruct tx' as [sigs' m']. simpl in *. by subst.
Qed.

Lemma signed_app msg s1 s2 l1 l2 a c :
  length s1 = length l1 →
  signed msg (s1 ++ s2) (l1 ++ l2) a c ↔
  ∃ b, signed msg s1 l1 a b ∧ signed msg s2 l2 b c.
Proof.
  revert l1 a. induction s1 as [|s s1 IH]; intros [|l l1] a Hlen; try done; simpl.
  - split; [eauto using signed_nil|]. intros (b & Hb & ?). by inversion Hb; subst.
  - simplify_eq/=. split.
    + inversion 1; subst. destruct (proj1 (IH _ _ Hlen) ltac:(done)) as (b & ? & ?).
      exists b. split; [|done]. by econstructor.
    + intros (b & Hb & ?). inversion Hb; subst. econstructor; [done|done|].
      apply IH; [done|]. eauto.
Qed.

Lemma signed_grown tx signers tx' msg slots :
  TxMessage tx' = TxMessage tx → signed msg signers slots (grown tx) (Signatures tx') →
  grown tx' = Signatures tx'.
Proof.
  intros Hm Hs. apply signed_length in Hs. unfold grown in *. apply grow_id. rewrite Hm.
  pose proof (length_grow (NumRequiredSignatures (Header (TxMessage tx))) (Signatures tx)).
  unfold zlen in *. lia.
Qed.

Lemma Sign_app tx s1 s2 tx'' :
  Sign tx (s1 ++ s2) = (Ok (), tx'') ↔
  ∃ tx', Sign tx s1 = (Ok (), tx') ∧ Sign tx' s2 = (Ok (), tx'').
Proof.
  rewrite Sign_Ok. split.
  - intros (Hn & Hk & Hm & slots & msg & Hslots & Hmsg & Hsig).
    apply Forall2_app_inv_l in Hslots as (l1 & l2 & H1 & H2 & ->).
    apply signed_app in Hsig as (b & Hb & Hc); [|by eapply Forall2_length].
    set (tx' := mkTransaction b (TxMessage tx)). exists tx'.
    assert (Hg : grown tx' = b) by (by apply (signed_grown tx s1 tx' msg l1)).
    rewrite !Sign_Ok. split; [eauto 10|]. repeat (split; [done|]).
    exists l2, msg. rewrite Hg. done.
  - intros (tx' & Htx' & Htx''). apply Sign_Ok in Htx' as (Hn & Hk & Hm & l1 & msg & H1 & Hmsg & Hs1).
    apply Sign_Ok in Htx'' as (_ & _ & Hm' & l2 & msg' & H2 & Hmsg' & Hs2).
    rewrite Hm in Hm', Hmsg'. assert (msg' = msg) as -> by congruence.
    rewrite (signed_grown tx s1 tx' msg l1) in Hs2 by done.
    repeat (split; [done|]). exists (l1 ++ l2), msg. split; [|split; [done|]].
    + apply Forall2_app; [done|]. unfold sign_slots, slot_index, num_required in *. by rewrite Hm in H2.
    + apply signed_app; [by eapply Forall2_length|]. eauto.
Qed.

(** What a successful [Sign] stored, slot by slot. *)
Lemma Sign_slots tx signers tx' :
  Sign tx signers = (Ok (), tx') →
  ∃ msg, Marshal (TxMessage tx) = Ok msg ∧ TxMessage tx' = TxMessage tx
  ∧ length (Signatures tx') = length (grown tx)
  ∧ ∀ i : nat,
      Signatures tx' !! i = grown tx !! i ∨
      ∃ s sig, s ∈ signers ∧ AccountKeys (TxMessage tx) !! i = Some (Signer_PublicKey s)
        ∧ Signer_Sign s msg = Ok sig ∧ Signatures tx' !! i = Some sig.
Proof.
  intros (_ & _ & Hm & slots & msg & Hslots & Hmsg & Hsig)%Sign_Ok.
  exists msg. split; [done|]. split; [done|]. split; [by eapply signed_length|]. intros i.
  destruct (decide (Z.of_nat i ∈ slots)) as [Hin|Hnin]; [right|left; by eapply signed_untouched].
  destruct (signed_stored _ _ _ _ _ _ Hsig Hin) as (j & s & sig & Hj & Hslot & Hs & Hi).
  exists s, sig. split; [by eapply list_elem_of_lookup_2|]. split; [|done].
  edestruct slot_index_Some as (i' & _ & Hk & Heq).
  { exact (Forall2_lookup_lr _ _ _ _ _ _ Hslots Hj Hslot). }
  assert (i = i') as -> by lia. done.
Qed.

(** ** [VerifySignatures] *)

Section verification.
Context `{Ed25519}.

Definition slot_verifies (msg : bytes) (keys : list PublicKey) (sigs : list Signature) (i : nat) : Prop :=
  ∃ sig key, sigs !! i = Some sig ∧ keys !! i = Some key
    ∧ (sig = zero_array 64 ∨ ed25519_Verify key msg sig = true).

Lemma verify_slots_Ok n i msg keys sigs :
  (i + n ≤ length keys)%nat → (i + n ≤ length sigs)%nat →
  verify_slots n (Z.of_nat i) msg keys sigs = Ok () ↔
  ∀ j, (i ≤ j < i + n)%nat → slot_verifies msg keys sigs j.
Proof.
  revert i. induction n as [|n IH]; intros i Hk Hs; simpl; [split; [lia|done]|].
  destruct (lookup_lt_is_Some_2 sigs i) as [sig Hsig]; [lia|].
  destruct (lookup_lt_is_Some_2 keys i) as [key Hkey]; [lia|].
  rewrite (index_at_lookup sigs i sig), (index_at_lookup keys i key) by done.
  cbn [mbind result_bind].
  replace (Z.of_nat i + 1) with (Z.of_nat (S i)) by lia.
  specialize (IH (S i) ltac:(lia) ltac:(lia)).
  assert (Hstep : (∀ j, (i ≤ j < i + S n)%nat → slot_verifies msg keys sigs j) ↔
    slot_verifies msg keys sigs i ∧ ∀ j, (S i ≤ j < S i + n)%nat → slot_verifies msg keys sigs j).
  { split; [intros Hall; split; intros; apply Hall; lia|].
    intros [Hi Hall] j Hj. destruct (decide (j = i)) as [->|]; [done|]. apply Hall; lia. }
  assert (Hi : slot_verifies msg keys sigs i ↔ sig = zero_array 64 ∨ ed25519_Verify key msg sig = true).
  { split; [intros (sig' & key' & ? & ? & ?); by simplify_eq|]. intros. by exists sig, key. }
  rewrite Hstep, Hi, <- IH. unfold Signature_IsZero. clear. case_bool_decide as Hz; [tauto|].
  destruct (ed25519_Verify key msg sig); simpl; [tauto|].
  split; [done|]. intros [[?|?] _]; done.
Qed.

Lemma VerifySignatures_Ok tx :
  VerifySignatures tx = Ok () ↔
  NumRequiredSignatures (Header (TxMessage tx)) ≤ zlen (Signatures tx) ∧
  NumRequiredSignatures (Header (TxMessage tx)) ≤ zlen (AccountKeys (TxMessage tx)) ∧
  ∃ msg, Marshal (TxMessage tx) = Ok msg ∧
    ∀ i, (i < num_required tx)%nat →
      slot_verifies msg (AccountKeys (TxMessage tx)) (Signatures tx) i.
Proof.
  unfold VerifySignatures. cbv zeta.
  destruct (Z.ltb_spec (zlen (Signatures tx)) (NumRequiredSignatures (Header (TxMessage tx)))); [split; [done|intros (? & ? & _); lia]|].
  destruct (Z.ltb_spec (zlen (AccountKeys (TxMessage tx))) (NumRequiredSignatures (Header (TxMessage tx)))); [split; [done|intros (? & ? & _); lia]|].
  destruct (Marshal (TxMessage tx)) as [msg|e|w]; simpl; [|naive_solver|naive_solver].
  fold (num_required tx). change 0 with (Z.of_nat 0).
  rewrite verify_slots_Ok by (unfold num_required, zlen in *; lia).
  split.
  - intros Hall. repeat (split; [done|]). exists msg. split; [done|]. intros. apply Hall. lia.
  - intros (_ & _ & msg' & ? & Hall) j Hj. simplify_eq. apply Hall. lia.
Qed.

(** A signer whose signatures verify under its public key. *)
Definition honest (s : Signer) : Prop :=
  ∀ msg sig, Signer_Sign s msg = Ok sig → ed25519_Verify (Signer_PublicKey s) msg sig = true.

Lemma Sign_Verify tx signers tx' :
  Forall honest signers → VerifySignatures tx = Ok () →
  Sign tx signers = (Ok (), tx') → VerifySignatures tx' = Ok ().
Proof.
  intros Hhonest (Hn & Hk & msg & Hmsg & Hall)%VerifySignatures_Ok Hsign.
  apply Sign_slots in Hsign as (msg' & Hmsg' & Hm & Hlen & Hslots).
  assert (msg' = msg) as -> by congruence.
  assert (Hg : grown tx = Signatures tx) by (by apply grow_id). rewrite Hg in *.
  apply VerifySignatures_Ok. rewrite Hm. unfold zlen in *. rewrite Hlen.
  repeat (split; [done|]). exists msg. split; [done|]. unfold num_required in *. rewrite Hm.
  intros i Hi. destruct (Hall i Hi) as (sig & key & Hsig & Hkey & Hv).
  destruct (Hslots i) as [Heq|(s & sig' & Hin & Hkey' & Hs & Heq)].
  - exists sig, key. by rewrite Heq.
  - simplify_eq. exists sig', (Signer_PublicKey s). repeat (split; [done|]). right.
    rewrite Forall_forall in Hhonest. by apply Hhonest.
Qed.
End verification.

Lemma Sign_no_required_signer tx signers s :
  NumRequiredSignatures (Header (TxMessage tx)) ≠ 0 →
  NumRequiredSignatures (Header (TxMessage tx)) ≤ zlen (AccountKeys (TxMessage tx)) →
  s ∈ signers → Signer_PublicKey s ∉ take (num_required tx) (AccountKeys (TxMessage tx)) →
  ∃ e, Sign tx signers = (Err e, mkTransaction (grown tx) (TxMessage tx)).
Proof.
  intros Hn Hk Hin Hs. apply slot_index_None in Hs.
  unfold Sign. cbv zeta. rewrite (proj2 (Z.eqb_neq _ _)), (proj2 (Z.ltb_ge _ _)) by done.
  fold (num_required tx). fold (slot_index tx). fold (grown tx).
  pose proof (find_slots_spec (slot_index tx) signers) as Hslots.
  destruct (find_slots _ _) as [slots|e|w] eqn:Hfs; [|by exists e|done].
  apply list_elem_of_lookup in Hin as (j & Hj).
  destruct (Forall2_lookup_l _ _ _ _ _ Hslots Hj) as (slot & _ & Hslot). congruence.
Qed.

Lemma signed_total msg signers slots sigs :
  Forall (λ slot, ∃ i : nat, (i < length sigs)%nat ∧ slot = Z.of_nat i) slots →
  length signers = length slots →
  Forall (λ s, is_ok (Signer_Sign s msg) = true) signers →
  ∃ sigs', signed msg signers slots sigs sigs'.
Proof.
  revert signers sigs. induction slots as [|slot slots IH]; intros [|s signers] sigs Hslots Hlen Hok; try done.
  { eauto using signed_nil. }
  rewrite Forall_cons in Hslots. destruct Hslots as [(i & Hi & ->) Hslots].
  rewrite Forall_cons in Hok. destruct Hok as [Hs Hok].
  destruct (Signer_Sign s msg) as [sig|e|w] eqn:Hsig; [|done|done].
  destruct (IH signers (<[i:=sig]> sigs)) as (sigs' & ?).
  - eapply Forall_impl; [exact Hslots|]. intros ? (j & Hj & ->). exists j. by rewrite length_insert.
  - by simplify_eq/=.
  - done.
  - exists sigs'. by econstructor.
Qed.

Lemma find_slots_required tx signers :
  Forall (λ s, Signer_PublicKey s ∈ take (num_required tx) (AccountKeys (TxMessage tx))) signers →
  ∃ slots, sign_slots tx signers slots.
Proof.
  induction 1 as [|s signers Hs _ (slots & IH)]; [by exists []; constructor|].
  destruct (slot_index tx !! Signer_PublicKey s) as [slot|] eqn:Hslot.
  - exists (slot :: slots). by constructor.
  - by apply slot_index_None in Hslot.
Qed.

Lemma Sign_total (tx : Transaction) (signers : list Signer) (msg : bytes) :
  NumRequiredSignatures (Header (TxMessage tx)) ≠ 0 →
  NumRequiredSignatures (Header (TxMessage tx)) ≤ zlen (AccountKeys (TxMessage tx)) →
  Marshal (TxMessage tx) = Ok msg →
  Forall (λ s, Signer_PublicKey s ∈ take (num_required tx) (AccountKeys (TxMessage tx))) signers →
  Forall (λ s, is_ok (Signer_Sign s msg) = true) signers →
  (Sign tx signers).1 = Ok ().
Proof.
  intros Hn Hk Hmsg Hreq Hok. destruct (find_slots_required _ _ Hreq) as (slots & Hslots).
  destruct (signed_total msg signers slots (grown tx)) as (sigs' & Hsig);
    [by eapply sign_slots_bound|by eapply Forall2_length|done|].
  assert (Sign tx signers = (Ok (), mkTransaction sigs' (TxMessage tx))) as ->; [|done].
  apply Sign_Ok. eauto 10.
Qed.

(** Every signer's key has a slot that one of the signers filled. *)
Lemma Sign_filled tx signers tx' :
  Sign tx signers = (Ok (), tx') →
  ∃ msg, Marshal (TxMessage tx) = Ok msg ∧
  ∀ s, s ∈ signers → ∃ (i : nat) s' sig, (i < num_required tx)%nat
      ∧ AccountKeys (TxMessage tx) !! i = Some (Signer_PublicKey s)
      ∧ s' ∈ signers ∧ Signer_PublicKey s' = Signer_PublicKey s
      ∧ Signer_Sign s' msg = Ok sig ∧ Signatures tx' !! i = Some sig.
Proof.
  intros (_ & _ & _ & slots & msg & Hf & Hmsg & Hsig)%Sign_Ok. exists msg. split; [done|]. intros s Hs.
  apply list_elem_of_lookup in Hs as (j & Hj).
  destruct (Forall2_lookup_l _ _ _ _ _ Hf Hj) as (slot & Hslot & Hidx).
  destruct (slot_index_Some _ _ _ Hidx) as (i & Hi & Hkey & ->).
  destruct (signed_stored _ _ _ _ _ i Hsig) as (j' & s' & sig & Hj' & Hslot' & Hs' & Hsig').
  { by eapply list_elem_of_lookup_2. }
  destruct (slot_index_Some _ _ _ (Forall2_lookup_lr _ _ _ _ _ _ Hf Hj' Hslot')) as (i' & _ & Hkey' & Heq).
  assert (i' = i) as -> by lia. exists i, s', sig. repeat (split; [done|]).
  split; [by eapply list_elem_of_lookup_2|]. split; [congruence|done].
Qed.

(** ** Properties *)

(** A signature scheme for the witnesses: the signature is the key followed
    by the length of the message. *)
Definition toy_signature (key msg : bytes) : Signature := copy_array 64 (key ++ [u8 (zlen msg)]).
Definition toy_ed25519 : Ed25519 :=
  {| ed25519_Verify key msg sig := bool_decide (sig = toy_signature key msg) |}.
Definition toy_signer (key : PublicKey) : Signer := mkSigner key (λ msg, Ok (toy_signature key msg)).
Definition sample_unsigned : Transaction := NewTransaction sample_v0.

(** C5: what a successful [Sign] does.  The message is untouched; a slot
    either keeps its (zero-padded) value or holds the signature, over the
    marshalled message, of a signer with exactly that slot's key; and every
    signer's key has a slot so filled. *)
Theorem Sign_fills_slots (tx tx' : Transaction) (signers : list Signer) :
  Sign tx signers = (Ok (), tx') →
  ∃ msg, Marshal (TxMessage tx) = Ok msg ∧ TxMessage tx' = TxMessage tx
  ∧ length (Signatures tx') = length (grown tx)
  ∧ (∀ i : nat,
      Signatures tx' !! i = grown tx !! i ∨
      ∃ s sig, s ∈ signers ∧ AccountKeys (TxMessage tx) !! i = Some (Signer_PublicKey s)
        ∧ Signer_Sign s msg = Ok sig ∧ Signatures tx' !! i = Some sig)
  ∧ ∀ s, s ∈ signers → ∃ (i : nat) s' sig, (i < num_required tx)%nat
      ∧ AccountKeys (TxMessage tx) !! i = Some (Signer_PublicKey s)
      ∧ s' ∈ signers ∧ Signer_PublicKey s' = Signer_PublicKey s
      ∧ Signer_Sign s' msg = Ok sig ∧ Signatures tx' !! i = Some sig.
Proof.
  intros Hsign. pose proof (Sign_slots _ _ _ Hsign) as (msg & Hmsg & Hm & Hlen & Hslots).
  exists msg. repeat (split; [done|]). apply Sign_filled in Hsign as (msg' & Hmsg' & Hfilled).
  by assert (msg' = msg) as -> by congruence.
Qed.

Lemma Sign_fills_slots_witness :
  ∃ msg, Marshal sample_v0 = Ok msg.
Proof.
  destruct (Sign_fills_slots sample_unsigned (Sign sample_unsigned [toy_signer (sample_key 1)]).2
    [toy_signer (sample_key 1)]) as (msg & Hmsg & _); [by vm_compute|]. by exists msg.
Defined.

(** [Sign] succeeds whenever the header is satisfiable, the message
    marshals, every signer is required and none fails. *)
Theorem Sign_succeeds (tx : Transaction) (signers : list Signer) (msg : bytes) :
  NumRequiredSignatures (Header (TxMessage tx)) ≠ 0 →
  NumRequiredSignatures (Header (TxMessage tx)) ≤ zlen (AccountKeys (TxMessage tx)) →
  Marshal (TxMessage tx) = Ok msg →
  Forall (λ s, Signer_PublicKey s ∈ take (num_required tx) (AccountKeys (TxMessage tx))) signers →
  Forall (λ s, is_ok (Signer_Sign s msg) = true) signers →
  (Sign tx signers).1 = Ok ().
Proof. apply Sign_total. Qed.

Lemma Sign_succeeds_witness :
  (Sign sample_unsigned [toy_signer (sample_key 1)]).1 = Ok ().
Proof.
  apply (Sign_succeeds sample_unsigned [toy_signer (sample_key 1)] (enc_message sample_v0));
    try by vm_compute.
  - repeat constructor.
  - repeat constructor.
Defined.

(** C29: a signer that is not required makes [Sign] fail before any
    signature is stored: the slots are only padded to the required count. *)
Theorem Sign_rejects_stranger (tx : Transaction) (signers : list Signer) (s : Signer) :
  NumRequiredSignatures (Header (TxMessage tx)) ≠ 0 →
  NumRequiredSignatures (Header (TxMessage tx)) ≤ zlen (AccountKeys (TxMessage tx)) →
  s ∈ signers → Signer_PublicKey s ∉ take (num_required tx) (AccountKeys (TxMessage tx)) →
  ∃ e, Sign tx signers = (Err e, mkTransaction (grown tx) (TxMessage tx)).
Proof. apply Sign_no_required_signer. Qed.

Lemma Sign_rejects_stranger_witness :
  ∃ e, Sign (mkTransaction [] sample_v0) [toy_signer (sample_key 1); toy_signer (sample_key 2)]
    = (Err e, mkTransaction [zero_array 64] sample_v0).
Proof.
  apply (Sign_rejects_stranger (mkTransaction [] sample_v0)
    [toy_signer (sample_key 1); toy_signer (sample_key 2)] (toy_signer (sample_key 2)));
    try by vm_compute.
  - right. left.
  - apply (bool_decide_unpack _); by vm_compute.
Defined.

(** Signing incrementally is signing at once: a call with two groups of
    signers succeeds exactly when two successive calls do, with the same
    final transaction. *)
Theorem Sign_incremental (tx tx'' : Transaction) (s1 s2 : list Signer) :
  Sign tx (s1 ++ s2) = (Ok (), tx'') ↔
  ∃ tx', Sign tx s1 = (Ok (), tx') ∧ Sign tx' s2 = (Ok (), tx'').
Proof. apply Sign_app. Qed.

(** [VerifySignatures] accepts exactly the transactions that have a slot
    and a key for every required signer, marshal, and whose required slots
    are each unsigned (all zero) or verify under their own key. *)
Theorem VerifySignatures_iff `{Ed25519} (tx : Transaction) :
  VerifySignatures tx = Ok () ↔
  NumRequiredSignatures (Header (TxMessage tx)) ≤ zlen (Signatures tx) ∧
  NumRequiredSignatures (Header (TxMessage tx)) ≤ zlen (AccountKeys (TxMessage tx)) ∧
  ∃ msg, Marshal (TxMessage tx) = Ok msg ∧
    ∀ i, (i < num_required tx)%nat →
      slot_verifies msg (AccountKeys (TxMessage tx)) (Signatures tx) i.
Proof. apply VerifySignatures_Ok. Qed.

(** C4: signing a verified transaction with signers whose signatures verify
    under their keys gives a transaction that still verifies. *)
Theorem Sign_then_VerifySignatures `{Ed25519} (tx tx' : Transaction) (signers : list Signer) :
  Forall honest signers → VerifySignatures tx = Ok () →
  Sign tx signers = (Ok (), tx') → VerifySignatures tx' = Ok ().
Proof. apply Sign_Verify. Qed.

Lemma Sign_then_VerifySignatures_witness :
  @VerifySignatures toy_ed25519 (Sign sample_unsigned [toy_signer (sample_key 1)]).2 = Ok ().
Proof.
  apply (@Sign_then_VerifySignatures toy_ed25519 sample_unsigned _ [toy_signer (sample_key 1)]).
  - constructor; [|constructor]. intros msg sig. cbn. intros [= <-]. by apply bool_decide_eq_true.
  - by vm_compute.
  - by vm_compute.
Defined.
