(* ===== verification/Builder.v ===== *)
(** * Building messages: [message_builder.go], [instruction.go] and [account_meta.go]

    A Go map is a [gmap]; the order in which [range] visits it is the class
    [MapOrder], about which only the language's promise is known: every
    entry once, in an unspecified order.  Pointers to metas and interface
    values may be nil, hence the options. *)

From S2P Require Import Prelude Wire Keys Message Transaction.

(** ** Accounts and instructions *)

Record AccountMeta := mkMeta {
  Meta_PublicKey : PublicKey;
  IsSigner : bool;
  IsWritable : bool;
}.

Definition NewAccountMeta (pk : PublicKey) (isSigner isWritable : bool) : AccountMeta :=
  mkMeta pk isSigner isWritable.
Definition Meta (pubKey : PublicKey) : AccountMeta := mkMeta pubKey false false.
Definition WRITE (m : AccountMeta) : AccountMeta := mkMeta (Meta_PublicKey m) (IsSigner m) true.
Definition SIGNER (m : AccountMeta) : AccountMeta := mkMeta (Meta_PublicKey m) true (IsWritable m).

(** [AccountMetaSlice]: a slice of possibly nil metas. *)
Abbreviation AccountMetaSlice := (list (option AccountMeta)).

Definition Slice_Append (s : AccountMetaSlice) (account : option AccountMeta) : AccountMetaSlice := s ++ [account].
Definition SetAccounts (s accounts : AccountMetaSlice) : method AccountMetaSlice := (Ok (), accounts).
Definition GetAccounts (s : AccountMetaSlice) : list AccountMeta := omap id s.
Definition Slice_Get (s : AccountMetaSlice) (index : Z) : result (option AccountMeta) :=
  if (0 <=? index) && (index <? zlen s) then index_at s index else Ok None.
Definition GetSigners (s : AccountMetaSlice) : list AccountMeta :=
  filter (λ m, IsSigner m = true) (omap id s).
Definition GetKeys (s : AccountMetaSlice) : list PublicKey := Meta_PublicKey <$> omap id s.
Definition Slice_Len (s : AccountMetaSlice) : Z := zlen s.

(** The [Instruction] interface: the values its three methods return. *)
Record Instruction := mkInstruction {
  Ix_ProgramID : PublicKey;
  Ix_Accounts : AccountMetaSlice;
  Ix_Data : result bytes;
}.

Definition NewInstruction (programID : PublicKey) (accounts : AccountMetaSlice) (data : bytes) : Instruction :=
  mkInstruction programID accounts (Ok data).

(** ** Map iteration *)

Class MapOrder := {
  range_map `{Countable K} {A} : gmap K A → list (K * A);
  range_map_perm `{Countable K} {A} (m : gmap K A) : range_map m ≡ₚ map_to_list m;
}.

(** ** The static accounts *)

Record staticEntry := mkStaticEntry {
  pubkey : PublicKey;
  signer : bool;
  writable : bool;
  firstSeen : nat;
}.

Record staticEntries := mkStaticEntries {
  se_m : gmap PublicKey staticEntry;
  counter : nat;
}.

Definition newStaticEntries : staticEntries := mkStaticEntries ∅ 0.

Definition addOrUpdate (pk : PublicKey) (sg wr : bool) (s : staticEntries) : staticEntries :=
  let '(e, counter) :=
    match se_m s !! pk with
    | Some e => (e, counter s)
    | None => (mkStaticEntry pk false false (counter s), S (counter s))
    end in
  let e := mkStaticEntry (pubkey e) (signer e || sg) (writable e || wr) (firstSeen e) in
  mkStaticEntries (<[pk := e]> (se_m s)) counter.

Definition bucketOf (e : staticEntry) : nat :=
  if signer e && writable e then 0%nat
  else if signer e && negb (writable e) then 1%nat
  else if negb (signer e) && writable e then 2%nat
  else 3%nat.

(** The comparison of [sort.SliceStable]. *)
Definition seen_le (a b : staticEntry) : Prop := (firstSeen a ≤ firstSeen b)%nat.
#[export] Instance seen_le_dec : RelDecision seen_le.
Proof. unfold seen_le. intros ??. apply _. Defined.

Section builder.
Context `{MapOrder}.

Definition sorted_bucket (s : staticEntries) (i : nat) : list staticEntry :=
  merge_sort seen_le (filter (λ e, bucketOf e = i) (range_map (se_m s)).*2).

Definition bucketAndOrder (s : staticEntries) : list PublicKey * MessageHeader :=
  let buckets := sorted_bucket s <$> [0; 1; 2; 3]%nat in
  let len i := zlen (sorted_bucket s i) in
  (pubkey <$> concat buckets,
   mkHeader (u8 (len 0%nat + len 1%nat)) (u8 (len 1%nat)) (u8 (len 3%nat))).

(** ** Compiling instructions *)

Fixpoint compile_metas (fnName : string) (keyIndex : gmap PublicKey Z)
    (metas : AccountMetaSlice) : result bytes :=
  match metas with
  | [] => Ok []
  | None :: _ => Panic "nil pointer dereference"
  | Some m :: metas =>
      match keyIndex !! Meta_PublicKey m with
      | None => Err (ErrFmt "solana: account missing from key index" [AS fnName; AB (Meta_PublicKey m)])
      | Some idx =>
          accIdxs ← compile_metas fnName keyIndex metas;
          Ok (u8 idx :: accIdxs)
      end
  end.

Definition compile_instruction (fnName : string) (keyIndex : gmap PublicKey Z)
    (ix : option Instruction) : result CompiledInstruction :=
  match ix with
  | None => Panic "nil pointer dereference"
  | Some ix =>
      match keyIndex !! Ix_ProgramID ix with
      | None => Err (ErrFmt "solana: program id missing from key index" [AS fnName; AB (Ix_ProgramID ix)])
      | Some programIdx =>
          accIdxs ← compile_metas fnName keyIndex (Ix_Accounts ix);
          data ← wrap_result "solana: instruction data" [AS fnName] (Ix_Data ix);
          Ok (mkCompiled (u8 programIdx) accIdxs data)
      end
  end.

Fixpoint compileInstructions (instructions : list (option Instruction))
    (keyIndex : gmap PublicKey Z) (fnName : string) : result (list CompiledInstruction) :=
  match instructions with
  | [] => Ok []
  | ix :: instructions =>
      c ← compile_instruction fnName keyIndex ix;
      compiled ← compileInstructions instructions keyIndex fnName;
      Ok (c :: compiled)
  end.

(** ** [NewMessage] *)

Fixpoint add_metas (metas : AccountMetaSlice) (s : staticEntries) : result staticEntries :=
  match metas with
  | [] => Ok s
  | None :: _ => Err (ErrFmt "solana: NewMessage: nil AccountMeta" [])
  | Some m :: metas => add_metas metas (addOrUpdate (Meta_PublicKey m) (IsSigner m) (IsWritable m) s)
  end.

Fixpoint add_instructions (instructions : list (option Instruction)) (s : staticEntries) : result staticEntries :=
  match instructions with
  | [] => Ok s
  | None :: _ => Err (ErrFmt "solana: NewMessage: nil instruction" [])
  | Some ix :: instructions =>
      s ← add_metas (Ix_Accounts ix) s;
      add_instructions instructions (addOrUpdate (Ix_ProgramID ix) false false s)
  end.

Definition NewMessage (payer : PublicKey) (instructions : list (option Instruction))
    (recentBlockhash : Hash) : result Message :=
  if zlen instructions =? 0 then Err (ErrFmt "solana: NewMessage: no instructions" []) else
  let entries := addOrUpdate payer true true newStaticEntries in
  entries ← add_instructions instructions entries;
  let '(accountKeys, header) := bucketAndOrder entries in
  if 256 <? zlen accountKeys
  then Err (ErrFmt "solana: NewMessage: account keys exceeds Solana maximum of 256" [AZ (zlen accountKeys)]) else
  let keyIndex := build_index 0 accountKeys ∅ in
  compiled ← compileInstructions instructions keyIndex "NewMessage";
  Ok (mkMessage MessageVersionLegacy header accountKeys recentBlockhash compiled [] None).

(** ** [NewMessageV0] *)

Record LoadedAddressLookupTable := mkTable {
  Table_AccountKey : PublicKey;
  Addresses : list PublicKey;
}.

(** [if _, exists := tableIndex[addr]; !exists { ... }] *)
Fixpoint index_addresses (ti si : nat) (addrs : list PublicKey)
    (tableIndex : gmap PublicKey (nat * nat)) : gmap PublicKey (nat * nat) :=
  match addrs with
  | [] => tableIndex
  | addr :: addrs =>
      index_addresses ti (S si) addrs
        (match tableIndex !! addr with
         | Some _ => tableIndex
         | None => <[addr := (ti, si)]> tableIndex
         end)
  end.

Fixpoint index_tables (ti : nat) (tables : list LoadedAddressLookupTable)
    (tableIndex : gmap PublicKey (nat * nat)) : gmap PublicKey (nat * nat) :=
  match tables with
  | [] => tableIndex
  | t :: tables => index_tables (S ti) tables (index_addresses ti 0 (Addresses t) tableIndex)
  end.

Fixpoint collect_signers (metas : AccountMetaSlice) (signerSet : gmap PublicKey bool) : result (gmap PublicKey bool) :=
  match metas with
  | [] => Ok signerSet
  | None :: _ => Err (ErrFmt "solana: NewMessageV0: nil AccountMeta" [])
  | Some m :: metas =>
      collect_signers metas (if IsSigner m then <[Meta_PublicKey m := true]> signerSet else signerSet)
  end.

Fixpoint collect_all_signers (instructions : list (option Instruction)) (signerSet : gmap PublicKey bool) : result (gmap PublicKey bool) :=
  match instructions with
  | [] => Ok signerSet
  | None :: _ => Err (ErrFmt "solana: NewMessageV0: nil instruction" [])
  | Some ix :: instructions =>
      signerSet ← collect_signers (Ix_Accounts ix) signerSet;
      collect_all_signers instructions signerSet
  end.

(** One map from slot to writability per table. *)
Definition addOrUpdateTable (slot : nat * nat) (wr : bool)
    (tableAccounts : list (gmap nat bool)) : result (list (gmap nat bool)) :=
  slots ← index_at tableAccounts (Z.of_nat slot.1);
  let prev := default false (slots !! slot.2) in
  set_at tableAccounts (Z.of_nat slot.1) (<[slot.2 := prev || wr]> slots).

Fixpoint route_metas (tableIndex : gmap PublicKey (nat * nat)) (signerSet : gmap PublicKey bool)
    (metas : AccountMetaSlice) (st : staticEntries * list (gmap nat bool))
    : result (staticEntries * list (gmap nat bool)) :=
  match metas with
  | [] => Ok st
  | None :: _ => Panic "nil pointer dereference"
  | Some m :: metas =>
      let '(entries, tableAccounts) := st in
      st ← (match tableIndex !! Meta_PublicKey m with
            | Some slot =>
                if negb (default false (signerSet !! Meta_PublicKey m))
                then tableAccounts ← addOrUpdateTable slot (IsWritable m) tableAccounts;
                     Ok (entries, tableAccounts)
                else Ok (addOrUpdate (Meta_PublicKey m) (IsSigner m) (IsWritable m) entries, tableAccounts)
            | None => Ok (addOrUpdate (Meta_PublicKey m) (IsSigner m) (IsWritable m) entries, tableAccounts)
            end);
      route_metas tableIndex signerSet metas st
  end.

Fixpoint route_instructions (tableIndex : gmap PublicKey (nat * nat)) (signerSet : gmap PublicKey bool)
    (instructions : list (option Instruction)) (st : staticEntries * list (gmap nat bool))
    : result (staticEntries * list (gmap nat bool)) :=
  match instructions with
  | [] => Ok st
  | None :: _ => Panic "nil pointer dereference"
  | Some ix :: instructions =>
      '(entries, tableAccounts) ← route_metas tableIndex signerSet (Ix_Accounts ix) st;
      route_instructions tableIndex signerSet instructions
        (addOrUpdate (Ix_ProgramID ix) false false entries, tableAccounts)
  end.

(** [emit[ti]] and [perTable[ti]]: the sorted writable and readonly slots of
    a table that is used at all. *)
Definition table_slots (slots : gmap nat bool) : option (list nat * list nat) :=
  if decide (slots = ∅) then None else
  Some (merge_sort Nat.le (filter (λ kv, kv.2 = true) (range_map slots)).*1,
        merge_sort Nat.le (filter (λ kv, kv.2 = false) (range_map slots)).*1).

(** [keyIndex[t.Addresses[s]] = next; next++] for the slots of one table. *)
Fixpoint index_slots (addrs : list PublicKey) (slots : list nat) (st : gmap PublicKey Z * Z)
    : result (gmap PublicKey Z * Z) :=
  match slots with
  | [] => Ok st
  | s :: slots =>
      let '(keyIndex, next) := st in
      addr ← index_at addrs (Z.of_nat s);
      index_slots addrs slots (<[addr := next]> keyIndex, next + 1)
  end.

Fixpoint index_all (sel : list nat * list nat → list nat) (tables : list LoadedAddressLookupTable)
    (perTable : list (option (list nat * list nat))) (st : gmap PublicKey Z * Z)
    : result (gmap PublicKey Z * Z) :=
  match tables, perTable with
  | t :: tables, None :: perTable => index_all sel tables perTable st
  | t :: tables, Some ts :: perTable =>
      st ← index_slots (Addresses t) (sel ts) st;
      index_all sel tables perTable st
  | _, _ => Ok st
  end.

Fixpoint table_lookups (tables : list LoadedAddressLookupTable)
    (perTable : list (option (list nat * list nat))) : list MessageAddressTableLookup :=
  match tables, perTable with
  | t :: tables, None :: perTable => table_lookups tables perTable
  | t :: tables, Some (w, r) :: perTable =>
      mkLookup (Table_AccountKey t) ((λ s, u8 (Z.of_nat s)) <$> w) ((λ s, u8 (Z.of_nat s)) <$> r)
      :: table_lookups tables perTable
  | _, _ => []
  end.

Definition NewMessageV0 (payer : PublicKey) (instructions : list (option Instruction))
    (recentBlockhash : Hash) (tables : list LoadedAddressLookupTable) : result Message :=
  if zlen instructions =? 0 then Err (ErrFmt "solana: NewMessageV0: no instructions" []) else
  let tableIndex := index_tables 0 tables ∅ in
  signerSet ← collect_all_signers instructions {[payer := true]};
  let entries := addOrUpdate payer true true newStaticEntries in
  '(entries, tableAccounts) ←
    route_instructions tableIndex signerSet instructions (entries, replicate (length tables) ∅);
  let '(staticKeys, header) := bucketAndOrder entries in
  if 256 <? zlen staticKeys
  then Err (ErrFmt "solana: NewMessageV0: static account keys exceeds maximum of 256" [AZ (zlen staticKeys)]) else
  let keyIndex := build_index 0 staticKeys ∅ in
  let perTable := table_slots <$> tableAccounts in
  st ← index_all fst tables perTable (keyIndex, zlen staticKeys);
  '(keyIndex, next) ← index_all snd tables perTable st;
  if 256 <? next
  then Err (ErrFmt "solana: NewMessageV0: total accounts (static + lookup) exceeds maximum of 256" [AZ next]) else
  let lookups := table_lookups tables perTable in
  compiled ← compileInstructions instructions keyIndex "NewMessageV0";
  Ok (mkMessage MessageVersion0 header staticKeys recentBlockhash compiled lookups None).

(** ** The transaction constructors of [transaction.go] *)

Definition NewTransactionFromInstructions (instructions : list (option Instruction))
    (recentBlockhash : Hash) (payer : PublicKey) : result Transaction :=
  msg ← NewMessage payer instructions recentBlockhash; Ok (NewTransaction msg).

Definition NewTransactionFromInstructionsV0 (instructions : list (option Instruction))
    (recentBlockhash : Hash) (payer : PublicKey) (tables : list LoadedAddressLookupTable) : result Transaction :=
  msg ← NewMessageV0 payer instructions recentBlockhash tables; Ok (NewTransaction msg).
End builder.
