(* ===== verification/StaticAccounts.v ===== *)
(** * The static account collector refined by an ordered list

    [staticEntries] is a Go map plus a counter, and [bucketAndOrder] walks
    the map in an unspecified order.  Here it is shown to implement an
    ordered list of accounts in first-seen order: the iteration order never
    shows in the result. *)

From S2P Require Import Prelude Wire Keys Message Transaction Builder.

(** ** The abstract collector *)

Definition mention : Type := PublicKey * (bool * bool).

Definition update (pk : PublicKey) (sg wr : bool) (e : staticEntry) : staticEntry :=
  if decide (pubkey e = pk)
  then mkStaticEntry (pubkey e) (signer e || sg) (writable e || wr) (firstSeen e)
  else e.

Definition add_static (x : mention) (l : list staticEntry) : list staticEntry :=
  let '(pk, (sg, wr)) := x in
  if decide (pk ∈ pubkey <$> l) then update pk sg wr <$> l
  else l ++ [mkStaticEntry pk sg wr (length l)].

Definition static_list (xs : list mention) : list staticEntry :=
  foldl (λ l x, add_static x l) [] xs.

(** The four role buckets, each in first-seen order. *)
Definition bucket (i : nat) (l : list staticEntry) : list staticEntry :=
  filter (λ e, bucketOf e = i) l.

Definition ordered (l : list staticEntry) : list staticEntry :=
  bucket 0 l ++ bucket 1 l ++ bucket 2 l ++ bucket 3 l.

(** ** The representation *)

Record rep (l : list staticEntry) (s : staticEntries) : Prop := {
  rep_nodup : NoDup (pubkey <$> l);
  rep_counter : counter s = length l;
  rep_seen : ∀ i e, l !! i = Some e → firstSeen e = i;
  rep_lookup : ∀ pk e, se_m s !! pk = Some e ↔ e ∈ l ∧ pubkey e = pk;
}.

Lemma rep_new : rep [] newStaticEntries.
Proof.
  split; [constructor|done|done|]. intros pk e. simpl. rewrite lookup_empty. set_solver.
Qed.

Lemma pubkey_update pk sg wr e : pubkey (update pk sg wr e) = pubkey e.
Proof. unfold update. by case_decide. Qed.

Lemma pubkeys_update pk sg wr (l : list staticEntry) : pubkey <$> (update pk sg wr <$> l) = pubkey <$> l.
Proof. rewrite <- list_fmap_compose. apply list_fmap_ext. intros. apply pubkey_update. Qed.

Lemma rep_add pk sg wr l s : rep l s → rep (add_static (pk, (sg, wr)) l) (addOrUpdate pk sg wr s).
Proof.
  intros [Hnd Hc Hseen Hlk]. unfold addOrUpdate, add_static.
  destruct (se_m s !! pk) as [e|] eqn:He.
  - apply Hlk in He as Hin. destruct Hin as [Hin <-].
    rewrite decide_True by (by apply list_elem_of_fmap_2). split; simpl.
    + by rewrite pubkeys_update.
    + by rewrite length_fmap.
    + intros i e'. rewrite list_lookup_fmap. intros (e0 & He0 & ->)%fmap_Some.
      apply Hseen in He0. unfold update. by case_decide.
    + intros pk' e'. destruct (decide (pubkey e = pk')) as [<-|Hne].
      * rewrite lookup_insert_eq, list_elem_of_fmap. split.
        -- intros [= <-]. split; [|done]. exists e. split; [|done]. unfold update. by rewrite decide_True.
        -- intros [(e0 & -> & He0) Hpk]. rewrite pubkey_update in Hpk.
           assert (e0 = e) as ->.
           { assert (se_m s !! pubkey e = Some e0) as H0 by (by apply Hlk). congruence. }
           unfold update. by rewrite decide_True.
      * rewrite lookup_insert_ne, Hlk, list_elem_of_fmap by done. split.
        -- intros [He' <-]. split; [|done]. exists e'. split; [|done].
           unfold update. by rewrite decide_False.
        -- intros [(e0 & -> & He0) Hpk]. rewrite pubkey_update in Hpk.
           unfold update. rewrite decide_False by congruence. done.
  - assert (Hnin : pk ∉ pubkey <$> l).
    { intros (e & -> & Hin)%list_elem_of_fmap.
      assert (se_m s !! pubkey e = Some e) by (by apply Hlk). congruence. }
    rewrite decide_False by done. split; simpl.
    + rewrite fmap_app. apply NoDup_app. split; [done|]. split; [set_solver|apply NoDup_singleton].
    + rewrite length_app, Hc. simpl. lia.
    + intros i e [He'|[Hlen He']]%lookup_app_Some; [by apply Hseen|].
      apply list_lookup_singleton_Some in He' as [? <-]. simpl. lia.
    + intros pk' e'. destruct (decide (pk = pk')) as [<-|Hne].
      * rewrite lookup_insert_eq. split.
        -- intros [= <-]. rewrite Hc. split; [set_solver|done].
        -- intros [[Hin|Hin]%elem_of_app Hpk].
           ++ exfalso. apply Hnin. rewrite <- Hpk. by apply list_elem_of_fmap_2.
           ++ apply list_elem_of_singleton in Hin as ->. by rewrite Hc.
      * rewrite lookup_insert_ne, Hlk by done. set_solver.
Qed.

Lemma rep_Permutation `{MapOrder} l s : rep l s → (range_map (se_m s)).*2 ≡ₚ l.
Proof.
  intros [Hnd _ _ Hlk]. rewrite range_map_perm. apply NoDup_Permutation.
  - apply NoDup_fmap_2_strong; [|apply NoDup_map_to_list].
    intros [k1 e1] [k2 e2] H1%elem_of_map_to_list H2%elem_of_map_to_list. simpl. intros ->.
    apply Hlk in H1 as [_ <-]. by apply Hlk in H2 as [_ <-].
  - by eapply NoDup_fmap_1.
  - intros e. rewrite list_elem_of_fmap. split.
    + intros ([k e'] & -> & Hin%elem_of_map_to_list). by apply Hlk in Hin as [? _].
    + intros Hin. exists (pubkey e, e). split; [done|]. apply elem_of_map_to_list. by apply Hlk.
Qed.

(** ** Sorting *)

Lemma StronglySorted_filter {A} (R : relation A) (P : A → Prop) `{∀ x, Decision (P x)} l :
  StronglySorted R l → StronglySorted R (filter P l).
Proof.
  induction 1 as [|a l Hl IH Ha]; [constructor|]. rewrite filter_cons.
  case_decide; [|done]. constructor; [done|]. rewrite Forall_forall in *.
  intros x [_ Hx]%list_elem_of_filter. by apply Ha.
Qed.

Lemma seen_sorted k l :
  (∀ i e, l !! i = Some e → firstSeen e = (k + i)%nat) → StronglySorted seen_le l.
Proof.
  revert k. induction l as [|e l IH]; intros k Hl; constructor.
  - apply (IH (S k)). intros i e' He'. rewrite (Hl (S i)) by done. lia.
  - apply Forall_forall. intros e' (i & Hi)%list_elem_of_lookup. unfold seen_le.
    rewrite (Hl 0%nat e), (Hl (S i) e') by done. lia.
Qed.

#[export] Instance seen_le_total : Total seen_le.
Proof. intros a b. unfold seen_le. lia. Qed.
#[export] Instance seen_le_trans : Transitive seen_le.
Proof. intros a b c. unfold seen_le. lia. Qed.

Lemma sorted_bucket_rep `{MapOrder} l s i : rep l s → sorted_bucket s i = bucket i l.
Proof.
  intros Hrep. pose proof (rep_Permutation _ _ Hrep) as Hperm. destruct Hrep as [_ _ Hseen _].
  assert (Hp : sorted_bucket s i ≡ₚ bucket i l).
  { unfold sorted_bucket, bucket. by rewrite merge_sort_Permutation, Hperm. }
  apply (StronglySorted_unique_strong seen_le); [| | |done].
  - intros e1 e2 H1 H2. rewrite Hp in H1. unfold bucket in *.
    apply list_elem_of_filter in H1 as [_ (i1 & H1)%list_elem_of_lookup].
    apply list_elem_of_filter in H2 as [_ (i2 & H2)%list_elem_of_lookup].
    unfold seen_le. rewrite (Hseen _ _ H1), (Hseen _ _ H2). intros. assert (i1 = i2) as -> by lia. congruence.
  - apply (StronglySorted_merge_sort seen_le).
  - apply StronglySorted_filter. by apply (seen_sorted 0).
Qed.

(** [bucketAndOrder] refines the abstract ordering, whatever order the map
    is walked in. *)
Definition role_header (l : list staticEntry) : MessageHeader :=
  mkHeader (u8 (zlen (bucket 0 l) + zlen (bucket 1 l))) (u8 (zlen (bucket 1 l))) (u8 (zlen (bucket 3 l))).

Lemma bucketAndOrder_rep `{MapOrder} l s :
  rep l s → bucketAndOrder s = (pubkey <$> ordered l, role_header l).
Proof.
  intros Hrep. unfold bucketAndOrder, ordered, role_header. simpl.
  rewrite !(sorted_bucket_rep l s _ Hrep). by rewrite app_nil_r.
Qed.

Lemma ordered_Permutation l : ordered l ≡ₚ l.
Proof.
  unfold ordered, bucket. induction l as [|e l IH]; [done|]. rewrite !filter_cons.
  assert (Hb : bucketOf e = 0%nat ∨ bucketOf e = 1%nat ∨ bucketOf e = 2%nat ∨ bucketOf e = 3%nat).
  { unfold bucketOf. destruct (signer e), (writable e); simpl; auto. }
  etrans; [|exact (perm_skip e IH)].
  destruct Hb as [-> |[-> |[-> | ->]]]; repeat (case_decide; [|try done]); try done; simpl;
    by rewrite <- ?(assoc_L (++)), <- ?Permutation_middle.
Qed.

(** ** What the abstract list contains *)

Lemma static_list_snoc xs x : static_list (xs ++ [x]) = add_static x (static_list xs).
Proof. unfold static_list. by rewrite foldl_app. Qed.

Lemma pubkeys_add_static x l :
  pubkey <$> add_static x l =
    if decide (x.1 ∈ pubkey <$> l) then pubkey <$> l else (pubkey <$> l) ++ [x.1].
Proof.
  destruct x as (pk & sg & wr). unfold add_static. simpl. case_decide.
  - apply pubkeys_update.
  - by rewrite fmap_app.
Qed.

Lemma static_list_keys xs k : k ∈ pubkey <$> static_list xs ↔ k ∈ xs.*1.
Proof.
  induction xs as [|x xs IH] using rev_ind; [done|].
  rewrite static_list_snoc, pubkeys_add_static, fmap_app. case_decide; set_solver.
Qed.

(** Some mention of [k] satisfies [f]. *)
Definition mentioned (f : mention → bool) (xs : list mention) (k : PublicKey) : bool :=
  existsb (λ x, bool_decide (x.1 = k) && f x) xs.

Definition as_signer (x : mention) : bool := x.2.1.
Definition as_writable (x : mention) : bool := x.2.2.

Lemma mentioned_app f xs ys k : mentioned f (xs ++ ys) k = mentioned f xs k || mentioned f ys k.
Proof. apply existsb_app. Qed.

Lemma mentioned_none f xs k : k ∉ xs.*1 → mentioned f xs k = false.
Proof.
  induction xs as [|x xs IH]; intros Hk; simpl; [done|].
  rewrite bool_decide_eq_false_2 by set_solver. apply IH. set_solver.
Qed.

Lemma mentioned_true f xs k : mentioned f xs k = true ↔ ∃ x, x ∈ xs ∧ x.1 = k ∧ f x = true.
Proof.
  unfold mentioned. rewrite existsb_exists. split.
  - intros (x & Hin & [Hk Hf]%andb_true_iff). exists x. apply list_elem_of_In in Hin.
    by apply bool_decide_eq_true in Hk.
  - intros (x & Hin & Hk & Hf). exists x. apply list_elem_of_In in Hin. split; [done|].
    by rewrite bool_decide_eq_true_2, Hf.
Qed.

Lemma static_list_roles xs e :
  e ∈ static_list xs →
  signer e = mentioned as_signer xs (pubkey e) ∧ writable e = mentioned as_writable xs (pubkey e).
Proof.
  revert e. induction xs as [|x xs IH] using rev_ind; intros e; [set_solver|].
  rewrite static_list_snoc, !mentioned_app. destruct x as (pk & sg & wr). unfold add_static.
  case_decide as Hpk.
  - intros (e0 & -> & Hin)%list_elem_of_fmap. destruct (IH _ Hin) as [Hs Hw].
    rewrite pubkey_update, <- Hs, <- Hw. unfold update. simpl. rewrite !orb_false_r.
    case_decide as Heq.
    + rewrite !bool_decide_eq_true_2 by done. done.
    + rewrite !bool_decide_eq_false_2 by done. by rewrite !orb_false_r.
  - intros [Hin|Hin]%elem_of_app.
    + destruct (IH _ Hin) as [<- <-]. simpl. rewrite !bool_decide_eq_false_2; [by rewrite !orb_false_r|].
      intros ->. by apply Hpk, list_elem_of_fmap_2.
    + apply list_elem_of_singleton in Hin as ->. simpl.
      rewrite static_list_keys in Hpk. rewrite !mentioned_none by done.
      rewrite bool_decide_eq_true_2 by done. by rewrite !orb_false_r.
Qed.

Lemma static_list_rep xs l s :
  rep l s →
  rep (foldl (λ l x, add_static x l) l xs)
      (foldl (λ s x, addOrUpdate x.1 x.2.1 x.2.2 s) s xs).
Proof.
  revert l s. induction xs as [|(pk & sg & wr) xs IH]; intros l s Hrep; simpl; [done|].
  by apply IH, rep_add.
Qed.

Lemma static_list_head payer xs :
  ∃ e l, static_list ((payer, (true, true)) :: xs) = e :: l
    ∧ pubkey e = payer ∧ signer e = true ∧ writable e = true.
Proof.
  induction xs as [|(pk & sg & wr) xs IH] using rev_ind; [by eexists _, _|].
  rewrite app_comm_cons, static_list_snoc. destruct IH as (e & l & -> & Hpk & Hs & Hw).
  unfold add_static. case_decide; [|by eexists _, _]. simpl.
  eexists _, _. split; [done|]. rewrite pubkey_update. split; [done|].
  unfold update. case_decide; simpl; by rewrite ?Hs, ?Hw.
Qed.

(** ** Positions and roles *)

Lemma bucket_elem i l e : e ∈ bucket i l → bucketOf e = i.
Proof. by intros [? _]%list_elem_of_filter. Qed.

(** Reading the role of a position off a header. *)
Definition signer_position (h : MessageHeader) (i : Z) : bool := i <? NumRequiredSignatures h.
Definition writable_position (h : MessageHeader) (n i : Z) : bool :=
  (i <? NumRequiredSignatures h - NumReadonlySignedAccounts h)
  || ((NumRequiredSignatures h <=? i) && (i <? n - NumReadonlyUnsignedAccounts h)).

Lemma bucketOf_roles e :
  signer e = (bucketOf e <? 2)%nat ∧ writable e = Nat.even (bucketOf e).
Proof. unfold bucketOf. by destruct (signer e), (writable e). Qed.

Lemma zlen_ordered l :
  zlen l = zlen (bucket 0 l) + zlen (bucket 1 l) + zlen (bucket 2 l) + zlen (bucket 3 l).
Proof.
  assert (zlen l = zlen (ordered l)) as -> by (unfold zlen; by rewrite ordered_Permutation).
  unfold ordered. rewrite !zlen_app. lia.
Qed.

Lemma ordered_lookup l i e :
  ordered l !! i = Some e →
  bucketOf e =
    if Z.of_nat i <? zlen (bucket 0 l) then 0%nat
    else if Z.of_nat i <? zlen (bucket 0 l) + zlen (bucket 1 l) then 1%nat
    else if Z.of_nat i <? zlen (bucket 0 l) + zlen (bucket 1 l) + zlen (bucket 2 l) then 2%nat
    else 3%nat.
Proof.
  unfold ordered, zlen. intros [H|[Hl [H|[Hl' [H|[Hl'' H]]%lookup_app_Some]]%lookup_app_Some]]%lookup_app_Some;
    pose proof (lookup_lt_Some _ _ _ H); apply list_elem_of_lookup_2, bucket_elem in H; rewrite H;
    repeat case_if; lia.
Qed.

(** The header counters describe the positions, as long as fewer than 256
    signers keep them from wrapping. *)
Lemma role_header_positions l i e :
  zlen (bucket 0 l) + zlen (bucket 1 l) < 256 → zlen (bucket 3 l) < 256 →
  ordered l !! i = Some e →
  signer_position (role_header l) (Z.of_nat i) = signer e
  ∧ writable_position (role_header l) (zlen l) (Z.of_nat i) = writable e.
Proof.
  intros Hs Hu He. destruct (bucketOf_roles e) as [-> ->].
  rewrite (ordered_lookup _ _ _ He), (zlen_ordered l).
  apply lookup_lt_Some in He.
  assert (Hlen : Z.of_nat (length (ordered l)) = zlen l) by (unfold zlen; by rewrite ordered_Permutation).
  rewrite (zlen_ordered l) in Hlen.
  pose proof (zlen_nonneg (bucket 0 l)). pose proof (zlen_nonneg (bucket 1 l)).
  pose proof (zlen_nonneg (bucket 2 l)). pose proof (zlen_nonneg (bucket 3 l)).
  unfold signer_position, writable_position, role_header. simpl.
  rewrite !wrapU_small by (unfold is_u; lia).
  repeat match goal with
  | |- context [?a <? ?b] => destruct (Z.ltb_spec a b)
  | |- context [?a <=? ?b] => destruct (Z.leb_spec a b)
  end; try lia; by split.
Qed.

(** ** Lists that start with the payer *)

Section payer.
Context (payer : PublicKey) (xs : list mention).
Let l : list staticEntry := static_list ((payer, (true, true)) :: xs).
Let keys : list PublicKey := pubkey <$> ordered l.

Lemma payer_bucket : 0 < zlen (bucket 0 l).
Proof.
  unfold l. destruct (static_list_head payer xs) as (e & r & -> & _ & Hs & Hw).
  unfold bucket. rewrite filter_cons_True by (unfold bucketOf; by rewrite Hs, Hw).
  rewrite zlen_cons. pose proof (zlen_nonneg (filter (λ e, bucketOf e = 0%nat) r)). lia.
Qed.

Lemma payer_first : keys !! 0%nat = Some payer.
Proof.
  unfold keys, l. destruct (static_list_head payer xs) as (e & r & -> & Hpk & Hs & Hw).
  unfold ordered, bucket. rewrite filter_cons_True by (unfold bucketOf; by rewrite Hs, Hw).
  simpl. by rewrite Hpk.
Qed.

Lemma static_keys_NoDup : NoDup keys.
Proof.
  unfold keys. rewrite ordered_Permutation.
  eapply rep_nodup. apply (static_list_rep ((payer, (true, true)) :: xs) []), rep_new.
Qed.

Lemma static_keys_elem k : k ∈ keys ↔ k ∈ ((payer, (true, true)) :: xs).*1.
Proof. unfold keys. rewrite ordered_Permutation. apply static_list_keys. Qed.

Lemma zlen_static_keys : zlen keys = zlen l.
Proof. unfold keys, zlen. by rewrite length_fmap, ordered_Permutation. Qed.

(** How many signers there are, counted on the keys. *)
Lemma signer_count :
  zlen (bucket 0 l) + zlen (bucket 1 l)
  ≤ zlen (filter (λ k, mentioned as_signer ((payer, (true, true)) :: xs) k = true) keys).
Proof.
  rewrite <- zlen_app. unfold keys, ordered. rewrite !fmap_app, !filter_app, !zlen_app.
  assert (Hall : ∀ n, (n < 2)%nat →
    zlen (filter (λ k, mentioned as_signer ((payer, (true, true)) :: xs) k = true) (pubkey <$> bucket n l))
    = zlen (bucket n l)).
  { intros n Hn. unfold zlen. f_equal. rewrite <- (length_fmap pubkey (bucket n _)). f_equal.
    apply filter_all. apply Forall_fmap, Forall_forall. intros e He.
    change (mentioned as_signer ((payer, (true, true)) :: xs) (pubkey e) = true).
    pose proof (bucket_elem _ _ _ He) as Hb. apply list_elem_of_filter in He as [_ He].
    destruct (static_list_roles _ _ He) as [<- _]. destruct (bucketOf_roles e) as [-> _].
    rewrite Hb. by apply Nat.ltb_lt. }
  rewrite !Hall by lia.
  match goal with |- _ ≤ _ + (_ + (zlen ?a + zlen ?b)) => pose proof (zlen_nonneg a); pose proof (zlen_nonneg b) end.
  lia.
Qed.

(** The header describes every position's privileges. *)
Lemma static_positions i k :
  zlen keys ≤ 256 →
  zlen (filter (λ k, mentioned as_signer ((payer, (true, true)) :: xs) k = true) keys) < 256 →
  keys !! i = Some k →
  signer_position (role_header l) (Z.of_nat i) = mentioned as_signer ((payer, (true, true)) :: xs) k ∧
  writable_position (role_header l) (zlen keys) (Z.of_nat i)
    = mentioned as_writable ((payer, (true, true)) :: xs) k.
Proof.
  intros Hlen Hs Hk. pose proof signer_count. pose proof payer_bucket.
  unfold keys in Hk. rewrite list_lookup_fmap in Hk. apply fmap_Some in Hk as (e & He & ->).
  assert (Hin : e ∈ l) by (rewrite <- ordered_Permutation; by eapply list_elem_of_lookup_2).
  destruct (static_list_roles _ _ Hin) as [<- <-].
  rewrite zlen_static_keys in *. apply role_header_positions; [lia| |done].
  rewrite (zlen_ordered l) in Hlen.
  pose proof (zlen_nonneg (bucket 1 l)). pose proof (zlen_nonneg (bucket 2 l)). lia.
Qed.
End payer.
