(* ===== verification/BuilderLegacy.v ===== *)
(** * [NewMessage] is correct

    The compiled message lists every mentioned account once, payer first,
    in role buckets described by the header, and every compiled index
    resolves to the account the instruction named.  [compiled_as] and the
    lemmas on [compileInstructions] are shared with the v0 builder. *)

From S2P Require Import Prelude Wire Keys Message MessageCodec Transaction TransactionCodec TransactionSign Builder StaticAccounts.

(** ** What the instructions mention *)

Definition meta_mention (m : AccountMeta) : mention := (Meta_PublicKey m, (IsSigner m, IsWritable m)).

Definition ix_mentions (ix : Instruction) : list mention :=
  (meta_mention <$> omap id (Ix_Accounts ix)) ++ [(Ix_ProgramID ix, (false, false))].

Definition mentions (payer : PublicKey) (ixs : list (option Instruction)) : list mention :=
  (payer, (true, true)) :: flat_map ix_mentions (omap id ixs).

Definition metas_present (ix : Instruction) : Prop := Forall is_Some (Ix_Accounts ix).

(** No nil instruction and no nil meta. *)
Definition present (ixs : list (option Instruction)) : Prop :=
  Forall (λ ix, match ix with Some ix => metas_present ix | None => False end) ixs.


#[export] Instance metas_present_dec ix : Decision (metas_present ix).
Proof. unfold metas_present. apply _. Defined.
#[export] Instance present_dec ixs : Decision (present ixs).
Proof.
  assert (∀ ix : option Instruction,
    Decision (match ix with Some ix => metas_present ix | None => False end))
    by (intros [?|]; apply _).
  unfold present. apply _.
Defined.


Definition record_mention (s : staticEntries) (x : mention) : staticEntries :=
  addOrUpdate x.1 x.2.1 x.2.2 s.

Lemma add_metas_spec metas s :
  (Forall is_Some metas ∧
     add_metas metas s = Ok (foldl record_mention s (meta_mention <$> omap id metas)))
  ∨ (¬ Forall is_Some metas ∧ ∃ e, add_metas metas s = Err e).
Proof.
  revert s. induction metas as [|[m|] metas IH]; intros s; simpl.
  - left. split; [constructor|done].
  - rewrite Forall_cons.
    destruct (IH (addOrUpdate (Meta_PublicKey m) (IsSigner m) (IsWritable m) s)) as [[? ->]|[? ?]].
    + left. split; [split; [eauto|done]|done].
    + right. tauto.
  - right. rewrite Forall_cons. split; [|eauto]. intros [[? ?] _]. done.
Qed.

Lemma add_instructions_spec ixs s :
  (present ixs ∧
     add_instructions ixs s = Ok (foldl record_mention s (flat_map ix_mentions (omap id ixs))))
  ∨ (¬ present ixs ∧ ∃ e, add_instructions ixs s = Err e).
Proof.
  unfold present. revert s. induction ixs as [|[ix|] ixs IH]; intros s; simpl.
  - left. split; [constructor|done].
  - rewrite Forall_cons. unfold metas_present at 1 3.
    destruct (add_metas_spec (Ix_Accounts ix) s) as [[Hm ->]|[Hm (e & ->)]]; simpl.
    + destruct (IH (addOrUpdate (Ix_ProgramID ix) false false
        (foldl record_mention s (meta_mention <$> omap id (Ix_Accounts ix))))) as [[? ->]|[? ?]].
      * left. split; [done|]. rewrite foldl_app. unfold ix_mentions. by rewrite foldl_app.
      * right. tauto.
    + right. split; [tauto|eauto].
  - right. rewrite Forall_cons. split; [tauto|eauto].
Qed.

(** ** Compiled instructions *)

(** [c] is [ix] with every key replaced by an index into [all]. *)
Definition compiled_as (all : list PublicKey) (ix : option Instruction) (c : CompiledInstruction) : Prop :=
  ∃ ix', ix = Some ix' ∧
    is_u 8 (ProgramIDIndex c) ∧ all !! Z.to_nat (ProgramIDIndex c) = Some (Ix_ProgramID ix') ∧
    Forall2 (λ meta idx, ∃ m, meta = Some m ∧ is_u 8 idx ∧
      all !! Z.to_nat idx = Some (Meta_PublicKey m)) (Ix_Accounts ix') (Accounts c) ∧
    Ix_Data ix' = Ok (Data c).

Section compile.
Context (keyIndex : gmap PublicKey Z) (all : list PublicKey) (fnName : string).

Definition indexes : Prop :=
  ∀ k idx, keyIndex !! k = Some idx → is_u 8 idx ∧ all !! Z.to_nat idx = Some k.

Lemma compile_metas_Ok metas accs :
  indexes → compile_metas fnName keyIndex metas = Ok accs →
  Forall2 (λ meta idx, ∃ m, meta = Some m ∧ is_u 8 idx ∧
      all !! Z.to_nat idx = Some (Meta_PublicKey m)) metas accs.
Proof.
  intros Hidx. revert accs. induction metas as [|[m|] metas IH]; intros accs; simpl; [| |done].
  { intros [= <-]. constructor. }
  destruct (keyIndex !! Meta_PublicKey m) as [idx|] eqn:Hm; [|done].
  destruct (compile_metas fnName keyIndex metas) as [accs'|e|w]; simpl; [|done|done].
  intros [= <-]. destruct (Hidx _ _ Hm) as [Hu Ha]. rewrite wrapU_small by done.
  constructor; [|by apply IH]. eauto.
Qed.

Lemma compileInstructions_Ok ixs cs :
  indexes → compileInstructions ixs keyIndex fnName = Ok cs →
  Forall2 (compiled_as all) ixs cs.
Proof.
  intros Hidx. revert cs. induction ixs as [|ix ixs IH]; intros cs; simpl.
  { intros [= <-]. constructor. }
  destruct (compile_instruction fnName keyIndex ix) as [c|e|w] eqn:Hc; simpl; [|done|done].
  destruct (compileInstructions ixs keyIndex fnName) as [cs'|e|w]; simpl; [|done|done].
  intros [= <-]. constructor; [|by apply IH]. clear IH. unfold compile_instruction in Hc.
  destruct ix as [ix|]; [|done].
  destruct (keyIndex !! Ix_ProgramID ix) as [p|] eqn:Hp; [|done].
  destruct (compile_metas fnName keyIndex (Ix_Accounts ix)) as [accs|e|w] eqn:Ha; simpl in Hc; [|done|done].
  destruct (Ix_Data ix) as [d|e|w] eqn:Hd; simpl in Hc; [|done|done]. simplify_eq.
  destruct (Hidx _ _ Hp) as [Hu Hpa]. exists ix. simpl. rewrite wrapU_small by done.
  repeat (split; [done|]). split; [by apply compile_metas_Ok|done].
Qed.


End compile.

(** The index of a duplicate-free key list. *)
Lemma build_index_indexes keys :
  zlen keys ≤ 256 → indexes (build_index 0 keys ∅) keys.
Proof.
  intros Hlen k idx Hk. destruct (decide (k ∈ keys)) as [Hin|Hnin].
  - destruct (build_index_Some _ _ _ _ _ Hin Hk) as (j & Hj & ->).
    pose proof (lookup_lt_Some _ _ _ Hj). unfold is_u, zlen in *.
    split; [lia|]. by rewrite Z.add_0_l, Nat2Z.id.
  - by rewrite build_index_None, lookup_empty in Hk.
Qed.

(** ** [NewMessage] *)

Section new_message.
Context `{MapOrder}.

(** The static accounts in first-seen order. *)
Definition legacy_static (payer : PublicKey) (ixs : list (option Instruction)) : list staticEntry :=
  static_list (mentions payer ixs).

Lemma legacy_rep payer ixs :
  rep (legacy_static payer ixs)
    (foldl record_mention (addOrUpdate payer true true newStaticEntries) (flat_map ix_mentions (omap id ixs))).
Proof. apply (static_list_rep (mentions payer ixs) []), rep_new. Qed.

Definition account_keys (payer : PublicKey) (ixs : list (option Instruction)) : list PublicKey :=
  pubkey <$> ordered (legacy_static payer ixs).

Lemma account_keys_NoDup payer ixs : NoDup (account_keys payer ixs).
Proof. apply static_keys_NoDup. Qed.

Lemma account_keys_elem payer ixs k : k ∈ account_keys payer ixs ↔ k ∈ (mentions payer ixs).*1.
Proof. apply static_keys_elem. Qed.


(** [NewMessage] in closed form. *)
Lemma NewMessage_eq payer ixs bh :
  ixs ≠ [] → present ixs →
  NewMessage payer ixs bh =
    if 256 <? zlen (account_keys payer ixs)
    then Err (ErrFmt "solana: NewMessage: account keys exceeds Solana maximum of 256"
                [AZ (zlen (account_keys payer ixs))])
    else compiled ← compileInstructions ixs (build_index 0 (account_keys payer ixs) ∅) "NewMessage";
         Ok (mkMessage MessageVersionLegacy (role_header (legacy_static payer ixs))
               (account_keys payer ixs) bh compiled [] None).
Proof.
  intros Hne Hp. unfold NewMessage. rewrite zlen_eq_0 by done.
  destruct (add_instructions_spec ixs (addOrUpdate payer true true newStaticEntries))
    as [[_ ->]|[? _]]; [|done].
  cbn [mbind result_bind]. rewrite (bucketAndOrder_rep (legacy_static payer ixs)) by apply legacy_rep.
  done.
Qed.

Lemma NewMessage_absent payer ixs bh :
  ixs = [] ∨ ¬ present ixs → ∃ e, NewMessage payer ixs bh = Err e.
Proof.
  unfold NewMessage. intros [->|Hp]; [by eexists|].
  destruct ixs as [|ix ixs]; [by eexists|]. rewrite zlen_eq_0 by done.
  destruct (add_instructions_spec (ix :: ixs) (addOrUpdate payer true true newStaticEntries))
    as [[? _]|[_ (e & ->)]]; [done|]. by exists e.
Qed.

Lemma NewMessage_Ok payer ixs bh m :
  NewMessage payer ixs bh = Ok m →
  ixs ≠ [] ∧ present ixs ∧ zlen (account_keys payer ixs) ≤ 256 ∧
  ∃ cs, compileInstructions ixs (build_index 0 (account_keys payer ixs) ∅) "NewMessage" = Ok cs ∧
    m = mkMessage MessageVersionLegacy (role_header (legacy_static payer ixs))
               (account_keys payer ixs) bh cs [] None.
Proof.
  intros Hok. destruct (decide (ixs = [])) as [Hnil|Hne].
  { destruct (NewMessage_absent payer ixs bh) as [e He]; [by left|congruence]. }
  destruct (decide (present ixs)) as [Hp|Hp].
  2: { destruct (NewMessage_absent payer ixs bh) as [e He]; [by right|congruence]. }
  rewrite NewMessage_eq in Hok by done. destruct (Z.ltb_spec 256 (zlen (account_keys payer ixs))); [done|].
  destruct (compileInstructions _ _ _) as [cs|e|w]; simpl in Hok; [|done|done]. simplify_eq. eauto 10.
Qed.

End new_message.

(** ** Roles and wire form of the result *)

Lemma wf_role_header l : wf_header (role_header l).
Proof. unfold wf_header, role_header. simpl. repeat split; apply wrapU_is_u; lia. Qed.

(** Inputs of the Go types whose instructions fit the wire format. *)
Definition wf_instruction (ix : option Instruction) : Prop :=
  match ix with
  | None => True
  | Some ix =>
      wf_key (Ix_ProgramID ix) ∧ zlen (Ix_Accounts ix) ≤ 0xFFFF
      ∧ Forall (λ m, wf_key (Meta_PublicKey m)) (omap id (Ix_Accounts ix))
      ∧ match Ix_Data ix with Ok d => wf_vec d | _ => True end
  end.

#[export] Instance wf_instruction_dec ix : Decision (wf_instruction ix).
Proof.
  destruct ix as [ix|]; unfold wf_instruction; [|apply _].
  destruct (Ix_Data ix); unfold wf_vec; apply _.
Defined.

Lemma wf_mentions payer ixs :
  wf_key payer → Forall wf_instruction ixs → Forall wf_key (mentions payer ixs).*1.
Proof.
  intros Hp Hix. unfold mentions. simpl. constructor; [done|].
  induction Hix as [|[ix|] ixs Hix _ IH]; simpl; [constructor| |done].
  destruct Hix as (Hpid & _ & Hm & _).
  rewrite fmap_app. apply Forall_app_2; [|done]. unfold ix_mentions.
  rewrite fmap_app, <- list_fmap_compose. apply Forall_app_2; [|by apply Forall_singleton].
  by apply Forall_fmap.
Qed.

Lemma compiled_as_wf all ix c :
  wf_instruction ix → compiled_as all ix c → wf_ix c.
Proof.
  intros Hwf (ix' & -> & Hp & _ & Hacc & Hd). destruct Hwf as (_ & Hlen & _ & Hdata).
  rewrite Hd in Hdata. split; [done|]. split; [|done]. split.
  - unfold zlen in *. apply Forall2_length in Hacc. lia.
  - apply Forall_forall. intros idx (j & Hj)%list_elem_of_lookup.
    destruct (Forall2_lookup_r _ _ _ _ _ Hacc Hj) as (meta & _ & m & _ & ? & _). done.
Qed.

Lemma NewMessage_wf `{MapOrder} payer ixs bh m :
  wf_key payer → wf_key bh → Forall wf_instruction ixs → zlen ixs ≤ 0xFFFF →
  NewMessage payer ixs bh = Ok m → NumRequiredSignatures (Header m) < 128 → wf_message m.
Proof.
  intros Hp Hbh Hix Hlen (_ & _ & Hkeys & cs & Hcs & ->)%NewMessage_Ok Hn.
  apply (compileInstructions_Ok _ (account_keys payer ixs)) in Hcs; [|by apply build_index_indexes].
  left. split; [done|]. split; [done|]. unfold wf_body. simpl.
  split; [apply wf_role_header|].
  split.
  { apply Forall_forall. intros k Hk. apply account_keys_elem in Hk.
    pose proof (wf_mentions _ _ Hp Hix) as Hm. rewrite Forall_forall in Hm. by apply Hm. }
  split; [done|]. split; [lia|].
  split; [unfold zlen in *; apply Forall2_length in Hcs; lia|].
  split; [|by repeat split; [|constructor|right]].
  apply Forall_forall. intros c (j & Hj)%list_elem_of_lookup.
  destruct (Forall2_lookup_r _ _ _ _ _ Hcs Hj) as (ix & Hixj & Hc).
  apply list_elem_of_lookup_2 in Hixj. rewrite Forall_forall in Hix. apply (compiled_as_wf (account_keys payer ixs) ix); [by apply Hix|exact Hc].
Qed.

(** ** Properties *)

(** A map order for the witnesses: the one of [map_to_list]. *)
Definition list_order : MapOrder :=
  {| range_map K _ _ A m := map_to_list m; range_map_perm K _ _ A m := reflexivity _ |}.

Definition sample_ixs : list (option Instruction) :=
  [Some (NewInstruction (sample_key 20)
     [Some (NewAccountMeta (sample_key 3) false true); Some (SIGNER (Meta (sample_key 4)));
      Some (NewAccountMeta (sample_key 1) false false)] [1; 2]);
   Some (NewInstruction (sample_key 21) [Some (WRITE (Meta (sample_key 4)))] [])].

(** C6: a compiled message lists the payer first and every mentioned key
    (payer, accounts, program ids) exactly once. *)
Theorem NewMessage_account_keys `{MapOrder} payer ixs bh m :
  NewMessage payer ixs bh = Ok m →
  NoDup (AccountKeys m) ∧ AccountKeys m !! 0%nat = Some payer
  ∧ ∀ k, k ∈ AccountKeys m ↔ k ∈ (mentions payer ixs).*1.
Proof.
  intros (_ & _ & _ & cs & _ & ->)%NewMessage_Ok. simpl.
  split; [apply account_keys_NoDup|]. split; [apply payer_first|]. apply account_keys_elem.
Qed.

Definition sample_built : result Message := @NewMessage list_order (sample_key 1) sample_ixs (sample_key 9).

Lemma NewMessage_account_keys_witness :
  ∃ m, sample_built = Ok m ∧ AccountKeys m !! 0%nat = Some (sample_key 1).
Proof.
  destruct sample_built as [m|e|w] eqn:Hm; [|by vm_compute in Hm..].
  exists m. split; [done|].
  apply (@NewMessage_account_keys list_order (sample_key 1) sample_ixs (sample_key 9) m Hm).
Defined.

(** C7: the header gives every account exactly the privileges some
    instruction asks for (the payer signs and writes): a position is a
    signer, or writable, iff its key is mentioned as such.  With 256 signers
    the count does not fit the header's byte. *)
Theorem NewMessage_privileges `{MapOrder} payer ixs bh m i k :
  NewMessage payer ixs bh = Ok m →
  zlen (filter (λ k, mentioned as_signer (mentions payer ixs) k = true) (AccountKeys m)) < 256 →
  AccountKeys m !! i = Some k →
  signer_position (Header m) (Z.of_nat i) = mentioned as_signer (mentions payer ixs) k ∧
  writable_position (Header m) (zlen (AccountKeys m)) (Z.of_nat i)
    = mentioned as_writable (mentions payer ixs) k.
Proof.
  intros (_ & _ & Hlen & cs & _ & ->)%NewMessage_Ok. by apply static_positions.
Qed.

Lemma NewMessage_privileges_witness :
  ∃ m, sample_built = Ok m ∧ signer_position (Header m) 1 = true ∧ writable_position (Header m) (zlen (AccountKeys m)) 2 = true.
Proof.
  destruct sample_built as [m|e|w] eqn:Hm; [|by vm_compute in Hm..].
  exists m. split; [done|].
  assert (H1 : AccountKeys m !! 1%nat = Some (sample_key 4)) by (vm_compute in Hm; by simplify_eq).
  assert (H2 : AccountKeys m !! 2%nat = Some (sample_key 3)) by (vm_compute in Hm; by simplify_eq).
  assert (Hs : zlen (filter (λ k, mentioned as_signer (mentions (sample_key 1) sample_ixs) k = true) (AccountKeys m)) < 256)
    by (vm_compute in Hm; simplify_eq; by vm_compute).
  split.
  - etrans; [exact (proj1 (@NewMessage_privileges list_order _ _ _ _ 1%nat _ Hm Hs H1))|by vm_compute].
  - etrans; [exact (proj2 (@NewMessage_privileges list_order _ _ _ _ 2%nat _ Hm Hs H2))|by vm_compute].
Defined.

(** C8: every compiled instruction resolves to the instruction it came
    from: its program index and each account index point at the named keys,
    in order, and the data are unchanged. *)
Theorem NewMessage_instructions `{MapOrder} payer ixs bh m :
  NewMessage payer ixs bh = Ok m → Forall2 (compiled_as (AccountKeys m)) ixs (Instructions m).
Proof.
  intros (_ & _ & Hlen & cs & Hcs & ->)%NewMessage_Ok.
  eapply compileInstructions_Ok; [|exact Hcs]. by apply build_index_indexes.
Qed.

Lemma NewMessage_instructions_witness :
  ∃ m, sample_built = Ok m ∧ Forall2 (compiled_as (AccountKeys m)) sample_ixs (Instructions m).
Proof.
  destruct sample_built as [m|e|w] eqn:Hm; [|by vm_compute in Hm..].
  exists m. split; [done|].
  exact (@NewMessage_instructions list_order (sample_key 1) sample_ixs (sample_key 9) m Hm).
Defined.


(** The order in which Go walks the account map is invisible. *)
Lemma NewMessage_order (o1 o2 : MapOrder) payer ixs bh :
  @NewMessage o1 payer ixs bh = @NewMessage o2 payer ixs bh.
Proof.
  destruct (decide (ixs = [])) as [->|Hne]; [done|].
  destruct (decide (present ixs)); [by rewrite !NewMessage_eq|].
  unfold NewMessage. destruct (_ =? 0); [done|].
  destruct (add_instructions_spec ixs (addOrUpdate payer true true newStaticEntries))
    as [[? _]|[_ (e & ->)]]; done.
Qed.

(** From instructions to the wire and back.  The transaction built from
    well-typed instructions with fewer than 128 signers marshals, and
    unmarshals to itself. *)
Theorem NewTransactionFromInstructions_roundtrip `{MapOrder} tx0 payer ixs bh tx :
  wf_key payer → wf_key bh → Forall wf_instruction ixs → zlen ixs ≤ 0xFFFF →
  NewTransactionFromInstructions ixs bh payer = Ok tx →
  NumRequiredSignatures (Header (TxMessage tx)) < 128 →
  ∃ data, Transaction_Marshal tx = Ok data ∧ Transaction_UnmarshalBinary tx0 data = (Ok (), tx).
Proof.
  intros Hp Hbh Hix Hlen Htx Hn. unfold NewTransactionFromInstructions in Htx.
  destruct (NewMessage payer ixs bh) as [m|e|w] eqn:Hm; simpl in Htx; [|done|done]. simplify_eq.
  pose proof (NewMessage_wf _ _ _ _ Hp Hbh Hix Hlen Hm Hn) as Hwf.
  pose proof (wf_message_sigs _ Hwf) as Hu. unfold is_u in Hu.
  assert (Hwt : wf_tx (NewTransaction m)).
  { unfold wf_tx, wf_slots, NewTransaction. simpl. rewrite zlen_replicate, Z2Nat.id by lia.
    split; [|done]. split; [done|]. split; [|lia]. apply Forall_replicate.
    apply (bool_decide_unpack _). by vm_compute. }
  exists (enc_tx (NewTransaction m)). split; [by apply Transaction_Marshal_enc|].
  apply Transaction_UnmarshalBinary_framing, framing_enc_tx; [done|right; simpl in *; lia].
Qed.

Lemma NewTransactionFromInstructions_roundtrip_witness :
  ∃ tx data, @NewTransactionFromInstructions list_order sample_ixs (sample_key 9) (sample_key 1) = Ok tx
    ∧ Transaction_Marshal tx = Ok data ∧ Transaction_UnmarshalBinary sample_tx_v0 data = (Ok (), tx).
Proof.
  destruct (@NewTransactionFromInstructions list_order sample_ixs (sample_key 9) (sample_key 1))
    as [tx|e|w] eqn:Htx; [|by vm_compute in Htx..].
  exists tx.
  assert (Hn : NumRequiredSignatures (Header (TxMessage tx)) < 128) by (vm_compute in Htx; by simplify_eq).
  assert (Hp : wf_key (sample_key 1)) by (apply (bool_decide_unpack _); by vm_compute).
  assert (Hbh : wf_key (sample_key 9)) by (apply (bool_decide_unpack _); by vm_compute).
  assert (Hix : Forall wf_instruction sample_ixs) by (apply (bool_decide_unpack _); by vm_compute).
  assert (Hlen : zlen sample_ixs ≤ 0xFFFF) by (apply (bool_decide_unpack _); by vm_compute).
  destruct (@NewTransactionFromInstructions_roundtrip list_order sample_tx_v0 (sample_key 1) sample_ixs
    (sample_key 9) tx Hp Hbh Hix Hlen Htx Hn) as (data & ? & ?).
  exists data. split; [reflexivity|]. split; assumption.
Defined.
