(* ===== verification/BuilderV0.v ===== *)
(** * [NewMessageV0] is correct

    With address lookup tables, indices run over the static keys, then the
    writable and then the readonly table entries; the theorem to have is
    that they agree with [Message.ResolvedAccountKeys]. *)

From S2P Require Import Prelude Wire Keys Message MessageCodec Transaction TransactionCodec TransactionSign Builder StaticAccounts BuilderLegacy.

(** ** Determinism of the per-table slot lists *)

Definition slots_where (b : bool) (slots : gmap nat bool) : list nat :=
  merge_sort Nat.le (filter (λ kv, kv.2 = b) (map_to_list slots)).*1.

#[export] Instance nat_le_total : Total Nat.le.
Proof. intros a b. unfold Nat.le. lia. Qed.

Lemma merge_sort_Perm_eq (l1 l2 : list nat) :
  l1 ≡ₚ l2 → merge_sort Nat.le l1 = merge_sort Nat.le l2.
Proof.
  intros Hp. apply (StronglySorted_unique Nat.le).
  - apply (StronglySorted_merge_sort Nat.le).
  - apply (StronglySorted_merge_sort Nat.le).
  - by rewrite !merge_sort_Permutation.
Qed.

Lemma table_slots_eq `{MapOrder} slots :
  table_slots slots =
    if decide (slots = ∅) then None else Some (slots_where true slots, slots_where false slots).
Proof.
  unfold table_slots, slots_where. case_decide; [done|].
  do 2 f_equal; apply merge_sort_Perm_eq; by rewrite range_map_perm.
Qed.

(** ** Static mentions *)

Definition routed (tix : gmap PublicKey (nat * nat)) (sset : gmap PublicKey bool) (k : PublicKey) : bool :=
  match tix !! k with Some _ => negb (default false (sset !! k)) | None => false end.

Definition static_ix_mentions tix sset (ix : Instruction) : list mention :=
  (meta_mention <$> filter (λ m, routed tix sset (Meta_PublicKey m) = false) (omap id (Ix_Accounts ix)))
  ++ [(Ix_ProgramID ix, (false, false))].

Lemma route_metas_static tix sset metas s ta s' ta' :
  route_metas tix sset metas (s, ta) = Ok (s', ta') →
  s' = foldl record_mention s
    (meta_mention <$> filter (λ m, routed tix sset (Meta_PublicKey m) = false) (omap id metas)).
Proof.
  revert s ta. induction metas as [|[m|] metas IH]; intros s ta; simpl; [by intros [= -> ->]| |done].
  rewrite filter_cons. destruct (decide (routed tix sset (Meta_PublicKey m) = false)) as [Hr|Hr];
    unfold routed in Hr;
    (destruct (tix !! Meta_PublicKey m) as [slot|];
      [destruct (default false (sset !! Meta_PublicKey m))|]); simpl in *; try done.
  - by apply IH.
  - by apply IH.
  - destruct (addOrUpdateTable _ _ _); simpl; [by apply IH|done|done].
Qed.

Lemma route_instructions_static tix sset ixs s ta s' ta' :
  route_instructions tix sset ixs (s, ta) = Ok (s', ta') →
  s' = foldl record_mention s (flat_map (static_ix_mentions tix sset) (omap id ixs)).
Proof.
  revert s ta. induction ixs as [|[ix|] ixs IH]; intros s ta; simpl; [by intros [= -> ->]| |done].
  destruct (route_metas tix sset (Ix_Accounts ix) (s, ta)) as [[s1 ta1]|e|w] eqn:Hr; simpl; [|done|done].
  apply route_metas_static in Hr as ->. intros Hr. apply IH in Hr as ->.
  rewrite foldl_app. unfold static_ix_mentions. by rewrite foldl_app.
Qed.

(** ** Indexing the table entries *)

Lemma build_index_app i a b index :
  build_index i (a ++ b) index = build_index (i + zlen a) b (build_index i a index).
Proof.
  revert i index. induction a as [|k a IH]; intros i index; simpl.
  { by rewrite Z.add_0_r. }
  rewrite IH, zlen_cons. f_equal. lia.
Qed.

(** The addresses at the given slots of a table. *)
Definition selects (addrs : list PublicKey) (slots : list nat) (keys : list PublicKey) : Prop :=
  Forall2 (λ s k, addrs !! s = Some k) slots keys.

Lemma index_slots_Ok addrs slots index next index' next' :
  index_slots addrs slots (index, next) = Ok (index', next') →
  ∃ keys, selects addrs slots keys ∧ index' = build_index next keys index ∧ next' = next + zlen keys.
Proof.
  revert index next. induction slots as [|s slots IH]; intros index next; simpl.
  { intros [= <- <-]. exists []. split; [constructor|]. change (zlen (@nil PublicKey)) with 0.
    split; [done|lia]. }
  destruct (index_at addrs (Z.of_nat s)) as [addr|e|w] eqn:Ha; simpl; [|done|done].
  intros Hs. apply IH in Hs as (keys & Hk & -> & ->). exists (addr :: keys).
  apply index_at_Some in Ha as [_ Ha]. rewrite Nat2Z.id in Ha.
  split; [by constructor|]. rewrite zlen_cons. split; [done|lia].
Qed.

(** The addresses every table contributes, for one of the two slot lists. *)
Inductive contributes (sel : list nat * list nat → list nat) :
    list LoadedAddressLookupTable → list (option (list nat * list nat)) → list PublicKey → Prop :=
| contributes_nil : contributes sel [] [] []
| contributes_None t tables per keys :
    contributes sel tables per keys → contributes sel (t :: tables) (None :: per) keys
| contributes_Some t tables ts per keys1 keys2 :
    selects (Addresses t) (sel ts) keys1 → contributes sel tables per keys2 →
    contributes sel (t :: tables) (Some ts :: per) (keys1 ++ keys2).

Lemma index_all_Ok sel tables per index next index' next' :
  length per = length tables →
  index_all sel tables per (index, next) = Ok (index', next') →
  ∃ keys, contributes sel tables per keys ∧ index' = build_index next keys index
    ∧ next' = next + zlen keys.
Proof.
  revert per index next. induction tables as [|t tables IH]; intros [|[ts|] per] index next Hlen; try done; simpl.
  - intros [= <- <-]. exists []. split; [constructor|]. change (zlen (@nil PublicKey)) with 0.
    split; [done|lia].
  - destruct (index_slots (Addresses t) (sel ts) (index, next)) as [[index1 next1]|e|w] eqn:Hs; simpl; [|done|done].
    apply index_slots_Ok in Hs as (keys1 & Hk1 & -> & ->). intros Ha.
    apply IH in Ha as (keys2 & Hk2 & -> & ->); [|by simplify_eq/=].
    exists (keys1 ++ keys2). split; [by constructor|]. rewrite build_index_app, zlen_app. split; [done|lia].
  - intros Ha. apply IH in Ha as (keys & Hk & -> & ->); [|by simplify_eq/=].
    exists keys. split; [by constructor|done].
Qed.

(** ** Resolution *)

Definition small_tables (tables : list LoadedAddressLookupTable) : Prop :=
  Forall (λ t, zlen (Addresses t) ≤ 256) tables.

(** The tables as the map [ResolvedAccountKeys] takes. *)
Definition alts (tables : list LoadedAddressLookupTable) : gmap PublicKey (list PublicKey) :=
  list_to_map ((λ t, (Table_AccountKey t, Addresses t)) <$> tables).

Lemma resolve_indexes_selects kind key addrs slots keys :
  zlen addrs ≤ 256 → selects addrs slots keys →
  resolve_indexes kind key addrs ((λ s, u8 (Z.of_nat s)) <$> slots) = Ok keys.
Proof.
  intros Hlen. induction 1 as [|s k slots keys Hk _ IH]; [done|].
  rewrite fmap_cons. cbn [resolve_indexes].
  pose proof (lookup_lt_Some _ _ _ Hk). unfold zlen in *.
  rewrite wrapU_small by (unfold is_u; lia).
  rewrite (proj2 (Z.leb_gt _ _)) by lia. rewrite (index_at_lookup addrs s k) by done.
  cbn [mbind result_bind]. by rewrite IH.
Qed.

Section resolution.
Context (m : gmap PublicKey (list PublicKey)).

(** Every used table is known to [m]. *)
Definition knows (tables : list LoadedAddressLookupTable) : Prop :=
  Forall (λ t, m !! Table_AccountKey t = Some (Addresses t)) tables.

Lemma resolve_writable_contributes tables per keys :
  small_tables tables → knows tables → contributes fst tables per keys →
  resolve_writable m (table_lookups tables per) = Ok keys.
Proof.
  intros Hs Hk Hc. revert Hs Hk. unfold small_tables, knows.
  induction Hc as [|t tables per keys _ IH|t tables [w r] per keys1 keys2 Hsel _ IH];
    rewrite ?Forall_cons; simpl; [done|naive_solver|].
  intros [Hs Hss] [Hk Hks]. rewrite Hk, (resolve_indexes_selects _ _ _ _ keys1) by done.
  cbn [mbind result_bind]. by rewrite IH.
Qed.

Lemma resolve_readonly_contributes tables per keys :
  small_tables tables → knows tables → contributes snd tables per keys →
  resolve_readonly m (table_lookups tables per) = Ok keys.
Proof.
  intros Hs Hk Hc. revert Hs Hk. unfold small_tables, knows.
  induction Hc as [|t tables per keys _ IH|t tables [w r] per keys1 keys2 Hsel _ IH];
    rewrite ?Forall_cons; simpl; [done|naive_solver|].
  intros [Hs Hss] [Hk Hks]. rewrite Hk. simpl. rewrite (resolve_indexes_selects _ _ _ _ keys1) by done.
  cbn [mbind result_bind]. by rewrite IH.
Qed.
End resolution.

Lemma knows_alts tables : NoDup (Table_AccountKey <$> tables) → knows (alts tables) tables.
Proof.
  intros Hnd. apply Forall_forall. intros t Ht. unfold alts. apply elem_of_list_to_map_1.
  - rewrite <- list_fmap_compose. exact Hnd.
  - by apply (list_elem_of_fmap_2 (λ t, (Table_AccountKey t, Addresses t))).
Qed.

Lemma table_lookups_nil tables per sel keys :
  contributes sel tables per keys → table_lookups tables per = [] → keys = [].
Proof. induction 1 as [|t tables per keys _ IH|t tables [w r] per keys1 keys2 _ _ _]; simpl; auto; done. Qed.

(** ** [NewMessageV0] *)

Section new_message_v0.
Context `{MapOrder}.

Lemma addOrUpdateTable_length slot wr ta ta' :
  addOrUpdateTable slot wr ta = Ok ta' → length ta' = length ta.
Proof.
  unfold addOrUpdateTable. destruct (index_at _ _); simpl; [|done|done].
  unfold set_at. case_if; [|done]. intros [= <-]. by rewrite length_insert.
Qed.

Lemma route_metas_length tix sset metas st st' :
  route_metas tix sset metas st = Ok st' → length st'.2 = length st.2.
Proof.
  revert st. induction metas as [|[m|] metas IH]; intros [s ta]; simpl; [by intros [= <-]| |done].
  destruct (tix !! Meta_PublicKey m) as [slot|]; [destruct (negb _)|]; simpl; [|intros Hr; by apply IH in Hr..].
  destruct (addOrUpdateTable slot (IsWritable m) ta) as [ta'|e|w] eqn:Ha; simpl; [|done|done].
  intros Hr. apply IH in Hr as ->. by apply addOrUpdateTable_length in Ha.
Qed.

Lemma route_instructions_length tix sset ixs st st' :
  route_instructions tix sset ixs st = Ok st' → length st'.2 = length st.2.
Proof.
  revert st. induction ixs as [|[ix|] ixs IH]; intros [s ta]; simpl; [by intros [= <-]| |done].
  destruct (route_metas tix sset (Ix_Accounts ix) (s, ta)) as [[s1 ta1]|e|w] eqn:Hr; simpl; [|done|done].
  apply route_metas_length in Hr. intros Hr'. apply IH in Hr'. simpl in *. congruence.
Qed.

(** The static part of a compiled v0 message. *)
Definition v0_static tix sset (payer : PublicKey) (ixs : list (option Instruction)) : list staticEntry :=
  static_list ((payer, (true, true)) :: flat_map (static_ix_mentions tix sset) (omap id ixs)).

Lemma v0_rep tix sset payer ixs :
  rep (v0_static tix sset payer ixs)
    (foldl record_mention (addOrUpdate payer true true newStaticEntries)
      (flat_map (static_ix_mentions tix sset) (omap id ixs))).
Proof.
  apply (static_list_rep ((payer, (true, true)) :: flat_map (static_ix_mentions tix sset) (omap id ixs)) []), rep_new.
Qed.

(** What a successful compilation has computed. *)
Lemma NewMessageV0_Ok payer ixs bh tables m :
  NewMessageV0 payer ixs bh tables = Ok m →
  ∃ sset per W R cs,
    let tix := index_tables 0 tables ∅ in
    let l := v0_static tix sset payer ixs in
    let all := (pubkey <$> ordered l) ++ W ++ R in
    collect_all_signers ixs {[payer := true]} = Ok sset ∧
    contributes fst tables per W ∧ contributes snd tables per R ∧ zlen all ≤ 256 ∧
    compileInstructions ixs (build_index 0 all ∅) "NewMessageV0" = Ok cs ∧
    m = mkMessage MessageVersion0 (role_header l) (pubkey <$> ordered l) bh cs
          (table_lookups tables per) None.
Proof.
  unfold NewMessageV0. destruct (_ =? 0); [done|]. cbv zeta.
  destruct (collect_all_signers ixs {[payer := true]}) as [sset|e|w]; cbn [mbind result_bind]; [|done|done].
  destruct (route_instructions _ _ _ _) as [[s ta]|e|w] eqn:Hr; cbn [mbind result_bind]; [|done|done].
  pose proof (route_instructions_length _ _ _ _ _ Hr) as Hta. simpl in Hta. rewrite length_replicate in Hta.
  apply route_instructions_static in Hr as ->.
  rewrite (bucketAndOrder_rep (v0_static (index_tables 0 tables ∅) sset payer ixs)) by apply v0_rep.
  set (l := v0_static _ _ _ _). set (per := table_slots <$> ta).
  assert (Hper : length per = length tables) by (unfold per; by rewrite length_fmap).
  destruct (256 <? zlen (pubkey <$> ordered l)); [done|].
  destruct (index_all fst tables per _) as [[index1 next1]|e|w] eqn:HW; cbn [mbind result_bind]; [|done|done].
  destruct (index_all snd tables per _) as [[index2 next2]|e|w] eqn:HR; cbn [mbind result_bind]; [|done|done].
  apply index_all_Ok in HW as (W & HcW & -> & ->); [|done].
  apply index_all_Ok in HR as (R & HcR & -> & ->); [|done].
  assert (Hn : zlen (pubkey <$> ordered l) + zlen W + zlen R = zlen ((pubkey <$> ordered l) ++ W ++ R))
    by (rewrite !zlen_app; lia).
  rewrite Hn. destruct (Z.ltb_spec 256 (zlen ((pubkey <$> ordered l) ++ W ++ R))); [done|].
  assert (Hidx : build_index (zlen (pubkey <$> ordered l) + zlen W) R
      (build_index (zlen (pubkey <$> ordered l)) W (build_index 0 (pubkey <$> ordered l) ∅))
    = build_index 0 ((pubkey <$> ordered l) ++ W ++ R) ∅).
  { by rewrite !build_index_app, Z.add_0_l. }
  rewrite Hidx. destruct (compileInstructions _ _ _) as [cs|e|w] eqn:Hcs; cbn [mbind result_bind]; [|done|done].
  intros [= <-]. exists sset, per, W, R, cs. done.
Qed.

Lemma NewMessageV0_resolves payer ixs bh tables m :
  NewMessageV0 payer ixs bh tables = Ok m →
  small_tables tables → NoDup (Table_AccountKey <$> tables) →
  ∃ all, ResolvedAccountKeys m (alts tables) = Ok all ∧ Forall2 (compiled_as all) ixs (Instructions m).
Proof.
  intros (sset & per & W & R & cs & _ & HW & HR & Hlen & Hcs & ->)%NewMessageV0_Ok Hsmall Hnd.
  set (l := v0_static _ _ _ _) in *. exists ((pubkey <$> ordered l) ++ W ++ R).
  pose proof (knows_alts _ Hnd) as Hk. split.
  - unfold ResolvedAccountKeys. simpl. destruct (table_lookups tables per) as [|lk lks] eqn:Hlks.
    + rewrite (table_lookups_nil _ _ _ _ HW Hlks), (table_lookups_nil _ _ _ _ HR Hlks). simpl.
      by rewrite app_nil_r.
    + rewrite zlen_eq_0 by done. rewrite <- Hlks.
      rewrite (resolve_writable_contributes (alts tables) _ _ _ Hsmall Hk HW). cbn [mbind result_bind].
      by rewrite (resolve_readonly_contributes (alts tables) _ _ _ Hsmall Hk HR).
  - eapply compileInstructions_Ok; [|exact Hcs]. by apply build_index_indexes.
Qed.
End new_message_v0.

(** ** Signers stay static *)

Lemma collect_signers_Ok metas sset sset' k :
  collect_signers metas sset = Ok sset' →
  default false (sset' !! k) = default false (sset !! k)
    || mentioned as_signer (meta_mention <$> omap id metas) k.
Proof.
  revert sset. induction metas as [|[m|] metas IH]; intros sset; simpl; [|intros Hc|done].
  { intros [= <-]. by rewrite orb_false_r. }
  apply IH in Hc as ->. unfold as_signer at 2. simpl.
  destruct (IsSigner m) eqn:Hs; [|by rewrite andb_false_r].
  destruct (decide (Meta_PublicKey m = k)) as [<-|Hne].
  - by rewrite lookup_insert_eq, bool_decide_eq_true_2, orb_true_r.
  - by rewrite lookup_insert_ne, bool_decide_eq_false_2.
Qed.

Lemma collect_all_signers_Ok ixs sset sset' k :
  collect_all_signers ixs sset = Ok sset' →
  default false (sset' !! k) = default false (sset !! k)
    || mentioned as_signer (flat_map ix_mentions (omap id ixs)) k.
Proof.
  revert sset. induction ixs as [|[ix|] ixs IH]; intros sset; simpl; [| |done].
  { intros [= <-]. by rewrite orb_false_r. }
  destruct (collect_signers (Ix_Accounts ix) sset) as [sset1|e|w] eqn:Hc; simpl; [|done|done].
  intros Ha. apply IH in Ha as ->. rewrite (collect_signers_Ok _ _ _ k Hc).
  rewrite mentioned_app. unfold ix_mentions. rewrite mentioned_app. simpl.
  by rewrite andb_false_r, !orb_false_r, orb_assoc.
Qed.

Lemma signer_set_spec payer ixs sset k :
  collect_all_signers ixs {[payer := true]} = Ok sset →
  default false (sset !! k) = mentioned as_signer (mentions payer ixs) k.
Proof.
  intros Hc. rewrite (collect_all_signers_Ok _ _ _ k Hc). simpl. f_equal. rewrite andb_true_r.
  destruct (decide (payer = k)) as [->|Hne].
  - by rewrite lookup_singleton_eq, bool_decide_eq_true_2.
  - by rewrite lookup_singleton_ne, bool_decide_eq_false_2.
Qed.

Definition v0_mentions tix sset payer ixs : list mention :=
  (payer, (true, true)) :: flat_map (static_ix_mentions tix sset) (omap id ixs).

Lemma elem_of_flat_map {A B} (f : A → list B) l y : y ∈ flat_map f l ↔ ∃ x, x ∈ l ∧ y ∈ f x.
Proof. rewrite list_elem_of_In, in_flat_map. by setoid_rewrite list_elem_of_In. Qed.

Lemma elem_of_ix_mentions x ix :
  x ∈ ix_mentions ix ↔
  x = (Ix_ProgramID ix, (false, false)) ∨ ∃ m, x = meta_mention m ∧ m ∈ omap id (Ix_Accounts ix).
Proof. unfold ix_mentions. rewrite elem_of_app, list_elem_of_fmap, list_elem_of_singleton. tauto. Qed.

Lemma elem_of_static_ix_mentions tix sset x ix :
  x ∈ static_ix_mentions tix sset ix ↔
  x = (Ix_ProgramID ix, (false, false)) ∨
  ∃ m, x = meta_mention m ∧ m ∈ omap id (Ix_Accounts ix) ∧ routed tix sset (Meta_PublicKey m) = false.
Proof.
  unfold static_ix_mentions. rewrite elem_of_app, list_elem_of_fmap, list_elem_of_singleton.
  setoid_rewrite list_elem_of_filter. naive_solver.
Qed.

Lemma v0_mentions_signer tix sset payer ixs k :
  collect_all_signers ixs {[payer := true]} = Ok sset →
  mentioned as_signer (v0_mentions tix sset payer ixs) k = mentioned as_signer (mentions payer ixs) k.
Proof.
  intros Hc. apply eq_true_iff_eq. rewrite !mentioned_true. unfold v0_mentions, mentions.
  setoid_rewrite elem_of_cons. setoid_rewrite elem_of_flat_map.
  setoid_rewrite elem_of_static_ix_mentions. setoid_rewrite elem_of_ix_mentions. split.
  - intros (x & [->|(ix & Hix & [->|(m & -> & Hm & _)])] & Hk & Hs); [|done|].
    + exists (payer, (true, true)). auto.
    + exists (meta_mention m). eauto 10.
  - intros (x & [->|(ix & Hix & [->|(m & -> & Hm)])] & Hk & Hs); [|done|].
    + exists (payer, (true, true)). auto.
    + exists (meta_mention m). split; [|done]. right. exists ix. split; [done|]. right.
      exists m. split; [done|]. split; [done|]. unfold routed.
      assert (Hset : default false (sset !! Meta_PublicKey m) = true).
      { rewrite (signer_set_spec payer ixs) by done. apply mentioned_true.
        exists (meta_mention m). split; [|done]. unfold mentions. apply elem_of_cons. right.
        apply elem_of_flat_map. exists ix. split; [done|]. apply elem_of_ix_mentions. eauto. }
      rewrite Hset. by destruct (tix !! Meta_PublicKey m).
Qed.

(** ** No panic

    Every slot the collector records is a slot of its table, so none of the
    slice expressions is out of range. *)

Definition data_no_panic (ixs : list (option Instruction)) : Prop :=
  Forall (λ ix, match ix with Some ix => no_panic (Ix_Data ix) | None => True end) ixs.

Lemma compile_metas_no_panic fnName keyIndex metas :
  Forall is_Some metas → no_panic (compile_metas fnName keyIndex metas).
Proof.
  induction 1 as [|meta metas [m ->] _ IH]; simpl; [done|].
  destruct (keyIndex !! Meta_PublicKey m); [|done].
  by destruct (compile_metas fnName keyIndex metas).
Qed.

Lemma compileInstructions_no_panic ixs keyIndex fnName :
  present ixs → data_no_panic ixs → no_panic (compileInstructions ixs keyIndex fnName).
Proof.
  unfold present, data_no_panic. induction ixs as [|[ix|] ixs IH]; rewrite ?Forall_cons; simpl; [done| |tauto].
  intros [Hm Hp] [Hd Hds]. pose proof (compile_metas_no_panic fnName keyIndex _ Hm).
  destruct (keyIndex !! Ix_ProgramID ix); [|done].
  destruct (compile_metas fnName keyIndex (Ix_Accounts ix)); simpl; [|done|done].
  destruct (Ix_Data ix); simpl; [|done|done].
  by destruct (compileInstructions ixs keyIndex fnName); [|done|apply IH].
Qed.

Lemma index_addresses_Some ti si addrs tix pk p :
  index_addresses ti si addrs tix !! pk = Some p →
  tix !! pk = Some p ∨ ∃ j, addrs !! j = Some pk ∧ p = (ti, (si + j)%nat).
Proof.
  revert si tix. induction addrs as [|a addrs IH]; intros si tix; simpl; [auto|].
  intros [Htix|(j & Hj & ->)]%IH.
  - destruct (tix !! a) as [q|] eqn:Ha; [auto|].
    destruct (decide (a = pk)) as [->|Hne].
    + rewrite lookup_insert_eq in Htix. right. exists 0%nat. simplify_eq. split; [done|f_equal; lia].
    + rewrite lookup_insert_ne in Htix by done. auto.
  - right. exists (S j). split; [done|f_equal; lia].
Qed.

(** The reverse map only names slots that exist. *)
Definition index_ok (tables : list LoadedAddressLookupTable) (tix : gmap PublicKey (nat * nat)) : Prop :=
  ∀ pk ti si, tix !! pk = Some (ti, si) → ∃ t, tables !! ti = Some t ∧ Addresses t !! si = Some pk.

Lemma index_tables_Some ti tables tix pk p :
  index_tables ti tables tix !! pk = Some p →
  tix !! pk = Some p ∨
  ∃ j t i, tables !! j = Some t ∧ Addresses t !! i = Some pk ∧ p = ((ti + j)%nat, i).
Proof.
  revert ti tix. induction tables as [|t tables IH]; intros ti tix; simpl; [auto|].
  intros [Htix|(j & t' & i & Hj & Hi & ->)]%IH.
  - apply index_addresses_Some in Htix as [?|(j & Hj & ->)]; [auto|].
    right. exists 0%nat, t, j. split; [done|]. split; [done|f_equal; lia].
  - right. exists (S j), t', i. split; [done|]. split; [done|f_equal; lia].
Qed.

Lemma index_tables_ok tables : index_ok tables (index_tables 0 tables ∅).
Proof.
  intros pk ti si [H|(j & t & i & ? & ? & [= -> ->])]%index_tables_Some; [by rewrite lookup_empty in H|eauto].
Qed.

(** The recorded slots exist in their table. *)
Definition accounts_ok (tables : list LoadedAddressLookupTable) (ta : list (gmap nat bool)) : Prop :=
  Forall2 (λ t slots, ∀ si, is_Some (slots !! si) → is_Some (Addresses t !! si)) tables ta.

Lemma accounts_ok_empty tables : accounts_ok tables (replicate (length tables) ∅).
Proof.
  induction tables as [|t tables IH]; simpl; [constructor|]. constructor; [|done].
  intros si. rewrite lookup_empty. by intros [? ?].
Qed.

Lemma addOrUpdateTable_ok tables tix ta pk slot wr :
  index_ok tables tix → accounts_ok tables ta → tix !! pk = Some slot →
  ∃ ta', addOrUpdateTable slot wr ta = Ok ta' ∧ accounts_ok tables ta'.
Proof.
  intros Hix Hta Hslot. destruct slot as [ti si]. destruct (Hix _ _ _ Hslot) as (t & Ht & Hsi).
  destruct (Forall2_lookup_l _ _ _ _ _ Hta Ht) as (slots & Hslots & Hok).
  unfold addOrUpdateTable. cbn [fst snd]. rewrite (index_at_lookup ta ti slots) by done.
  cbn [mbind result_bind]. rewrite set_at_lt by (by eapply lookup_lt_Some).
  eexists. split; [done|]. rewrite <- (list_insert_id tables ti t) by done.
  apply Forall2_insert; [done|]. intros si' Hsi'. destruct (decide (si = si')) as [<-|Hne]; [eauto|].
  rewrite lookup_insert_ne in Hsi' by done. by apply Hok.
Qed.

Lemma route_metas_total tables tix sset metas s ta :
  index_ok tables tix → accounts_ok tables ta → Forall is_Some metas →
  ∃ s' ta', route_metas tix sset metas (s, ta) = Ok (s', ta') ∧ accounts_ok tables ta'.
Proof.
  intros Hix Hta Hm. revert s ta Hta. induction Hm as [|meta metas [m ->] _ IH]; intros s ta Hta; simpl.
  { eauto. }
  destruct (tix !! Meta_PublicKey m) as [slot|] eqn:Hslot; [destruct (negb _)|]; simpl; [|by apply IH..].
  destruct (addOrUpdateTable_ok tables tix ta _ slot (IsWritable m) Hix Hta Hslot) as (ta' & -> & Hta').
  by apply IH.
Qed.

Lemma route_instructions_total tables tix sset ixs s ta :
  index_ok tables tix → accounts_ok tables ta → present ixs →
  ∃ s' ta', route_instructions tix sset ixs (s, ta) = Ok (s', ta') ∧ accounts_ok tables ta'.
Proof.
  intros Hix. unfold present. revert s ta.
  induction ixs as [|[ix|] ixs IH]; intros s ta Hta; rewrite ?Forall_cons; simpl; [eauto| |tauto].
  intros [Hm Hp].
  destruct (route_metas_total tables tix sset (Ix_Accounts ix) s ta Hix Hta Hm) as (s1 & ta1 & -> & Hta1).
  by apply IH.
Qed.

Lemma collect_signers_present ixs sset sset' :
  collect_all_signers ixs sset = Ok sset' → present ixs.
Proof.
  assert (Hm : ∀ metas sset sset', collect_signers metas sset = Ok sset' → Forall is_Some metas).
  { intros metas. induction metas as [|[m|] metas IH]; intros s s'; simpl; [constructor| |done].
    intros H. constructor; [eauto|by eapply IH]. }
  unfold present. revert sset. induction ixs as [|[ix|] ixs IH]; intros sset; simpl; [constructor| |done].
  destruct (collect_signers (Ix_Accounts ix) sset) eqn:Hc; simpl; [|done|done].
  intros H. constructor; [by eapply Hm|by eapply IH].
Qed.

Lemma collect_signers_no_panic ixs sset : no_panic (collect_all_signers ixs sset).
Proof.
  assert (Hm : ∀ metas sset, no_panic (collect_signers metas sset)).
  { intros metas. induction metas as [|[m|] metas IH]; intros s; simpl; [done|apply IH|done]. }
  revert sset. induction ixs as [|[ix|] ixs IH]; intros sset; simpl; [done| |done].
  specialize (Hm (Ix_Accounts ix) sset).
  destruct (collect_signers (Ix_Accounts ix) sset); simpl; [apply IH|done|done].
Qed.

Lemma index_slots_total addrs slots st :
  Forall (λ s, is_Some (addrs !! s)) slots → ∃ st', index_slots addrs slots st = Ok st'.
Proof.
  intros Hs. revert st. induction Hs as [|s slots [a Ha] _ IH]; intros [index next]; simpl; [eauto|].
  rewrite (index_at_lookup addrs s a) by done. apply IH.
Qed.

Lemma slots_where_elem b slots s : s ∈ slots_where b slots → is_Some (slots !! s).
Proof.
  unfold slots_where. rewrite merge_sort_Permutation, list_elem_of_fmap.
  intros ([s' b'] & -> & [_ Hin%elem_of_map_to_list]%list_elem_of_filter). eauto.
Qed.

Lemma index_all_total `{MapOrder} b tables ta st :
  accounts_ok tables ta →
  ∃ st', index_all (if b : bool then fst else snd) tables (table_slots <$> ta) st = Ok st'.
Proof.
  intros Hta. revert st. induction Hta as [|t slots tables ta Hok _ IH]; intros st; [by eexists|].
  rewrite fmap_cons, table_slots_eq. case_decide; cbn [index_all]; [apply IH|].
  destruct (index_slots_total (Addresses t)
    ((if b then fst else snd) (slots_where true slots, slots_where false slots)) st) as (st' & ->); [|apply IH].
  apply Forall_forall. intros s Hs. apply Hok. destruct b; by eapply slots_where_elem.
Qed.

Lemma NewMessageV0_no_panic `{MapOrder} payer ixs bh tables :
  data_no_panic ixs → no_panic (NewMessageV0 payer ixs bh tables).
Proof.
  intros Hd. unfold NewMessageV0. destruct (_ =? 0); [done|]. cbv zeta.
  pose proof (collect_signers_no_panic ixs {[payer := true]}).
  destruct (collect_all_signers ixs {[payer := true]}) as [sset|e|w] eqn:Hc; cbn [mbind result_bind]; [|done|done].
  apply collect_signers_present in Hc as Hp.
  destruct (route_instructions_total tables (index_tables 0 tables ∅) sset ixs
    (addOrUpdate payer true true newStaticEntries) (replicate (length tables) ∅)
    (index_tables_ok tables) (accounts_ok_empty tables) Hp) as (s & ta & -> & Hta).
  cbn [mbind result_bind]. destruct (bucketAndOrder s) as [keys h].
  destruct (256 <? zlen keys); [done|].
  destruct (index_all_total true tables ta (build_index 0 keys ∅, zlen keys) Hta) as (st & Hst).
  cbv iota in Hst. rewrite Hst. cbn [mbind result_bind].
  destruct (index_all_total false tables ta st Hta) as ([index next] & Hst').
  cbv iota in Hst'. rewrite Hst'. cbn [mbind result_bind].
  destruct (256 <? next); [done|].
  pose proof (compileInstructions_no_panic ixs index "NewMessageV0" Hp Hd).
  by destruct (compileInstructions ixs index "NewMessageV0").
Qed.

Lemma NewMessage_no_panic `{MapOrder} payer ixs bh :
  data_no_panic ixs → no_panic (NewMessage payer ixs bh).
Proof.
  intros Hd. destruct (decide (ixs = [])) as [->|Hne]; [done|].
  destruct (decide (present ixs)) as [Hp|Hp].
  2: { destruct (NewMessage_absent payer ixs bh) as [e ->]; [by right|done]. }
  rewrite NewMessage_eq by done. destruct (256 <? zlen _); [done|].
  pose proof (compileInstructions_no_panic ixs (build_index 0 (account_keys payer ixs) ∅) "NewMessage" Hp Hd).
  by destruct (compileInstructions _ _ _).
Qed.

(** ** Properties *)

Definition sample_tables : list LoadedAddressLookupTable :=
  [mkTable (sample_key 50) [sample_key 7; sample_key 3; sample_key 4];
   mkTable (sample_key 51) [sample_key 3; sample_key 8]].

Definition sample_ixs_v0 : list (option Instruction) :=
  sample_ixs ++ [Some (NewInstruction (sample_key 20) [Some (Meta (sample_key 8)); Some (Meta (sample_key 7))] [5])].

Definition sample_built_v0 : result Message :=
  @NewMessageV0 list_order (sample_key 1) sample_ixs_v0 (sample_key 9) sample_tables.

(** C9: the index layout of a compiled v0 message is the one the resolver uses.
    If no lookup table has more than 256 addresses and no two tables have the
    same key, then, given the tables the message was compiled against,
    [ResolvedAccountKeys] succeeds, and at every index of every compiled
    instruction it has exactly the program or account the source instruction
    named. In a larger table a slot of 256 or more is written modulo 256 and
    resolves to another address (lemma [NewMessageV0_wide_table]). *)
Theorem NewMessageV0_resolution `{MapOrder} payer ixs bh tables m :
  NewMessageV0 payer ixs bh tables = Ok m →
  small_tables tables → NoDup (Table_AccountKey <$> tables) →
  ∃ all, ResolvedAccountKeys m (alts tables) = Ok all ∧ Forall2 (compiled_as all) ixs (Instructions m).
Proof. apply NewMessageV0_resolves. Qed.

Lemma NewMessageV0_resolution_witness :
  ∃ m all, sample_built_v0 = Ok m ∧ length (AddressTableLookups m) = 2%nat
    ∧ ResolvedAccountKeys m (alts sample_tables) = Ok all
    ∧ Forall2 (compiled_as all) sample_ixs_v0 (Instructions m).
Proof.
  destruct sample_built_v0 as [m|e|w] eqn:Hm; [|by vm_compute in Hm..].
  assert (Hs : small_tables sample_tables) by (apply (bool_decide_unpack _); by vm_compute).
  assert (Hn : NoDup (Table_AccountKey <$> sample_tables)) by (apply (bool_decide_unpack _); by vm_compute).
  destruct (@NewMessageV0_resolution list_order _ _ _ _ m Hm Hs Hn) as (all & Hall & Hf).
  exists m, all. split; [reflexivity|]. split; [|split; assumption].
  vm_compute in Hm. by simplify_eq.
Defined.

(** C10: the static keys of a v0 message have no duplicates, start with the
    payer and contain every signer, so that a signer is never moved into a
    lookup table; and with fewer than 256 signers the header marks a static
    position as a signer iff some instruction (or the payer role) asks for it.
    With 256 signers the count wraps to 0 in the header's byte (lemma
    [NewMessageV0_header_wraps]). *)
Theorem NewMessageV0_signers_static `{MapOrder} payer ixs bh tables m :
  NewMessageV0 payer ixs bh tables = Ok m →
  NoDup (AccountKeys m) ∧ AccountKeys m !! 0%nat = Some payer
  ∧ (∀ k, mentioned as_signer (mentions payer ixs) k = true → k ∈ AccountKeys m)
  ∧ (zlen (filter (λ k, mentioned as_signer (mentions payer ixs) k = true) (AccountKeys m)) < 256 →
     ∀ i k, AccountKeys m !! i = Some k →
       signer_position (Header m) (Z.of_nat i) = mentioned as_signer (mentions payer ixs) k).
Proof.
  intros (sset & per & W & R & cs & Hc & _ & _ & Hlen & _ & ->)%NewMessageV0_Ok.
  cbn [AccountKeys Header].
  pose proof (λ k, v0_mentions_signer (index_tables 0 tables ∅) sset payer ixs k Hc) as Hm.
  split; [apply static_keys_NoDup|]. split; [apply payer_first|]. split.
  - intros k Hk. apply static_keys_elem. rewrite <- Hm in Hk. apply mentioned_true in Hk as (x & Hx & <- & _).
    by apply (list_elem_of_fmap_2 fst) in Hx.
  - intros Hs i k Hk. rewrite <- Hm. apply static_positions; [| |done].
    2: { erewrite list_filter_iff; [exact Hs|]. intros k'. cbv beta. by rewrite <- Hm. }
    rewrite !zlen_app in Hlen. pose proof (zlen_nonneg W). pose proof (zlen_nonneg R). unfold v0_static in Hlen. lia.
Qed.

Lemma NewMessageV0_signers_static_witness :
  ∃ m, sample_built_v0 = Ok m ∧ sample_key 4 ∈ AccountKeys m.
Proof.
  destruct sample_built_v0 as [m|e|w] eqn:Hm; [|by vm_compute in Hm..]. exists m. split; [reflexivity|].
  apply (@NewMessageV0_signers_static list_order _ _ _ _ m Hm). by vm_compute.
Defined.

(** Neither the account map nor the per-table slot maps leak their order. *)
Lemma NewMessageV0_order (o1 o2 : MapOrder) payer ixs bh tables :
  @NewMessageV0 o1 payer ixs bh tables = @NewMessageV0 o2 payer ixs bh tables.
Proof.
  unfold NewMessageV0. destruct (_ =? 0); [done|]. cbv zeta.
  destruct (collect_all_signers ixs {[payer := true]}) as [sset|e|w]; cbn [mbind result_bind]; [|done|done].
  destruct (route_instructions _ _ _ _) as [[s ta]|e|w] eqn:Hr; cbn [mbind result_bind]; [|done|done].
  apply route_instructions_static in Hr as ->.
  rewrite !(bucketAndOrder_rep (v0_static (index_tables 0 tables ∅) sset payer ixs)) by apply v0_rep.
  assert ((@table_slots o1 <$> ta) = (@table_slots o2 <$> ta)) as ->; [|done].
  apply list_fmap_ext. intros _ slots _. by rewrite !table_slots_eq.
Qed.

(** C26: both builders are deterministic although they range over Go maps,
    whose iteration order is unspecified: for any two orders in which the
    language might walk the account map and the per-table slot maps, the
    compiled message, or the error, is the same. *)
Theorem builders_deterministic (o1 o2 : MapOrder) payer ixs bh tables :
  @NewMessage o1 payer ixs bh = @NewMessage o2 payer ixs bh ∧
  @NewMessageV0 o1 payer ixs bh tables = @NewMessageV0 o2 payer ixs bh tables.
Proof. split; [apply NewMessage_order|apply NewMessageV0_order]. Qed.

(** Neither builder panics, whatever the instructions, metas (nil
    included) and tables, provided the instructions' own [Data] does not. *)
Theorem builders_never_panic `{MapOrder} payer ixs bh tables :
  data_no_panic ixs →
  no_panic (NewMessage payer ixs bh) ∧ no_panic (NewMessageV0 payer ixs bh tables).
Proof. eauto using NewMessage_no_panic, NewMessageV0_no_panic. Qed.

Lemma builders_never_panic_witness :
  no_panic (@NewMessage list_order (sample_key 1) (None :: sample_ixs) (sample_key 9)) ∧
  no_panic (@NewMessageV0 list_order (sample_key 1) (None :: sample_ixs) (sample_key 9) sample_tables).
Proof. apply (@builders_never_panic list_order). repeat (constructor; [exact I|]). constructor. Defined.

(** A program id is not always static.  When the program is also a
    plain account of an instruction and listed in a table, its compiled
    index points past the static keys. *)
Theorem NewMessageV0_program_in_table :
  let ixs := [Some (NewInstruction (sample_key 20) [Some (Meta (sample_key 20))] [])] in
  let tables := [mkTable (sample_key 50) [sample_key 20]] in
  match @NewMessageV0 list_order (sample_key 1) ixs (sample_key 9) tables with
  | Ok m => sample_key 20 ∈ AccountKeys m ∧
      ∃ c, Instructions m = [c] ∧ zlen (AccountKeys m) ≤ ProgramIDIndex c
  | _ => False
  end.
Proof.
  vm_compute. split; [right; left|]. eexists. split; [reflexivity|]. by vm_compute.
Qed.

(** A table with more addresses than a slot's byte can name: the slot is written
    modulo 256 and resolves to the address at that slot. *)
Definition wide_key (n : Z) : PublicKey := [u8 n; u8 (n ≫ 8)] ++ replicate 30 7.

Lemma NewMessageV0_wide_table :
  let tables := [mkTable (sample_key 50) (wide_key <$> seqZ 0 257)] in
  let ixs := [Some (NewInstruction (sample_key 20) [Some (Meta (wide_key 256))] [])] in
  match @NewMessageV0 list_order (sample_key 1) ixs (sample_key 9) tables with
  | Ok m => match ResolvedAccountKeys m (alts tables), Instructions m with
            | Ok all, [c] => (all !!.) <$> (Z.to_nat <$> Accounts c) = [Some (wide_key 0)]
            | _, _ => False
            end
  | _ => False
  end.
Proof. by vm_compute. Qed.

(** 256 signers, the payer one of them: the header says none. *)
Lemma NewMessageV0_header_wraps :
  let ixs := [Some (NewInstruction (sample_key 1) ((λ n, Some (SIGNER (Meta (wide_key n)))) <$> seqZ 0 255) [])] in
  match @NewMessageV0 list_order (sample_key 1) ixs (sample_key 9) [] with
  | Ok m => zlen (AccountKeys m) = 256 ∧ NumRequiredSignatures (Header m) = 0
  | _ => False
  end.
Proof. by vm_compute. Qed.
