(* ===== verification/BigUint.v ===== *)
(** * Large integers: [encoding/u128.go] and [large_int.go]

    [U128] and [U256] are little-endian byte arrays, [Uint128] to [Int256]
    pairs of 64-bit words.  A [*big.Int] is a [Z]; the few functions of
    [math/big] and [strconv] the code calls are defined here over [Z].  All
    of it is related to one specification, the little-endian value [le_Z]. *)

From S2P Require Import Prelude Wire Keys.

(** ** [math/big] and [strconv] *)

(** [x.SetBytes(b)]: big-endian. *)
Definition big_SetBytes (b : bytes) : Z := foldl (λ acc x, acc * 256 + x) 0 b.

Definition big_BitLen (x : Z) : Z := if x =? 0 then 0 else Z.log2 (Z.abs x) + 1.

(** [x.Bytes()]: the shortest big-endian encoding of [|x|]. *)
Definition big_Bytes (x : Z) : bytes := reverse (le ((big_BitLen x + 7) `div` 8) (Z.abs x)).

(** Decimal digits of a natural number, most significant first; [n] digits
    at most, which [S (Z.to_nat (Z.log2 z))] always suffices for. *)
Fixpoint digits (n : nat) (z : Z) (acc : bytes) : bytes :=
  match n with
  | O => acc
  | S n =>
      let acc := (48 + z `mod` 10) :: acc in
      if z <? 10 then acc else digits n (z `div` 10) acc
  end.

Definition format_nat (z : Z) : bytes := digits (S (Z.to_nat (Z.log2 z))) z [].

(** [strconv.FormatUint(z, 10)] and [x.String()]. *)
Definition format_uint (z : Z) : bytes := format_nat z.
Definition big_String (x : Z) : bytes := if x <? 0 then 45 :: format_nat (- x) else format_nat x.

Fixpoint parse_digits (b : bytes) (acc : Z) : option Z :=
  match b with
  | [] => Some acc
  | c :: b => if (48 <=? c) && (c <=? 57) then parse_digits b (acc * 10 + (c - 48)) else None
  end.

(** [new(big.Int).SetString(s, 10)]: an optional sign, then digits. *)
Definition big_SetString (s : bytes) : option Z :=
  match s with
  | [] => None
  | c :: r =>
      if c =? 45 then match r with [] => None | _ => Z.opp <$> parse_digits r 0 end
      else if c =? 43 then match r with [] => None | _ => parse_digits r 0 end
      else parse_digits s 0
  end.

(** [strconv.AppendQuote] on a string of printable ASCII without quotes. *)
Definition append_quote (s : bytes) : bytes := jsonQuote s.

(** ** [U128] *)

Definition byte_at (u : bytes) (i : nat) : Z := default 0 (u !! i).

(** The eight bytes from [off] as a word, and back. *)
Definition word (u : bytes) (off : nat) : Z :=
  Z.lor (Z.lor (Z.lor (Z.lor (Z.lor (Z.lor (Z.lor (byte_at u off)
    (u64 (byte_at u (off + 1) ≪ 8))) (u64 (byte_at u (off + 2) ≪ 16)))
    (u64 (byte_at u (off + 3) ≪ 24))) (u64 (byte_at u (off + 4) ≪ 32)))
    (u64 (byte_at u (off + 5) ≪ 40))) (u64 (byte_at u (off + 6) ≪ 48)))
    (u64 (byte_at u (off + 7) ≪ 56)).

Definition word_bytes (v : Z) : bytes :=
  [u8 v; u8 (v ≫ 8); u8 (v ≫ 16); u8 (v ≫ 24);
   u8 (v ≫ 32); u8 (v ≫ 40); u8 (v ≫ 48); u8 (v ≫ 56)].

Definition U128_Lo (u : bytes) : Z := word u 0.
Definition U128_Hi (u : bytes) : Z := word u 8.
Definition U128_SetUint64 (u : bytes) (v : Z) : bytes := word_bytes v ++ zero_array 8.
Definition U128_SetLoHi (u : bytes) (lo hi : Z) : bytes := word_bytes lo ++ word_bytes hi.

(** [var be [n]byte; for i { be[i] = u[n-1-i] }] *)
Definition flip (n : nat) (u : bytes) : bytes := (λ i, byte_at u (n - 1 - i)) <$> seq 0 n.

Definition U128_BigInt (u : bytes) : Z := big_SetBytes (flip 16 u).

(** [var le [n]byte; for i, b := range be { le[len(be)-1-i] = b }] *)
Fixpoint store_reversed (be : bytes) (dst : bytes) : result bytes :=
  match be with
  | [] => Ok dst
  | b :: be => dst ← set_at dst (zlen be) b; store_reversed be dst
  end.

Definition setBigInt (name : string) (bits : Z) (u : bytes) (x : Z) : method bytes :=
  if x <? 0 then (Err (ErrFmt "solana/encoding: SetBigInt: negative value" [AS name]), u) else
  if bits <? big_BitLen x
  then (Err (ErrFmt "solana/encoding: SetBigInt: overflow" [AS name; AZ (big_BitLen x)]), u) else
  assign u (store_reversed (big_Bytes x) (zero_array (bits `div` 8))).

Definition U128_SetBigInt : bytes → Z → method bytes := setBigInt "U128" 128.

Definition U128_IsZero (u : bytes) : bool := Z.lor (U128_Lo u) (U128_Hi u) =? 0.

Definition U128_String (u : bytes) : bytes :=
  if U128_Hi u =? 0 then format_uint (U128_Lo u) else big_String (U128_BigInt u).

Definition U128_MarshalText (u : bytes) : result bytes := Ok (U128_String u).

Definition unmarshalText (name : string) (bits : Z) (u : bytes) (b : bytes) : method bytes :=
  match big_SetString b with
  | None => (Err (ErrFmt "solana/encoding: UnmarshalText: invalid decimal" [AS name; AB b]), u)
  | Some x => setBigInt name bits u x
  end.

Definition U128_UnmarshalText : bytes → bytes → method bytes := unmarshalText "U128" 128.

Definition U128_MarshalJSON (u : bytes) : result bytes := Ok (append_quote (U128_String u)).

(** [if len(b) >= 2 && b[0] == '"' && b[len(b)-1] == '"' { b = b[1:len(b)-1] }] *)
Definition strip_quotes (b : bytes) : result bytes :=
  if zlen b <? 2 then Ok b else
  first ← index_at b 0;
  if negb (first =? quote) then Ok b else
  last ← index_at b (zlen b - 1);
  if negb (last =? quote) then Ok b else
  slice b 1 (zlen b - 1).

Definition unmarshalJSON_big (name : string) (bits : Z) (u : bytes) (b : bytes) : method bytes :=
  match strip_quotes b with
  | Ok b => unmarshalText name bits u b
  | Err e => (Err e, u)
  | Panic w => (Panic w, u)
  end.

Definition U128_UnmarshalJSON : bytes → bytes → method bytes := unmarshalJSON_big "U128" 128.

(** ** [U256] *)

Definition U256_Word (u : bytes) (i : Z) : result Z :=
  if (i <? 0) || (4 <=? i) then Panic "U256.Word: index out of range"
  else Ok (word u (Z.to_nat (i * 8))).

Definition U256_SetWord (u : bytes) (i v : Z) : result bytes :=
  if (i <? 0) || (4 <=? i) then Panic "U256.SetWord: index out of range"
  else let off := Z.to_nat (i * 8) in
       Ok (take off u ++ word_bytes v ++ drop (off + 8) u).

Definition U256_BigInt (u : bytes) : Z := big_SetBytes (flip 32 u).
Definition U256_SetBigInt : bytes → Z → method bytes := setBigInt "U256" 256.
Definition U256_IsZero (u : bytes) : bool :=
  Z.lor (Z.lor (Z.lor (word u 0) (word u 8)) (word u 16)) (word u 24) =? 0.
Definition U256_String (u : bytes) : bytes :=
  if Z.lor (Z.lor (word u 8) (word u 16)) (word u 24) =? 0
  then format_uint (word u 0) else big_String (U256_BigInt u).
Definition U256_MarshalText (u : bytes) : result bytes := Ok (U256_String u).
Definition U256_UnmarshalText : bytes → bytes → method bytes := unmarshalText "U256" 256.
Definition U256_MarshalJSON (u : bytes) : result bytes := Ok (append_quote (U256_String u)).
Definition U256_UnmarshalJSON : bytes → bytes → method bytes := unmarshalJSON_big "U256" 256.

(** ** On the wire *)

Definition WriteU128 (u : bytes) : Encoder → Encoder := append u.
Definition WriteU256 (u : bytes) : Encoder → Encoder := append u.
Definition ReadU128 : Dec bytes := b ← ReadBytes 16; mret (copy_array 16 b).
Definition ReadU256 : Dec bytes := b ← ReadBytes 32; mret (copy_array 32 b).

(** ** [Uint128], [Int128], [Uint256], [Int256] *)

(** [binary.LittleEndian.Uint64(b[off:off+8])] *)
Definition le_uint64 (b : bytes) (off : nat) : Z := word b off.

Record Uint128 := mkUint128 { Lo : Z; Hi : Z }.
Record Int128 := mkInt128 { ILo : Z; IHi : Z }.
Record Uint256 := mkUint256 { Lo128 : Uint128; Hi128 : Uint128 }.
Record Int256 := mkInt256 { ILo128 : Uint128; IHi128 : Int128 }.

Definition Uint128_of (raw : bytes) : Uint128 := mkUint128 (le_uint64 raw 0) (le_uint64 raw 8).
Definition Int128_of (raw : bytes) : Int128 := mkInt128 (le_uint64 raw 0) (s64 (le_uint64 raw 8)).

Definition Uint128_UnmarshalFromDecoder : Dec Uint128 := raw ← ReadU128; mret (Uint128_of raw).

(** [PutUint64(raw[0:8], lo); PutUint64(raw[8:16], hi)] *)
Definition Uint128_Bytes (u : Uint128) : bytes := word_bytes (Lo u) ++ word_bytes (Hi u).
Definition Uint128_MarshalToEncoder (u : Uint128) : Encoder → Encoder := WriteU128 (Uint128_Bytes u).
Definition reverse16 (b : bytes) : bytes := flip 16 b.
Definition Uint128_BigInt (u : Uint128) : Z := big_SetBytes (reverse16 (Uint128_Bytes u)).
Definition Uint128_IsZero (u : Uint128) : bool := (Lo u =? 0) && (Hi u =? 0).
Definition Uint128_String (u : Uint128) : bytes := big_String (Uint128_BigInt u).

Definition Uint128FromBigInt (x : Z) : Uint128 :=
  let b := big_Bytes x in
  let b := if 16 <? zlen b then drop (length b - 16) b else b in
  let le := zero_array (16 - zlen b) ++ b in   (* copy(le[16-len(b):], b) *)
  Uint128_of (reverse16 le).

Definition Int128_UnmarshalFromDecoder : Dec Int128 := raw ← ReadU128; mret (Int128_of raw).
Definition Int128_raw (i : Int128) : bytes := word_bytes (ILo i) ++ word_bytes (u64 (IHi i)).
Definition Int128_MarshalToEncoder (i : Int128) : Encoder → Encoder := WriteU128 (Int128_raw i).
Definition Int128_BigInt (i : Int128) : Z :=
  let v := big_SetBytes (reverse16 (Int128_raw i)) in
  if IHi i <? 0 then v - 1 ≪ 128 else v.
Definition Int128_IsZero (i : Int128) : bool := (ILo i =? 0) && (IHi i =? 0).
Definition Int128_String (i : Int128) : bytes := big_String (Int128_BigInt i).

Definition Uint256_UnmarshalFromDecoder : Dec Uint256 :=
  loRaw ← wrap "Uint256 lo" [] ReadU128;
  hiRaw ← wrap "Uint256 hi" [] ReadU128;
  mret (mkUint256 (Uint128_of loRaw) (Uint128_of hiRaw)).
Definition Uint256_MarshalToEncoder (u : Uint256) (e : Encoder) : Encoder :=
  Uint128_MarshalToEncoder (Hi128 u) (Uint128_MarshalToEncoder (Lo128 u) e).
Definition Uint256_Bytes (u : Uint256) : bytes := Uint128_Bytes (Lo128 u) ++ Uint128_Bytes (Hi128 u).
Definition Uint256_BigInt (u : Uint256) : Z := big_SetBytes (flip 32 (Uint256_Bytes u)).
Definition Uint256_IsZero (u : Uint256) : bool := Uint128_IsZero (Lo128 u) && Uint128_IsZero (Hi128 u).
Definition Uint256_String (u : Uint256) : bytes := big_String (Uint256_BigInt u).

Definition Int256_UnmarshalFromDecoder : Dec Int256 :=
  loRaw ← wrap "Int256 lo" [] ReadU128;
  hiRaw ← wrap "Int256 hi" [] ReadU128;
  mret (mkInt256 (Uint128_of loRaw) (Int128_of hiRaw)).

(** The value [Int256.String] prints. *)
Definition Int256_value (i : Int256) : Z :=
  let b := Uint128_Bytes (ILo128 i) ++ Int128_raw (IHi128 i) in
  let v := big_SetBytes (flip 32 b) in
  if IHi (IHi128 i) <? 0 then v - 1 ≪ 256 else v.
Definition Int256_String (i : Int256) : bytes := big_String (Int256_value i).
