(* ===== verification/BigUintSpec.v ===== *)
(** * The large integers denote what they should

    Every operation of [BigUint] against the little-endian value of its
    bytes: conversions to and from [big.Int] with their bounds, decimal
    text and JSON round trips, and the signed readings. *)

From S2P Require Import Prelude Wire Keys BigUint.

(** ** Little-endian values *)

Lemma le_Z_cons_add b bs : is_u 8 b → wf_bytes bs → le_Z (b :: bs) = b + le_Z bs * 256.
Proof.
  intros Hb Hbs. rewrite le_Z_cons, lor_shiftl_add; [done|lia|exact Hb|].
  by apply (le_Z_is_u (zlen bs)).
Qed.

Lemma le_Z_app a b :
  wf_bytes a → wf_bytes b → le_Z (a ++ b) = le_Z a + le_Z b * 2 ^ (zlen a * 8).
Proof.
  intros Ha Hb. induction Ha as [|x a Hx Ha IH]; cbn [app].
  { rewrite le_Z_nil. change (zlen (@nil Z) * 8) with 0. lia. }
  rewrite !le_Z_cons_add, IH, zlen_cons by (auto; by apply Forall_app_2).
  replace ((1 + zlen a) * 8) with (8 + zlen a * 8) by lia.
  pose proof (zlen_nonneg a). rewrite Z.pow_add_r by lia. change (2 ^ 8) with 256. ring.
Qed.

Lemma le_Z_zeros n : le_Z (replicate n 0) = 0.
Proof.
  induction n as [|n IH]; [done|]. cbn [replicate].
  rewrite le_Z_cons_add, IH; [done|by unfold is_u|]. by apply Forall_replicate.
Qed.

Lemma big_SetBytes_reverse u : wf_bytes u → big_SetBytes (reverse u) = le_Z u.
Proof.
  intros Hu. unfold big_SetBytes. induction Hu as [|b u Hb Hu IH]; [done|].
  rewrite reverse_cons, foldl_app, IH, le_Z_cons_add by done. simpl. lia.
Qed.

Lemma flip_reverse n u : length u = n → flip n u = reverse u.
Proof.
  intros Hn. apply list_eq. intros i. unfold flip. rewrite list_lookup_fmap.
  destruct (decide (i < n)%nat) as [Hi|Hi].
  - rewrite lookup_seq_lt, reverse_lookup, Hn by lia. simpl. unfold byte_at.
    replace (n - S i)%nat with (n - 1 - i)%nat by lia.
    destruct (lookup_lt_is_Some_2 u (n - 1 - i)) as [b Hb]; [lia|]. by rewrite Hb.
  - rewrite lookup_seq_ge by lia. symmetry. apply lookup_ge_None. rewrite length_reverse. lia.
Qed.

Lemma big_flip n u : length u = n → wf_bytes u → big_SetBytes (flip n u) = le_Z u.
Proof. intros. rewrite flip_reverse by done. by apply big_SetBytes_reverse. Qed.

Lemma word_bytes_le v : word_bytes v = le 8 v.
Proof. by rewrite le_8_bytes. Qed.

(** A word of a byte array is the value of the eight bytes there. *)
Lemma word_le_Z a b c : zlen b = 8 → wf_bytes b → word (a ++ b ++ c) (length a) = le_Z b.
Proof.
  intros Hlen Hwf. explode Hlen. rewrite !Forall_cons in Hwf. destruct_and!.
  rewrite <- le_Z_8 by done.
  assert (Hb : ∀ k l, byte_at (a ++ l) (length a + k) = byte_at l k).
  { intros k l. unfold byte_at. by rewrite lookup_app_r, Nat.add_sub' by lia. }
  unfold word. rewrite !Hb. rewrite <- (Nat.add_0_r (length a)) at 1. by rewrite Hb.
Qed.

Lemma wf_array_split n m u :
  0 ≤ n → 0 ≤ m → wf_array (n + m) u → ∃ a b, u = a ++ b ∧ wf_array n a ∧ wf_array m b.
Proof.
  intros Hn Hm [Hlen Hwf]. destruct (list_split_len u n) as (a & b & -> & Ha); [lia|].
  rewrite zlen_app in Hlen. apply Forall_app in Hwf as [??].
  exists a, b. split; [done|]. split; (split; [lia|done]).
Qed.

Lemma U128_words u :
  wf_array 16 u →
  is_u 64 (U128_Lo u) ∧ is_u 64 (U128_Hi u) ∧ le_Z u = U128_Lo u + U128_Hi u * 2 ^ 64.
Proof.
  intros Hu. apply (wf_array_split 8 8) in Hu as (a & b & -> & [Ha Hwa] & [Hb Hwb]); [|lia..].
  unfold U128_Lo, U128_Hi. pose proof (word_le_Z [] a b Ha Hwa) as Hlo.
  cbn [app length] in Hlo. rewrite Hlo.
  assert (Hw : word (a ++ b) 8 = le_Z b).
  { rewrite <- (word_le_Z a b []), app_nil_r by done. f_equal. unfold zlen in Ha. lia. }
  rewrite Hw, le_Z_app, Ha by done.
  split; [by apply (le_Z_is_u 8)|]. split; [by apply (le_Z_is_u 8)|done].
Qed.

(** ** [big.Int] conversions *)

Lemma big_BitLen_spec x n : 0 ≤ x → 0 ≤ n → big_BitLen x ≤ n ↔ x < 2 ^ n.
Proof.
  intros Hx Hn. unfold big_BitLen. rewrite Z.abs_eq by done. case_if.
  - subst. pose proof (Z.pow_pos_nonneg 2 n). lia.
  - assert (0 < x) by lia. rewrite (Z.log2_lt_pow2 x n) by done. lia.
Qed.

Lemma big_BitLen_nonneg x : 0 ≤ big_BitLen x.
Proof. unfold big_BitLen. pose proof (Z.log2_nonneg (Z.abs x)). case_if; lia. Qed.

Lemma le_pad k n x :
  0 ≤ k ≤ n → is_u (k * 8) x → le n x = le k x ++ replicate (Z.to_nat (n - k)) 0.
Proof.
  intros Hk Hx. assert (Hz : le_Z (le k x ++ replicate (Z.to_nat (n - k)) 0) = x).
  { rewrite le_Z_app, le_Z_zeros, le_Z_le; [lia|lia|done|apply wf_le; lia|by apply Forall_replicate]. }
  rewrite <- Hz at 1. apply le_le_Z.
  - rewrite zlen_app, length_le, zlen_replicate by lia. lia.
  - apply Forall_app_2; [apply wf_le; lia|by apply Forall_replicate].
Qed.

Lemma big_Bytes_pad x n :
  0 ≤ x < 2 ^ (n * 8) → 0 ≤ n →
  zlen (big_Bytes x) ≤ n ∧
  reverse (big_Bytes x) ++ replicate (Z.to_nat (n - zlen (big_Bytes x))) 0 = le n x.
Proof.
  intros Hx Hn. unfold big_Bytes. rewrite reverse_involutive, Z.abs_eq by lia.
  set (k := (big_BitLen x + 7) `div` 8). pose proof (big_BitLen_nonneg x).
  assert (Hbl : big_BitLen x ≤ n * 8) by (apply big_BitLen_spec; lia).
  assert (Hk : 0 ≤ k ≤ n) by (unfold k; Z.to_euclidean_division_equations; lia).
  assert (Hlen : zlen (reverse (le k x)) = k).
  { unfold zlen. rewrite length_reverse. apply length_le. lia. }
  rewrite Hlen. split; [lia|]. symmetry. apply le_pad; [done|]. split; [lia|].
  apply big_BitLen_spec; [lia..|]. unfold k. Z.to_euclidean_division_equations; lia.
Qed.

Lemma store_reversed_spec be a b :
  length a = length be → store_reversed be (a ++ b) = Ok (reverse be ++ b).
Proof.
  revert a b. induction be as [|x be IH]; intros a b Hlen; [by destruct a|].
  cbn [store_reversed]. destruct a as [|y a _] using rev_ind; [done|].
  rewrite length_app in Hlen. simpl in Hlen. assert (Ha : length a = length be) by lia.
  rewrite <- (assoc_L (++)). unfold zlen. rewrite set_at_lt by (rewrite length_app, <- Ha; simpl; lia).
  cbn [mbind result_bind]. rewrite <- Ha, insert_app_r_alt, Nat.sub_diag by lia. cbn [app].
  change (<[0%nat:=x]> (y :: b)) with (x :: b). rewrite IH by done.
  by rewrite reverse_cons, <- (assoc_L (++)).
Qed.

Lemma setBigInt_ok name n u x :
  0 ≤ n → 0 ≤ x < 2 ^ (n * 8) → setBigInt name (n * 8) u x = (Ok (), le n x).
Proof.
  intros Hn Hx. unfold setBigInt. rewrite (proj2 (Z.ltb_ge x 0)) by lia.
  rewrite (proj2 (Z.ltb_ge _ _)) by (apply big_BitLen_spec; lia).
  destruct (big_Bytes_pad x n Hx Hn) as [Hlen <-]. pose proof (zlen_nonneg (big_Bytes x)).
  unfold zero_array. rewrite Z.div_mul by lia.
  replace (replicate (Z.to_nat n) 0) with
    (replicate (length (big_Bytes x)) 0 ++ replicate (Z.to_nat (n - zlen (big_Bytes x))) 0).
  2: { rewrite <- replicate_add. f_equal. unfold zlen in *. lia. }
  by rewrite store_reversed_spec by (by rewrite length_replicate).
Qed.

Lemma setBigInt_error name n u x :
  0 ≤ n → x < 0 ∨ 2 ^ (n * 8) ≤ x → ∃ e, setBigInt name (n * 8) u x = (Err e, u).
Proof.
  intros Hn Hx. unfold setBigInt. destruct (Z.ltb_spec x 0); [by eexists|].
  assert (Hbl : n * 8 < big_BitLen x).
  { apply Z.nle_gt. rewrite big_BitLen_spec by lia. lia. }
  rewrite (proj2 (Z.ltb_lt _ _)) by done. by eexists.
Qed.

(** ** Decimal text *)

Lemma parse_digits_digits n z acc a :
  (0 < n)%nat → 0 ≤ z < 10 ^ Z.of_nat n → a = 0 →
  parse_digits (digits n z acc) a = parse_digits acc z.
Proof.
  intros Hn Hz ->. revert z acc Hn Hz. induction n as [|n IH]; intros z acc Hn Hz; [lia|].
  cbn [digits]. assert (Hm : 0 ≤ z `mod` 10 < 10) by (apply Z.mod_pos_bound; lia).
  assert (Hstep : ∀ b, parse_digits ((48 + z `mod` 10) :: acc) b = parse_digits acc (b * 10 + z `mod` 10)).
  { intros b. cbn [parse_digits]. rewrite !(proj2 (Z.leb_le _ _)) by lia. cbn [andb].
    f_equal. lia. }
  destruct (Z.ltb_spec z 10).
  - rewrite Hstep, Z.mod_small by lia. done.
  - assert (Hn' : (0 < n)%nat) by (destruct n; [simpl in Hz; lia|lia]).
    rewrite IH, Hstep; [|done|].
    + f_equal. Z.to_euclidean_division_equations; lia.
    + rewrite Nat2Z.inj_succ, Z.pow_succ_r in Hz by lia.
      split; [apply Z.div_pos; lia|apply Z.div_lt_upper_bound; lia].
Qed.

Lemma digits_head n z acc :
  (0 < n)%nat → 0 ≤ z → ∃ c r, digits n z acc = c :: r ∧ 48 ≤ c < 58.
Proof.
  revert z acc. induction n as [|n IH]; intros z acc Hn Hz; [lia|]. cbn [digits].
  assert (Hm : 0 ≤ z `mod` 10 < 10) by (apply Z.mod_pos_bound; lia).
  destruct (z <? 10); [eexists _, _; split; [done|lia]|].
  destruct n as [|n]; [eexists _, _; split; [done|lia]|]. apply IH; [lia|apply Z.div_pos; lia].
Qed.

Lemma format_nat_fuel z : 0 ≤ z → z < 10 ^ Z.of_nat (S (Z.to_nat (Z.log2 z))).
Proof.
  intros Hz. pose proof (Z.log2_nonneg z). rewrite Nat2Z.inj_succ, Z2Nat.id by done.
  destruct (decide (z = 0)) as [->|]; [done|].
  eapply Z.lt_le_trans; [apply Z.log2_spec; lia|]. apply Z.pow_le_mono_l. lia.
Qed.

Lemma parse_digits_format z : 0 ≤ z → parse_digits (format_nat z) 0 = Some z.
Proof.
  intros Hz. pose proof (format_nat_fuel z Hz). unfold format_nat. by rewrite parse_digits_digits by lia.
Qed.

Lemma format_nat_head z : 0 ≤ z → ∃ c r, format_nat z = c :: r ∧ 48 ≤ c < 58.
Proof. intros Hz. apply digits_head; [lia|done]. Qed.

Lemma big_SetString_format z : 0 ≤ z → big_SetString (format_nat z) = Some z.
Proof.
  intros Hz. pose proof (parse_digits_format z Hz) as Hp.
  destruct (format_nat_head z Hz) as (c & r & Hd & Hc). rewrite Hd in *. unfold big_SetString.
  by rewrite !(proj2 (Z.eqb_neq _ _)) by lia.
Qed.

Lemma unmarshalText_format name n u z :
  0 ≤ n → 0 ≤ z < 2 ^ (n * 8) → unmarshalText name (n * 8) u (format_nat z) = (Ok (), le n z).
Proof.
  intros Hn Hz. unfold unmarshalText. rewrite big_SetString_format by lia. by apply setBigInt_ok.
Qed.

Lemma strip_quotes_append s : strip_quotes (append_quote s) = Ok s.
Proof.
  pose proof (unquote_jsonQuote s) as H. unfold unquoteJSONString in H.
  unfold strip_quotes, append_quote. destruct (zlen (jsonQuote s) <? 2); [done|].
  destruct (index_at (jsonQuote s) 0) as [c|e|w]; cbn [mbind result_bind] in *; [|done|done].
  destruct (negb (c =? quote)); [done|].
  destruct (index_at (jsonQuote s) (zlen (jsonQuote s) - 1)) as [c'|e|w]; cbn [mbind result_bind] in *; [|done|done].
  by destruct (negb (c' =? quote)).
Qed.

(** ** [U128] and [U256] *)

Lemma wf_array_length n u : wf_array (Z.of_nat n) u → length u = n.
Proof. intros [Hlen _]. unfold zlen in Hlen. lia. Qed.

Lemma U128_BigInt_le u : wf_array 16 u → U128_BigInt u = le_Z u.
Proof. intros Hu. apply big_flip; [by apply (wf_array_length 16)|apply Hu]. Qed.

Lemma U256_BigInt_le u : wf_array 32 u → U256_BigInt u = le_Z u.
Proof. intros Hu. apply big_flip; [by apply (wf_array_length 32)|apply Hu]. Qed.

Lemma le_Z_bound n u : wf_array n u → 0 ≤ le_Z u < 2 ^ (n * 8).
Proof. intros [Hlen Hwf]. by apply le_Z_is_u. Qed.

Lemma lor_eq_0 a b : Z.lor a b = 0 → a = 0 ∧ b = 0.
Proof. apply Z.lor_eq_0_iff. Qed.

(** The four words of a [U256]. *)
Lemma U256_words u :
  wf_array 32 u →
  is_u 64 (word u 0) ∧ 0 ≤ word u 8 ∧ 0 ≤ word u 16 ∧ 0 ≤ word u 24 ∧
  le_Z u = word u 0 + (word u 8 + (word u 16 + word u 24 * 2 ^ 64) * 2 ^ 64) * 2 ^ 64.
Proof.
  intros Hu. apply (wf_array_split 8 24) in Hu as (a & u1 & -> & [Ha Hwa] & H1); [|lia..].
  apply (wf_array_split 8 16) in H1 as (b & u2 & -> & [Hb Hwb] & H2); [|lia..].
  apply (wf_array_split 8 8) in H2 as (c & d & -> & [Hc Hwc] & [Hd Hwd]); [|lia..].
  pose proof (word_le_Z [] a (b ++ c ++ d) Ha Hwa) as E0.
  pose proof (word_le_Z a b (c ++ d) Hb Hwb) as E1.
  pose proof (word_le_Z (a ++ b) c d Hc Hwc) as E2.
  pose proof (word_le_Z (a ++ b ++ c) d [] Hd Hwd) as E3.
  assert (length a = 8%nat ∧ length b = 8%nat ∧ length c = 8%nat) as (Na & Nb & Nc) by (unfold zlen in *; lia).
  rewrite app_nil_r, <- !(assoc_L (++)) in *. rewrite !length_app, ?Na, ?Nb, ?Nc in *. cbn [app length Nat.add] in *.
  rewrite E0, E1, E2, E3.
  rewrite (le_Z_app a (b ++ c ++ d)), (le_Z_app b (c ++ d)), (le_Z_app c d)
    by (try done; repeat apply Forall_app_2; done).
  rewrite Ha, Hb, Hc. change (8 * 8) with 64.
  pose proof (le_Z_is_u 8 a Ha Hwa). pose proof (le_Z_is_u 8 b Hb Hwb).
  pose proof (le_Z_is_u 8 c Hc Hwc). pose proof (le_Z_is_u 8 d Hd Hwd).
  split; [done|]. unfold is_u in *. repeat split; lia.
Qed.

Lemma U128_String_format u : wf_array 16 u → U128_String u = format_nat (le_Z u).
Proof.
  intros Hu. destruct (U128_words u Hu) as (Hlo & Hhi & Heq). unfold U128_String.
  destruct (Z.eqb_spec (U128_Hi u) 0) as [Hz|Hz].
  - unfold format_uint. f_equal. lia.
  - rewrite U128_BigInt_le by done. unfold big_String.
    pose proof (le_Z_bound 16 u Hu). by rewrite (proj2 (Z.ltb_ge _ _)) by lia.
Qed.

Lemma U256_String_format u : wf_array 32 u → U256_String u = format_nat (le_Z u).
Proof.
  intros Hu. destruct (U256_words u Hu) as (_ & _ & _ & _ & Heq). unfold U256_String.
  destruct (Z.eqb_spec (Z.lor (Z.lor (word u 8) (word u 16)) (word u 24)) 0) as [Hz|Hz].
  - apply lor_eq_0 in Hz as [[H1 H2]%lor_eq_0 H3]. unfold format_uint. f_equal. lia.
  - rewrite U256_BigInt_le by done. unfold big_String.
    pose proof (le_Z_bound 32 u Hu). by rewrite (proj2 (Z.ltb_ge _ _)) by lia.
Qed.

Lemma le_le_Z_array n u : wf_array n u → le n (le_Z u) = u.
Proof. intros [Hlen Hwf]. by apply le_le_Z. Qed.

Lemma unmarshalText_roundtrip name n u0 u :
  0 ≤ n → wf_array n u → unmarshalText name (n * 8) u0 (format_nat (le_Z u)) = (Ok (), u).
Proof.
  intros Hn Hu. rewrite unmarshalText_format by (done || by apply le_Z_bound). by rewrite le_le_Z_array.
Qed.

(** ** The two-word integers *)

Definition wf_Uint128 (u : Uint128) : Prop := is_u 64 (Lo u) ∧ is_u 64 (Hi u).
Definition wf_Int128 (i : Int128) : Prop := is_u 64 (ILo i) ∧ is_s 64 (IHi i).

Definition value128 (u : Uint128) : Z := Lo u + Hi u * 2 ^ 64.
Definition ivalue128 (i : Int128) : Z := ILo i + IHi i * 2 ^ 64.

Lemma two_words_le lo hi : is_u 64 lo → is_u 64 hi → word_bytes lo ++ word_bytes hi = le 16 (lo + hi * 2 ^ 64).
Proof.
  intros Hlo Hhi. rewrite !word_bytes_le.
  assert (Hz : le_Z (le 8 lo ++ le 8 hi) = lo + hi * 2 ^ 64).
  { rewrite le_Z_app, !le_Z_le, length_le by (done || lia || (apply wf_le; lia)). done. }
  rewrite <- Hz. symmetry. apply le_le_Z.
  - by rewrite zlen_app, !length_le by lia.
  - apply Forall_app_2; apply wf_le; lia.
Qed.

Lemma wf_array_le n v : 0 ≤ n → wf_array n (le n v).
Proof. intros. split; [by apply length_le|by apply wf_le]. Qed.

Lemma Uint128_of_value raw : wf_array 16 raw → wf_Uint128 (Uint128_of raw) ∧ value128 (Uint128_of raw) = le_Z raw.
Proof.
  intros Hr. destruct (U128_words raw Hr) as (Hlo & Hhi & Heq).
  unfold wf_Uint128, value128, Uint128_of, le_uint64. simpl. fold (U128_Lo raw) (U128_Hi raw).
  split; [done|lia].
Qed.

Lemma Int128_of_value raw :
  wf_array 16 raw → wf_Int128 (Int128_of raw) ∧ ivalue128 (Int128_of raw) = wrapS 128 (le_Z raw).
Proof.
  intros Hr. destruct (U128_words raw Hr) as (Hlo & Hhi & Heq).
  unfold wf_Int128, ivalue128, Int128_of, le_uint64. simpl. fold (U128_Lo raw) (U128_Hi raw).
  split; [split; [done|by apply wrapS_is_s]|]. rewrite Heq. unfold wrapS, is_u in *.
  change (64 - 1) with 63. change (128 - 1) with 127.
  Z.to_euclidean_division_equations. lia.
Qed.

Lemma Uint128_Bytes_le u : wf_Uint128 u → Uint128_Bytes u = le 16 (value128 u).
Proof. intros [? ?]. by apply two_words_le. Qed.

Lemma Int128_raw_le i : wf_Int128 i → Int128_raw i = le 16 (wrapU 128 (ivalue128 i)).
Proof.
  intros [Hlo Hhi]. unfold Int128_raw, ivalue128.
  rewrite two_words_le by (done || by apply wrapU_is_u). f_equal.
  unfold wrapU, is_u, is_s in *. change (64 - 1) with 63 in *.
  Z.to_euclidean_division_equations. lia.
Qed.

Lemma value128_u u : wf_Uint128 u → is_u 128 (value128 u).
Proof. unfold wf_Uint128, value128, is_u. intros [? ?]. lia. Qed.

Lemma ivalue128_s i : wf_Int128 i → is_s 128 (ivalue128 i).
Proof. unfold wf_Int128, ivalue128, is_u, is_s. intros [? ?]. change (64 - 1) with 63 in *. change (128 - 1) with 127. lia. Qed.

Lemma Uint128_BigInt_value u : wf_Uint128 u → Uint128_BigInt u = value128 u.
Proof.
  intros Hu. unfold Uint128_BigInt, reverse16. rewrite Uint128_Bytes_le by done.
  rewrite big_flip; [|by apply (length_le_nat 16)|by apply wf_le].
  apply le_Z_le; [lia|]. by apply value128_u.
Qed.

Lemma Int128_BigInt_value i : wf_Int128 i → Int128_BigInt i = ivalue128 i.
Proof.
  intros Hi. unfold Int128_BigInt, reverse16. rewrite Int128_raw_le by done.
  rewrite big_flip; [|by apply (length_le_nat 16)|by apply wf_le].
  rewrite le_Z_le by (lia || by apply wrapU_is_u).
  destruct Hi as [Hlo Hhi]. unfold ivalue128, wrapU, is_u, is_s in *. change (64 - 1) with 63 in *.
  change (1 ≪ 128) with (2 ^ 128).
  case_if; Z.to_euclidean_division_equations; lia.
Qed.

(** ** Wire forms *)

Lemma reads_ReadU128 u : wf_array 16 u → reads ReadU128 u u.
Proof.
  intros Hu. destruct Hu as [Hlen Hwf]. eapply (reads_eq _ _ (u ++ [])); [|app_eq].
  unfold ReadU128. reads_step u. rewrite copy_array_id; [apply reads_ret|]. unfold zlen in Hlen. lia.
Qed.

Lemma reads_Uint128 u : wf_Uint128 u → reads Uint128_UnmarshalFromDecoder (le 16 (value128 u)) u.
Proof.
  intros Hu. pose proof (value128_u u Hu) as Hv.
  assert (Hw : wf_array 16 (le 16 (value128 u))) by (by apply wf_array_le).
  eapply (reads_eq _ _ (le 16 (value128 u) ++ [])); [|app_eq]. unfold Uint128_UnmarshalFromDecoder.
  eapply reads_bind; [by apply reads_ReadU128| |done].
  assert (Hof : Uint128_of (le 16 (value128 u)) = u).
  { destruct (Uint128_of_value _ Hw) as [[Hlo Hhi] Heq]. rewrite le_Z_le in Heq by (done || lia).
    destruct Hu as [Hlo' Hhi']. destruct u as [lo hi], (Uint128_of _) as [lo' hi'].
    unfold value128, is_u in *. simpl in *. f_equal; lia. }
  rewrite Hof. apply reads_ret.
Qed.

Lemma reads_Int128 i :
  wf_Int128 i → reads Int128_UnmarshalFromDecoder (le 16 (wrapU 128 (ivalue128 i))) i.
Proof.
  intros Hi. pose proof (ivalue128_s i Hi) as Hv.
  assert (Hw : wf_array 16 (le 16 (wrapU 128 (ivalue128 i)))) by (by apply wf_array_le).
  eapply (reads_eq _ _ (le 16 (wrapU 128 (ivalue128 i)) ++ [])); [|app_eq]. unfold Int128_UnmarshalFromDecoder.
  eapply reads_bind; [by apply reads_ReadU128| |done].
  assert (Hof : Int128_of (le 16 (wrapU 128 (ivalue128 i))) = i).
  { destruct (Int128_of_value _ Hw) as [[Hlo Hhi] Heq].
    rewrite le_Z_le, wrapS_wrapU in Heq by (done || lia || by apply wrapU_is_u).
    destruct Hi as [Hlo' Hhi']. destruct i as [lo hi], (Int128_of _) as [lo' hi'].
    unfold ivalue128, is_u, is_s in *. simpl in *. f_equal; lia. }
  rewrite Hof. apply reads_ret.
Qed.

Definition wf_Uint256 (u : Uint256) : Prop := wf_Uint128 (Lo128 u) ∧ wf_Uint128 (Hi128 u).
Definition wf_Int256 (i : Int256) : Prop := wf_Uint128 (ILo128 i) ∧ wf_Int128 (IHi128 i).
Definition value256 (u : Uint256) : Z := value128 (Lo128 u) + value128 (Hi128 u) * 2 ^ 128.
Definition ivalue256 (i : Int256) : Z := value128 (ILo128 i) + ivalue128 (IHi128 i) * 2 ^ 128.

Lemma two_halves_le lo hi :
  is_u 128 lo → is_u 128 hi → le 16 lo ++ le 16 hi = le 32 (lo + hi * 2 ^ 128).
Proof.
  intros Hlo Hhi.
  assert (Hz : le_Z (le 16 lo ++ le 16 hi) = lo + hi * 2 ^ 128).
  { rewrite le_Z_app, !le_Z_le, length_le by (done || lia || (apply wf_le; lia)). done. }
  rewrite <- Hz. symmetry. apply le_le_Z.
  - by rewrite zlen_app, !length_le by lia.
  - apply Forall_app_2; apply wf_le; lia.
Qed.

Lemma Uint256_Bytes_le u : wf_Uint256 u → Uint256_Bytes u = le 32 (value256 u).
Proof.
  intros [Hlo Hhi]. unfold Uint256_Bytes, value256. rewrite !Uint128_Bytes_le by done.
  by apply two_halves_le; apply value128_u.
Qed.

Lemma value256_u u : wf_Uint256 u → is_u 256 (value256 u).
Proof.
  intros [Hlo Hhi]. apply value128_u in Hlo. apply value128_u in Hhi.
  unfold value256, is_u in *. lia.
Qed.

Lemma Uint256_BigInt_value u : wf_Uint256 u → Uint256_BigInt u = value256 u.
Proof.
  intros Hu. unfold Uint256_BigInt. rewrite Uint256_Bytes_le by done.
  rewrite big_flip; [|by apply (length_le_nat 32)|by apply wf_le].
  apply le_Z_le; [lia|]. by apply value256_u.
Qed.

Lemma Int256_value_spec i : wf_Int256 i → Int256_value i = ivalue256 i.
Proof.
  intros [Hlo Hhi]. unfold Int256_value. rewrite Uint128_Bytes_le, Int128_raw_le by done.
  pose proof (value128_u _ Hlo) as Hl. pose proof (ivalue128_s _ Hhi) as Hh.
  rewrite two_halves_le by (done || by apply wrapU_is_u).
  rewrite big_flip; [|by apply (length_le_nat 32)|by apply wf_le].
  rewrite le_Z_le.
  - destruct Hhi as [Hilo Hihi]. unfold ivalue256, ivalue128, wrapU, is_u, is_s in *.
    change (64 - 1) with 63 in *. change (128 - 1) with 127 in *. change (1 ≪ 256) with (2 ^ 256).
    case_if; Z.to_euclidean_division_equations; lia.
  - lia.
  - pose proof (wrapU_is_u 128 (ivalue128 (IHi128 i))) as Hu. unfold is_u in *. lia.
Qed.

(** ** [Uint128FromBigInt] *)

Lemma le_take (n k : nat) x : (n ≤ k)%nat → take n (le (Z.of_nat k) x) = le (Z.of_nat n) x.
Proof.
  revert k x. induction n as [|n IH]; intros k x Hk; [by rewrite le_0|].
  destruct k as [|k]; [lia|]. rewrite !Nat2Z.inj_succ, <- !Z.add_1_l, !le_S by lia.
  cbn [take]. f_equal. apply IH. lia.
Qed.

Lemma le_mod n y : 0 ≤ n → le n (y `mod` 2 ^ (n * 8)) = le n y.
Proof.
  intros Hn. change (y `mod` 2 ^ (n * 8)) with (wrapU (n * 8) y). rewrite <- le_Z_le_mod by done.
  apply le_le_Z; [by apply length_le|by apply wf_le].
Qed.

Lemma zlen_reverse {A} (l : list A) : zlen (reverse l) = zlen l.
Proof. unfold zlen. by rewrite length_reverse. Qed.

(** The last [n] bytes of a big-endian number are its low bytes. *)
Lemma low_bytes (n k : nat) y :
  (n ≤ k)%nat →
  drop (length (reverse (le (Z.of_nat k) y)) - n) (reverse (le (Z.of_nat k) y)) = reverse (le (Z.of_nat n) y).
Proof.
  intros Hn. rewrite <- (le_take n k) by done.
  assert (Hlen : length (le (Z.of_nat k) y) = k) by (rewrite length_le_nat; lia).
  rewrite length_reverse, Hlen.
  assert (Hr : reverse (le (Z.of_nat k) y)
    = reverse (drop n (le (Z.of_nat k) y)) ++ reverse (take n (le (Z.of_nat k) y))).
  { by rewrite <- reverse_app, take_drop. }
  rewrite Hr. apply drop_app_length'. by rewrite length_reverse, length_drop, Hlen.
Qed.

Lemma big_Bytes_is x : ∃ k : nat, big_Bytes x = reverse (le (Z.of_nat k) (Z.abs x)) ∧ Z.abs x < 2 ^ (Z.of_nat k * 8).
Proof.
  pose proof (big_BitLen_nonneg x). set (k := (big_BitLen x + 7) `div` 8).
  assert (Hk : 0 ≤ k) by (unfold k; apply Z.div_pos; lia).
  exists (Z.to_nat k). rewrite Z2Nat.id by done. split; [done|].
  assert (Hb : big_BitLen (Z.abs x) = big_BitLen x).
  { unfold big_BitLen. rewrite Z.abs_idemp.
    destruct (Z.eqb_spec x 0), (Z.eqb_spec (Z.abs x) 0); (done || lia). }
  apply big_BitLen_spec; [lia..|]. rewrite Hb. unfold k. Z.to_euclidean_division_equations; lia.
Qed.

Lemma Uint128FromBigInt_raw x : Uint128FromBigInt x = Uint128_of (le 16 (Z.abs x)).
Proof.
  destruct (big_Bytes_is x) as (k & Hk & Hlt). unfold Uint128FromBigInt, reverse16. rewrite Hk.
  assert (Hlen : zlen (reverse (le (Z.of_nat k) (Z.abs x))) = Z.of_nat k)
    by (rewrite zlen_reverse; apply length_le; lia).
  f_equal. rewrite Hlen. destruct (Z.ltb_spec 16 (Z.of_nat k)).
  - rewrite (low_bytes 16 k) by lia. rewrite zlen_reverse, length_le by lia.
    change (zero_array (16 - Z.of_nat 16)) with (@nil Z). cbn [app].
    rewrite flip_reverse, reverse_involutive; [done|]. by rewrite length_reverse, (length_le_nat 16).
  - rewrite Hlen. unfold zero_array. rewrite flip_reverse.
    + rewrite reverse_app, reverse_involutive, reverse_replicate. symmetry. apply le_pad; [lia|].
      split; [lia|done].
    + rewrite length_app, length_replicate. unfold zlen in Hlen. lia.
Qed.

Lemma Uint128FromBigInt_spec x :
  wf_Uint128 (Uint128FromBigInt x) ∧ value128 (Uint128FromBigInt x) = Z.abs x `mod` 2 ^ 128.
Proof.
  rewrite Uint128FromBigInt_raw, <- (le_mod 16) by lia. change (16 * 8) with 128.
  destruct (Uint128_of_value (le 16 (Z.abs x `mod` 2 ^ 128))) as [Hwf Hv]; [by apply wf_array_le|].
  split; [done|]. rewrite Hv. apply le_Z_le; [lia|]. by apply Z.mod_pos_bound.
Qed.

(** ** Properties *)

(** C33: [SetBigInt] accepts exactly the integers in range, stores the array
    whose [BigInt] is that integer, and otherwise reports an error and
    leaves the receiver alone; for 128 and for 256 bits. *)
Theorem SetBigInt_exact (u128 u256 : bytes) (x : Z) :
  (if decide (0 ≤ x < 2 ^ 128)
   then ∃ v, U128_SetBigInt u128 x = (Ok (), v) ∧ wf_array 16 v ∧ U128_BigInt v = x
   else ∃ e, U128_SetBigInt u128 x = (Err e, u128)) ∧
  (if decide (0 ≤ x < 2 ^ 256)
   then ∃ v, U256_SetBigInt u256 x = (Ok (), v) ∧ wf_array 32 v ∧ U256_BigInt v = x
   else ∃ e, U256_SetBigInt u256 x = (Err e, u256)).
Proof.
  split.
  - case_decide as Hx.
    + exists (le 16 x). split; [by apply (setBigInt_ok "U128" 16)|].
      assert (Hw : wf_array 16 (le 16 x)) by (by apply wf_array_le).
      split; [done|]. rewrite U128_BigInt_le by done. by apply le_Z_le.
    + apply (setBigInt_error "U128" 16); [lia|]. change (16 * 8) with 128. lia.
  - case_decide as Hx.
    + exists (le 32 x). split; [by apply (setBigInt_ok "U256" 32)|].
      assert (Hw : wf_array 32 (le 32 x)) by (by apply wf_array_le).
      split; [done|]. rewrite U256_BigInt_le by done. by apply le_Z_le.
    + apply (setBigInt_error "U256" 32); [lia|]. change (32 * 8) with 256. lia.
Qed.

(** Decimal text and JSON strings round trip: unmarshalling what a
    [U128] or [U256] marshals to gives the same bytes. *)
Theorem U128_U256_text_roundtrip (u0 u v0 v : bytes) :
  wf_array 16 u → wf_array 32 v →
  (∃ t, U128_MarshalText u = Ok t ∧ U128_UnmarshalText u0 t = (Ok (), u)) ∧
  (∃ t, U128_MarshalJSON u = Ok t ∧ U128_UnmarshalJSON u0 t = (Ok (), u)) ∧
  (∃ t, U256_MarshalText v = Ok t ∧ U256_UnmarshalText v0 t = (Ok (), v)) ∧
  (∃ t, U256_MarshalJSON v = Ok t ∧ U256_UnmarshalJSON v0 t = (Ok (), v)).
Proof.
  intros Hu Hv.
  unfold U128_MarshalText, U128_UnmarshalText, U128_MarshalJSON, U128_UnmarshalJSON,
    U256_MarshalText, U256_UnmarshalText, U256_MarshalJSON, U256_UnmarshalJSON, unmarshalJSON_big.
  rewrite U128_String_format, U256_String_format by done.
  pose proof (unmarshalText_roundtrip "U128" 16 u0 u ltac:(lia) Hu) as Hr.
  pose proof (unmarshalText_roundtrip "U256" 32 v0 v ltac:(lia) Hv) as Hr'.
  repeat split; eexists; (split; [reflexivity|]); rewrite ?strip_quotes_append; done.
Qed.

Lemma U128_U256_text_roundtrip_witness :
  ∃ t, U128_MarshalText (zero_array 8 ++ replicate 8 255) = Ok t
    ∧ U128_UnmarshalText (zero_array 16) t = (Ok (), zero_array 8 ++ replicate 8 255).
Proof.
  apply (U128_U256_text_roundtrip (zero_array 16) (zero_array 8 ++ replicate 8 255)
    (zero_array 32) (replicate 32 255)); apply (bool_decide_unpack _); by vm_compute.
Defined.

(** The signed 128-bit integer is two's complement on the wire: a value
    is written as the 16 bytes of its residue, those bytes read back to it,
    and [BigInt] is the signed value, always in range. *)
Theorem Int128_twos_complement (i : Int128) (e : Encoder) :
  wf_Int128 i →
  e_buf (Int128_MarshalToEncoder i e) = e_buf e ++ le 16 (wrapU 128 (Int128_BigInt i)) ∧
  reads Int128_UnmarshalFromDecoder (le 16 (wrapU 128 (Int128_BigInt i))) i ∧
  Int128_BigInt i = ILo i + IHi i * 2 ^ 64 ∧ is_s 128 (Int128_BigInt i).
Proof.
  intros Hi. rewrite Int128_BigInt_value by done. split; [|split; [by apply reads_Int128|]].
  - unfold Int128_MarshalToEncoder, WriteU128. by rewrite e_buf_append, Int128_raw_le.
  - split; [done|by apply ivalue128_s].
Qed.

Lemma Int128_twos_complement_witness :
  Int128_BigInt (mkInt128 5 (-1)) = 5 + (-1) * 2 ^ 64 ∧ is_s 128 (Int128_BigInt (mkInt128 5 (-1))).
Proof.
  apply (Int128_twos_complement (mkInt128 5 (-1)) (NewEncoder 0)).
  apply (bool_decide_unpack _). by vm_compute.
Defined.

(** The 256-bit integers are two 128-bit halves: [BigInt] of a
    [Uint256] and the value an [Int256] prints are the unsigned and the
    signed combination, and [Uint128FromBigInt] keeps the low 128 bits of
    the absolute value (the sign and the overflow are dropped silently). *)
Theorem Uint256_Int256_values (u : Uint256) (i : Int256) (x : Z) :
  wf_Uint256 u → wf_Int256 i →
  Uint256_BigInt u = Uint128_BigInt (Lo128 u) + Uint128_BigInt (Hi128 u) * 2 ^ 128 ∧
  Int256_value i = Uint128_BigInt (ILo128 i) + Int128_BigInt (IHi128 i) * 2 ^ 128 ∧
  Uint128_BigInt (Uint128FromBigInt x) = Z.abs x `mod` 2 ^ 128.
Proof.
  intros Hu Hi. destruct (Uint128FromBigInt_spec x) as [Hf Hfv].
  rewrite Uint256_BigInt_value, Int256_value_spec, !Uint128_BigInt_value, Int128_BigInt_value by (apply Hu || apply Hi || done).
  done.
Qed.

Lemma Uint256_Int256_values_witness :
  Uint256_BigInt (mkUint256 (mkUint128 1 2) (mkUint128 3 4))
  = Uint128_BigInt (mkUint128 1 2) + Uint128_BigInt (mkUint128 3 4) * 2 ^ 128.
Proof.
  apply (Uint256_Int256_values (mkUint256 (mkUint128 1 2) (mkUint128 3 4))
    (mkInt256 (mkUint128 1 2) (mkInt128 3 (-4))) (-7));
    apply (bool_decide_unpack _); by vm_compute.
Defined.
