(* ===== verification/Reader.v ===== *)
(** * The sticky-error reader: [encoding/reader.go]

    A [Reader] remembers the first error and turns later reads into no-ops
    that return zero values.  [sim] states what that buys: a straight-line
    [Reader] program followed by one [Err] check behaves like the same
    program over the [Decoder] that checks after every read. *)

From S2P Require Import Prelude Wire Keys BigUint.

Record Reader := mkReader { r_d : Decoder; r_err : option error }.

Definition NewReader (b : bytes) : Reader := mkReader (NewDecoder b) None.
Definition Reader_Decoder (r : Reader) : Decoder := r_d r.
Definition Reader_Err (r : Reader) : option error := r_err r.
Definition Reader_Pos (r : Reader) : Z := Pos (r_d r).
Definition Reader_Remaining (r : Reader) : Z := Remaining (r_d r).

Definition TrailingBytesError (remaining : Z) : error := ErrStruct "TrailingBytesError" [AZ remaining].

Definition Reader_Done (r : Reader) : result () :=
  match r_err r with
  | Some e => Err e
  | None =>
      let rem := Remaining (r_d r) in
      if negb (rem =? 0) then Err (TrailingBytesError rem) else Ok ()
  end.

(** A method of [*Reader].  It never returns an error: only a value or, as
    any Go code, a panic. *)
Definition Rd (A : Type) : Type := Reader → result A * Reader.

#[export] Instance Rd_ret : MRet Rd := λ A a r, (Ok a, r).
#[export] Instance Rd_bind : MBind Rd := λ A B f m r,
  match m r with
  | (Ok a, r') => f a r'
  | (Err e, r') => (Err e, r')
  | (Panic w, r') => (Panic w, r')
  end.

(** The body shared by the accessors: [if r.err != nil { return zero }],
    read, [if err != nil { r.err = err }].  On an error the decoder's
    methods return the zero value. *)
Definition sticky {A} (zero : A) (m : Dec A) : Rd A := λ r,
  match r_err r with
  | Some _ => (Ok zero, r)
  | None =>
      match m (r_d r) with
      | (Ok v, d) => (Ok v, mkReader d None)
      | (Err e, d) => (Ok zero, mkReader d (Some e))
      | (Panic w, d) => (Panic w, mkReader d None)
      end
  end.

Definition R_U8 : Rd Z := sticky 0 ReadUint8.
Definition R_U16 : Rd Z := sticky 0 ReadUint16.
Definition R_U32 : Rd Z := sticky 0 ReadUint32.
Definition R_U64 : Rd Z := sticky 0 ReadUint64.
Definition R_I8 : Rd Z := v ← R_U8; mret (s8 v).
Definition R_I16 : Rd Z := v ← R_U16; mret (s16 v).
Definition R_I32 : Rd Z := v ← R_U32; mret (s32 v).
Definition R_I64 : Rd Z := v ← R_U64; mret (s64 v).
Definition R_U128 : Rd bytes := sticky (zero_array 16) ReadU128.
Definition R_U256 : Rd bytes := sticky (zero_array 32) ReadU256.
Definition R_Bool : Rd bool := v ← R_U8; mret (negb (v =? 0)).

(** [copy(out, b)] *)
Definition copy_into (out b : bytes) : bytes := take (length out) b ++ drop (length b) out.

(** The new contents of [out]. *)
Definition R_Read (out : bytes) : Rd bytes :=
  sticky out (b ← ReadBytes (zlen out); mret (copy_into out b)).

Definition R_Bytes32 : Rd bytes := R_Read (zero_array 32).
Definition R_Bytes64 : Rd bytes := R_Read (zero_array 64).

Definition R_Bytes (n : Z) : Rd bytes :=
  if n <? 0 then λ r, (Panic "makeslice: len out of range", r) else R_Read (zero_array n).

Definition R_Skip (n : Z) : Rd () := sticky () (ReadBytes n;; mret ()).

(** [int(n)] of a 64-bit length may be negative. *)
Definition R_StrU64 : Rd bytes := n ← R_U64; sticky [] (ReadBytes (s64 n)).

(** [solana.ReadOptionalPubkey] *)
Definition ReadOptionalPubkey : Rd (option PublicKey) :=
  tag ← R_U32; pk ← R_Bytes32; mret (if tag =? 1 then Some pk else None).

(** ** Simulation by the decoder *)

(** Nothing happens once an error is pending. *)
Definition quiet {A} (r : Rd A) : Prop :=
  ∀ rd, r_err rd ≠ None → ∃ v, r rd = (Ok v, rd).

Definition sim {A} (m : Dec A) (r : Rd A) : Prop :=
  quiet r ∧
  ∀ d, match m d with
       | (Ok v, d') => r (mkReader d None) = (Ok v, mkReader d' None)
       | (Err e, d') => ∃ v, r (mkReader d None) = (Ok v, mkReader d' (Some e))
       | (Panic w, _) => (r (mkReader d None)).1 = Panic w
       end.

Lemma sim_ret {A} (a : A) : sim (mret a) (mret a).
Proof. split; [intros rd _; by exists a|done]. Qed.

Lemma quiet_bind {A B} (r : Rd A) (g : A → Rd B) :
  quiet r → (∀ a, quiet (g a)) → quiet (r ≫= g).
Proof.
  intros Hr Hg rd Hrd. unfold mbind, Rd_bind. destruct (Hr rd Hrd) as [a ->]. by apply Hg.
Qed.

Lemma sim_bind {A B} (m : Dec A) (r : Rd A) (f : A → Dec B) (g : A → Rd B) :
  sim m r → (∀ a, sim (f a) (g a)) → sim (m ≫= f) (r ≫= g).
Proof.
  intros [Hq Hm] Hf. split; [apply quiet_bind; [done|apply Hf]|]. intros d.
  unfold mbind, Dec_bind, Rd_bind. specialize (Hm d).
  destruct (m d) as [[a|e|w] d'].
  - rewrite Hm. apply Hf.
  - destruct Hm as [a ->]. by apply Hf.
  - destruct (r (mkReader d None)) as [[a|e|w'] r']; by simplify_eq/=.
Qed.

Lemma sim_sticky {A} (zero : A) (m : Dec A) : sim m (sticky zero m).
Proof.
  split.
  - intros [d [e|]] Hrd; [|done]. by exists zero.
  - intros d. unfold sticky. simpl. destruct (m d) as [[a|e|w] d']; [done|by exists zero|done].
Qed.

Create HintDb sim discriminated.
#[export] Hint Resolve sim_ret sim_bind sim_sticky : sim.

(** Running a simulated program on a fresh reader and checking [Err]. *)
Definition run_reader {A} (r : Rd A) (b : bytes) : result A :=
  match r (NewReader b) with
  | (Ok v, rd) => match Reader_Err rd with None => Ok v | Some e => Err e end
  | (Err e, _) => Err e
  | (Panic w, _) => Panic w
  end.

Lemma sim_run {A} (m : Dec A) (r : Rd A) b : sim m r → run_reader r b = (m (NewDecoder b)).1.
Proof.
  intros [_ Hm]. specialize (Hm (NewDecoder b)). unfold run_reader, NewReader.
  destruct (m (NewDecoder b)) as [[v|e|w] d'].
  - by rewrite Hm.
  - destruct Hm as [v ->]. done.
  - by destruct (r (mkReader (NewDecoder b) None)) as [[v|e|w'] rd]; simplify_eq/=.
Qed.

(** ** Fixed-width programs always succeed on enough bytes *)

(** On [n] bytes, whatever they are, [m] succeeds and consumes them all. *)
Definition takes {A} (n : Z) (m : Dec A) : Prop :=
  0 ≤ n ∧ ∀ pre bs post bo, zlen bs = n → wf_bytes bs →
    ∃ v, m (at_ pre (bs ++ post) bo) = (Ok v, at_ (pre ++ bs) post bo).

Lemma takes_ret {A} (a : A) : takes 0 (mret a).
Proof.
  split; [done|]. intros pre bs post bo Hlen _. destruct bs; [|unfold zlen in Hlen; simpl in Hlen; lia].
  exists a. by rewrite app_nil_r.
Qed.

Lemma takes_bind {A B} n1 n2 n (m : Dec A) (f : A → Dec B) :
  takes n1 m → (∀ a, takes n2 (f a)) → n = n1 + n2 → takes n (m ≫= f).
Proof.
  intros [Hn1 Hm] Hf ->.
  assert (Hn2 : 0 ≤ n2).
  { destruct (Hm [] (replicate (Z.to_nat n1) 0) [] false) as [a _].
    - unfold zlen. rewrite length_replicate. lia.
    - by apply Forall_replicate.
    - by destruct (Hf a). }
  split; [lia|]. intros pre bs post bo Hlen Hwf.
  destruct (list_split_len bs n1) as (b1 & b2 & -> & Hb1); [lia|].
  rewrite zlen_app in Hlen. apply Forall_app in Hwf as [Hw1 Hw2].
  destruct (Hm pre b1 (b2 ++ post) bo Hb1 Hw1) as [a Ha].
  destruct (Hf a) as [_ Hfa]. destruct (Hfa (pre ++ b1) b2 post bo ltac:(lia) Hw2) as [b Hb].
  exists b. rewrite <- (assoc_L (++)). erewrite Dec_bind_ok by exact Ha.
  by rewrite Hb, (assoc_L (++)).
Qed.

Lemma takes_ReadUint8 : takes 1 ReadUint8.
Proof.
  split; [done|]. intros pre bs post bo Hlen _. explode Hlen. eexists. by rewrite ReadUint8_at.
Qed.

Lemma takes_le n m : 0 ≤ n → reads_le n m → takes n m.
Proof. intros Hn [Hok _]. split; [done|]. intros pre bs post bo Hlen Hwf. eexists. by apply Hok. Qed.

Lemma takes_ReadBytes n : 0 ≤ n → takes n (ReadBytes n).
Proof. intros Hn. split; [done|]. intros pre bs post bo Hlen _. exists bs. by apply ReadBytes_at. Qed.

Lemma takes_run {A} n (m : Dec A) b :
  takes n m → zlen b = n → wf_bytes b → ∃ v, m (NewDecoder b) = (Ok v, at_ b [] false).
Proof.
  intros [_ Hm] Hlen Hwf. destruct (Hm [] b [] false Hlen Hwf) as [v Hv].
  rewrite app_nil_r in Hv. by exists v.
Qed.
