(* ===== verification/TokenState.v ===== *)
(** * On-chain account state: [programs/token/state.go],
    [programs/address-lookup-table/state.go] and [programs/token2022/state.go]

    Fixed layouts read through the sticky [Reader], the address section of
    lookup tables, and Token-2022's type-length-value extensions, which Go
    keeps in a map and decodes in map order. *)

From S2P Require Import Prelude Wire Keys BigUint Reader Message Transaction Builder.

(** ** SPL Token *)

Record MintState := mkMintState {
  MintAuthority : option PublicKey;
  Supply : Z;
  Decimals : Z;
  IsInitialized : bool;
  FreezeAuthority : option PublicKey;
}.

(** The reads of [DecodeMintState], in the order Go evaluates them. *)
Definition read_mint : Rd MintState :=
  mintAuthority ← ReadOptionalPubkey;
  supply ← R_U64;
  decimals ← R_U8;
  isInitialized ← R_Bool;
  freezeAuthority ← ReadOptionalPubkey;
  mret (mkMintState mintAuthority supply decimals isInitialized freezeAuthority).

Definition DecodeMintState (data : bytes) : result MintState :=
  if zlen data <? 82
  then Err (ErrFmt "token: DecodeMintState: data too short" [AZ (zlen data)]) else
  data ← slice data 0 82;
  wrap_result "token: DecodeMintState" [] (run_reader read_mint data).

Record AccountState := mkAccountState {
  Mint : PublicKey;
  Owner : PublicKey;
  Amount : Z;
  Delegate : option PublicKey;
  State : Z;
  IsNative : option Z;
  DelegatedAmount : Z;
  CloseAuthority : option PublicKey;
}.

Definition read_account : Rd AccountState :=
  mint ← R_Bytes32;
  owner ← R_Bytes32;
  amount ← R_U64;
  delegate ← ReadOptionalPubkey;
  state ← R_U8;
  isNativeTag ← R_U32;
  isNativeVal ← R_U64;
  delegatedAmount ← R_U64;
  closeAuthority ← ReadOptionalPubkey;
  mret (mkAccountState mint owner amount delegate state
          (if isNativeTag =? 1 then Some isNativeVal else None) delegatedAmount closeAuthority).

Definition DecodeAccountState (data : bytes) : result AccountState :=
  if zlen data <? 165
  then Err (ErrFmt "token: DecodeAccountState: data too short" [AZ (zlen data)]) else
  data ← slice data 0 165;
  wrap_result "token: DecodeAccountState" [] (run_reader read_account data).

(** ** Address lookup tables *)

Definition LookupTableMetaSize : Z := 56.

Record TableState := mkTableState {
  DeactivationSlot : Z;
  LastExtendedSlot : Z;
  LastExtendedSlotStartIndex : Z;
  Authority : option PublicKey;
  Table_Addresses : list PublicKey;
}.

Definition IsActive (t : TableState) : bool := DeactivationSlot t =? 0xFFFFFFFFFFFFFFFF.

(** The reads after the discriminant. *)
Definition read_table : Rd (Z * (Z * (Z * option PublicKey))) :=
  deactivationSlot ← R_U64;
  lastExtendedSlot ← R_U64;
  startIndex ← R_U8;
  authTag ← R_U8;
  authority ← R_Bytes32;
  R_Skip 2;;
  mret (deactivationSlot, (lastExtendedSlot, (startIndex, if authTag =? 1 then Some authority else None))).

(** [copy(Addresses[i][:], tail[i*32:(i+1)*32])] for [i] from [i] on. *)
Fixpoint split_keys (n : nat) (i : Z) (tail : bytes) : result (list PublicKey) :=
  match n with
  | O => Ok []
  | S n =>
      k ← slice tail (i * PublicKeySize) ((i + 1) * PublicKeySize);
      rest ← split_keys n (i + 1) tail;
      Ok (copy_array 32 k :: rest)
  end.

Definition DecodeTableState (data : bytes) : result TableState :=
  if zlen data <? LookupTableMetaSize
  then Err (ErrFmt "addresslookuptable: data too short" [AZ (zlen data); AZ LookupTableMetaSize]) else
  meta ← slice data 0 LookupTableMetaSize;
  match R_U32 (NewReader meta) with
  | (Err e, _) => Err e
  | (Panic w, _) => Panic w
  | (Ok disc, r) =>
      if negb (disc =? 1)
      then Err (ErrFmt "addresslookuptable: unexpected discriminant" [AZ disc]) else
      match read_table r with
      | (Err e, _) => Err e
      | (Panic w, _) => Panic w
      | (Ok (deactivation, (extended, (start, authority))), r) =>
          match Reader_Err r with
          | Some e => Err (ErrWrap "addresslookuptable" [] e)
          | None =>
              tail ← slice_from data LookupTableMetaSize;
              if negb (Z.rem (zlen tail) PublicKeySize =? 0)
              then Err (ErrFmt "addresslookuptable: address section length not a multiple" [AZ (zlen tail); AZ PublicKeySize]) else
              addresses ← split_keys (Z.to_nat (Z.quot (zlen tail) PublicKeySize)) 0 tail;
              Ok (mkTableState deactivation extended start authority addresses)
          end
      end
  end.

(** ** Token-2022 extensions *)

Definition ExtTransferFeeConfig : Z := 1.
Definition ExtTransferFeeAmount : Z := 2.
Definition ExtMintCloseAuthority : Z := 3.
Definition ExtDefaultAccountState : Z := 6.
Definition ExtImmutableOwner : Z := 7.
Definition ExtMemoTransfer : Z := 8.
Definition ExtNonTransferable : Z := 9.
Definition ExtInterestBearingConfig : Z := 10.
Definition ExtCpiGuard : Z := 11.
Definition ExtPermanentDelegate : Z := 12.
Definition ExtMetadataPointer : Z := 16.
Definition ExtTransferHook : Z := 18.

Record TransferFee := mkTransferFee { Epoch : Z; MaximumFee : Z; TransferFeeBasisPoints : Z }.

Record TransferFeeConfig := mkTransferFeeConfig {
  TransferFeeConfigAuthority : option PublicKey;
  WithdrawWithheldAuthority : option PublicKey;
  WithheldAmount : Z;
  OlderTransferFee : TransferFee;
  NewerTransferFee : TransferFee;
}.

Record InterestBearingConfig := mkInterestBearingConfig {
  RateAuthority : option PublicKey;
  InitializationTimestamp : Z;
  PreUpdateAverageRate : Z;
  LastUpdateTimestamp : Z;
  CurrentRate : Z;
}.

(** [MetadataPointerConfig] and [TransferHookConfig]: two optional keys. *)
Record TwoKeys := mkTwoKeys { TK_Authority : option PublicKey; TK_Second : option PublicKey }.

Record MintExtensions := mkMintExtensions {
  ME_CloseAuthority : option PublicKey;
  ME_DefaultState : option Z;
  ME_NonTransferable : bool;
  ME_PermanentDelegate : option PublicKey;
  ME_TransferFeeConfig : option TransferFeeConfig;
  ME_InterestBearing : option InterestBearingConfig;
  ME_MetadataPointer : option TwoKeys;
  ME_TransferHook : option TwoKeys;
}.

Definition no_mint_extensions : MintExtensions := mkMintExtensions None None false None None None None None.

Record AccountExtensions := mkAccountExtensions {
  AE_WithheldAmount : option Z;
  AE_MemoTransfer : option bool;
  AE_ImmutableOwner : bool;
  AE_CpiGuard : option bool;
}.

Definition no_account_extensions : AccountExtensions := mkAccountExtensions None None false None.

(** [binary.LittleEndian.Uint16/Uint64] of [b[lo:hi]]. *)
Definition le_at (n : Z) (b : bytes) (lo : Z) : result Z :=
  s ← slice b lo (lo + n); Ok (le_Z s).

(** The loop of [parseTLV]; every turn consumes at least four bytes, so the
    length of the data is enough fuel. *)
Fixpoint parseTLV_loop (fuel : nat) (data : bytes) (acc : gmap Z bytes) : result (gmap Z bytes) :=
  match fuel with
  | O => Ok acc
  | S fuel =>
      if zlen data <? 4 then Ok acc else
      extType ← le_at 2 data 0;
      extLen ← le_at 2 data 2;
      if (extType =? 0) || (zlen data <? 4 + extLen) then Ok acc else
      raw ← slice data 4 (4 + extLen);
      rest ← slice_from data (4 + extLen);
      parseTLV_loop fuel rest (<[extType := raw]> acc)
  end.

Definition parseTLV (data : bytes) : result (gmap Z bytes) :=
  parseTLV_loop (S (length data)) data ∅.

Definition optPubkey (b : bytes) : result (option PublicKey) :=
  if zlen b <? PublicKeySize then Ok None else
  k ← slice b 0 PublicKeySize;
  if decide (k = zero_array 32) then Ok None else Ok (Some (copy_array 32 k)).

(** [optPubkey(raw[lo:hi])] *)
Definition opt_key_at (raw : bytes) (lo hi : Z) : result (option PublicKey) :=
  b ← slice raw lo hi; optPubkey b.

Definition transfer_fee_at (raw : bytes) (off : Z) : result TransferFee :=
  e ← le_at 8 raw off; m ← le_at 8 raw (off + 8); p ← le_at 2 raw (off + 16);
  Ok (mkTransferFee e m p).

Definition two_keys (raw : bytes) : result TwoKeys :=
  a ← opt_key_at raw 0 32; b ← opt_key_at raw 32 64; Ok (mkTwoKeys a b).

Definition decodeMintExt (ext : MintExtensions) (t : Z) (raw : bytes) : result MintExtensions :=
  let 'mkMintExtensions ca ds nt pd tf ib mp th := ext in
  if t =? ExtMintCloseAuthority then
    if PublicKeySize <=? zlen raw
    then k ← optPubkey raw; Ok (mkMintExtensions k ds nt pd tf ib mp th) else Ok ext
  else if t =? ExtDefaultAccountState then
    if 1 <=? zlen raw
    then s ← index_at raw 0; Ok (mkMintExtensions ca (Some s) nt pd tf ib mp th) else Ok ext
  else if t =? ExtNonTransferable then Ok (mkMintExtensions ca ds true pd tf ib mp th)
  else if t =? ExtPermanentDelegate then
    if PublicKeySize <=? zlen raw
    then k ← optPubkey raw; Ok (mkMintExtensions ca ds nt k tf ib mp th) else Ok ext
  else if t =? ExtTransferFeeConfig then
    if 108 <=? zlen raw
    then a ← opt_key_at raw 0 32; w ← opt_key_at raw 32 64; amount ← le_at 8 raw 64;
         older ← transfer_fee_at raw 72; newer ← transfer_fee_at raw 90;
         Ok (mkMintExtensions ca ds nt pd (Some (mkTransferFeeConfig a w amount older newer)) ib mp th)
    else Ok ext
  else if t =? ExtInterestBearingConfig then
    if 52 <=? zlen raw
    then a ← opt_key_at raw 0 32; i ← le_at 8 raw 32; p ← le_at 2 raw 40;
         u ← le_at 8 raw 42; c ← le_at 2 raw 50;
         Ok (mkMintExtensions ca ds nt pd tf
               (Some (mkInterestBearingConfig a (s64 i) (s16 p) (s64 u) (s16 c))) mp th)
    else Ok ext
  else if t =? ExtMetadataPointer then
    if 64 <=? zlen raw
    then k ← two_keys raw; Ok (mkMintExtensions ca ds nt pd tf ib (Some k) th) else Ok ext
  else if t =? ExtTransferHook then
    if 64 <=? zlen raw
    then k ← two_keys raw; Ok (mkMintExtensions ca ds nt pd tf ib mp (Some k)) else Ok ext
  else Ok ext.

Definition decodeAccountExt (ext : AccountExtensions) (t : Z) (raw : bytes) : result AccountExtensions :=
  let 'mkAccountExtensions wa mt io cg := ext in
  if t =? ExtTransferFeeAmount then
    if 8 <=? zlen raw then v ← le_at 8 raw 0; Ok (mkAccountExtensions (Some v) mt io cg) else Ok ext
  else if t =? ExtMemoTransfer then
    if 1 <=? zlen raw then b ← index_at raw 0; Ok (mkAccountExtensions wa (Some (negb (b =? 0))) io cg) else Ok ext
  else if t =? ExtImmutableOwner then Ok (mkAccountExtensions wa mt true cg)
  else if t =? ExtCpiGuard then
    if 1 <=? zlen raw then b ← index_at raw 0; Ok (mkAccountExtensions wa mt io (Some (negb (b =? 0)))) else Ok ext
  else Ok ext.

(** [for extType, raw := range m { decode(&ext, extType, raw) }] *)
Fixpoint apply_all {E} (decode : E → Z → bytes → result E) (kvs : list (Z * bytes)) (ext : E) : result E :=
  match kvs with
  | [] => Ok ext
  | (t, raw) :: kvs => ext ← decode ext t raw; apply_all decode kvs ext
  end.

Section token2022.
Context `{MapOrder}.

(** The base state and the extensions: the Go struct repeats the base's
    fields and adds [Extensions]. *)
Definition Token2022_DecodeMintState (data : bytes) : result (MintState * MintExtensions) :=
  base ← wrap_result "token2022: DecodeMintState" [] (DecodeMintState data);
  if 166 <? zlen data then
    tlv ← (rest ← slice_from data 166; parseTLV rest);
    ext ← apply_all decodeMintExt (range_map tlv) no_mint_extensions;
    Ok (base, ext)
  else Ok (base, no_mint_extensions).

Definition Token2022_DecodeAccount (data : bytes) : result (AccountState * AccountExtensions) :=
  base ← wrap_result "token2022: DecodeAccount" [] (DecodeAccountState data);
  if 166 <? zlen data then
    tlv ← (rest ← slice_from data 166; parseTLV rest);
    ext ← apply_all decodeAccountExt (range_map tlv) no_account_extensions;
    Ok (base, ext)
  else Ok (base, no_account_extensions).
End token2022.
