(* ===== verification/TokenStateSpec.v ===== *)
(** * Account state decoding is total and inverts the layout

    The fixed layouts decode on every buffer that is long enough, and the
    encoding of a state decodes to it; Token-2022's extension map decodes
    to the same extensions in whatever order it is walked. *)

From S2P Require Import Prelude Wire Keys BigUint Reader Message MessageCodec Transaction TransactionCodec Builder BuilderLegacy TokenState.

(** ** The reads as decoder programs *)

Definition D_key : Dec PublicKey :=
  b ← ReadBytes (zlen (zero_array 32)); mret (copy_into (zero_array 32) b).

Definition D_opt_key : Dec (option PublicKey) :=
  tag ← ReadUint32; pk ← D_key; mret (if tag =? 1 then Some pk else None).

Definition D_bool : Dec bool := v ← ReadUint8; mret (negb (v =? 0)).

Definition D_mint : Dec MintState :=
  mintAuthority ← D_opt_key;
  supply ← ReadUint64;
  decimals ← ReadUint8;
  isInitialized ← D_bool;
  freezeAuthority ← D_opt_key;
  mret (mkMintState mintAuthority supply decimals isInitialized freezeAuthority).

Definition D_account : Dec AccountState :=
  mint ← D_key;
  owner ← D_key;
  amount ← ReadUint64;
  delegate ← D_opt_key;
  state ← ReadUint8;
  isNativeTag ← ReadUint32;
  isNativeVal ← ReadUint64;
  delegatedAmount ← ReadUint64;
  closeAuthority ← D_opt_key;
  mret (mkAccountState mint owner amount delegate state
          (if isNativeTag =? 1 then Some isNativeVal else None) delegatedAmount closeAuthority).

Definition D_table : Dec (Z * (Z * (Z * option PublicKey))) :=
  deactivationSlot ← ReadUint64;
  lastExtendedSlot ← ReadUint64;
  startIndex ← ReadUint8;
  authTag ← ReadUint8;
  authority ← D_key;
  (ReadBytes 2;; mret tt);;
  mret (deactivationSlot, (lastExtendedSlot, (startIndex, if authTag =? 1 then Some authority else None))).

Lemma sim_opt_key : sim D_opt_key ReadOptionalPubkey.
Proof.
  apply sim_bind; [apply sim_sticky|intros]. apply sim_bind; [apply sim_sticky|intros]. apply sim_ret.
Qed.

Lemma sim_bool : sim D_bool R_Bool.
Proof. apply sim_bind; [apply sim_sticky|intros]. apply sim_ret. Qed.

#[local] Hint Resolve sim_opt_key sim_bool : sim.

(** One bind of a simulation between two programs of the same shape. *)
Ltac sim_steps :=
  repeat (apply sim_bind; [solve [apply sim_opt_key | apply sim_bool | apply sim_sticky]|intros]);
  apply sim_ret.

Lemma sim_mint : sim D_mint read_mint.
Proof. unfold D_mint, read_mint. sim_steps. Qed.

Lemma sim_account : sim D_account read_account.
Proof. unfold D_account, read_account. sim_steps. Qed.

Lemma sim_table : sim D_table read_table.
Proof. unfold D_table, read_table. sim_steps. Qed.

(** ** Totality on long enough buffers *)

Lemma takes_key : takes 32 D_key.
Proof. eapply takes_bind; [apply takes_ReadBytes; done|intros; apply takes_ret|done]. Qed.

Lemma takes_opt_key : takes 36 D_opt_key.
Proof.
  change 36 with (4 + (32 + 0)). eapply takes_bind; [apply (takes_le 4); [done|apply ReadUint32_le]| |reflexivity]. intros.
  eapply takes_bind; [apply takes_key|intros; apply takes_ret|done].
Qed.

Lemma takes_bool : takes 1 D_bool.
Proof. eapply takes_bind; [apply takes_ReadUint8|intros; apply takes_ret|done]. Qed.

Lemma takes_u32 : takes 4 ReadUint32.
Proof. apply takes_le; [done|apply ReadUint32_le]. Qed.
Lemma takes_u64 : takes 8 ReadUint64.
Proof. apply takes_le; [done|apply ReadUint64_le]. Qed.

Ltac takes_steps :=
  repeat (eapply takes_bind;
    [solve [apply takes_key | apply takes_opt_key | apply takes_bool | apply takes_u32 | apply takes_u64
           | apply takes_ReadUint8]|intros|reflexivity]);
  apply takes_ret.

Lemma takes_mint : takes (36 + (8 + (1 + (1 + (36 + 0))))) D_mint.
Proof. unfold D_mint. takes_steps. Qed.

Lemma takes_account : takes (32 + (32 + (8 + (36 + (1 + (4 + (8 + (8 + (36 + 0))))))))) D_account.
Proof. unfold D_account. takes_steps. Qed.

Lemma takes_skip2 : takes 2 (ReadBytes 2;; mret tt).
Proof. eapply takes_bind; [apply takes_ReadBytes; done|intros; apply takes_ret|done]. Qed.

Lemma takes_table : takes (8 + (8 + (1 + (1 + (32 + (2 + 0)))))) D_table.
Proof.
  unfold D_table. repeat (eapply takes_bind;
    [solve [apply takes_key | apply takes_u64 | apply takes_ReadUint8 | apply takes_skip2]|intros|reflexivity]).
  apply takes_ret.
Qed.

(** ** Layouts *)

Definition enc_opt_key (o : option PublicKey) : bytes :=
  match o with None => le 4 0 ++ zero_array 32 | Some k => le 4 1 ++ k end.

Definition enc_bool (b : bool) : bytes := [if b then 1 else 0].

Definition enc_mint (m : MintState) : bytes :=
  enc_opt_key (MintAuthority m) ++ le 8 (Supply m) ++ [Decimals m] ++ enc_bool (IsInitialized m)
  ++ enc_opt_key (FreezeAuthority m).

Definition enc_native (o : option Z) : bytes :=
  match o with None => le 4 0 ++ le 8 0 | Some v => le 4 1 ++ le 8 v end.

Definition enc_account (a : AccountState) : bytes :=
  Mint a ++ Owner a ++ le 8 (Amount a) ++ enc_opt_key (Delegate a) ++ [State a]
  ++ enc_native (IsNative a) ++ le 8 (DelegatedAmount a) ++ enc_opt_key (CloseAuthority a).

Definition wf_opt_key (o : option PublicKey) : Prop :=
  match o with None => True | Some k => wf_key k end.

#[export] Instance wf_opt_key_dec o : Decision (wf_opt_key o).
Proof. destruct o; apply _. Defined.

Definition wf_mint (m : MintState) : Prop :=
  wf_opt_key (MintAuthority m) ∧ is_u 64 (Supply m) ∧ is_u 8 (Decimals m) ∧ wf_opt_key (FreezeAuthority m).

Definition wf_account (a : AccountState) : Prop :=
  wf_key (Mint a) ∧ wf_key (Owner a) ∧ is_u 64 (Amount a) ∧ wf_opt_key (Delegate a) ∧ is_u 8 (State a)
  ∧ wf_opt 64 (IsNative a) ∧ is_u 64 (DelegatedAmount a) ∧ wf_opt_key (CloseAuthority a).

#[export] Instance wf_mint_dec m : Decision (wf_mint m).
Proof. unfold wf_mint. apply _. Defined.
#[export] Instance wf_account_dec a : Decision (wf_account a).
Proof. unfold wf_account. apply _. Defined.

Lemma copy_into_all out b : length b = length out → copy_into out b = b.
Proof. intros Hl. unfold copy_into. by rewrite take_ge, Hl, drop_all, app_nil_r by lia. Qed.

Lemma reads_key k : wf_key k → reads D_key k k.
Proof.
  intros [Hlen Hwf]. eapply (reads_eq _ _ (k ++ [])); [|app_eq]. unfold D_key.
  change (zlen (zero_array 32)) with 32. reads_step k.
  rewrite copy_into_all; [apply reads_ret|]. unfold zlen in Hlen. simpl. lia.
Qed.

Lemma wf_zero_key : wf_key (zero_array 32).
Proof. apply (bool_decide_unpack _). by vm_compute. Qed.

Lemma reads_opt_key o : wf_opt_key o → reads D_opt_key (enc_opt_key o) o.
Proof.
  intros Ho. unfold D_opt_key. destruct o as [k|]; simpl.
  - eapply (reads_eq _ _ (le 4 1 ++ k ++ [])); [|app_eq].
    eapply reads_bind with (a := 1); [by apply reads_ReadUint32| |done].
    eapply reads_bind; [by apply reads_key|apply reads_ret|done].
  - eapply (reads_eq _ _ (le 4 0 ++ zero_array 32 ++ [])); [|app_eq].
    eapply reads_bind with (a := 0); [by apply reads_ReadUint32| |done].
    eapply reads_bind; [apply reads_key, wf_zero_key|apply reads_ret|done].
Qed.

Lemma reads_bool b : reads D_bool (enc_bool b) b.
Proof.
  unfold D_bool. destruct b.
  - eapply (reads_eq _ _ ([1] ++ [])); [|done].
    eapply reads_bind with (a := 1); [by apply reads_ReadUint8|apply reads_ret|done].
  - eapply (reads_eq _ _ ([0] ++ [])); [|done].
    eapply reads_bind with (a := 0); [by apply reads_ReadUint8|apply reads_ret|done].
Qed.

Lemma reads_mint m : wf_mint m → reads D_mint (enc_mint m) m.
Proof.
  destruct m as [ma su de ini fa]. intros (Hma & Hsu & Hde & Hfa). simpl in *.
  eapply (reads_eq _ _ (enc_opt_key ma ++ le 8 su ++ [de] ++ enc_bool ini ++ enc_opt_key fa ++ []));
    [|unfold enc_mint; app_eq].
  unfold D_mint.
  eapply reads_bind; [by apply (reads_opt_key ma)| |done]. reads_step su. reads_step de.
  eapply reads_bind; [apply (reads_bool ini)| |done].
  eapply reads_bind; [by apply (reads_opt_key fa)|apply reads_ret|done].
Qed.

Lemma reads_account a : wf_account a → reads D_account (enc_account a) a.
Proof.
  destruct a as [mi ow am de st na da ca]. intros (Hmi & How & Ham & Hde & Hst & Hna & Hda & Hca). simpl in *.
  set (tag := match na with None => 0 | Some _ => 1 end).
  set (val := match na with None => 0 | Some v => v end).
  assert (Htag : is_u 32 tag) by (unfold tag; destruct na; done).
  assert (Hval : is_u 64 val) by (unfold val; destruct na; done).
  eapply (reads_eq _ _ (mi ++ ow ++ le 8 am ++ enc_opt_key de ++ [st] ++ le 4 tag ++ le 8 val
    ++ le 8 da ++ enc_opt_key ca ++ [])).
  2: { unfold enc_account, enc_native. destruct na; app_eq. }
  unfold D_account.
  eapply reads_bind; [by apply (reads_key mi)| |done]. eapply reads_bind; [by apply (reads_key ow)| |done].
  reads_step am. eapply reads_bind; [by apply (reads_opt_key de)| |done]. reads_step st.
  reads_step tag. reads_step val. reads_step da.
  eapply reads_bind; [by apply (reads_opt_key ca)| |done].
  assert (Hn : (if tag =? 1 then Some val else None) = na) by (by destruct na).
  rewrite Hn. apply reads_ret.
Qed.

(** ** The decoders on whole buffers *)

Lemma slice_prefix {A} (a b : list A) n : zlen a = n → slice (a ++ b) 0 n = Ok a.
Proof. intros <-. apply (slice_app [] a b). Qed.

(** A buffer split at [n]. *)
Lemma split_at (data : bytes) n :
  0 ≤ n ≤ zlen data → wf_bytes data →
  ∃ a b, data = a ++ b ∧ zlen a = n ∧ wf_bytes a ∧ wf_bytes b ∧ slice data 0 n = Ok a ∧ slice_from data n = Ok b.
Proof.
  intros Hn Hwf. destruct (list_split_len data n Hn) as (a & b & -> & Ha).
  apply Forall_app in Hwf as [??]. exists a, b. repeat (split; [done|]).
  split; [by apply slice_prefix|]. rewrite <- Ha. apply slice_from_app.
Qed.

Lemma DecodeMintState_run data a b :
  data = a ++ b → zlen a = 82 →
  DecodeMintState data = wrap_result "token: DecodeMintState" [] (D_mint (NewDecoder a)).1.
Proof.
  intros -> Ha. unfold DecodeMintState. rewrite (proj2 (Z.ltb_ge _ _)).
  - rewrite (slice_prefix a b) by done. cbn [mbind result_bind]. by rewrite (sim_run _ _ _ sim_mint).
  - rewrite zlen_app. pose proof (zlen_nonneg b). lia.
Qed.

Lemma DecodeAccountState_run data a b :
  data = a ++ b → zlen a = 165 →
  DecodeAccountState data = wrap_result "token: DecodeAccountState" [] (D_account (NewDecoder a)).1.
Proof.
  intros -> Ha. unfold DecodeAccountState. rewrite (proj2 (Z.ltb_ge _ _)).
  - rewrite (slice_prefix a b) by done. cbn [mbind result_bind]. by rewrite (sim_run _ _ _ sim_account).
  - rewrite zlen_app. pose proof (zlen_nonneg b). lia.
Qed.

Lemma DecodeMintState_total data :
  wf_bytes data → if 82 <=? zlen data then is_ok (DecodeMintState data) = true
                  else ∃ e, DecodeMintState data = Err e.
Proof.
  intros Hwf. destruct (Z.leb_spec 82 (zlen data)).
  - destruct (split_at data 82) as (a & b & -> & Ha & Hwa & _); [lia|done|].
    rewrite (DecodeMintState_run _ a b) by done.
    destruct (takes_run _ _ a takes_mint Ha Hwa) as [v ->]. done.
  - unfold DecodeMintState. rewrite (proj2 (Z.ltb_lt _ _)) by done. by eexists.
Qed.

Lemma DecodeAccountState_total data :
  wf_bytes data → if 165 <=? zlen data then is_ok (DecodeAccountState data) = true
                  else ∃ e, DecodeAccountState data = Err e.
Proof.
  intros Hwf. destruct (Z.leb_spec 165 (zlen data)).
  - destruct (split_at data 165) as (a & b & -> & Ha & Hwa & _); [lia|done|].
    rewrite (DecodeAccountState_run _ a b) by done.
    destruct (takes_run _ _ a takes_account Ha Hwa) as [v ->]. done.
  - unfold DecodeAccountState. rewrite (proj2 (Z.ltb_lt _ _)) by done. by eexists.
Qed.

Lemma zlen_enc_opt_key o : wf_opt_key o → zlen (enc_opt_key o) = 36.
Proof.
  destruct o as [k|]; intros Ho; simpl; [destruct Ho as [Hk _]|]; rewrite zlen_app, length_le by lia; [lia|done].
Qed.

Lemma zlen_enc_mint m : wf_mint m → zlen (enc_mint m) = 82.
Proof.
  intros (Hma & _ & _ & Hfa). unfold enc_mint.
  rewrite !zlen_app, !zlen_enc_opt_key, length_le by (done || lia). done.
Qed.

Lemma zlen_enc_account a : wf_account a → zlen (enc_account a) = 165.
Proof.
  intros ([Hmi _] & [How _] & _ & Hde & _ & _ & _ & Hca). unfold enc_account.
  rewrite !zlen_app, !zlen_enc_opt_key, !length_le, Hmi, How by (done || lia).
  assert (zlen (enc_native (IsNative a)) = 12) as ->.
  { unfold enc_native. by destruct (IsNative a); rewrite zlen_app, !length_le by lia. }
  done.
Qed.

Lemma DecodeMintState_enc m rest : wf_mint m → DecodeMintState (enc_mint m ++ rest) = Ok m.
Proof.
  intros Hm. rewrite (DecodeMintState_run _ (enc_mint m) rest) by (done || by apply zlen_enc_mint).
  by rewrite (reads_run D_mint _ m) by (by apply reads_mint).
Qed.

Lemma DecodeAccountState_enc a rest : wf_account a → DecodeAccountState (enc_account a ++ rest) = Ok a.
Proof.
  intros Ha. rewrite (DecodeAccountState_run _ (enc_account a) rest) by (done || by apply zlen_enc_account).
  by rewrite (reads_run D_account _ a) by (by apply reads_account).
Qed.

(** ** Lookup tables *)

Definition wf_table_state (t : TableState) : Prop :=
  is_u 64 (DeactivationSlot t) ∧ is_u 64 (LastExtendedSlot t) ∧ is_u 8 (LastExtendedSlotStartIndex t)
  ∧ wf_opt_key (Authority t) ∧ Forall wf_key (Table_Addresses t).

#[export] Instance wf_table_state_dec t : Decision (wf_table_state t).
Proof. unfold wf_table_state. apply _. Defined.

Definition enc_table_meta (t : TableState) : bytes :=
  le 8 (DeactivationSlot t) ++ le 8 (LastExtendedSlot t) ++ [LastExtendedSlotStartIndex t]
  ++ match Authority t with None => [0] ++ zero_array 32 | Some k => [1] ++ k end ++ [0; 0].

Definition enc_table (t : TableState) : bytes :=
  le 4 1 ++ enc_table_meta t ++ concat (Table_Addresses t).

Lemma zlen_concat_keys ks : Forall (λ k : bytes, zlen k = 32) ks → zlen (concat ks) = 32 * zlen ks.
Proof.
  induction 1 as [|k ks Hk _ IH]; [done|]. cbn [concat]. rewrite zlen_app, zlen_cons, IH, Hk. lia.
Qed.

Lemma split_keys_concat ks i pre :
  Forall (λ k : bytes, zlen k = 32) ks → zlen pre = 32 * i → 0 ≤ i →
  split_keys (length ks) i (pre ++ concat ks) = Ok ks.
Proof.
  intros Hks. revert i pre. induction Hks as [|k ks Hk Hks IH]; intros i pre Hpre Hi; [done|].
  cbn [split_keys length concat].
  assert (Hs : slice (pre ++ k ++ concat ks) (i * PublicKeySize) ((i + 1) * PublicKeySize) = Ok k).
  { replace (i * PublicKeySize) with (zlen pre) by (unfold PublicKeySize; lia).
    replace ((i + 1) * PublicKeySize) with (zlen pre + zlen k) by (unfold PublicKeySize; lia).
    apply slice_app. }
  rewrite Hs. cbn [mbind result_bind]. rewrite (assoc_L (++)), IH.
  - cbn [mbind result_bind]. rewrite copy_array_id; [done|]. unfold zlen in Hk. lia.
  - rewrite zlen_app. lia.
  - lia.
Qed.

Lemma chunks n (tail : bytes) :
  zlen tail = 32 * Z.of_nat n → ∃ ks, tail = concat ks ∧ length ks = n ∧ Forall (λ k : bytes, zlen k = 32) ks.
Proof.
  revert tail. induction n as [|n IH]; intros tail Hlen.
  { exists []. split; [|split; [done|constructor]]. destruct tail; [done|unfold zlen in Hlen; simpl in Hlen; lia]. }
  destruct (list_split_len tail 32) as (k & rest & -> & Hk); [lia|].
  destruct (IH rest) as (ks & -> & Hn & Hks); [rewrite zlen_app in Hlen; lia|].
  exists (k :: ks). split; [done|]. split; [simpl; lia|by constructor].
Qed.

(** The decoder on a buffer cut into its three sections. *)
Lemma DecodeTableState_run a4 a52 tail v d :
  zlen a4 = 4 → zlen a52 = 52 → wf_bytes a4 →
  D_table (at_ a4 a52 false) = (Ok v, d) →
  DecodeTableState (a4 ++ a52 ++ tail) =
    if negb (le_Z a4 =? 1)
    then Err (ErrFmt "addresslookuptable: unexpected discriminant" [AZ (le_Z a4)])
    else if negb (Z.rem (zlen tail) PublicKeySize =? 0)
    then Err (ErrFmt "addresslookuptable: address section length not a multiple" [AZ (zlen tail); AZ PublicKeySize])
    else addresses ← split_keys (Z.to_nat (Z.quot (zlen tail) PublicKeySize)) 0 tail;
         Ok (let '(de, (ex, (st, au))) := v in mkTableState de ex st au addresses).
Proof.
  intros H4 H52 Hwf Hd. unfold DecodeTableState. pose proof (zlen_nonneg tail).
  rewrite (proj2 (Z.ltb_ge _ _)) by (rewrite !zlen_app; unfold LookupTableMetaSize; lia).
  rewrite (assoc_L (++)), (slice_prefix (a4 ++ a52) tail) by (rewrite zlen_app, H4, H52; done).
  cbn [mbind result_bind].
  assert (Hdisc : R_U32 (NewReader (a4 ++ a52)) = (Ok (le_Z a4), mkReader (at_ a4 a52 false) None)).
  { unfold R_U32, sticky, NewReader. cbn [r_err r_d].
    change (NewDecoder (a4 ++ a52)) with (at_ [] (a4 ++ a52) false).
    by rewrite (proj1 ReadUint32_le) by done. }
  rewrite Hdisc. destruct (negb (le_Z a4 =? 1)); [done|].
  pose proof (proj2 sim_table (at_ a4 a52 false)) as Hsim. rewrite Hd in Hsim. rewrite Hsim.
  destruct v as (de & ex & st & au). cbn [Reader_Err r_err].
  assert (Htail : slice_from ((a4 ++ a52) ++ tail) LookupTableMetaSize = Ok tail).
  { replace LookupTableMetaSize with (zlen (a4 ++ a52)) by (rewrite zlen_app, H4, H52; done).
    apply slice_from_app. }
  by rewrite Htail.
Qed.

Lemma reads_table_meta t :
  wf_table_state t →
  reads D_table (enc_table_meta t)
    (DeactivationSlot t, (LastExtendedSlot t, (LastExtendedSlotStartIndex t, Authority t))).
Proof.
  destruct t as [de ex st au ks]. intros (Hde & Hex & Hst & Hau & _). simpl in *.
  set (tag := match au with None => 0 | Some _ => 1 end).
  set (key := match au with None => zero_array 32 | Some k => k end).
  assert (Htag : is_u 8 tag) by (unfold tag; destruct au; done).
  assert (Hkey : wf_key key) by (unfold key; destruct au; [exact Hau|apply wf_zero_key]).
  eapply (reads_eq _ _ (le 8 de ++ le 8 ex ++ [st] ++ [tag] ++ key ++ ([0; 0] ++ []) ++ [])).
  2: { unfold enc_table_meta, tag, key. simpl. destruct au; app_eq. }
  unfold D_table. reads_step de. reads_step ex. reads_step st. reads_step tag.
  eapply reads_bind; [by apply (reads_key key)| |done].
  eapply reads_bind with (a := tt); [|  |done].
  { eapply reads_bind with (a := [0; 0]); [apply reads_ReadBytes; [done|]|apply reads_ret|done].
    apply (bool_decide_unpack _). by vm_compute. }
  assert (Hn : (if tag =? 1 then Some key else None) = au) by (unfold tag, key; by destruct au).
  rewrite Hn. apply reads_ret.
Qed.

Lemma zlen_enc_table_meta t : wf_table_state t → zlen (enc_table_meta t) = 52.
Proof.
  intros (_ & _ & _ & Hau & _). unfold enc_table_meta. rewrite !zlen_app, !length_le by lia.
  assert (zlen (match Authority t with None => [0] ++ zero_array 32 | Some k => [1] ++ k end) = 33) as ->; [|done].
  destruct (Authority t) as [k|]; [|done]. destruct Hau as [Hk _]. rewrite zlen_app, Hk. done.
Qed.

Lemma keys_zlen ks : Forall wf_key ks → Forall (λ k : bytes, zlen k = 32) ks.
Proof. intros H. eapply Forall_impl; [exact H|]. by intros k [Hk _]. Qed.

Lemma split_keys_all ks :
  Forall (λ k : bytes, zlen k = 32) ks →
  Z.rem (zlen (concat ks)) PublicKeySize = 0 ∧
  split_keys (Z.to_nat (Z.quot (zlen (concat ks)) PublicKeySize)) 0 (concat ks) = Ok ks.
Proof.
  intros Hks. rewrite zlen_concat_keys by done. unfold PublicKeySize. rewrite Z.mul_comm.
  split; [by apply Z.rem_mul|]. rewrite Z.quot_mul by done. unfold zlen. rewrite Nat2Z.id.
  by apply (split_keys_concat ks 0 []).
Qed.

Lemma DecodeTableState_enc t : wf_table_state t → DecodeTableState (enc_table t) = Ok t.
Proof.
  intros Ht. pose proof (reads_table_meta t Ht) as [_ Hr].
  specialize (Hr (le 4 1) [] false (Forall_nil_2 _)). rewrite app_nil_r in Hr.
  unfold enc_table. rewrite (DecodeTableState_run _ _ _ _ _ ltac:(by apply length_le)
    (zlen_enc_table_meta t Ht) ltac:(by apply wf_le) Hr).
  rewrite le_Z_le by done. cbn [negb Z.eqb].
  destruct (split_keys_all (Table_Addresses t)) as [Hrem Hsplit]; [by apply keys_zlen, Ht|].
  change (negb (1 =? 1)) with false. rewrite Hrem, Hsplit. by destruct t.
Qed.

(** Exactly when a buffer holds a lookup table. *)
Lemma DecodeTableState_is_ok data :
  wf_bytes data →
  no_panic (DecodeTableState data) ∧
  (is_ok (DecodeTableState data) = true ↔
   56 ≤ zlen data ∧ take 4 data = le 4 1 ∧ (zlen data - 56) `mod` 32 = 0).
Proof.
  intros Hwf. destruct (decide (56 ≤ zlen data)) as [Hlen|Hlen].
  2: { unfold DecodeTableState. rewrite (proj2 (Z.ltb_lt _ _)) by (unfold LookupTableMetaSize; lia).
       split; [done|]. split; [done|intros (? & _); lia]. }
  destruct (list_split_len data 4) as (a4 & r & -> & H4); [lia|]. rewrite zlen_app in Hlen.
  destruct (list_split_len r 52) as (a52 & tail & -> & H52); [lia|].
  apply Forall_app in Hwf as [Hw4 Hw]. apply Forall_app in Hw as [Hw52 Hwt].
  destruct (proj2 takes_table a4 a52 [] false H52 Hw52) as [v Hv]. rewrite app_nil_r in Hv.
  rewrite (DecodeTableState_run a4 a52 tail v _ H4 H52 Hw4 Hv).
  assert (Htake : take 4 (a4 ++ a52 ++ tail) = a4) by (apply take_app_length'; unfold zlen in H4; lia).
  rewrite Htake, !zlen_app, H4, H52. replace (4 + (52 + zlen tail) - 56) with (zlen tail) by lia.
  pose proof (zlen_nonneg tail). rewrite Z.rem_mod_nonneg by (unfold PublicKeySize; lia).
  assert (Hdisc : le_Z a4 = 1 ↔ a4 = le 4 1).
  { split; [intros <-; symmetry; by apply le_le_Z|intros ->; by apply le_Z_le]. }
  destruct (Z.eqb_spec (le_Z a4) 1) as [H1|H1]; cbn [negb]; [|split; [done|]; split; [done|tauto]].
  change PublicKeySize with 32. destruct (Z.eqb_spec (zlen tail `mod` 32) 0) as [Hm|Hm]; cbn [negb];
    [|split; [done|]; split; [done|tauto]].
  destruct (chunks (Z.to_nat (zlen tail `div` 32)) tail) as (ks & -> & Hn & Hks).
  { rewrite Z2Nat.id by (apply Z.div_pos; lia). Z.to_euclidean_division_equations; lia. }
  destruct (split_keys_all ks Hks) as [_ Hs]. change PublicKeySize with 32 in Hs. rewrite Hs.
  cbn [mbind result_bind]. split; [done|]. split; [|done]. intros _. split; [lia|]. split; [tauto|done].
Qed.

(** ** Properties *)

Definition sample_mint : MintState := mkMintState (Some (replicate 32 5)) 1000000 6 true None.
Definition sample_account : AccountState :=
  mkAccountState (replicate 32 1) (replicate 32 2) 77 None 1 (Some 2039280) 0 (Some (replicate 32 3)).
Definition sample_table_state : TableState :=
  mkTableState 0xFFFFFFFFFFFFFFFF 500 3 (Some (replicate 32 4)) [replicate 32 7; replicate 32 8].

(** C30: a mint or token account laid out as the SPL Token program stores it
    decodes to itself, whatever follows in the buffer. *)
Theorem token_state_roundtrip (m : MintState) (a : AccountState) (rest : bytes) :
  wf_mint m → wf_account a →
  DecodeMintState (enc_mint m ++ rest) = Ok m ∧ DecodeAccountState (enc_account a ++ rest) = Ok a.
Proof. intros. split; [by apply DecodeMintState_enc|by apply DecodeAccountState_enc]. Qed.

Lemma token_state_roundtrip_witness :
  DecodeMintState (enc_mint sample_mint ++ [1; 2]) = Ok sample_mint ∧
  DecodeAccountState (enc_account sample_account ++ [1; 2]) = Ok sample_account.
Proof. apply token_state_roundtrip; apply (bool_decide_unpack _); by vm_compute. Defined.

(** The two decoders accept every buffer of at least 82, respectively
    165 bytes and report an error on every shorter one; the sticky reader's
    single check never fires and nothing panics. *)
Theorem token_state_total (data : bytes) :
  wf_bytes data →
  (if 82 <=? zlen data then is_ok (DecodeMintState data) = true
   else ∃ e, DecodeMintState data = Err e) ∧
  (if 165 <=? zlen data then is_ok (DecodeAccountState data) = true
   else ∃ e, DecodeAccountState data = Err e).
Proof. split; [by apply DecodeMintState_total|by apply DecodeAccountState_total]. Qed.

Lemma token_state_total_witness :
  is_ok (DecodeMintState (replicate 100 255)) = true ∧ ∃ e, DecodeAccountState (replicate 100 255) = Err e.
Proof.
  apply (token_state_total (replicate 100 255)). apply (bool_decide_unpack _); by vm_compute.
Defined.

(** A lookup table's account data decode to the table, and decoding
    succeeds exactly on buffers of at least 56 bytes whose discriminant is 1
    and whose address section is a whole number of keys; it never panics. *)
Theorem lookup_table_state (t : TableState) (data : bytes) :
  wf_table_state t → wf_bytes data →
  DecodeTableState (enc_table t) = Ok t ∧
  no_panic (DecodeTableState data) ∧
  (is_ok (DecodeTableState data) = true ↔
   56 ≤ zlen data ∧ take 4 data = le 4 1 ∧ (zlen data - 56) `mod` 32 = 0).
Proof. intros. split; [by apply DecodeTableState_enc|by apply DecodeTableState_is_ok]. Qed.

Lemma lookup_table_state_witness :
  DecodeTableState (enc_table sample_table_state) = Ok sample_table_state.
Proof.
  apply (lookup_table_state sample_table_state (enc_table sample_table_state));
    apply (bool_decide_unpack _); by vm_compute.
Defined.
