(* ===== verification/Token2022Spec.v ===== *)
(** * Token-2022 extensions

    [parseTLV] splits any buffer into complete entries and a stopping tail;
    decoding the resulting map gives the same extensions in every iteration
    order, because each extension type sets its own field. *)

From S2P Require Import Prelude Wire Keys BigUint BigUintSpec Reader Message MessageCodec Transaction TransactionCodec Builder BuilderLegacy TokenState TokenStateSpec.

(** ** Slices in range *)

Lemma slice_in {A} (l : list A) lo hi :
  0 ≤ lo → lo ≤ hi → hi ≤ zlen l → slice l lo hi = Ok (take (Z.to_nat (hi - lo)) (drop (Z.to_nat lo) l)).
Proof.
  intros. unfold slice. by rewrite !(proj2 (Z.leb_le _ _)) by lia.
Qed.

(** ** TLV *)

Definition enc_entry_tlv (kv : Z * bytes) : bytes := le 2 kv.1 ++ le 2 (zlen kv.2) ++ kv.2.

Definition wf_entry (kv : Z * bytes) : Prop :=
  is_u 16 kv.1 ∧ kv.1 ≠ 0 ∧ zlen kv.2 < 65536 ∧ wf_bytes kv.2.

(** What makes the loop stop. *)
Definition stops (tail : bytes) : Prop :=
  zlen tail < 4 ∨ le_Z (take 2 tail) = 0 ∨ zlen tail < 4 + le_Z (take 2 (drop 2 tail)).

Lemma le_at_0 (a b : bytes) n : zlen a = n → le_at n (a ++ b) 0 = Ok (le_Z a).
Proof. intros <-. unfold le_at. rewrite (slice_app [] a b : slice (a ++ b) 0 (0 + zlen a) = Ok a). done. Qed.

Lemma le_at_2 (a b c : bytes) : zlen a = 2 → zlen b = 2 → le_at 2 (a ++ b ++ c) 2 = Ok (le_Z b).
Proof.
  intros Ha Hb. unfold le_at. pose proof (slice_app a b c) as H. rewrite Ha, Hb in H. by rewrite H.
Qed.

(** One turn of the loop on at least four bytes. *)
Lemma parseTLV_step fuel t2 l2 r acc :
  zlen t2 = 2 → zlen l2 = 2 → wf_bytes l2 →
  parseTLV_loop (S fuel) (t2 ++ l2 ++ r) acc =
    if (le_Z t2 =? 0) || (zlen r <? le_Z l2) then Ok acc
    else parseTLV_loop fuel (drop (Z.to_nat (le_Z l2)) r)
           (<[le_Z t2 := take (Z.to_nat (le_Z l2)) r]> acc).
Proof.
  intros Ht Hl Hwl. pose proof (zlen_nonneg r). pose proof (le_Z_is_u 2 l2 Hl Hwl) as [Hb _].
  cbn [parseTLV_loop]. rewrite (proj2 (Z.ltb_ge _ 4)) by (rewrite !zlen_app; lia).
  rewrite (le_at_0 t2 (l2 ++ r)) by done. cbn [mbind result_bind].
  rewrite le_at_2 by done. cbn [mbind result_bind].
  assert (Hlen : zlen (t2 ++ l2 ++ r) = 4 + zlen r) by (rewrite !zlen_app; lia).
  assert (Heq : (zlen (t2 ++ l2 ++ r) <? 4 + le_Z l2) = (zlen r <? le_Z l2)).
  { rewrite Hlen. destruct (Z.ltb_spec (zlen r) (le_Z l2)); [apply Z.ltb_lt|apply Z.ltb_ge]; lia. }
  rewrite Heq. destruct (le_Z t2 =? 0); [done|]. destruct (Z.ltb_spec (zlen r) (le_Z l2)); [done|].
  cbn [orb]. destruct (list_split_len r (le_Z l2)) as (raw & rest & -> & Hraw); [lia|].
  rewrite (assoc_L (++)). pose proof (slice_app (t2 ++ l2) raw rest) as Hs.
  rewrite !zlen_app, Ht, Hl, Hraw in Hs. change (2 + 2) with 4 in Hs. rewrite Hs. cbn [mbind result_bind].
  assert (Hf : slice_from ((t2 ++ l2) ++ raw ++ rest) (4 + le_Z l2) = Ok rest).
  { rewrite (assoc_L (++)). replace (4 + le_Z l2) with (zlen ((t2 ++ l2) ++ raw)); [apply slice_from_app|].
    rewrite !zlen_app. lia. }
  rewrite Hf. cbn [mbind result_bind].
  rewrite take_app_length', drop_app_length' by (unfold zlen in Hraw; lia). done.
Qed.

Lemma list_split4 (l : bytes) :
  4 ≤ zlen l → ∃ a b r, l = a ++ b ++ r ∧ zlen a = 2 ∧ zlen b = 2.
Proof.
  intros Hlen. destruct (list_split_len l 2) as (a & r1 & -> & Ha); [lia|]. rewrite zlen_app in Hlen.
  destruct (list_split_len r1 2) as (b & r & -> & Hb); [lia|]. by exists a, b, r.
Qed.

Definition tlv_map (kvs : list (Z * bytes)) (acc : gmap Z bytes) : gmap Z bytes :=
  foldl (λ m kv, <[kv.1 := kv.2]> m) acc kvs.

Lemma parseTLV_loop_spec fuel data acc :
  wf_bytes data → (length data < fuel)%nat →
  ∃ kvs tail, data = flat_map enc_entry_tlv kvs ++ tail ∧ Forall wf_entry kvs ∧ stops tail
    ∧ parseTLV_loop fuel data acc = Ok (tlv_map kvs acc).
Proof.
  revert data acc. induction fuel as [|fuel IH]; intros data acc Hwf Hfuel; [lia|].
  destruct (decide (zlen data < 4)) as [Hs|Hs].
  { exists [], data. split; [done|]. split; [constructor|]. split; [by left|].
    cbn [parseTLV_loop]. by rewrite (proj2 (Z.ltb_lt _ _)) by done. }
  destruct (list_split4 data) as (t2 & l2 & r & -> & Ht & Hl); [lia|].
  apply Forall_app in Hwf as [Hwt Hwf]. apply Forall_app in Hwf as [Hwl Hwr].
  pose proof (le_Z_is_u 2 t2 Ht Hwt) as Htu. pose proof (le_Z_is_u 2 l2 Hl Hwl) as Hlu.
  rewrite parseTLV_step by done.
  assert (Htake : take 2 (t2 ++ l2 ++ r) = t2) by (apply take_app_length'; unfold zlen in Ht; lia).
  assert (Hdrop : take 2 (drop 2 (t2 ++ l2 ++ r)) = l2).
  { rewrite drop_app_length' by (unfold zlen in Ht; lia). apply take_app_length'. unfold zlen in Hl. lia. }
  destruct (Z.eqb_spec (le_Z t2) 0) as [H0|H0]; cbn [orb].
  { exists [], (t2 ++ l2 ++ r). split; [done|]. split; [constructor|]. split; [|done].
    right. left. by rewrite Htake. }
  destruct (Z.ltb_spec (zlen r) (le_Z l2)) as [Hr|Hr].
  { exists [], (t2 ++ l2 ++ r). split; [done|]. split; [constructor|]. split; [|done].
    right. right. rewrite Hdrop, !zlen_app. lia. }
  unfold is_u in Hlu. destruct (list_split_len r (le_Z l2)) as (raw & rest & -> & Hraw); [lia|].
  apply Forall_app in Hwr as [Hwraw Hwrest].
  rewrite take_app_length', drop_app_length' by (unfold zlen in Hraw; lia).
  destruct (IH rest (<[le_Z t2 := raw]> acc) Hwrest) as (kvs & tail & -> & Hkvs & Hstop & ->).
  { rewrite !length_app in Hfuel. unfold zlen in *. lia. }
  exists ((le_Z t2, raw) :: kvs), tail. split; [|split; [|by split]].
  - cbn [flat_map]. unfold enc_entry_tlv at 2. simpl.
    rewrite Hraw, !le_le_Z by done. by rewrite <- !(assoc_L (++)).
  - constructor; [|done]. split; [exact Htu|]. split; [done|]. simpl. split; [lia|done].
Qed.

(** ** Extensions as independent fields *)

Definition opt_pubkey (b : bytes) : option PublicKey :=
  if zlen b <? 32 then None
  else let k := take 32 b in if decide (k = zero_array 32) then None else Some k.

(** The [n] bytes of [raw] from [lo]. *)
Definition sub (raw : bytes) (lo n : Z) : bytes := take (Z.to_nat n) (drop (Z.to_nat lo) raw).
Definition key_at (raw : bytes) (lo : Z) : option PublicKey := opt_pubkey (sub raw lo 32).
Definition num_at (raw : bytes) (lo n : Z) : Z := le_Z (sub raw lo n).

Definition fee_at (raw : bytes) (lo : Z) : TransferFee :=
  mkTransferFee (num_at raw lo 8) (num_at raw (lo + 8) 8) (num_at raw (lo + 16) 2).

(** The pure effect of one mint extension. *)
Definition mint_update (t : Z) (raw : bytes) (ext : MintExtensions) : MintExtensions :=
  let 'mkMintExtensions ca ds nt pd tf ib mp th := ext in
  let n := zlen raw in
  if t =? 3 then if 32 <=? n then mkMintExtensions (opt_pubkey raw) ds nt pd tf ib mp th else ext
  else if t =? 6 then if 1 <=? n then mkMintExtensions ca (head raw) nt pd tf ib mp th else ext
  else if t =? 9 then mkMintExtensions ca ds true pd tf ib mp th
  else if t =? 12 then if 32 <=? n then mkMintExtensions ca ds nt (opt_pubkey raw) tf ib mp th else ext
  else if t =? 1 then
    if 108 <=? n
    then mkMintExtensions ca ds nt pd (Some (mkTransferFeeConfig (key_at raw 0) (key_at raw 32)
           (num_at raw 64 8) (fee_at raw 72) (fee_at raw 90))) ib mp th else ext
  else if t =? 10 then
    if 52 <=? n
    then mkMintExtensions ca ds nt pd tf (Some (mkInterestBearingConfig (key_at raw 0)
           (s64 (num_at raw 32 8)) (s16 (num_at raw 40 2)) (s64 (num_at raw 42 8)) (s16 (num_at raw 50 2)))) mp th
    else ext
  else if t =? 16 then
    if 64 <=? n then mkMintExtensions ca ds nt pd tf ib (Some (mkTwoKeys (key_at raw 0) (key_at raw 32))) th else ext
  else if t =? 18 then
    if 64 <=? n then mkMintExtensions ca ds nt pd tf ib mp (Some (mkTwoKeys (key_at raw 0) (key_at raw 32))) else ext
  else ext.

Definition account_update (t : Z) (raw : bytes) (ext : AccountExtensions) : AccountExtensions :=
  let 'mkAccountExtensions wa mt io cg := ext in
  let n := zlen raw in
  if t =? 2 then if 8 <=? n then mkAccountExtensions (Some (num_at raw 0 8)) mt io cg else ext
  else if t =? 8 then if 1 <=? n then mkAccountExtensions wa ((λ b, negb (b =? 0)) <$> head raw) io cg else ext
  else if t =? 7 then mkAccountExtensions wa mt true cg
  else if t =? 11 then if 1 <=? n then mkAccountExtensions wa mt io ((λ b, negb (b =? 0)) <$> head raw) else ext
  else ext.

Lemma optPubkey_eq b : optPubkey b = Ok (opt_pubkey b).
Proof.
  unfold optPubkey, opt_pubkey. change PublicKeySize with 32.
  destruct (Z.ltb_spec (zlen b) 32); [done|]. rewrite slice_in by lia. cbn [mbind result_bind].
  change (Z.to_nat (32 - 0)) with 32%nat. change (Z.to_nat 0) with 0%nat. rewrite drop_0.
  case_decide; [done|]. rewrite copy_array_id; [done|]. rewrite length_take. unfold zlen in *. lia.
Qed.

Lemma le_at_eq raw lo n :
  0 ≤ lo → 0 ≤ n → lo + n ≤ zlen raw → le_at n raw lo = Ok (num_at raw lo n).
Proof.
  intros. unfold le_at, num_at, sub. rewrite slice_in by lia. cbn [mbind result_bind].
  by rewrite Z.add_simpl_l.
Qed.

Lemma opt_key_at_eq raw lo hi :
  0 ≤ lo → hi = lo + 32 → hi ≤ zlen raw → opt_key_at raw lo hi = Ok (key_at raw lo).
Proof.
  intros ? -> ?. unfold opt_key_at, key_at, sub. rewrite slice_in by lia. cbn [mbind result_bind].
  by rewrite Z.add_simpl_l, optPubkey_eq.
Qed.

Lemma index_head (raw : bytes) : 1 ≤ zlen raw → ∃ b, index_at raw 0 = Ok b ∧ head raw = Some b.
Proof. destruct raw as [|b raw]; [unfold zlen; simpl; lia|]. by exists b. Qed.

Lemma transfer_fee_eq raw lo :
  0 ≤ lo → lo + 18 ≤ zlen raw → transfer_fee_at raw lo = Ok (fee_at raw lo).
Proof.
  intros. unfold transfer_fee_at, fee_at. rewrite le_at_eq by lia. cbn [mbind result_bind].
  rewrite le_at_eq by lia. cbn [mbind result_bind]. by rewrite le_at_eq by lia.
Qed.

Lemma two_keys_eq raw : 64 ≤ zlen raw → two_keys raw = Ok (mkTwoKeys (key_at raw 0) (key_at raw 32)).
Proof.
  intros. unfold two_keys. rewrite opt_key_at_eq by lia. cbn [mbind result_bind].
  by rewrite opt_key_at_eq by lia.
Qed.

(** Every guarded read is in range, so each reads a field or does nothing. *)
Ltac ext_reads :=
  repeat first
    [ rewrite optPubkey_eq | rewrite two_keys_eq by lia | rewrite opt_key_at_eq by lia
    | rewrite transfer_fee_eq by lia | rewrite le_at_eq by lia ];
  cbn [mbind result_bind].

Ltac head_read :=
  match goal with
  | H : 1 <= zlen ?raw |- _ =>
      let b := fresh in let Hb := fresh in let Hh := fresh in
      destruct (index_head raw H) as (b & Hb & Hh); rewrite Hb, ?Hh
  end.

Lemma decodeMintExt_eq ext t raw : decodeMintExt ext t raw = Ok (mint_update t raw ext).
Proof.
  destruct ext as [ca ds nt pd tf ib mp th]. unfold decodeMintExt, mint_update. change PublicKeySize with 32.
  unfold ExtMintCloseAuthority, ExtDefaultAccountState, ExtNonTransferable, ExtPermanentDelegate,
    ExtTransferFeeConfig, ExtInterestBearingConfig, ExtMetadataPointer, ExtTransferHook.
  destruct (t =? 3); [case_if; by ext_reads|].
  destruct (t =? 6); [case_if; [by head_read|done]|].
  destruct (t =? 9); [done|].
  destruct (t =? 12); [case_if; by ext_reads|].
  destruct (t =? 1); [case_if; by ext_reads|].
  destruct (t =? 10); [case_if; by ext_reads|].
  destruct (t =? 16); [case_if; by ext_reads|].
  destruct (t =? 18); [case_if; by ext_reads|done].
Qed.

Lemma decodeAccountExt_eq ext t raw : decodeAccountExt ext t raw = Ok (account_update t raw ext).
Proof.
  destruct ext as [wa mt io cg]. unfold decodeAccountExt, account_update.
  unfold ExtTransferFeeAmount, ExtMemoTransfer, ExtImmutableOwner, ExtCpiGuard.
  destruct (t =? 2); [case_if; by ext_reads|].
  destruct (t =? 8); [case_if; [by head_read|done]|].
  destruct (t =? 7); [done|].
  destruct (t =? 11); [case_if; [by head_read|done]|done].
Qed.

(** ** Iteration order *)

Section order.
Context {E : Type} (decode : E → Z → bytes → result E) (update : Z → bytes → E → E).
Context (decode_eq : ∀ ext t raw, decode ext t raw = Ok (update t raw ext)).
Context (update_comm : ∀ t1 r1 t2 r2 ext, t1 ≠ t2 → update t1 r1 (update t2 r2 ext) = update t2 r2 (update t1 r1 ext)).

Definition update_all (kvs : list (Z * bytes)) (ext : E) : E :=
  foldl (λ ext kv, update kv.1 kv.2 ext) ext kvs.

Lemma apply_all_eq kvs ext : apply_all decode kvs ext = Ok (update_all kvs ext).
Proof.
  revert ext. induction kvs as [|[t raw] kvs IH]; intros ext; [done|].
  cbn [apply_all]. rewrite decode_eq. cbn [mbind result_bind]. by rewrite IH.
Qed.

Lemma update_all_Permutation kvs1 kvs2 ext :
  NoDup kvs1.*1 → kvs1 ≡ₚ kvs2 → update_all kvs1 ext = update_all kvs2 ext.
Proof.
  intros Hnd Hp. revert ext. induction Hp as [|[t raw] l1 l2 Hp IH|[t1 r1] [t2 r2] l|l1 l2 l3 H12 IH12 H23 IH23]; intros ext.
  - done.
  - rewrite fmap_cons, NoDup_cons in Hnd. destruct Hnd as [_ Hnd]. simpl. by apply IH.
  - unfold update_all. simpl. rewrite !fmap_cons, !NoDup_cons in Hnd. simpl in Hnd.
    f_equal. apply update_comm. set_solver.
  - rewrite IH12 by done. apply IH23. by rewrite <- H12.
Qed.

(** Whatever the order, the extensions are those of [map_to_list]. *)
Lemma apply_all_range `{MapOrder} (m : gmap Z bytes) ext :
  apply_all decode (range_map m) ext = Ok (update_all (map_to_list m) ext).
Proof.
  rewrite apply_all_eq. f_equal. apply update_all_Permutation; [|apply range_map_perm].
  rewrite range_map_perm. apply NoDup_fst_map_to_list.
Qed.
End order.

Lemma mint_update_comm t1 r1 t2 r2 ext :
  t1 ≠ t2 → mint_update t1 r1 (mint_update t2 r2 ext) = mint_update t2 r2 (mint_update t1 r1 ext).
Proof.
  intros Hne. destruct ext as [ca ds nt pd tf ib mp th]. unfold mint_update.
  repeat match goal with
  | |- context [?t =? ?c] => is_var t; destruct (Z.eqb_spec t c) as [->|?]
  end; try done; cbn -[zlen];
  repeat match goal with |- context [?a <=? ?b] => destruct (a <=? b) end; reflexivity.
Qed.

Lemma account_update_comm t1 r1 t2 r2 ext :
  t1 ≠ t2 → account_update t1 r1 (account_update t2 r2 ext) = account_update t2 r2 (account_update t1 r1 ext).
Proof.
  intros Hne. destruct ext as [wa mt io cg]. unfold account_update.
  repeat match goal with
  | |- context [?t =? ?c] => is_var t; destruct (Z.eqb_spec t c) as [->|?]
  end; try done; cbn -[zlen];
  repeat match goal with |- context [?a <=? ?b] => destruct (a <=? b) end; reflexivity.
Qed.

(** ** The decoders *)

Lemma parseTLV_spec data :
  wf_bytes data →
  ∃ kvs tail, data = flat_map enc_entry_tlv kvs ++ tail ∧ Forall wf_entry kvs ∧ stops tail
    ∧ parseTLV data = Ok (tlv_map kvs ∅).
Proof. intros Hwf. unfold parseTLV. apply parseTLV_loop_spec; [done|lia]. Qed.

(** The extension region: everything past the account-type byte. *)
Definition tlv_region (data : bytes) : bytes := drop 166 data.

Lemma slice_from_166 data : 166 < zlen data → slice_from data 166 = Ok (tlv_region data).
Proof.
  intros H. unfold slice_from. rewrite slice_in by lia. f_equal. unfold tlv_region.
  apply take_ge. rewrite length_drop. unfold zlen in *. lia.
Qed.

(** ** Properties *)

(** C31: Token-2022 decoding is a function of the buffer alone.  The TLV
    region splits into complete entries and a stopping tail; a later entry
    of a type replaces an earlier one; and the extensions are those fields'
    pure updates, the same whatever order Go walks the map in.  Decoding
    fails only when the base state does. *)
Theorem Token2022_decode_deterministic `{MapOrder} (data : bytes) :
  wf_bytes data →
  ∃ kvs tail, tlv_region data = flat_map enc_entry_tlv kvs ++ tail ∧ Forall wf_entry kvs ∧ stops tail ∧
  Token2022_DecodeMintState data =
    (base ← wrap_result "token2022: DecodeMintState" [] (DecodeMintState data);
     Ok (base, if 166 <? zlen data
               then update_all mint_update (map_to_list (tlv_map kvs ∅)) no_mint_extensions
               else no_mint_extensions)) ∧
  Token2022_DecodeAccount data =
    (base ← wrap_result "token2022: DecodeAccount" [] (DecodeAccountState data);
     Ok (base, if 166 <? zlen data
               then update_all account_update (map_to_list (tlv_map kvs ∅)) no_account_extensions
               else no_account_extensions)).
Proof.
  intros Hwf. destruct (parseTLV_spec (tlv_region data)) as (kvs & tail & Hsplit & Hkvs & Hstop & Hp).
  { by apply Forall_drop. }
  exists kvs, tail. repeat (split; [done|]).
  unfold Token2022_DecodeMintState, Token2022_DecodeAccount.
  destruct (Z.ltb_spec 166 (zlen data)) as [Hlen|Hlen]; [|done].
  rewrite slice_from_166 by done. cbn [mbind result_bind]. rewrite Hp. cbn [mbind result_bind].
  rewrite (apply_all_range _ _ decodeMintExt_eq mint_update_comm).
  rewrite (apply_all_range _ _ decodeAccountExt_eq account_update_comm). done.
Qed.

Definition sample_2022 : bytes :=
  enc_mint sample_mint ++ replicate 84 1 ++ enc_entry_tlv (9, []) ++ enc_entry_tlv (6, [2])
  ++ enc_entry_tlv (12, replicate 32 7) ++ [0; 0; 0; 0].

Lemma Token2022_decode_deterministic_witness :
  @Token2022_DecodeMintState list_order sample_2022
    = Ok (sample_mint, mkMintExtensions None (Some 2) true (Some (replicate 32 7)) None None None None)
  ∧ ∃ kvs tail, tlv_region sample_2022 = flat_map enc_entry_tlv kvs ++ tail ∧ stops tail.
Proof.
  split; [by vm_compute|].
  destruct (@Token2022_decode_deterministic list_order sample_2022) as (kvs & tail & H1 & _ & H2 & _).
  - apply (bool_decide_unpack _); by vm_compute.
  - by exists kvs, tail.
Defined.
