(* ===== verification/Pda.v ===== *)
(** * Program-derived addresses: [pda.go]

    SHA-256 and the edwards25519 point decoder are not code of the
    repository: they are the class [Curve], with the one fact the code
    relies on, the length of a digest.  [FindProgramAddress_spec] is the
    contract of the bump search: it returns the highest bump whose address
    is off the curve, the address is the one [CreateProgramAddress] gives
    for that bump, and it fails exactly when no bump will do. *)

From S2P Require Import Prelude Keys.

Class Curve := {
  sha256 : bytes → bytes;
  (** [new(edwards25519.Point).SetBytes(data)] succeeds. *)
  point_SetBytes : bytes → bool;
}.

Class CurveLaws `{Curve} := {
  sha256_wf b : wf_array 32 (sha256 b);
}.

Definition MaxPDASeeds : Z := 16.
Definition MaxPDASeedLength : Z := 32.

(** "ProgramDerivedAddress" *)
Definition pdaMarker : bytes :=
  [80; 114; 111; 103; 114; 97; 109; 68; 101; 114; 105; 118; 101; 100; 65; 100;
   100; 114; 101; 115; 115].

Section pda.
Context `{Curve}.

Definition isOnCurve (data : bytes) : bool :=
  if negb (zlen data =? PublicKeySize) then false else point_SetBytes data.

(** The loop that feeds the seeds to the hash, whose state is the bytes
    written so far. *)
Fixpoint write_seeds (i : Z) (seeds : list bytes) (h : bytes) : result bytes :=
  match seeds with
  | [] => Ok h
  | seed :: seeds =>
      if MaxPDASeedLength <? zlen seed
      then Err (ErrFmt "solana: CreateProgramAddress: seed" [AZ i; AZ (zlen seed); AZ MaxPDASeedLength])
      else write_seeds (i + 1) seeds (h ++ seed)
  end.

Definition CreateProgramAddress (seeds : list bytes) (programID : PublicKey) : result PublicKey :=
  if MaxPDASeeds <? zlen seeds
  then Err (ErrFmt "solana: CreateProgramAddress: max seeds" [AZ MaxPDASeeds; AZ (zlen seeds)])
  else
  h ← write_seeds 0 seeds [];
  let sum := sha256 (h ++ programID ++ pdaMarker) in
  let pk := copy_array 32 sum in
  if isOnCurve pk
  then Err (ErrSentinel "solana: CreateProgramAddress: invalid seeds, produced on-curve point")
  else mret pk.

(** [for bump := 255; bump >= 0; bump--]: [n] is [bump + 1].  The last
    seed is the one-byte buffer [bumpBuf], overwritten in place. *)
Fixpoint find_loop (n : nat) (seeds : list bytes) (bumpBuf : bytes) (programID : PublicKey) :
    result (PublicKey * Z) :=
  match n with
  | O => Err (ErrSentinel "solana: FindProgramAddress: no off-curve PDA found for any bump (statistically impossible)")
  | S bump =>
      bumpBuf ← set_at bumpBuf 0 (u8 (Z.of_nat bump));
      match CreateProgramAddress (seeds ++ [bumpBuf]) programID with
      | Ok pk => Ok (pk, u8 (Z.of_nat bump))
      | Err _ => find_loop bump seeds bumpBuf programID
      | Panic w => Panic w
      end
  end.

Definition FindProgramAddress (seeds : list bytes) (programID : PublicKey) : result (PublicKey * Z) :=
  if MaxPDASeeds <=? zlen seeds
  then Err (ErrFmt "solana: FindProgramAddress: seeds would exceed max after adding bump" [])
  else find_loop 256 seeds (zero_array 1) programID.

(** ** Specification *)

(** The address of a seed list, as the runtime defines it. *)
Definition pda (seeds : list bytes) (programID : PublicKey) : PublicKey :=
  sha256 (concat seeds ++ programID ++ pdaMarker).

Definition seeds_ok (seeds : list bytes) : Prop :=
  zlen seeds ≤ MaxPDASeeds ∧ Forall (λ s, zlen s ≤ MaxPDASeedLength) seeds.

#[export] Instance seeds_ok_dec seeds : Decision (seeds_ok seeds).
Proof. unfold seeds_ok. apply _. Defined.

Definition bump_valid (seeds : list bytes) (programID : PublicKey) (bump : Z) : Prop :=
  seeds_ok (seeds ++ [[bump]]) ∧ isOnCurve (pda (seeds ++ [[bump]]) programID) = false.

#[export] Instance bump_valid_dec seeds pid bump : Decision (bump_valid seeds pid bump).
Proof. unfold bump_valid. apply _. Defined.

Lemma write_seeds_spec i seeds h :
  if decide (Forall (λ s, zlen s ≤ MaxPDASeedLength) seeds)
  then write_seeds i seeds h = Ok (h ++ concat seeds)
  else ∃ e, write_seeds i seeds h = Err e.
Proof.
  revert i h. induction seeds as [|s seeds IH]; intros i h; simpl.
  { by rewrite app_nil_r. }
  destruct (Z.ltb_spec MaxPDASeedLength (zlen s)) as [Hs|Hs].
  { rewrite decide_False; [by eexists|]. rewrite Forall_cons. lia. }
  specialize (IH (i + 1) (h ++ s)). case_decide as Hall.
  - rewrite decide_True by (constructor; [lia|done]). by rewrite IH, <- (assoc_L (++)).
  - rewrite decide_False; [done|]. rewrite Forall_cons. tauto.
Qed.

Context `{!CurveLaws}.

Lemma wf_pda seeds pid : wf_key (pda seeds pid).
Proof. apply sha256_wf. Qed.

(** [CreateProgramAddress] on every branch. *)
Lemma CreateProgramAddress_cases seeds pid :
  if decide (seeds_ok seeds ∧ isOnCurve (pda seeds pid) = false)
  then CreateProgramAddress seeds pid = Ok (pda seeds pid)
  else ∃ e, CreateProgramAddress seeds pid = Err e.
Proof.
  unfold CreateProgramAddress, seeds_ok.
  destruct (Z.ltb_spec MaxPDASeeds (zlen seeds)) as [Hn|Hn].
  { rewrite decide_False by lia. by eexists. }
  pose proof (write_seeds_spec 0 seeds []) as Hw. case_decide as Hall.
  2: { destruct Hw as [e ->]. rewrite decide_False by tauto. by exists e. }
  rewrite Hw. cbn [mbind result_bind app].
  assert (copy_array 32 (sha256 (concat seeds ++ pid ++ pdaMarker)) = pda seeds pid) as ->.
  { apply copy_array_id. destruct (wf_pda seeds pid) as [Hlen _]. unfold zlen in Hlen. lia. }
  destruct (isOnCurve (pda seeds pid)).
  - rewrite decide_False by naive_solver. by eexists.
  - by rewrite decide_True by naive_solver.
Qed.

Lemma find_loop_spec n seeds b pid :
  (n ≤ 256)%nat → length b = 1%nat →
  match find_loop n seeds b pid with
  | Ok (pk, bump) =>
      0 ≤ bump < Z.of_nat n ∧ pk = pda (seeds ++ [[bump]]) pid ∧ bump_valid seeds pid bump ∧
      ∀ b', bump < b' < Z.of_nat n → ¬ bump_valid seeds pid b'
  | Err _ => ∀ b', 0 ≤ b' < Z.of_nat n → ¬ bump_valid seeds pid b'
  | Panic _ => False
  end.
Proof.
  revert b. induction n as [|n IH]; intros b Hn Hb; cbn [find_loop]; [intros; lia|].
  rewrite (set_at_lt b 0) by lia. cbn [mbind result_bind].
  destruct b as [|x [|]]; try done. cbn [insert list_insert].
  rewrite (wrapU_small 8) by (unfold is_u; lia).
  pose proof (CreateProgramAddress_cases (seeds ++ [[Z.of_nat n]]) pid) as Hc.
  case_decide as Hv.
  - rewrite Hc. split_and!; [lia|lia|done|done|]. intros. lia.
  - destruct Hc as [e ->]. specialize (IH [Z.of_nat n] ltac:(lia) eq_refl).
    destruct (find_loop n seeds [Z.of_nat n] pid) as [[pk bump]|e'|w]; [| |done].
    + destruct IH as (? & ? & ? & Hmax). split_and!; [lia|lia|done|done|].
      intros b' ?. destruct (decide (b' = Z.of_nat n)) as [->|]; [done|]. apply Hmax. lia.
    + intros b' ?. destruct (decide (b' = Z.of_nat n)) as [->|]; [done|]. apply IH. lia.
Qed.

(** What the users of [FindProgramAddress] need of it. *)
Lemma FindProgramAddress_ok seeds pid pk bump :
  FindProgramAddress seeds pid = Ok (pk, bump) →
  is_u 8 bump ∧ CreateProgramAddress (seeds ++ [[bump]]) pid = Ok pk.
Proof.
  unfold FindProgramAddress. case_if; [done|].
  pose proof (find_loop_spec 256 seeds (zero_array 1) pid ltac:(lia) eq_refl) as Hf.
  intros Heq. rewrite Heq in Hf. destruct Hf as (Hr & -> & Hv & _).
  pose proof (CreateProgramAddress_cases (seeds ++ [[bump]]) pid) as Hc.
  rewrite decide_True in Hc by exact Hv. split; [unfold is_u; lia|done].
Qed.

Lemma FindProgramAddress_no_panic seeds pid : no_panic (FindProgramAddress seeds pid).
Proof.
  unfold FindProgramAddress. case_if; [done|].
  pose proof (find_loop_spec 256 seeds (zero_array 1) pid ltac:(lia) eq_refl) as Hf.
  by destruct (find_loop 256 seeds (zero_array 1) pid) as [[]| |].
Qed.
End pda.

(** ** Properties *)

(** C28: [FindProgramAddress] returns the largest bump in 0..255 for which
    [CreateProgramAddress] on the seeds extended with that byte succeeds,
    together with exactly the address [CreateProgramAddress] returns, which is
    a 32-byte value off the curve; it never panics, and it returns an error
    exactly when there are 16 or more seeds, or no bump byte makes
    [CreateProgramAddress] succeed. *)
Theorem FindProgramAddress_spec `{!Curve, !CurveLaws} seeds pid :
  match FindProgramAddress seeds pid with
  | Ok (pk, bump) =>
      is_u 8 bump ∧ CreateProgramAddress (seeds ++ [[bump]]) pid = Ok pk ∧
      wf_key pk ∧ isOnCurve pk = false ∧
      ∀ b, bump < b ≤ 255 → is_ok (CreateProgramAddress (seeds ++ [[b]]) pid) = false
  | Err _ =>
      16 ≤ zlen seeds ∨
      ∀ b, is_u 8 b → is_ok (CreateProgramAddress (seeds ++ [[b]]) pid) = false
  | Panic _ => False
  end.
Proof.
  assert (Hno : ∀ b, ¬ bump_valid seeds pid b →
            is_ok (CreateProgramAddress (seeds ++ [[b]]) pid) = false).
  { intros b Hb. pose proof (CreateProgramAddress_cases (seeds ++ [[b]]) pid) as Hc.
    case_decide; [done|]. by destruct Hc as [e ->]. }
  unfold FindProgramAddress. destruct (Z.leb_spec MaxPDASeeds (zlen seeds)); [by left|].
  pose proof (find_loop_spec 256 seeds (zero_array 1) pid ltac:(lia) eq_refl) as Hf.
  destruct (find_loop 256 seeds (zero_array 1) pid) as [[pk bump]|e|w]; [| |done].
  - destruct Hf as (Hr & -> & Hv & Hmax).
    pose proof (CreateProgramAddress_cases (seeds ++ [[bump]]) pid) as Hc.
    rewrite decide_True in Hc by exact Hv.
    split; [unfold is_u; lia|]. split; [done|]. split; [apply wf_pda|]. split; [apply Hv|].
    intros b Hb. apply Hno, Hmax. lia.
  - right. intros b [Hb0 Hb1]. apply Hno, Hf. change (2 ^ 8) with 256 in Hb1. lia.
Qed.

(** [CreateProgramAddress] succeeds exactly on at most 16 seeds of at
    most 32 bytes each whose digest is off the curve, and then returns the
    digest of the concatenated seeds, the program id and the marker; since
    seeds are concatenated without separators, regrouping the same bytes
    gives the same result. *)
Theorem CreateProgramAddress_iff `{!Curve, !CurveLaws} seeds pid pk :
  CreateProgramAddress seeds pid = Ok pk ↔
  zlen seeds ≤ 16 ∧ Forall (λ s, zlen s ≤ 32) seeds ∧
  pk = sha256 (concat seeds ++ pid ++ pdaMarker) ∧ isOnCurve pk = false.
Proof.
  pose proof (CreateProgramAddress_cases seeds pid) as Hc. unfold seeds_ok in Hc.
  fold (pda seeds pid). case_decide as Hd.
  - rewrite Hc. split; [intros [= <-]|intros (?&?&->&?)]; naive_solver.
  - destruct Hc as [e ->]. split; [done|]. intros (?&?&->&?). exfalso. apply Hd. naive_solver.
Qed.

(** A concrete instance, on which the definitions run: the "digest" is a
    checksum byte followed by the first 31 bytes of the input, and a point is
    valid when its first byte is at least 16. *)
Module Toy.
#[export] Instance toy_curve : Curve := {|
  sha256 b := u8 (foldr Z.add 0 b) :: (u8 <$> copy_array 31 b);
  point_SetBytes b := match b with x :: _ => 16 <=? x | [] => false end;
|}.

#[export] Instance toy_curve_laws : CurveLaws.
Proof.
  constructor. intros b. split.
  - unfold zlen. cbn [sha256 toy_curve length]. by rewrite length_fmap, length_copy_array.
  - constructor; [by apply wrapU_is_u|].
    apply Forall_fmap, Forall_true. intros. by apply wrapU_is_u.
Qed.
End Toy.

Lemma FindProgramAddress_spec_witness :
  let seeds := [[1; 2; 3]; [7]] in
  ∃ pk bump, @FindProgramAddress Toy.toy_curve seeds (zero_array 32) = Ok (pk, bump) ∧
    bump < 255 ∧ @CreateProgramAddress Toy.toy_curve (seeds ++ [[bump]]) (zero_array 32) = Ok pk.
Proof.
  intros seeds.
  pose proof (@FindProgramAddress_spec Toy.toy_curve Toy.toy_curve_laws seeds (zero_array 32)) as H.
  destruct (@FindProgramAddress Toy.toy_curve seeds (zero_array 32)) as [[pk bump]|e|w] eqn:Hf.
  - exists pk, bump. split; [done|]. split; [|apply H].
    assert (snd <$> Some (pk, bump) = Some 161) as [= ->]; [|lia].
    replace (Some (pk, bump)) with
      (match @FindProgramAddress Toy.toy_curve seeds (zero_array 32) with Ok x => Some x | _ => None end)
      by (by rewrite Hf). by vm_compute.
  - by vm_compute in Hf.
  - by vm_compute in Hf.
Defined.

Lemma CreateProgramAddress_iff_witness :
  @CreateProgramAddress Toy.toy_curve [[1; 2]; []; [160; 0]] (zero_array 32) =
  @CreateProgramAddress Toy.toy_curve [[1]; [2; 160; 0]] (zero_array 32) ∧
  is_ok (@CreateProgramAddress Toy.toy_curve [[1]; [2; 160; 0]] (zero_array 32)) = true.
Proof.
  split; [|by vm_compute].
  destruct (@CreateProgramAddress Toy.toy_curve [[1]; [2; 160; 0]] (zero_array 32)) as [pk| |] eqn:He;
    [|by vm_compute in He..].
  apply (@CreateProgramAddress_iff Toy.toy_curve Toy.toy_curve_laws).
  apply (@CreateProgramAddress_iff Toy.toy_curve Toy.toy_curve_laws) in He as (_ & _ & -> & ?).
  split_and!; [by vm_compute|by repeat constructor|done|done].
Defined.
