(* ===== verification/Ix.v ===== *)
(** * What the instruction packages share: [constants.go] and a view of instructions

    The well-known addresses are package variables initialised with
    [MustPublicKey] on a base58 literal, so they depend on the base58 codec.
    For the specifications, an account list is viewed as a list of [role]s,
    and instruction data are read by a decoder built from the wire
    primitives: [parses] says that an instruction is addressed to a program
    and that decoding its data and viewing its accounts give a value. *)

From S2P Require Import Prelude Wire Keys Builder.

(** ** Constants *)

(** A package variable.  If its initialiser panics the program does not
    start, so the default is never observed. *)
Definition pkg_var (r : result PublicKey) : PublicKey :=
  match r with Ok k => k | _ => zero_array 32 end.

Definition LAMPORTS_PER_SOL : Z := 1000000000.

Section constants.
Context `{Base58}.

Definition well_known (s : string) : PublicKey := pkg_var (MustPublicKey (str s)).

Definition SystemProgramID := well_known "11111111111111111111111111111111".
Definition TokenProgramID := well_known "TokenkegQfeZyiNwAJbNbGKPFXCWuBvf9Ss623VQ5DA".
Definition Token2022ProgramID := well_known "TokenzQdBNbLqP5VEhdkAS6EPFLC1PHnBqCXEpPxuEb".
Definition AssociatedTokenProgramID := well_known "ATokenGPvbdGVxr1b2hvZbsiqW5xWH25efTNsLJe1bRS".
Definition ComputeBudgetProgramID := well_known "ComputeBudget111111111111111111111111111111".
Definition SysvarRentPubkey := well_known "SysvarRent111111111111111111111111111111111".
Definition SysvarClockPubkey := well_known "SysvarC1ock11111111111111111111111111111111".
Definition SysvarRecentBlockhashesPubkey := well_known "SysvarRecentB1ockHashes11111111111111111111".
Definition SysvarSlotHashesPubkey := well_known "SysvarS1otHashes111111111111111111111111111".
Definition SysvarSlotHistoryPubkey := well_known "SysvarS1otHistory11111111111111111111111111".
Definition SysvarStakeHistoryPubkey := well_known "SysvarStakeHistory1111111111111111111111111".
Definition SysvarEpochSchedulePubkey := well_known "SysvarEpochSchedu1e111111111111111111111111".
Definition SysvarInstructionsPubkey := well_known "Sysvar1nstructions1111111111111111111111111".
Definition SysvarEpochRewardsPubkey := well_known "SysvarEpochRewards1111111111111111111111111".
End constants.

(** A slice literal of metas holds no nil pointer. *)
Definition metas (ms : list AccountMeta) : AccountMetaSlice := Some <$> ms.

(** ** Roles *)

Inductive role :=
| RO (k : PublicKey)    (* read-only *)
| RW (k : PublicKey)    (* writable *)
| SG (k : PublicKey)    (* signer *)
| SW (k : PublicKey).   (* signer and writable *)

Definition role_of (m : AccountMeta) : role :=
  match IsSigner m, IsWritable m with
  | false, false => RO (Meta_PublicKey m)
  | false, true => RW (Meta_PublicKey m)
  | true, false => SG (Meta_PublicKey m)
  | true, true => SW (Meta_PublicKey m)
  end.

(** [None] if the list holds a nil pointer. *)
Fixpoint roles (ms : AccountMetaSlice) : option (list role) :=
  match ms with
  | [] => Some []
  | None :: _ => None
  | Some m :: ms => rs ← roles ms; Some (role_of m :: rs)
  end.

Lemma roles_metas ms : roles (metas ms) = Some (role_of <$> ms).
Proof.
  unfold metas. induction ms as [|m ms IH]; [done|].
  rewrite !fmap_cons. cbn [roles]. by rewrite IH.
Qed.

(** ** Instruction data *)

(** Run a decoder on a whole buffer. *)
Definition run_all {A} (m : Dec A) (data : bytes) : option A :=
  match m (NewDecoder data) with
  | (Ok a, d) => if Remaining d =? 0 then Some a else None
  | _ => None
  end.

Lemma run_all_reads {A} (m : Dec A) bs a : reads m bs a → run_all m bs = Some a.
Proof. intros Hm. unfold run_all. rewrite (reads_run m bs a Hm). by rewrite Remaining_at. Qed.

(** The reference reader of an instruction: [dec] reads the data, [interp]
    combines what it read with the roles of the accounts. *)
Definition parse_ix {A B} (program : PublicKey) (dec : Dec A)
    (interp : A → list role → option B) (ix : Instruction) : option B :=
  if decide (Ix_ProgramID ix = program) then
    match Ix_Data ix with
    | Ok data => a ← run_all dec data; rs ← roles (Ix_Accounts ix); interp a rs
    | _ => None
    end
  else None.

Lemma parse_ix_intro {A B} pid (dec : Dec A) (interp : A → list role → option B) ms data a b :
  reads dec data a → interp a (role_of <$> ms) = Some b →
  parse_ix pid dec interp (NewInstruction pid (metas ms) data) = Some b.
Proof.
  intros Hd Hi. unfold parse_ix. cbn [NewInstruction Ix_ProgramID Ix_Data Ix_Accounts].
  rewrite decide_True by done. rewrite (run_all_reads dec data a Hd), roles_metas. done.
Qed.

(** [RW k] for each key, and back. *)
Fixpoint keys_of (f : role → option PublicKey) (rs : list role) : option (list PublicKey) :=
  match rs with
  | [] => Some []
  | r :: rs => k ← f r; ks ← keys_of f rs; Some (k :: ks)
  end.

Definition the_RO (r : role) : option PublicKey := match r with RO k => Some k | _ => None end.
Definition the_RW (r : role) : option PublicKey := match r with RW k => Some k | _ => None end.

Lemma keys_of_metas f g (ks : list PublicKey) :
  (∀ k, f (role_of (g k)) = Some k) → keys_of f (role_of <$> (g <$> ks)) = Some ks.
Proof.
  intros Hf. induction ks as [|k ks IH]; [done|].
  rewrite !fmap_cons. cbn [keys_of]. by rewrite Hf, IH.
Qed.

(** A fixed account in the list. *)
Definition known (k : PublicKey) {A} (expected : PublicKey) (a : A) : option A :=
  if decide (k = expected) then Some a else None.

Lemma known_same {A} k (a : A) : known k k a = Some a.
Proof. unfold known. by rewrite decide_True. Qed.

(** ** More readers *)

(** A borrowed key. *)
Definition read_key : Dec PublicKey := ReadBytes 32.

Lemma reads_pubkey k : wf_key k → reads read_key k k.
Proof. intros [??]. by apply reads_ReadBytes. Qed.

(** A one-byte presence flag followed by the value. *)
Definition read_opt {A} (m : Dec A) : Dec (option A) :=
  flag ← ReadUint8;
  if flag =? 0 then mret None else x ← m; mret (Some x).

Lemma reads_opt_none {A} (m : Dec A) : reads (read_opt m) [0] None.
Proof. eapply reads_bind; [by apply reads_ReadUint8|apply reads_ret|done]. Qed.

Lemma reads_opt_some {A} (m : Dec A) bs (a : A) :
  reads m bs a → reads (read_opt m) (1 :: bs) (Some a).
Proof.
  intros. eapply reads_bind; [by apply (reads_ReadUint8 1)| |done]. simpl.
  eapply reads_bind; [done|apply reads_ret|by rewrite app_nil_r].
Qed.

(** A [u64] length and that many bytes. *)
Definition read_str : Dec bytes := n ← ReadUint64; ReadBytes n.

Lemma reads_str s : is_u 64 (zlen s) → wf_bytes s → reads read_str (le 8 (zlen s) ++ s) s.
Proof. intros. eapply reads_bind; [by apply reads_ReadUint64|by apply reads_ReadBytes|done]. Qed.

Definition read_i64 : Dec Z := v ← ReadUint64; mret (wrapS 64 v).
Definition read_i16 : Dec Z := v ← ReadUint16; mret (wrapS 16 v).

Lemma reads_i64 v : is_s 64 v → reads read_i64 (le 8 (u64 v)) v.
Proof. intros. apply (reads_signed 64 8); [lia|done|apply ReadUint64_le|done]. Qed.
Lemma reads_i16 v : is_s 16 v → reads read_i16 (le 2 (u16 v)) v.
Proof. intros. apply (reads_signed 16 2); [lia|done|apply ReadUint16_le|done]. Qed.

#[export] Hint Resolve reads_pubkey reads_opt_none reads_opt_some reads_str reads_i64 reads_i16 : wire.

(** The bytes an encoder chain produces.  The chain's names unfold to the
    [Write] methods, whose effect the [enc] database describes. *)
Lemma e_buf_New c : e_buf (NewEncoder c) = [].
Proof. done. Qed.

Lemma e_buf_StrU64 s e : e_buf (StrU64 s e) = e_buf e ++ le 8 (zlen s) ++ s.
Proof. unfold StrU64. rewrite e_buf_append, e_buf_U64. by rewrite (assoc_L (++)). Qed.

Ltac enc_norm :=
  unfold Bytes, U8, U16, U32, U64, I16, I64, Raw, New;
  autorewrite with enc;
  rewrite ?e_buf_StrU64; autorewrite with enc; rewrite ?e_buf_New; rewrite <- ?(assoc_L (++)).

(** One read at a time, on data that [enc_norm] has put in the form
    [v1 ++ (v2 ++ ...)]. *)
Lemma reads_seq {A B} (m : Dec A) (f : A → Dec B) bs1 bs2 a b :
  reads m bs1 a → reads (f a) bs2 b → reads (m ≫= f) (bs1 ++ bs2) b.
Proof. intros. by eapply reads_bind. Qed.

Lemma reads_tail {A} (m : Dec A) bs a : reads m (bs ++ []) a → reads m bs a.
Proof. by rewrite app_nil_r. Qed.

#[export] Hint Extern 1 (is_u _ _) => split; vm_compute; congruence : wire.

(** The two readers that span several encoded values. *)
Lemma reads_str_seq {B} (f : bytes → Dec B) s bs2 b :
  is_u 64 (zlen s) → wf_bytes s → reads (f s) bs2 b →
  reads (read_str ≫= f) (le 8 (zlen s) ++ (s ++ bs2)) b.
Proof. intros. rewrite (assoc_L (++)). apply (reads_seq _ _ _ _ s); [by apply reads_str|done]. Qed.

Lemma reads_opt_seq {A B} (m : Dec A) (f : option A → Dec B) bs1 bs2 a b :
  reads m bs1 a → reads (f (Some a)) bs2 b → reads (read_opt m ≫= f) ([1] ++ (bs1 ++ bs2)) b.
Proof.
  intros. rewrite (assoc_L (++)). apply (reads_seq _ _ _ _ (Some a)); [|done].
  by apply reads_opt_some.
Qed.

Ltac rd :=
  first
  [ eapply reads_seq; [solve [eauto with wire]|cbv beta]
  | apply reads_str_seq; [done|done|cbv beta]
  | eapply reads_opt_seq; [solve [eauto with wire]|cbv beta] ].
Ltac rds := enc_norm; rewrite ?app_nil_l; apply reads_tail; rewrite <- ?(assoc_L (++)); repeat rd; first [apply reads_ret | idtac].

(** The accounts of a literal list of metas. *)
Ltac roles_done := cbn; repeat (rewrite known_same; cbn [mbind option_bind]); reflexivity.
