(* ===== verification/SystemIx.v ===== *)
(** * The System program: [programs/system]

    The ten instruction builders, and the reference reader of the runtime's
    [SystemInstruction] enum: reading back what a builder produced gives the
    builder and its arguments. *)

From S2P Require Import Prelude Wire Keys Builder Ix.

Local Open Scope go_scope.

Definition ProgramID : PublicKey := zero_array 32.

Definition tagCreateAccount : Z := 0.
Definition tagAssign : Z := 1.
Definition tagTransfer : Z := 2.
Definition tagCreateAccountWithSeed : Z := 3.
Definition tagAdvanceNonceAccount : Z := 4.
Definition tagWithdrawNonceAccount : Z := 5.
Definition tagInitializeNonceAccount : Z := 6.
Definition tagAuthorizeNonceAccount : Z := 7.
Definition tagAllocate : Z := 8.
Definition tagTransferWithSeed : Z := 11.

Section system.
Context `{Base58}.

Definition NewTransfer (from to : PublicKey) (lamports : Z) : Instruction :=
  NewInstruction ProgramID
    (metas [NewAccountMeta from true true; NewAccountMeta to false true])
    (Bytes (NewEncoder 12 ▹ U32 tagTransfer ▹ U64 lamports)).

Definition NewCreateAccount (from newAccount : PublicKey) (lamports space : Z) (owner : PublicKey) : Instruction :=
  NewInstruction ProgramID
    (metas [NewAccountMeta from true true; NewAccountMeta newAccount true true])
    (Bytes (NewEncoder 52 ▹ U32 tagCreateAccount ▹ U64 lamports ▹ U64 space ▹ Raw owner)).

Definition NewAssign (account owner : PublicKey) : Instruction :=
  NewInstruction ProgramID
    (metas [NewAccountMeta account true true])
    (Bytes (NewEncoder 36 ▹ U32 tagAssign ▹ Raw owner)).

Definition NewAllocate (account : PublicKey) (space : Z) : Instruction :=
  NewInstruction ProgramID
    (metas [NewAccountMeta account true true])
    (Bytes (NewEncoder 12 ▹ U32 tagAllocate ▹ U64 space)).

Definition NewAdvanceNonceAccount (nonce authority : PublicKey) : Instruction :=
  NewInstruction ProgramID
    (metas [NewAccountMeta nonce false true;
            NewAccountMeta SysvarRecentBlockhashesPubkey false false;
            NewAccountMeta authority true false])
    (Bytes (NewEncoder 4 ▹ U32 tagAdvanceNonceAccount)).

Definition NewWithdrawNonceAccount (nonce authority to : PublicKey) (lamports : Z) : Instruction :=
  NewInstruction ProgramID
    (metas [NewAccountMeta nonce false true;
            NewAccountMeta to false true;
            NewAccountMeta SysvarRecentBlockhashesPubkey false false;
            NewAccountMeta SysvarRentPubkey false false;
            NewAccountMeta authority true false])
    (Bytes (NewEncoder 12 ▹ U32 tagWithdrawNonceAccount ▹ U64 lamports)).

Definition NewInitializeNonceAccount (nonce authority : PublicKey) : Instruction :=
  NewInstruction ProgramID
    (metas [NewAccountMeta nonce false true;
            NewAccountMeta SysvarRecentBlockhashesPubkey false false;
            NewAccountMeta SysvarRentPubkey false false])
    (Bytes (NewEncoder 36 ▹ U32 tagInitializeNonceAccount ▹ Raw authority)).

Definition NewAuthorizeNonceAccount (nonce authority newAuthority : PublicKey) : Instruction :=
  NewInstruction ProgramID
    (metas [NewAccountMeta nonce false true; NewAccountMeta authority true false])
    (Bytes (NewEncoder 36 ▹ U32 tagAuthorizeNonceAccount ▹ Raw newAuthority)).

Definition NewCreateAccountWithSeed (from newAccount base : PublicKey) (seed : bytes)
    (lamports space : Z) (owner : PublicKey) : Instruction :=
  let data := Bytes (NewEncoder (4 + PublicKeySize + 8 + zlen seed + 8 + 8 + PublicKeySize)
    ▹ U32 tagCreateAccountWithSeed ▹ Raw base ▹ StrU64 seed ▹ U64 lamports ▹ U64 space ▹ Raw owner) in
  let accounts := metas [NewAccountMeta from true true; NewAccountMeta newAccount false true] in
  let accounts :=
    if negb (PublicKey_Equal base from)
    then accounts ++ [Some (NewAccountMeta base true false)] else accounts in
  NewInstruction ProgramID accounts data.

Definition NewTransferWithSeed (from base to : PublicKey) (lamports : Z) (seed : bytes)
    (programID : PublicKey) : Instruction :=
  NewInstruction ProgramID
    (metas [NewAccountMeta from false true;
            NewAccountMeta base true false;
            NewAccountMeta to false true])
    (Bytes (NewEncoder (4 + 8 + 8 + zlen seed + PublicKeySize)
       ▹ U32 tagTransferWithSeed ▹ U64 lamports ▹ StrU64 seed ▹ Raw programID)).

(** ** Specification *)

(** A call of one of the builders. *)
Inductive call :=
| Transfer (from to : PublicKey) (lamports : Z)
| CreateAccount (from newAccount : PublicKey) (lamports space : Z) (owner : PublicKey)
| Assign (account owner : PublicKey)
| Allocate (account : PublicKey) (space : Z)
| AdvanceNonceAccount (nonce authority : PublicKey)
| WithdrawNonceAccount (nonce authority to : PublicKey) (lamports : Z)
| InitializeNonceAccount (nonce authority : PublicKey)
| AuthorizeNonceAccount (nonce authority newAuthority : PublicKey)
| CreateAccountWithSeed (from newAccount base : PublicKey) (seed : bytes) (lamports space : Z) (owner : PublicKey)
| TransferWithSeed (from base to : PublicKey) (lamports : Z) (seed : bytes) (programID : PublicKey).

Definition build (c : call) : Instruction :=
  match c with
  | Transfer from to lamports => NewTransfer from to lamports
  | CreateAccount from new lamports space owner => NewCreateAccount from new lamports space owner
  | Assign account owner => NewAssign account owner
  | Allocate account space => NewAllocate account space
  | AdvanceNonceAccount nonce auth => NewAdvanceNonceAccount nonce auth
  | WithdrawNonceAccount nonce auth to lamports => NewWithdrawNonceAccount nonce auth to lamports
  | InitializeNonceAccount nonce auth => NewInitializeNonceAccount nonce auth
  | AuthorizeNonceAccount nonce auth new => NewAuthorizeNonceAccount nonce auth new
  | CreateAccountWithSeed from new base seed lamports space owner =>
      NewCreateAccountWithSeed from new base seed lamports space owner
  | TransferWithSeed from base to lamports seed pid => NewTransferWithSeed from base to lamports seed pid
  end.

(** Arguments in the ranges of their Go types; only what reaches the data
    matters. *)
Definition wf_call (c : call) : Prop :=
  match c with
  | Transfer _ _ n | Allocate _ n | WithdrawNonceAccount _ _ _ n => is_u 64 n
  | CreateAccount _ _ lamports space owner => is_u 64 lamports ∧ is_u 64 space ∧ wf_key owner
  | Assign _ owner => wf_key owner
  | AdvanceNonceAccount _ _ => True
  | InitializeNonceAccount _ k | AuthorizeNonceAccount _ _ k => wf_key k
  | CreateAccountWithSeed _ _ base seed lamports space owner =>
      wf_key base ∧ is_u 64 (zlen seed) ∧ wf_bytes seed ∧ is_u 64 lamports ∧ is_u 64 space ∧ wf_key owner
  | TransferWithSeed _ _ _ lamports seed pid =>
      is_u 64 lamports ∧ is_u 64 (zlen seed) ∧ wf_bytes seed ∧ wf_key pid
  end.

#[export] Instance wf_call_dec c : Decision (wf_call c).
Proof. destruct c; apply _. Defined.

(** The runtime's enum: a [u32] discriminator and its fields. *)
Inductive SystemInstruction :=
| I_CreateAccount (lamports space : Z) (owner : PublicKey)
| I_Assign (owner : PublicKey)
| I_Transfer (lamports : Z)
| I_CreateAccountWithSeed (base : PublicKey) (seed : bytes) (lamports space : Z) (owner : PublicKey)
| I_AdvanceNonceAccount
| I_WithdrawNonceAccount (lamports : Z)
| I_InitializeNonceAccount (authority : PublicKey)
| I_AuthorizeNonceAccount (authority : PublicKey)
| I_Allocate (space : Z)
| I_TransferWithSeed (lamports : Z) (seed : bytes) (owner : PublicKey).

Definition read_args (tag : Z) : Dec SystemInstruction :=
  match tag with
  | 0 => l ← ReadUint64; s ← ReadUint64; o ← read_key; mret (I_CreateAccount l s o)
  | 1 => o ← read_key; mret (I_Assign o)
  | 2 => l ← ReadUint64; mret (I_Transfer l)
  | 3 => b ← read_key; s ← read_str; l ← ReadUint64; sp ← ReadUint64; o ← read_key;
         mret (I_CreateAccountWithSeed b s l sp o)
  | 4 => mret I_AdvanceNonceAccount
  | 5 => l ← ReadUint64; mret (I_WithdrawNonceAccount l)
  | 6 => a ← read_key; mret (I_InitializeNonceAccount a)
  | 7 => a ← read_key; mret (I_AuthorizeNonceAccount a)
  | 8 => s ← ReadUint64; mret (I_Allocate s)
  | 11 => l ← ReadUint64; s ← read_str; o ← read_key; mret (I_TransferWithSeed l s o)
  | _ => fail ErrShortBuffer
  end.

Definition read_data : Dec SystemInstruction := tag ← ReadUint32; read_args tag.

Definition interp (i : SystemInstruction) (rs : list role) : option call :=
  match i, rs with
  | I_CreateAccount l s o, [SW from; SW new] => Some (CreateAccount from new l s o)
  | I_Assign o, [SW a] => Some (Assign a o)
  | I_Transfer l, [SW from; RW to] => Some (Transfer from to l)
  | I_CreateAccountWithSeed b s l sp o, [SW from; RW new] =>
      known from b (CreateAccountWithSeed from new b s l sp o)
  | I_CreateAccountWithSeed b s l sp o, [SW from; RW new; SG b'] =>
      known b' b (CreateAccountWithSeed from new b s l sp o)
  | I_AdvanceNonceAccount, [RW n; RO sv; SG a] =>
      known sv SysvarRecentBlockhashesPubkey (AdvanceNonceAccount n a)
  | I_WithdrawNonceAccount l, [RW n; RW to; RO sv; RO rent; SG a] =>
      c ← known sv SysvarRecentBlockhashesPubkey (WithdrawNonceAccount n a to l);
      known rent SysvarRentPubkey c
  | I_InitializeNonceAccount a, [RW n; RO sv; RO rent] =>
      c ← known sv SysvarRecentBlockhashesPubkey (InitializeNonceAccount n a);
      known rent SysvarRentPubkey c
  | I_AuthorizeNonceAccount new, [RW n; SG a] => Some (AuthorizeNonceAccount n a new)
  | I_Allocate s, [SW a] => Some (Allocate a s)
  | I_TransferWithSeed l s o, [RW from; SG b; RW to] => Some (TransferWithSeed from b to l s o)
  | _, _ => None
  end.

Definition parse : Instruction → option call := parse_ix ProgramID read_data interp.

(** ** Property *)

Ltac sys_data :=
  unfold read_data; rds;
  cbv beta iota delta [read_args tagCreateAccount tagAssign tagTransfer tagCreateAccountWithSeed
    tagAdvanceNonceAccount tagWithdrawNonceAccount tagInitializeNonceAccount
    tagAuthorizeNonceAccount tagAllocate tagTransferWithSeed];
  repeat rd; apply reads_ret.

(** C32: every builder of the system package is inverted by the reference
    reader of the runtime's instruction enum (discriminators 0 to 8 and 11 as
    [u32], little-endian fields, length-prefixed seeds; each account in its
    place with exactly its signer and writable flags): for all arguments in
    range, reading the built instruction returns the builder and its
    arguments.  In particular no two calls produce the same instruction. *)
Theorem system_parse_build c : wf_call c → parse (build c) = Some c.
Proof.
  destruct c; cbn [wf_call build]; intros; destruct_and?; unfold parse.
  1-8,10: eapply parse_ix_intro; [sys_data|roles_done].
  unfold NewCreateAccountWithSeed, PublicKey_Equal.
  case_bool_decide as Heq; cbn [negb].
  - subst. eapply parse_ix_intro; [sys_data|roles_done].
  - change (metas [?a; ?b] ++ [Some ?c]) with (metas [a; b; c]).
    eapply parse_ix_intro; [sys_data|roles_done].
Qed.
End system.

Lemma system_parse_build_witness :
  let c := CreateAccountWithSeed (zero_array 32) (replicate 32 1) (replicate 32 2) [104; 105] 5 6 (replicate 32 3) in
  wf_call c ∧ @parse ToyBase58.toy_base58 (@build ToyBase58.toy_base58 c) = Some c.
Proof.
  intros c. assert (wf_call c) as Hc by (apply (bool_decide_unpack _); by vm_compute).
  split; [exact Hc|]. exact (@system_parse_build ToyBase58.toy_base58 c Hc).
Defined.
