(* ===== verification/TokenIx.v ===== *)
(** * The SPL Token program: [programs/token/instructions.go]

    The nineteen instruction builders, and the reference reader of the
    program's [TokenInstruction] enum. *)

From S2P Require Import Prelude Wire Keys Builder Ix.

Local Open Scope go_scope.

Definition tagInitializeMint : Z := 0.
Definition tagInitializeAccount : Z := 1.
Definition tagInitializeMultisig : Z := 2.
Definition tagTransfer : Z := 3.
Definition tagApprove : Z := 4.
Definition tagRevoke : Z := 5.
Definition tagSetAuthority : Z := 6.
Definition tagMintTo : Z := 7.
Definition tagBurn : Z := 8.
Definition tagCloseAccount : Z := 9.
Definition tagFreezeAccount : Z := 10.
Definition tagThawAccount : Z := 11.
Definition tagTransferChecked : Z := 12.
Definition tagApproveChecked : Z := 13.
Definition tagMintToChecked : Z := 14.
Definition tagBurnChecked : Z := 15.
Definition tagSyncNative : Z := 17.
Definition tagInitializeAccount3 : Z := 18.
Definition tagInitializeMint2 : Z := 20.

(** [AuthorityType] is a [uint8]. *)
Definition AuthorityMintTokens : Z := 0.
Definition AuthorityFreezeAccount : Z := 1.
Definition AuthorityAccountOwner : Z := 2.
Definition AuthorityCloseAccount : Z := 3.

Definition initMintData (tag decimals : Z) (mintAuthority : PublicKey) (freezeAuthority : option PublicKey) : bytes :=
  let cap := 1 + 1 + PublicKeySize + 1 in
  let cap := match freezeAuthority with Some _ => cap + PublicKeySize | None => cap end in
  let e := NewEncoder cap ▹ U8 tag ▹ U8 decimals ▹ Raw mintAuthority in
  let e := match freezeAuthority with
           | Some k => e ▹ U8 1 ▹ Raw k
           | None => e ▹ U8 0
           end in
  Bytes e.

Section token.
Context `{Base58}.

Definition ProgramID : PublicKey := well_known "TokenkegQfeZyiNwAJbNbGKPFXCWuBvf9Ss623VQ5DA".

Definition NewInitializeMint (mint : PublicKey) (decimals : Z) (mintAuthority : PublicKey)
    (freezeAuthority : option PublicKey) : Instruction :=
  NewInstruction ProgramID
    (metas [NewAccountMeta mint false true; NewAccountMeta SysvarRentPubkey false false])
    (initMintData tagInitializeMint decimals mintAuthority freezeAuthority).

Definition NewInitializeAccount (account mint owner : PublicKey) : Instruction :=
  NewInstruction ProgramID
    (metas [NewAccountMeta account false true; NewAccountMeta mint false false;
            NewAccountMeta owner false false; NewAccountMeta SysvarRentPubkey false false])
    [tagInitializeAccount].

Definition NewInitializeMultisig (multisig : PublicKey) (m : Z) (signers : list PublicKey) : Instruction :=
  let accounts := metas [NewAccountMeta multisig false true; NewAccountMeta SysvarRentPubkey false false] in
  let accounts :=
    fold_left (λ accounts s, accounts ++ [Some (NewAccountMeta s false false)]) signers accounts in
  NewInstruction ProgramID accounts [tagInitializeMultisig; m].

Definition NewTransfer (source destination authority : PublicKey) (amount : Z) : Instruction :=
  NewInstruction ProgramID
    (metas [NewAccountMeta source false true; NewAccountMeta destination false true;
            NewAccountMeta authority true false])
    (Bytes (NewEncoder 9 ▹ U8 tagTransfer ▹ U64 amount)).

Definition NewTransferChecked (source mint destination authority : PublicKey) (amount decimals : Z) : Instruction :=
  NewInstruction ProgramID
    (metas [NewAccountMeta source false true; NewAccountMeta mint false false;
            NewAccountMeta destination false true; NewAccountMeta authority true false])
    (Bytes (NewEncoder 10 ▹ U8 tagTransferChecked ▹ U64 amount ▹ U8 decimals)).

Definition NewMintTo (mint destination authority : PublicKey) (amount : Z) : Instruction :=
  NewInstruction ProgramID
    (metas [NewAccountMeta mint false true; NewAccountMeta destination false true;
            NewAccountMeta authority true false])
    (Bytes (NewEncoder 9 ▹ U8 tagMintTo ▹ U64 amount)).

Definition NewBurn (account mint authority : PublicKey) (amount : Z) : Instruction :=
  NewInstruction ProgramID
    (metas [NewAccountMeta account false true; NewAccountMeta mint false true;
            NewAccountMeta authority true false])
    (Bytes (NewEncoder 9 ▹ U8 tagBurn ▹ U64 amount)).

Definition NewCloseAccount (account destination authority : PublicKey) : Instruction :=
  NewInstruction ProgramID
    (metas [NewAccountMeta account false true; NewAccountMeta destination false true;
            NewAccountMeta authority true false])
    [tagCloseAccount].

Definition NewInitializeMint2 (mint : PublicKey) (decimals : Z) (mintAuthority freezeAuthority : PublicKey) : Instruction :=
  let fa := if negb (PublicKey_IsZero freezeAuthority) then Some freezeAuthority else None in
  NewInstruction ProgramID
    (metas [NewAccountMeta mint false true])
    (initMintData tagInitializeMint2 decimals mintAuthority fa).

Definition NewInitializeAccount3 (account mint owner : PublicKey) : Instruction :=
  NewInstruction ProgramID
    (metas [NewAccountMeta account false true; NewAccountMeta mint false false])
    (Bytes (NewEncoder 33 ▹ U8 tagInitializeAccount3 ▹ Raw owner)).

Definition NewApprove (source delegate owner : PublicKey) (amount : Z) : Instruction :=
  NewInstruction ProgramID
    (metas [NewAccountMeta source false true; NewAccountMeta delegate false false;
            NewAccountMeta owner true false])
    (Bytes (NewEncoder 9 ▹ U8 tagApprove ▹ U64 amount)).

Definition NewApproveChecked (source mint delegate owner : PublicKey) (amount decimals : Z) : Instruction :=
  NewInstruction ProgramID
    (metas [NewAccountMeta source false true; NewAccountMeta mint false false;
            NewAccountMeta delegate false false; NewAccountMeta owner true false])
    (Bytes (NewEncoder 10 ▹ U8 tagApproveChecked ▹ U64 amount ▹ U8 decimals)).

Definition NewRevoke (source owner : PublicKey) : Instruction :=
  NewInstruction ProgramID
    (metas [NewAccountMeta source false true; NewAccountMeta owner true false])
    [tagRevoke].

Definition NewSetAuthority (account currentAuthority : PublicKey) (newAuthority : option PublicKey)
    (authType : Z) : Instruction :=
  let cap := 1 + 1 + 1 in
  let cap := match newAuthority with Some _ => cap + 32 | None => cap end in
  let e := NewEncoder cap ▹ U8 tagSetAuthority ▹ U8 authType in
  let e := match newAuthority with
           | Some k => e ▹ U8 1 ▹ Raw k
           | None => e ▹ U8 0
           end in
  NewInstruction ProgramID
    (metas [NewAccountMeta account false true; NewAccountMeta currentAuthority true false])
    (Bytes e).

Definition NewFreezeAccount (account mint freezeAuthority : PublicKey) : Instruction :=
  NewInstruction ProgramID
    (metas [NewAccountMeta account false true; NewAccountMeta mint false false;
            NewAccountMeta freezeAuthority true false])
    [tagFreezeAccount].

Definition NewThawAccount (account mint freezeAuthority : PublicKey) : Instruction :=
  NewInstruction ProgramID
    (metas [NewAccountMeta account false true; NewAccountMeta mint false false;
            NewAccountMeta freezeAuthority true false])
    [tagThawAccount].

Definition NewMintToChecked (mint destination authority : PublicKey) (amount decimals : Z) : Instruction :=
  NewInstruction ProgramID
    (metas [NewAccountMeta mint false true; NewAccountMeta destination false true;
            NewAccountMeta authority true false])
    (Bytes (NewEncoder 10 ▹ U8 tagMintToChecked ▹ U64 amount ▹ U8 decimals)).

Definition NewBurnChecked (account mint authority : PublicKey) (amount decimals : Z) : Instruction :=
  NewInstruction ProgramID
    (metas [NewAccountMeta account false true; NewAccountMeta mint false true;
            NewAccountMeta authority true false])
    (Bytes (NewEncoder 10 ▹ U8 tagBurnChecked ▹ U64 amount ▹ U8 decimals)).

Definition NewSyncNative (account : PublicKey) : Instruction :=
  NewInstruction ProgramID (metas [NewAccountMeta account false true]) [tagSyncNative].

(** ** Specification *)

(** The program's enum: a one-byte discriminator and its fields.  The two
    forms of [InitializeMint], and instructions with no field, share a
    constructor. *)
Inductive TokenInstruction :=
| I_InitializeMint (v2 : bool) (decimals : Z) (mintAuthority : PublicKey) (freezeAuthority : option PublicKey)
| I_InitializeMultisig (m : Z)
| I_Amount (tag amount : Z)                 (* Transfer, Approve, MintTo, Burn *)
| I_SetAuthority (authType : Z) (newAuthority : option PublicKey)
| I_Checked (tag amount decimals : Z)       (* the Checked variants *)
| I_InitializeAccount3 (owner : PublicKey)
| I_Plain (tag : Z).

Definition read_args (tag : Z) : Dec TokenInstruction :=
  match tag with
  | 0 => d ← ReadUint8; m ← read_key; f ← read_opt read_key; mret (I_InitializeMint false d m f)
  | 20 => d ← ReadUint8; m ← read_key; f ← read_opt read_key; mret (I_InitializeMint true d m f)
  | 2 => m ← ReadUint8; mret (I_InitializeMultisig m)
  | 3 | 4 | 7 | 8 => a ← ReadUint64; mret (I_Amount tag a)
  | 6 => t ← ReadUint8; k ← read_opt read_key; mret (I_SetAuthority t k)
  | 12 | 13 | 14 | 15 => a ← ReadUint64; d ← ReadUint8; mret (I_Checked tag a d)
  | 18 => k ← read_key; mret (I_InitializeAccount3 k)
  | 1 | 5 | 9 | 10 | 11 | 17 => mret (I_Plain tag)
  | _ => fail ErrShortBuffer
  end.

Definition read_data : Dec TokenInstruction := tag ← ReadUint8; read_args tag.

(** A call of one of the builders. *)
Inductive call :=
| InitializeMint (mint : PublicKey) (decimals : Z) (mintAuthority : PublicKey) (freezeAuthority : option PublicKey)
| InitializeAccount (account mint owner : PublicKey)
| InitializeMultisig (multisig : PublicKey) (m : Z) (signers : list PublicKey)
| Transfer (source destination authority : PublicKey) (amount : Z)
| TransferChecked (source mint destination authority : PublicKey) (amount decimals : Z)
| MintTo (mint destination authority : PublicKey) (amount : Z)
| Burn (account mint authority : PublicKey) (amount : Z)
| CloseAccount (account destination authority : PublicKey)
| InitializeMint2 (mint : PublicKey) (decimals : Z) (mintAuthority freezeAuthority : PublicKey)
| InitializeAccount3 (account mint owner : PublicKey)
| Approve (source delegate owner : PublicKey) (amount : Z)
| ApproveChecked (source mint delegate owner : PublicKey) (amount decimals : Z)
| Revoke (source owner : PublicKey)
| SetAuthority (account currentAuthority : PublicKey) (newAuthority : option PublicKey) (authType : Z)
| FreezeAccount (account mint freezeAuthority : PublicKey)
| ThawAccount (account mint freezeAuthority : PublicKey)
| MintToChecked (mint destination authority : PublicKey) (amount decimals : Z)
| BurnChecked (account mint authority : PublicKey) (amount decimals : Z)
| SyncNative (account : PublicKey).

Definition build (c : call) : Instruction :=
  match c with
  | InitializeMint mint d ma fa => NewInitializeMint mint d ma fa
  | InitializeAccount a m o => NewInitializeAccount a m o
  | InitializeMultisig ms m signers => NewInitializeMultisig ms m signers
  | Transfer s d a n => NewTransfer s d a n
  | TransferChecked s m d a n dec => NewTransferChecked s m d a n dec
  | MintTo m d a n => NewMintTo m d a n
  | Burn a m au n => NewBurn a m au n
  | CloseAccount a d au => NewCloseAccount a d au
  | InitializeMint2 mint d ma fa => NewInitializeMint2 mint d ma fa
  | InitializeAccount3 a m o => NewInitializeAccount3 a m o
  | Approve s d o n => NewApprove s d o n
  | ApproveChecked s m d o n dec => NewApproveChecked s m d o n dec
  | Revoke s o => NewRevoke s o
  | SetAuthority a cur new t => NewSetAuthority a cur new t
  | FreezeAccount a m f => NewFreezeAccount a m f
  | ThawAccount a m f => NewThawAccount a m f
  | MintToChecked m d a n dec => NewMintToChecked m d a n dec
  | BurnChecked a m au n dec => NewBurnChecked a m au n dec
  | SyncNative a => NewSyncNative a
  end.

(** An optional key, when present. *)
Definition wf_opt_key (o : option PublicKey) : Prop := match o with Some k => wf_key k | None => True end.
#[export] Instance wf_opt_key_dec o : Decision (wf_opt_key o).
Proof. destruct o; apply _. Defined.

(** Arguments in the ranges of their Go types. *)
Definition wf_call (c : call) : Prop :=
  match c with
  | InitializeMint _ d ma fa => is_u 8 d ∧ wf_key ma ∧ wf_opt_key fa
  | InitializeMint2 _ d ma fa => is_u 8 d ∧ wf_key ma ∧ wf_key fa
  | InitializeMultisig _ m _ => is_u 8 m
  | Transfer _ _ _ n | MintTo _ _ _ n | Burn _ _ _ n | Approve _ _ _ n => is_u 64 n
  | TransferChecked _ _ _ _ n d | ApproveChecked _ _ _ _ n d
  | MintToChecked _ _ _ n d | BurnChecked _ _ _ n d => is_u 64 n ∧ is_u 8 d
  | InitializeAccount3 _ _ o => wf_key o
  | SetAuthority _ _ new t => is_u 8 t ∧ wf_opt_key new
  | _ => True
  end.

#[export] Instance wf_call_dec c : Decision (wf_call c).
Proof. destruct c; apply _. Defined.

(** Which builder reads so, account for account. *)
Definition interp (i : TokenInstruction) (rs : list role) : option call :=
  match i, rs with
  | I_InitializeMint false d ma fa, [RW mint; RO rent] =>
      known rent SysvarRentPubkey (InitializeMint mint d ma fa)
  | I_InitializeMint true d ma fa, [RW mint] =>
      Some (InitializeMint2 mint d ma (default (zero_array 32) fa))
  | I_Plain 1, [RW a; RO m; RO o; RO rent] => known rent SysvarRentPubkey (InitializeAccount a m o)
  | I_InitializeMultisig m, RW ms :: RO rent :: signers =>
      ks ← keys_of the_RO signers; known rent SysvarRentPubkey (InitializeMultisig ms m ks)
  | I_Amount 3 n, [RW s; RW d; SG a] => Some (Transfer s d a n)
  | I_Amount 4 n, [RW s; RO d; SG o] => Some (Approve s d o n)
  | I_Amount 7 n, [RW m; RW d; SG a] => Some (MintTo m d a n)
  | I_Amount 8 n, [RW a; RW m; SG au] => Some (Burn a m au n)
  | I_Plain 5, [RW s; SG o] => Some (Revoke s o)
  | I_SetAuthority t new, [RW a; SG cur] => Some (SetAuthority a cur new t)
  | I_Plain 9, [RW a; RW d; SG au] => Some (CloseAccount a d au)
  | I_Plain 10, [RW a; RO m; SG f] => Some (FreezeAccount a m f)
  | I_Plain 11, [RW a; RO m; SG f] => Some (ThawAccount a m f)
  | I_Checked 12 n dec, [RW s; RO m; RW d; SG a] => Some (TransferChecked s m d a n dec)
  | I_Checked 13 n dec, [RW s; RO m; RO d; SG o] => Some (ApproveChecked s m d o n dec)
  | I_Checked 14 n dec, [RW m; RW d; SG a] => Some (MintToChecked m d a n dec)
  | I_Checked 15 n dec, [RW a; RW m; SG au] => Some (BurnChecked a m au n dec)
  | I_Plain 17, [RW a] => Some (SyncNative a)
  | I_InitializeAccount3 o, [RW a; RO m] => Some (InitializeAccount3 a m o)
  | _, _ => None
  end.

Definition parse : Instruction → option call := parse_ix ProgramID read_data interp.

(** ** Property *)

Ltac tok_unfold := cbv beta iota delta [read_args tagInitializeMint tagInitializeAccount
  tagInitializeMultisig tagTransfer tagApprove tagRevoke tagSetAuthority tagMintTo tagBurn
  tagCloseAccount tagFreezeAccount tagThawAccount tagTransferChecked tagApproveChecked
  tagMintToChecked tagBurnChecked tagSyncNative tagInitializeAccount3 tagInitializeMint2].

Ltac tok_data :=
  unfold read_data, initMintData; rds; tok_unfold; repeat rd; apply reads_ret.
Ltac tok := eapply parse_ix_intro; [tok_data|roles_done].

(** Every builder of the token package is inverted by the reference
    reader of the SPL Token instruction enum (one-byte discriminators,
    little-endian amounts, one-byte option flags): for all arguments in range,
    each account is in its place with exactly its signer and writable flags,
    and reading the built instruction returns the builder and its arguments,
    the zero freeze authority of [NewInitializeMint2] standing for none.  In
    particular no two calls produce the same instruction. *)
Theorem token_parse_build c : wf_call c → parse (build c) = Some c.
Proof.
  destruct c as [? ? ? fa| |ms m signers| | | | | |? ? ? fa| | | | |? ? new ?| | | | |];
    cbn [wf_call build]; intros; destruct_and?; unfold parse; try tok.
  - unfold NewInitializeMint. destruct fa; cbn [wf_opt_key] in *; tok.
  - assert (Hf : ∀ acc, fold_left (λ accounts s, accounts ++ [Some (NewAccountMeta s false false)]) signers acc =
              acc ++ metas ((λ s, NewAccountMeta s false false) <$> signers)).
    { induction signers as [|s l IH]; intros acc; simpl; [by rewrite app_nil_r|].
      by rewrite IH, <- (assoc_L (++)). }
    unfold NewInitializeMultisig. rewrite Hf. unfold metas. rewrite <- fmap_app.
    change (Some <$> ?l) with (metas l).
    eapply parse_ix_intro; [change [tagInitializeMultisig; m] with ([tagInitializeMultisig] ++ [m]); tok_data|].
    rewrite fmap_app. cbn. rewrite (keys_of_metas the_RO) by done. cbn [mbind option_bind]. apply known_same.
  - unfold NewInitializeMint2, PublicKey_IsZero. case_bool_decide as Hz; cbn [negb].
    + subst. tok.
    + tok.
  - unfold NewSetAuthority. destruct new; cbn [wf_opt_key] in *; tok.
Qed.
End token.

Lemma token_parse_build_witness :
  let c := SetAuthority (zero_array 32) (replicate 32 1) (Some (replicate 32 2)) AuthorityCloseAccount in
  wf_call c ∧ @parse ToyBase58.toy_base58 (@build ToyBase58.toy_base58 c) = Some c.
Proof.
  intros c. assert (wf_call c) as Hc by (apply (bool_decide_unpack _); by vm_compute).
  split; [exact Hc|]. exact (@token_parse_build ToyBase58.toy_base58 c Hc).
Defined.
