(* ===== verification/StakeIx.v ===== *)
(** * The Stake program: [programs/stake/instructions.go]

    The ten instruction builders, and the reference reader of the runtime's
    [StakeInstruction] enum (bincode: a [u32] discriminator, one-byte option
    flags; an optional custodian is a trailing signer). *)

From S2P Require Import Prelude Wire Keys Builder Ix.

Local Open Scope go_scope.

Definition tagInitialize : Z := 0.
Definition tagAuthorize : Z := 1.
Definition tagDelegate : Z := 2.
Definition tagSplit : Z := 3.
Definition tagWithdraw : Z := 4.
Definition tagDeactivate : Z := 5.
Definition tagSetLockup : Z := 6.
Definition tagMerge : Z := 7.
Definition tagInitializeChecked : Z := 9.
Definition tagAuthorizeChecked : Z := 10.

(** [StakeAuthorize] is a [uint32]. *)
Definition AuthorizeStaker : Z := 0.
Definition AuthorizeWithdrawer : Z := 1.

Record Authorized := mkAuthorized { Staker : PublicKey; Withdrawer : PublicKey }.

Record Lockup := mkLockup { UnixTimestamp : Z; Epoch : Z; Custodian : PublicKey }.

Section stake.
Context `{Base58}.

Definition sysvarRent := well_known "SysvarRent111111111111111111111111111111111".
Definition sysvarClock := well_known "SysvarC1ock11111111111111111111111111111111".
Definition sysvarStakeHistory := well_known "SysvarStakeHistory1111111111111111111111111".
Definition stakeConfig := well_known "StakeConfig11111111111111111111111111111111".
Definition ProgramID := well_known "Stake11111111111111111111111111111111111111".

Definition Initialize (stakeAccount : PublicKey) (authorized : Authorized) (lockup : Lockup) : Instruction :=
  NewInstruction ProgramID
    (metas [NewAccountMeta stakeAccount false true; NewAccountMeta sysvarRent false false])
    (Bytes (NewEncoder 116 ▹ U32 tagInitialize ▹ Raw (Staker authorized) ▹ Raw (Withdrawer authorized)
       ▹ I64 (UnixTimestamp lockup) ▹ U64 (Epoch lockup) ▹ Raw (Custodian lockup))).

Definition Delegate (stakeAccount voteAccount staker : PublicKey) : Instruction :=
  NewInstruction ProgramID
    (metas [NewAccountMeta stakeAccount false true; NewAccountMeta voteAccount false false;
            NewAccountMeta sysvarClock false false; NewAccountMeta sysvarStakeHistory false false;
            NewAccountMeta stakeConfig false false; NewAccountMeta staker true false])
    (Bytes (NewEncoder 4 ▹ U32 tagDelegate)).

Definition Deactivate (stakeAccount staker : PublicKey) : Instruction :=
  NewInstruction ProgramID
    (metas [NewAccountMeta stakeAccount false true; NewAccountMeta sysvarClock false false;
            NewAccountMeta staker true false])
    (Bytes (NewEncoder 4 ▹ U32 tagDeactivate)).

(** [if custodian != nil { accounts = append(accounts, ...) }] *)
Definition append_custodian (custodian : option PublicKey) (accounts : AccountMetaSlice) : AccountMetaSlice :=
  match custodian with
  | Some c => accounts ++ [Some (NewAccountMeta c true false)]
  | None => accounts
  end.

Definition Withdraw (stakeAccount destination withdrawer : PublicKey) (lamports : Z)
    (custodian : option PublicKey) : Instruction :=
  let accounts := append_custodian custodian
    (metas [NewAccountMeta stakeAccount false true; NewAccountMeta destination false true;
            NewAccountMeta sysvarClock false false; NewAccountMeta sysvarStakeHistory false false;
            NewAccountMeta withdrawer true false]) in
  NewInstruction ProgramID accounts (Bytes (NewEncoder 12 ▹ U32 tagWithdraw ▹ U64 lamports)).

Definition Split (stakeAccount splitStake staker : PublicKey) (lamports : Z) : Instruction :=
  NewInstruction ProgramID
    (metas [NewAccountMeta stakeAccount false true; NewAccountMeta splitStake false true;
            NewAccountMeta staker true false])
    (Bytes (NewEncoder 12 ▹ U32 tagSplit ▹ U64 lamports)).

Definition Merge (destination source staker : PublicKey) : Instruction :=
  NewInstruction ProgramID
    (metas [NewAccountMeta destination false true; NewAccountMeta source false true;
            NewAccountMeta sysvarClock false false; NewAccountMeta sysvarStakeHistory false false;
            NewAccountMeta staker true false])
    (Bytes (NewEncoder 4 ▹ U32 tagMerge)).

Definition Authorize (stakeAccount authority newAuthority : PublicKey) (authType : Z)
    (custodian : option PublicKey) : Instruction :=
  let data := Bytes (NewEncoder 40 ▹ U32 tagAuthorize ▹ Raw newAuthority ▹ U32 (u32 authType)) in
  let accounts := append_custodian custodian
    (metas [NewAccountMeta stakeAccount false true; NewAccountMeta sysvarClock false false;
            NewAccountMeta authority true false]) in
  NewInstruction ProgramID accounts data.

Definition AuthorizeChecked (stakeAccount authority newAuthority : PublicKey) (authType : Z)
    (custodian : option PublicKey) : Instruction :=
  let accounts := append_custodian custodian
    (metas [NewAccountMeta stakeAccount false true; NewAccountMeta sysvarClock false false;
            NewAccountMeta authority true false; NewAccountMeta newAuthority true false]) in
  NewInstruction ProgramID accounts (Bytes (NewEncoder 8 ▹ U32 tagAuthorizeChecked ▹ U32 (u32 authType))).

Definition InitializeChecked (stakeAccount staker withdrawer : PublicKey) : Instruction :=
  NewInstruction ProgramID
    (metas [NewAccountMeta stakeAccount false true; NewAccountMeta sysvarRent false false;
            NewAccountMeta staker false false; NewAccountMeta withdrawer true false])
    (Bytes (NewEncoder 4 ▹ U32 tagInitializeChecked)).

Definition SetLockup (stakeAccount authority : PublicKey) (unixTimestamp epoch : option Z)
    (custodian : option PublicKey) : Instruction :=
  let e := NewEncoder 64 ▹ U32 tagSetLockup ▹ OptI64 unixTimestamp ▹ OptU64 epoch in
  let e := match custodian with
           | Some k => e ▹ U8 1 ▹ Raw k
           | None => e ▹ U8 0
           end in
  let data := Bytes e in
  NewInstruction ProgramID
    (metas [NewAccountMeta stakeAccount false true; NewAccountMeta authority true false])
    data.

(** ** Specification *)

Inductive StakeInstruction :=
| I_Initialize (a : Authorized) (l : Lockup)
| I_Authorize (k : PublicKey) (t : Z)
| I_DelegateStake
| I_Split (lamports : Z)
| I_Withdraw (lamports : Z)
| I_Deactivate
| I_SetLockup (ts epoch : option Z) (custodian : option PublicKey)
| I_Merge
| I_InitializeChecked
| I_AuthorizeChecked (t : Z).

Definition read_args (tag : Z) : Dec StakeInstruction :=
  match tag with
  | 0 => s ← read_key; w ← read_key; ts ← read_i64; ep ← ReadUint64; c ← read_key;
         mret (I_Initialize (mkAuthorized s w) (mkLockup ts ep c))
  | 1 => k ← read_key; t ← ReadUint32; mret (I_Authorize k t)
  | 2 => mret I_DelegateStake
  | 3 => n ← ReadUint64; mret (I_Split n)
  | 4 => n ← ReadUint64; mret (I_Withdraw n)
  | 5 => mret I_Deactivate
  | 6 => ts ← read_opt read_i64; ep ← read_opt ReadUint64; c ← read_opt read_key;
         mret (I_SetLockup ts ep c)
  | 7 => mret I_Merge
  | 9 => mret I_InitializeChecked
  | 10 => t ← ReadUint32; mret (I_AuthorizeChecked t)
  | _ => fail ErrShortBuffer
  end.

Definition read_data : Dec StakeInstruction := tag ← ReadUint32; read_args tag.

(** A call of one of the builders. *)
Inductive call :=
| CInitialize (stakeAccount : PublicKey) (a : Authorized) (l : Lockup)
| CDelegate (stakeAccount voteAccount staker : PublicKey)
| CDeactivate (stakeAccount staker : PublicKey)
| CWithdraw (stakeAccount destination withdrawer : PublicKey) (lamports : Z) (custodian : option PublicKey)
| CSplit (stakeAccount splitStake staker : PublicKey) (lamports : Z)
| CMerge (destination source staker : PublicKey)
| CAuthorize (stakeAccount authority newAuthority : PublicKey) (t : Z) (custodian : option PublicKey)
| CAuthorizeChecked (stakeAccount authority newAuthority : PublicKey) (t : Z) (custodian : option PublicKey)
| CInitializeChecked (stakeAccount staker withdrawer : PublicKey)
| CSetLockup (stakeAccount authority : PublicKey) (ts epoch : option Z) (custodian : option PublicKey).

Definition build (c : call) : Instruction :=
  match c with
  | CInitialize s a l => Initialize s a l
  | CDelegate s v k => Delegate s v k
  | CDeactivate s k => Deactivate s k
  | CWithdraw s d w n c => Withdraw s d w n c
  | CSplit s sp k n => Split s sp k n
  | CMerge d s k => Merge d s k
  | CAuthorize s a new t c => Authorize s a new t c
  | CAuthorizeChecked s a new t c => AuthorizeChecked s a new t c
  | CInitializeChecked s st w => InitializeChecked s st w
  | CSetLockup s a ts ep c => SetLockup s a ts ep c
  end.

Definition wf_opt {A} (P : A → Prop) (o : option A) : Prop := match o with Some x => P x | None => True end.
#[export] Instance wf_opt_dec {A} (P : A → Prop) `{∀ x, Decision (P x)} o : Decision (wf_opt P o).
Proof. destruct o; apply _. Defined.

(** Arguments in the ranges of their Go types. *)
Definition wf_call (c : call) : Prop :=
  match c with
  | CInitialize _ a l => wf_key (Staker a) ∧ wf_key (Withdrawer a) ∧
      is_s 64 (UnixTimestamp l) ∧ is_u 64 (Epoch l) ∧ wf_key (Custodian l)
  | CWithdraw _ _ _ n _ | CSplit _ _ _ n => is_u 64 n
  | CAuthorize _ _ new t _ => wf_key new ∧ is_u 32 t
  | CAuthorizeChecked _ _ _ t _ => is_u 32 t
  | CSetLockup _ _ ts ep c => wf_opt (is_s 64) ts ∧ wf_opt (is_u 64) ep ∧ wf_opt wf_key c
  | _ => True
  end.

#[export] Instance wf_call_dec c : Decision (wf_call c).
Proof. destruct c; apply _. Defined.

(** At most one more signer. *)
Definition custodian_of (rs : list role) : option (option PublicKey) :=
  match rs with
  | [] => Some None
  | [SG c] => Some (Some c)
  | _ => None
  end.

Definition interp (i : StakeInstruction) (rs : list role) : option call :=
  match i, rs with
  | I_Initialize a l, [RW s; RO rent] => known rent sysvarRent (CInitialize s a l)
  | I_Authorize new t, RW s :: RO clock :: SG a :: rest =>
      c ← custodian_of rest; known clock sysvarClock (CAuthorize s a new t c)
  | I_DelegateStake, [RW s; RO v; RO clock; RO hist; RO conf; SG k] =>
      c ← known clock sysvarClock (CDelegate s v k);
      c ← known hist sysvarStakeHistory c; known conf stakeConfig c
  | I_Split n, [RW s; RW sp; SG k] => Some (CSplit s sp k n)
  | I_Withdraw n, RW s :: RW d :: RO clock :: RO hist :: SG w :: rest =>
      c ← custodian_of rest; c ← known clock sysvarClock (CWithdraw s d w n c);
      known hist sysvarStakeHistory c
  | I_Deactivate, [RW s; RO clock; SG k] => known clock sysvarClock (CDeactivate s k)
  | I_SetLockup ts ep c, [RW s; SG a] => Some (CSetLockup s a ts ep c)
  | I_Merge, [RW d; RW s; RO clock; RO hist; SG k] =>
      c ← known clock sysvarClock (CMerge d s k); known hist sysvarStakeHistory c
  | I_InitializeChecked, [RW s; RO rent; RO st; SG w] =>
      known rent sysvarRent (CInitializeChecked s st w)
  | I_AuthorizeChecked t, RW s :: RO clock :: SG a :: SG new :: rest =>
      c ← custodian_of rest; known clock sysvarClock (CAuthorizeChecked s a new t c)
  | _, _ => None
  end.

Definition parse : Instruction → option call := parse_ix ProgramID read_data interp.

(** ** Property *)

Lemma append_custodian_metas c ms :
  append_custodian c (metas ms) =
  metas (ms ++ match c with Some k => [NewAccountMeta k true false] | None => [] end).
Proof. destruct c; simpl; unfold metas; [by rewrite fmap_app|by rewrite app_nil_r]. Qed.

Lemma custodian_of_roles c :
  custodian_of (role_of <$> match c with Some k => [NewAccountMeta k true false] | None => [] end) = Some c.
Proof. by destruct c. Qed.

Lemma e_buf_OptI64 o e :
  e_buf (OptI64 o e) = e_buf e ++ match o with Some v => [1] ++ le 8 (u64 v) | None => [0] end.
Proof. unfold OptI64. destruct o; [|done]. unfold I64. rewrite e_buf_I64. cbn. by rewrite <- (assoc_L (++)). Qed.
Lemma e_buf_OptU64 o e :
  e_buf (OptU64 o e) = e_buf e ++ match o with Some v => [1] ++ le 8 v | None => [0] end.
Proof. unfold OptU64. destruct o; [|done]. unfold U64. rewrite e_buf_U64. cbn. by rewrite <- (assoc_L (++)). Qed.

Ltac st_data :=
  unfold read_data; enc_norm; rewrite ?e_buf_OptU64, ?e_buf_OptI64; rds;
  cbv beta iota delta [read_args tagInitialize tagAuthorize tagDelegate tagSplit tagWithdraw
    tagDeactivate tagSetLockup tagMerge tagInitializeChecked tagAuthorizeChecked];
  repeat rd; apply reads_ret.
Ltac st_roles :=
  rewrite ?fmap_app; cbn; rewrite ?custodian_of_roles; cbn [mbind option_bind]; roles_done.
Ltac st := eapply parse_ix_intro; [st_data|st_roles].

(** Every builder of the stake package is inverted by the reference
    reader of the runtime's stake instruction enum: for all arguments in range
    (timestamps signed, epochs unsigned, any combination of optional fields and
    of the optional trailing custodian), reading the built instruction returns
    the builder and its arguments, with each account in its place and exactly
    its flags.  In particular no two calls produce the same instruction. *)
Theorem stake_parse_build c : wf_call c → parse (build c) = Some c.
Proof.
  destruct c as [? [] []| | | | | | | | |? ? ts ep cu];
    cbn [wf_call build Staker Withdrawer UnixTimestamp Epoch Custodian]; intros; destruct_and?;
    unfold parse, Withdraw, Authorize, AuthorizeChecked; rewrite ?append_custodian_metas;
    rewrite ?(wrapU_small 32) by done; try st.
  unfold SetLockup. destruct ts, ep, cu; cbn [wf_opt] in *; st.
Qed.
End stake.

Lemma stake_parse_build_witness :
  let c := CSetLockup (zero_array 32) (replicate 32 1) (Some (-5)) None (Some (replicate 32 2)) in
  wf_call c ∧ @parse ToyBase58.toy_base58 (@build ToyBase58.toy_base58 c) = Some c.
Proof.
  intros c. assert (wf_call c) as Hc by (apply (bool_decide_unpack _); by vm_compute).
  split; [exact Hc|]. exact (@stake_parse_build ToyBase58.toy_base58 c Hc).
Defined.
