(* ===== verification/VoteIx.v ===== *)
(** * The Vote program: [programs/vote/instructions.go]

    The six instruction builders, and the reference reader of the runtime's
    [VoteInstruction] enum. *)

From S2P Require Import Prelude Wire Keys Builder Ix.

Local Open Scope go_scope.

Definition tagInitializeAccount : Z := 0.
Definition tagAuthorize : Z := 1.
Definition tagWithdraw : Z := 3.
Definition tagUpdateValidatorIdentity : Z := 4.
Definition tagUpdateCommission : Z := 5.
Definition tagAuthorizeChecked : Z := 7.

(** [VoteAuthorize] is a [uint32]. *)
Definition VoteAuthorizeVoter : Z := 0.
Definition VoteAuthorizeWithdrawer : Z := 1.

Section vote.
Context `{Base58}.

Definition ProgramID := well_known "Vote11111111111111111111111111111111111111h".

Definition NewInitializeAccount (vote nodePubkey authorizedVoter authorizedWithdrawer : PublicKey)
    (commission : Z) : Instruction :=
  NewInstruction ProgramID
    (metas [NewAccountMeta vote false true; NewAccountMeta SysvarRentPubkey false false;
            NewAccountMeta SysvarClockPubkey false false; NewAccountMeta nodePubkey true false])
    (Bytes (NewEncoder 101 ▹ U32 tagInitializeAccount ▹ Raw nodePubkey ▹ Raw authorizedVoter
       ▹ Raw authorizedWithdrawer ▹ U8 commission)).

Definition NewAuthorize (vote authority newAuthority : PublicKey) (authType : Z) : Instruction :=
  NewInstruction ProgramID
    (metas [NewAccountMeta vote false true; NewAccountMeta SysvarClockPubkey false false;
            NewAccountMeta authority true false])
    (Bytes (NewEncoder 40 ▹ U32 tagAuthorize ▹ Raw newAuthority ▹ U32 (u32 authType))).

Definition NewWithdraw (vote withdrawAuthority recipient : PublicKey) (lamports : Z) : Instruction :=
  NewInstruction ProgramID
    (metas [NewAccountMeta vote false true; NewAccountMeta recipient false true;
            NewAccountMeta withdrawAuthority true false])
    (Bytes (NewEncoder 12 ▹ U32 tagWithdraw ▹ U64 lamports)).

Definition NewUpdateValidatorIdentity (vote newIdentity withdrawAuthority : PublicKey) : Instruction :=
  NewInstruction ProgramID
    (metas [NewAccountMeta vote false true; NewAccountMeta newIdentity true false;
            NewAccountMeta withdrawAuthority true false])
    (Bytes (NewEncoder 4 ▹ U32 tagUpdateValidatorIdentity)).

Definition NewAuthorizeChecked (vote authority newAuthority : PublicKey) (authType : Z) : Instruction :=
  NewInstruction ProgramID
    (metas [NewAccountMeta vote false true; NewAccountMeta SysvarClockPubkey false false;
            NewAccountMeta authority true false; NewAccountMeta newAuthority true false])
    (Bytes (NewEncoder 8 ▹ U32 tagAuthorizeChecked ▹ U32 (u32 authType))).

Definition NewUpdateCommission (vote withdrawAuthority : PublicKey) (commission : Z) : Instruction :=
  NewInstruction ProgramID
    (metas [NewAccountMeta vote false true; NewAccountMeta withdrawAuthority true false])
    (Bytes (NewEncoder 5 ▹ U32 tagUpdateCommission ▹ U8 commission)).

(** ** Specification *)

Inductive VoteInstruction :=
| I_InitializeAccount (node voter withdrawer : PublicKey) (commission : Z)
| I_Authorize (k : PublicKey) (t : Z)
| I_Withdraw (lamports : Z)
| I_UpdateValidatorIdentity
| I_UpdateCommission (commission : Z)
| I_AuthorizeChecked (t : Z).

Definition read_args (tag : Z) : Dec VoteInstruction :=
  match tag with
  | 0 => n ← read_key; v ← read_key; w ← read_key; c ← ReadUint8; mret (I_InitializeAccount n v w c)
  | 1 => k ← read_key; t ← ReadUint32; mret (I_Authorize k t)
  | 3 => n ← ReadUint64; mret (I_Withdraw n)
  | 4 => mret I_UpdateValidatorIdentity
  | 5 => c ← ReadUint8; mret (I_UpdateCommission c)
  | 7 => t ← ReadUint32; mret (I_AuthorizeChecked t)
  | _ => fail ErrShortBuffer
  end.

Definition read_data : Dec VoteInstruction := tag ← ReadUint32; read_args tag.

(** A call of one of the builders. *)
Inductive call :=
| InitializeAccount (vote node voter withdrawer : PublicKey) (commission : Z)
| Authorize (vote authority newAuthority : PublicKey) (t : Z)
| Withdraw (vote withdrawAuthority recipient : PublicKey) (lamports : Z)
| UpdateValidatorIdentity (vote newIdentity withdrawAuthority : PublicKey)
| AuthorizeChecked (vote authority newAuthority : PublicKey) (t : Z)
| UpdateCommission (vote withdrawAuthority : PublicKey) (commission : Z).

Definition build (c : call) : Instruction :=
  match c with
  | InitializeAccount v n vo w c => NewInitializeAccount v n vo w c
  | Authorize v a new t => NewAuthorize v a new t
  | Withdraw v w r n => NewWithdraw v w r n
  | UpdateValidatorIdentity v new w => NewUpdateValidatorIdentity v new w
  | AuthorizeChecked v a new t => NewAuthorizeChecked v a new t
  | UpdateCommission v w c => NewUpdateCommission v w c
  end.

Definition wf_call (c : call) : Prop :=
  match c with
  | InitializeAccount _ n vo w c => wf_key n ∧ wf_key vo ∧ wf_key w ∧ is_u 8 c
  | Authorize _ _ new t => wf_key new ∧ is_u 32 t
  | Withdraw _ _ _ n => is_u 64 n
  | UpdateValidatorIdentity _ _ _ => True
  | AuthorizeChecked _ _ _ t => is_u 32 t
  | UpdateCommission _ _ c => is_u 8 c
  end.

#[export] Instance wf_call_dec c : Decision (wf_call c).
Proof. destruct c; apply _. Defined.

Definition interp (i : VoteInstruction) (rs : list role) : option call :=
  match i, rs with
  | I_InitializeAccount n vo w c, [RW v; RO rent; RO clock; SG n'] =>
      c ← known rent SysvarRentPubkey (InitializeAccount v n vo w c);
      c ← known clock SysvarClockPubkey c; known n' n c
  | I_Authorize new t, [RW v; RO clock; SG a] => known clock SysvarClockPubkey (Authorize v a new t)
  | I_Withdraw n, [RW v; RW r; SG w] => Some (Withdraw v w r n)
  | I_UpdateValidatorIdentity, [RW v; SG new; SG w] => Some (UpdateValidatorIdentity v new w)
  | I_AuthorizeChecked t, [RW v; RO clock; SG a; SG new] =>
      known clock SysvarClockPubkey (AuthorizeChecked v a new t)
  | I_UpdateCommission c, [RW v; SG w] => Some (UpdateCommission v w c)
  | _, _ => None
  end.

Definition parse : Instruction → option call := parse_ix ProgramID read_data interp.

(** ** Property *)

Ltac vo_data :=
  unfold read_data; rds;
  cbv beta iota delta [read_args tagInitializeAccount tagAuthorize tagWithdraw
    tagUpdateValidatorIdentity tagUpdateCommission tagAuthorizeChecked];
  repeat rd; apply reads_ret.

(** Every builder of the vote package is inverted by the reference reader
    of the runtime's vote instruction enum: for all arguments in range, reading
    the built instruction returns the builder and its arguments, with each
    account in its place and exactly its flags (the node identity of
    [NewInitializeAccount] is both a field and the signer). *)
Theorem vote_parse_build c : wf_call c → parse (build c) = Some c.
Proof.
  destruct c; cbn [wf_call build]; intros; destruct_and?; unfold parse, NewAuthorize, NewAuthorizeChecked;
    rewrite ?(wrapU_small 32) by done; (eapply parse_ix_intro; [vo_data|roles_done]).
Qed.
End vote.

Lemma vote_parse_build_witness :
  let c := Authorize (zero_array 32) (replicate 32 1) (replicate 32 2) VoteAuthorizeWithdrawer in
  wf_call c ∧ @parse ToyBase58.toy_base58 (@build ToyBase58.toy_base58 c) = Some c.
Proof.
  intros c. assert (wf_call c) as Hc by (apply (bool_decide_unpack _); by vm_compute).
  split; [exact Hc|]. exact (@vote_parse_build ToyBase58.toy_base58 c Hc).
Defined.
