(* ===== verification/PrecompileIx.v ===== *)
(** * Signature-verification precompiles: [programs/ed25519] and [programs/secp256k1]

    Both programs take a table of offsets into instruction data.  The
    specification is the runtime's view: read the table at the front, then
    follow each offset, bounds-checked, into the same data. *)

From S2P Require Import Prelude Wire Keys Builder Ix.

Local Open Scope go_scope.

Definition MaxUint16 : Z := 65535.
Definition MaxUint8 : Z := 255.

(** ** ed25519 *)

Module Ed25519.

Record Ed25519SignatureOffsets := mkEd25519Offsets {
  SignatureOffset : Z;
  SignatureInstructionIndex : Z;
  PublicKeyOffset : Z;
  PublicKeyInstructionIndex : Z;
  MessageDataOffset : Z;
  MessageDataSize : Z;
  MessageInstructionIndex : Z;
}.

Section ed25519.
Context `{Base58}.

Definition Ed25519_ProgramID := well_known "Ed25519SigVerify111111111111111111111111111".

Definition Ed25519_NewRawInstruction (data : bytes) : Instruction := NewInstruction Ed25519_ProgramID [] data.
Definition Ed25519_NewInstruction (data : bytes) : Instruction := Ed25519_NewRawInstruction data.

Definition NewVerifySignature (publicKey signature message : bytes) : result Instruction :=
  if MaxUint16 <? zlen message
  then Err (ErrFmt "ed25519: message length exceeds uint16 max" [AZ (zlen message); AZ MaxUint16]) else
  let pubkeyOffset := 16 in
  let sigOffset := 48 in
  let msgOffset := 112 in
  let selfIx := 0xFFFF in
  let data := Bytes (NewEncoder (msgOffset + zlen message)
    ▹ U8 1 ▹ U8 0
    ▹ U16 sigOffset ▹ U16 selfIx
    ▹ U16 pubkeyOffset ▹ U16 selfIx
    ▹ U16 msgOffset ▹ U16 (u16 (zlen message)) ▹ U16 selfIx
    ▹ Raw publicKey ▹ Raw signature ▹ Raw message) in
  mret (NewInstruction Ed25519_ProgramID [] data).

Definition ed25519_row (sig : Ed25519SignatureOffsets) (e : Encoder) : Encoder :=
  e ▹ U16 (SignatureOffset sig) ▹ U16 (SignatureInstructionIndex sig)
    ▹ U16 (PublicKeyOffset sig) ▹ U16 (PublicKeyInstructionIndex sig)
    ▹ U16 (MessageDataOffset sig) ▹ U16 (MessageDataSize sig) ▹ U16 (MessageInstructionIndex sig).

Definition Ed25519_NewSignatureVerifyInstruction (signatures : list Ed25519SignatureOffsets) : result Instruction :=
  if MaxUint8 <? zlen signatures
  then Err (ErrFmt "ed25519: signature count exceeds uint8 max" [AZ (zlen signatures); AZ MaxUint8]) else
  let e := NewEncoder (2 + zlen signatures * 14) ▹ U8 (u8 (zlen signatures)) ▹ U8 0 in
  let e := fold_left (λ e sig, ed25519_row sig e) signatures e in
  mret (NewInstruction Ed25519_ProgramID [] (Bytes e)).

End ed25519.
End Ed25519.

(** ** secp256k1 *)

Module Secp256k1.

Record Secp256k1SignatureOffsets := mkSecp256k1Offsets {
  SignatureOffset : Z;
  SignatureInstructionIndex : Z;
  EthAddressOffset : Z;
  EthAddressInstructionIndex : Z;
  MessageDataOffset : Z;
  MessageDataSize : Z;
  MessageInstructionIndex : Z;
}.

Section secp256k1.
Context `{Base58}.

Definition Secp256k1_ProgramID := well_known "KeccakSecp256k11111111111111111111111111111".

Definition Secp256k1_NewRawInstruction (data : bytes) : Instruction := NewInstruction Secp256k1_ProgramID [] data.
Definition Secp256k1_NewInstruction (data : bytes) : Instruction := Secp256k1_NewRawInstruction data.

Definition NewVerifyEthSignature (ethAddress signature : bytes) (recoveryID : Z) (message : bytes) : result Instruction :=
  if MaxUint16 <? zlen message
  then Err (ErrFmt "secp256k1: message length exceeds uint16 max" [AZ (zlen message); AZ MaxUint16]) else
  let sigOffset := 12 in
  let ethOffset := 77 in
  let msgOffset := 97 in
  let selfIx := 0xff in
  let data := Bytes (NewEncoder (msgOffset + zlen message)
    ▹ U8 1
    ▹ U16 sigOffset ▹ U8 selfIx
    ▹ U16 ethOffset ▹ U8 selfIx
    ▹ U16 msgOffset ▹ U16 (u16 (zlen message)) ▹ U8 selfIx
    ▹ Raw signature ▹ U8 recoveryID ▹ Raw ethAddress ▹ Raw message) in
  mret (NewInstruction Secp256k1_ProgramID [] data).

Definition secp256k1_row (sig : Secp256k1SignatureOffsets) (e : Encoder) : Encoder :=
  e ▹ U16 (SignatureOffset sig) ▹ U8 (SignatureInstructionIndex sig)
    ▹ U16 (EthAddressOffset sig) ▹ U8 (EthAddressInstructionIndex sig)
    ▹ U16 (MessageDataOffset sig) ▹ U16 (MessageDataSize sig) ▹ U8 (MessageInstructionIndex sig).

Definition Secp256k1_NewSignatureVerifyInstruction (signatures : list Secp256k1SignatureOffsets) : result Instruction :=
  if MaxUint8 <? zlen signatures
  then Err (ErrFmt "secp256k1: signature count exceeds uint8 max" [AZ (zlen signatures); AZ MaxUint8]) else
  let e := NewEncoder (1 + zlen signatures * 11) ▹ U8 (u8 (zlen signatures)) in
  let e := fold_left (λ e sig, secp256k1_row sig e) signatures e in
  mret (NewInstruction Secp256k1_ProgramID [] (Bytes e)).

End secp256k1.
End Secp256k1.

Import Ed25519 Secp256k1.

(** ** Specification: the runtime's reading of the data *)

(** [n] bytes at an offset, bounds-checked. *)
Definition sub_at (data : bytes) (off n : Z) : option bytes :=
  match slice data off (off + n) with Ok b => Some b | _ => None end.

(** The ed25519 table: a count, a padding byte and seven [u16]s per row. *)
Definition read_ed_row : Dec Ed25519SignatureOffsets :=
  so ← ReadUint16; si ← ReadUint16; po ← ReadUint16; pi ← ReadUint16;
  mo ← ReadUint16; ms ← ReadUint16; mi ← ReadUint16;
  mret (mkEd25519Offsets so si po pi mo ms mi).

Definition read_ed_table : Dec (list Ed25519SignatureOffsets) :=
  n ← ReadUint8; _ ← ReadUint8; for_range (Z.to_nat n) 0 (λ _, read_ed_row).

(** What the program verifies for a row pointing into the same instruction:
    the key, the signature and the message. *)
Definition ed_follow (data : bytes) (r : Ed25519SignatureOffsets) : option (bytes * bytes * bytes) :=
  if (Ed25519.SignatureInstructionIndex r =? 0xFFFF) && (PublicKeyInstructionIndex r =? 0xFFFF)
     && (Ed25519.MessageInstructionIndex r =? 0xFFFF) then
    pk ← sub_at data (PublicKeyOffset r) 32;
    sig ← sub_at data (Ed25519.SignatureOffset r) 64;
    msg ← sub_at data (Ed25519.MessageDataOffset r) (Ed25519.MessageDataSize r);
    Some (pk, sig, msg)
  else None.

Definition read_secp_row : Dec Secp256k1SignatureOffsets :=
  so ← ReadUint16; si ← ReadUint8; eo ← ReadUint16; ei ← ReadUint8;
  mo ← ReadUint16; ms ← ReadUint16; mi ← ReadUint8;
  mret (mkSecp256k1Offsets so si eo ei mo ms mi).

Definition read_secp_table : Dec (list Secp256k1SignatureOffsets) :=
  n ← ReadUint8; for_range (Z.to_nat n) 0 (λ _, read_secp_row).

(** The Ethereum address, the signature, its recovery byte (which follows the
    signature) and the message. *)
Definition secp_follow (data : bytes) (r : Secp256k1SignatureOffsets) : option (bytes * bytes * Z * bytes) :=
  if (Secp256k1.SignatureInstructionIndex r =? 0xff) && (EthAddressInstructionIndex r =? 0xff)
     && (Secp256k1.MessageInstructionIndex r =? 0xff) then
    eth ← sub_at data (EthAddressOffset r) 20;
    sig ← sub_at data (Secp256k1.SignatureOffset r) 64;
    rid ← sub_at data (Secp256k1.SignatureOffset r + 64) 1;
    msg ← sub_at data (Secp256k1.MessageDataOffset r) (Secp256k1.MessageDataSize r);
    Some (eth, sig, nth 0 rid 0, msg)
  else None.

(** The table at the front of the data, ignoring what follows. *)
Definition front {A} (m : Dec A) (data : bytes) : option A :=
  match m (NewDecoder data) with (Ok a, _) => Some a | _ => None end.

(** ** Lemmas *)

Lemma front_reads {A} (m : Dec A) bs post a : reads m bs a → wf_bytes post → front m (bs ++ post) = Some a.
Proof.
  intros [_ Hm] Hpost. unfold front. specialize (Hm [] post false Hpost).
  change (NewDecoder (bs ++ post)) with (at_ [] (bs ++ post) false). by rewrite Hm.
Qed.

Lemma sub_at_eq data pre mid post off n :
  data = pre ++ mid ++ post → off = zlen pre → n = zlen mid → sub_at data off n = Some mid.
Proof. intros -> -> ->. unfold sub_at. by rewrite slice_app. Qed.

Definition wf_ed_row (r : Ed25519SignatureOffsets) : Prop :=
  is_u 16 (Ed25519.SignatureOffset r) ∧ is_u 16 (Ed25519.SignatureInstructionIndex r) ∧
  is_u 16 (PublicKeyOffset r) ∧ is_u 16 (PublicKeyInstructionIndex r) ∧
  is_u 16 (Ed25519.MessageDataOffset r) ∧ is_u 16 (Ed25519.MessageDataSize r) ∧
  is_u 16 (Ed25519.MessageInstructionIndex r).

Definition ed_bytes (r : Ed25519SignatureOffsets) : bytes :=
  le 2 (Ed25519.SignatureOffset r) ++ le 2 (Ed25519.SignatureInstructionIndex r) ++
  le 2 (PublicKeyOffset r) ++ le 2 (PublicKeyInstructionIndex r) ++
  le 2 (Ed25519.MessageDataOffset r) ++ le 2 (Ed25519.MessageDataSize r) ++
  le 2 (Ed25519.MessageInstructionIndex r).

Lemma reads_ed_row r : wf_ed_row r → reads read_ed_row (ed_bytes r) r.
Proof.
  destruct r; intros (?&?&?&?&?&?&?); cbn in *. apply reads_tail.
  unfold ed_bytes; cbn [Ed25519.SignatureOffset Ed25519.SignatureInstructionIndex PublicKeyOffset PublicKeyInstructionIndex Ed25519.MessageDataOffset Ed25519.MessageDataSize Ed25519.MessageInstructionIndex].
  rewrite <- !(assoc_L (++)). unfold read_ed_row. repeat rd. apply reads_ret.
Qed.

Lemma e_buf_ed_row r e : e_buf (ed25519_row r e) = e_buf e ++ ed_bytes r.
Proof. unfold ed25519_row, ed_bytes. enc_norm. done. Qed.

Definition wf_secp_row (r : Secp256k1SignatureOffsets) : Prop :=
  is_u 16 (Secp256k1.SignatureOffset r) ∧ is_u 8 (Secp256k1.SignatureInstructionIndex r) ∧
  is_u 16 (EthAddressOffset r) ∧ is_u 8 (EthAddressInstructionIndex r) ∧
  is_u 16 (Secp256k1.MessageDataOffset r) ∧ is_u 16 (Secp256k1.MessageDataSize r) ∧
  is_u 8 (Secp256k1.MessageInstructionIndex r).

Definition secp_bytes (r : Secp256k1SignatureOffsets) : bytes :=
  le 2 (Secp256k1.SignatureOffset r) ++ [Secp256k1.SignatureInstructionIndex r] ++
  le 2 (EthAddressOffset r) ++ [EthAddressInstructionIndex r] ++
  le 2 (Secp256k1.MessageDataOffset r) ++ le 2 (Secp256k1.MessageDataSize r) ++
  [Secp256k1.MessageInstructionIndex r].

Lemma reads_secp_row r : wf_secp_row r → reads read_secp_row (secp_bytes r) r.
Proof.
  destruct r; intros (?&?&?&?&?&?&?); cbn in *. apply reads_tail.
  unfold secp_bytes; cbn [Secp256k1.SignatureOffset Secp256k1.SignatureInstructionIndex EthAddressOffset EthAddressInstructionIndex Secp256k1.MessageDataOffset Secp256k1.MessageDataSize Secp256k1.MessageInstructionIndex].
  rewrite <- !(assoc_L (++)). unfold read_secp_row. repeat rd. apply reads_ret.
Qed.

Lemma e_buf_secp_row r e : e_buf (secp256k1_row r e) = e_buf e ++ secp_bytes r.
Proof. unfold secp256k1_row, secp_bytes. enc_norm. done. Qed.

Lemma zlen_ed_bytes r : zlen (ed_bytes r) = 14.
Proof. unfold ed_bytes. by rewrite !zlen_app, !length_le. Qed.

Lemma zlen_secp_bytes r : zlen (secp_bytes r) = 11.
Proof. unfold secp_bytes. by rewrite !zlen_app, !length_le. Qed.

(** One row, written by hand by the single-signature builders. *)
Definition ed_row1 (n : Z) : Ed25519SignatureOffsets :=
  mkEd25519Offsets 48 0xFFFF 16 0xFFFF 112 n 0xFFFF.
Definition secp_row1 (n : Z) : Secp256k1SignatureOffsets :=
  mkSecp256k1Offsets 12 0xff 77 0xff 97 n 0xff.

Section singles.
Context `{Base58}.

Lemma NewVerifySignature_data pk sig msg :
  zlen msg ≤ MaxUint16 →
  NewVerifySignature pk sig msg =
  Ok (NewInstruction Ed25519_ProgramID [] (([1] ++ [0] ++ ed_bytes (ed_row1 (zlen msg))) ++ pk ++ sig ++ msg)).
Proof.
  intros Hm. unfold NewVerifySignature, MaxUint16 in *. rewrite (proj2 (Z.ltb_ge _ _)) by done.
  rewrite (wrapU_small 16) by (pose proof (zlen_nonneg msg); unfold is_u; lia).
  do 2 f_equal. unfold ed_bytes, ed_row1. enc_norm. done.
Qed.

Lemma NewVerifyEthSignature_data eth sig rid msg :
  zlen msg ≤ MaxUint16 →
  NewVerifyEthSignature eth sig rid msg =
  Ok (NewInstruction Secp256k1_ProgramID []
    (([1] ++ secp_bytes (secp_row1 (zlen msg))) ++ sig ++ [rid] ++ eth ++ msg)).
Proof.
  intros Hm. unfold NewVerifyEthSignature, MaxUint16 in *. rewrite (proj2 (Z.ltb_ge _ _)) by done.
  rewrite (wrapU_small 16) by (pose proof (zlen_nonneg msg); unfold is_u; lia).
  do 2 f_equal. unfold secp_bytes, secp_row1. enc_norm. done.
Qed.
End singles.

Lemma reads_ed_table (rs : list Ed25519SignatureOffsets) :
  zlen rs ≤ MaxUint8 → Forall wf_ed_row rs →
  reads read_ed_table ([zlen rs] ++ [0] ++ flat_map ed_bytes rs) rs.
Proof.
  unfold MaxUint8. intros Hn Hrs. pose proof (zlen_nonneg rs). unfold read_ed_table.
  assert (is_u 8 (zlen rs)) by (unfold is_u; lia). rd. rd.
  unfold zlen. rewrite Nat2Z.id. apply (reads_for_range ed_bytes).
  intros _ r Hr. apply reads_ed_row. by eapply Forall_forall in Hrs.
Qed.

Lemma reads_secp_table (rs : list Secp256k1SignatureOffsets) :
  zlen rs ≤ MaxUint8 → Forall wf_secp_row rs →
  reads read_secp_table ([zlen rs] ++ flat_map secp_bytes rs) rs.
Proof.
  unfold MaxUint8. intros Hn Hrs. pose proof (zlen_nonneg rs). unfold read_secp_table.
  assert (is_u 8 (zlen rs)) by (unfold is_u; lia). rd.
  unfold zlen. rewrite Nat2Z.id. apply (reads_for_range secp_bytes).
  intros _ r Hr. apply reads_secp_row. by eapply Forall_forall in Hrs.
Qed.

(** Following the hand-written row: each offset is where the field is. *)
Lemma ed_follow_row1 tab pk sig msg :
  zlen tab = 16 → zlen pk = 32 → zlen sig = 64 →
  ed_follow (tab ++ pk ++ sig ++ msg) (ed_row1 (zlen msg)) = Some (pk, sig, msg).
Proof.
  intros Ht Hpk Hsig. unfold ed_follow, ed_row1.
  cbn [Ed25519.SignatureInstructionIndex PublicKeyInstructionIndex
    Ed25519.MessageInstructionIndex PublicKeyOffset Ed25519.SignatureOffset
    Ed25519.MessageDataOffset Ed25519.MessageDataSize Z.eqb Pos.eqb andb].
  rewrite (sub_at_eq _ tab pk (sig ++ msg) 16 32) by done. cbn [mbind option_bind].
  rewrite (sub_at_eq _ (tab ++ pk) sig msg 48 64) by (rewrite ?zlen_app; first [lia|by app_eq]).
  cbn [mbind option_bind].
  by rewrite (sub_at_eq _ (tab ++ pk ++ sig) msg [] 112) by (rewrite ?zlen_app; first [lia|by app_eq]).
Qed.

Lemma secp_follow_row1 tab eth sig rid msg :
  zlen tab = 12 → zlen eth = 20 → zlen sig = 64 →
  secp_follow (tab ++ sig ++ [rid] ++ eth ++ msg) (secp_row1 (zlen msg)) = Some (eth, sig, rid, msg).
Proof.
  intros Ht Heth Hsig. unfold secp_follow, secp_row1.
  cbn [Secp256k1.SignatureInstructionIndex EthAddressInstructionIndex
    Secp256k1.MessageInstructionIndex EthAddressOffset Secp256k1.SignatureOffset
    Secp256k1.MessageDataOffset Secp256k1.MessageDataSize Z.eqb Pos.eqb andb].
  assert (H1 : zlen [rid] = 1) by done.
  rewrite (sub_at_eq _ (tab ++ sig ++ [rid]) eth msg 77 20) by (rewrite ?zlen_app; first [lia|by app_eq]).
  cbn [mbind option_bind].
  rewrite (sub_at_eq _ tab sig ([rid] ++ eth ++ msg) 12 64) by done. cbn [mbind option_bind].
  rewrite (sub_at_eq _ (tab ++ sig) [rid] (eth ++ msg) (12 + 64) 1) by (rewrite ?zlen_app; first [lia|by app_eq]).
  cbn [mbind option_bind].
  by rewrite (sub_at_eq _ (tab ++ sig ++ [rid] ++ eth) msg [] 97) by (rewrite ?zlen_app; first [lia|by app_eq]).
Qed.

(** ** Properties *)

Section properties.
Context `{Base58}.

(** The data of a built instruction. *)
Definition data_of (r : result Instruction) : option bytes :=
  match r with Ok ix => match Ix_Data ix with Ok d => Some d | _ => None end | _ => None end.

(** The offsets the single-signature builders write agree with the layout
    they write it into.  For a 32-byte key (20-byte Ethereum address), a
    64-byte signature and a message, the builder fails exactly when the message
    is longer than 65535 bytes; otherwise the runtime's reading of the data,
    which trusts only the offset table, finds one row that points into this
    instruction, and following it yields exactly the key, the signature (with
    its recovery byte) and the message that were passed in. *)
Theorem precompile_offsets_consistent pk sig eth rid msg :
  wf_array 32 pk → wf_array 64 sig → wf_array 20 eth → is_u 8 rid → wf_bytes msg →
  (if 65535 <? zlen msg
   then is_ok (NewVerifySignature pk sig msg) = false ∧ is_ok (NewVerifyEthSignature eth sig rid msg) = false
   else
     (∃ data r, data_of (NewVerifySignature pk sig msg) = Some data ∧
        front read_ed_table data = Some [r] ∧ ed_follow data r = Some (pk, sig, msg)) ∧
     (∃ data r, data_of (NewVerifyEthSignature eth sig rid msg) = Some data ∧
        front read_secp_table data = Some [r] ∧ secp_follow data r = Some (eth, sig, rid, msg))).
Proof.
  intros [Hpk Hpk'] [Hsig Hsig'] [Heth Heth'] Hrid Hmsg. destruct (Z.ltb_spec 65535 (zlen msg)) as [Hm|Hm].
  { unfold NewVerifySignature, NewVerifyEthSignature, MaxUint16.
    by rewrite !(proj2 (Z.ltb_lt _ _)). }
  rewrite NewVerifySignature_data, NewVerifyEthSignature_data by done.
  assert (is_u 16 (zlen msg)) by (pose proof (zlen_nonneg msg); unfold is_u; lia).
  split.
  - eexists _, (ed_row1 (zlen msg)). split; [done|]. split.
    + apply front_reads; [|by repeat apply Forall_app_2].
      rewrite <- (app_nil_r (ed_bytes _)). apply (reads_ed_table [_]); [done|].
      repeat constructor; unfold is_u in *; cbn; lia.
    + apply ed_follow_row1; [|done|done]. by rewrite !zlen_app, zlen_ed_bytes.
  - eexists _, (secp_row1 (zlen msg)). split; [done|]. split.
    + apply front_reads; [|by repeat (apply Forall_app_2 || apply Forall_cons_2)].
      rewrite <- (app_nil_r (secp_bytes _)). apply (reads_secp_table [_]); [done|].
      repeat constructor; unfold is_u in *; cbn; lia.
    + apply secp_follow_row1; [|done|done]. by rewrite !zlen_app, zlen_secp_bytes.
Qed.

(** The general precompile builders write tables the runtime reads back
    row for row: for offset rows in the ranges of their Go types, the builder
    fails exactly when there are more than 255 rows, and otherwise the whole
    data is one table holding exactly those rows in order. *)
Theorem precompile_table_roundtrip eds secps :
  Forall wf_ed_row eds → Forall wf_secp_row secps →
  (if 255 <? zlen eds then is_ok (Ed25519_NewSignatureVerifyInstruction eds) = false
   else (data ← data_of (Ed25519_NewSignatureVerifyInstruction eds); run_all read_ed_table data) = Some eds) ∧
  (if 255 <? zlen secps then is_ok (Secp256k1_NewSignatureVerifyInstruction secps) = false
   else (data ← data_of (Secp256k1_NewSignatureVerifyInstruction secps); run_all read_secp_table data) = Some secps).
Proof.
  intros Heds Hsecps. pose proof (zlen_nonneg eds). pose proof (zlen_nonneg secps).
  unfold Ed25519_NewSignatureVerifyInstruction, Secp256k1_NewSignatureVerifyInstruction, MaxUint8.
  split; (case_if; [done|]); rewrite (wrapU_small 8) by (unfold is_u; lia);
    cbn [mret result_ret data_of NewInstruction Ix_Data mbind option_bind].
  - apply run_all_reads. eapply reads_eq; [by apply (reads_ed_table eds)|].
    unfold Bytes. rewrite (e_buf_fold ed25519_row ed_bytes) by (intros; apply e_buf_ed_row). by enc_norm.
  - apply run_all_reads. eapply reads_eq; [by apply (reads_secp_table secps)|].
    unfold Bytes. rewrite (e_buf_fold secp256k1_row secp_bytes) by (intros; apply e_buf_secp_row). by enc_norm.
Qed.
End properties.

Lemma precompile_offsets_consistent_witness :
  let pk := replicate 32 7 in let sig := replicate 64 9 in
  ∃ data r, data_of (@NewVerifySignature ToyBase58.toy_base58 pk sig [1; 2; 3]) = Some data ∧
    front read_ed_table data = Some [r] ∧ ed_follow data r = Some (pk, sig, [1; 2; 3]).
Proof.
  intros pk sig.
  apply (@precompile_offsets_consistent ToyBase58.toy_base58 pk sig (replicate 20 1) 0 [1; 2; 3]);
    apply (bool_decide_unpack _); by vm_compute.
Defined.

Lemma precompile_table_roundtrip_witness :
  let r := mkEd25519Offsets 48 65535 16 65535 112 3 0 in
  (data ← data_of (@Ed25519_NewSignatureVerifyInstruction ToyBase58.toy_base58 [r; r]); run_all read_ed_table data)
    = Some [r; r].
Proof.
  intros r. apply (@precompile_table_roundtrip ToyBase58.toy_base58 [r; r] []); [|constructor].
  repeat constructor; vm_compute; congruence.
Defined.
