(* ===== verification/NativeIx.v ===== *)
(** * Compute budget, memo, associated token accounts and address lookup tables

    The instruction builders of [programs/compute-budget], [programs/memo],
    [programs/associated-token-account] and [programs/address-lookup-table].
    The last two derive program addresses. *)

From S2P Require Import Prelude Wire Keys Builder Pda Ix.
From S2P Require SystemIx.

Local Open Scope go_scope.

Definition tagRequestHeapFrame : Z := 1.
Definition tagSetComputeUnitLimit : Z := 2.
Definition tagSetComputeUnitPrice : Z := 3.

Definition tagCreateLookupTable : Z := 0.
Definition tagFreezeLookupTable : Z := 1.
Definition tagExtendLookupTable : Z := 2.
Definition tagDeactivateLookupTable : Z := 3.
Definition tagCloseLookupTable : Z := 4.

Section native.
Context `{Base58}.

(** ** compute-budget *)

Definition ComputeBudget_ProgramID := well_known "ComputeBudget111111111111111111111111111111".

Definition NewSetComputeUnitLimit (units : Z) : Instruction :=
  NewInstruction ComputeBudget_ProgramID [] (Bytes (NewEncoder 5 ▹ U8 tagSetComputeUnitLimit ▹ U32 units)).
Definition NewSetComputeUnitPrice (microLamports : Z) : Instruction :=
  NewInstruction ComputeBudget_ProgramID [] (Bytes (NewEncoder 9 ▹ U8 tagSetComputeUnitPrice ▹ U64 microLamports)).
Definition NewRequestHeapFrame (bytes : Z) : Instruction :=
  NewInstruction ComputeBudget_ProgramID [] (Bytes (NewEncoder 5 ▹ U8 tagRequestHeapFrame ▹ U32 bytes)).

(** ** memo *)

Definition Memo_ProgramID := well_known "MemoSq4gqABAXKb96qnH8TysNcWxMyWCqXgDLGmfcHr".

Definition Log (memo : bytes) (signers : AccountMetaSlice) : Instruction :=
  NewInstruction Memo_ProgramID signers memo.

(** ** address-lookup-table *)

Definition ALT_ProgramID := well_known "AddressLookupTab1e1111111111111111111111111".

Definition NewFreezeLookupTable (lookupTable authority : PublicKey) : Instruction :=
  NewInstruction ALT_ProgramID
    (metas [NewAccountMeta lookupTable false true; NewAccountMeta authority true false])
    (Bytes (NewEncoder 4 ▹ U32 tagFreezeLookupTable)).

Definition NewExtendLookupTable (lookupTable authority payer : PublicKey) (newAddresses : list PublicKey) : Instruction :=
  let e := NewEncoder (4 + 8 + PublicKeySize * zlen newAddresses)
    ▹ U32 tagExtendLookupTable ▹ U64 (u64 (zlen newAddresses)) in
  let e := fold_left (λ e a, Raw a e) newAddresses e in
  NewInstruction ALT_ProgramID
    (metas [NewAccountMeta lookupTable false true; NewAccountMeta authority true false;
            NewAccountMeta payer true true; NewAccountMeta SystemIx.ProgramID false false])
    (Bytes e).

Definition NewDeactivateLookupTable (lookupTable authority : PublicKey) : Instruction :=
  NewInstruction ALT_ProgramID
    (metas [NewAccountMeta lookupTable false true; NewAccountMeta authority true false])
    (Bytes (NewEncoder 4 ▹ U32 tagDeactivateLookupTable)).

Definition NewCloseLookupTable (lookupTable authority recipient : PublicKey) : Instruction :=
  NewInstruction ALT_ProgramID
    (metas [NewAccountMeta lookupTable false true; NewAccountMeta authority true false;
            NewAccountMeta recipient false true])
    (Bytes (NewEncoder 4 ▹ U32 tagCloseLookupTable)).

Section derived.
Context `{Curve}.

Definition DeriveLookupTableAddress (authority : PublicKey) (recentSlot : Z) : result (PublicKey * Z) :=
  let slotBytes := le 8 recentSlot in
  let seeds := [authority; slotBytes] in
  FindProgramAddress seeds ALT_ProgramID.

Definition NewCreateLookupTable (authority payer : PublicKey) (recentSlot : Z) : result (Instruction * PublicKey) :=
  '(table, bump) ← wrap_result "alt: CreateLookupTable: derive address" []
                     (DeriveLookupTableAddress authority recentSlot);
  mret (NewInstruction ALT_ProgramID
    (metas [NewAccountMeta table false true; NewAccountMeta authority true false;
            NewAccountMeta payer true true; NewAccountMeta SystemIx.ProgramID false false])
    (Bytes (NewEncoder 13 ▹ U32 tagCreateLookupTable ▹ U64 recentSlot ▹ U8 bump)), table).

(** ** associated-token-account *)

Definition ATA_ProgramID := well_known "ATokenGPvbdGVxr1b2hvZbsiqW5xWH25efTNsLJA8knL".

Definition FindAssociatedTokenAddress (wallet mint tokenProgram : PublicKey) : result (PublicKey * Z) :=
  let seeds := [wallet; tokenProgram; mint] in
  FindProgramAddress seeds ATA_ProgramID.

Definition buildAccountMetas (payer wallet mint tokenProgram : PublicKey) : result AccountMetaSlice :=
  '(ata, _) ← FindAssociatedTokenAddress wallet mint tokenProgram;
  mret (metas [NewAccountMeta payer true true; NewAccountMeta ata false true;
               NewAccountMeta wallet false false; NewAccountMeta mint false false;
               NewAccountMeta SystemIx.ProgramID false false; NewAccountMeta tokenProgram false false]).

Definition NewCreate (payer wallet mint tokenProgram : PublicKey) : result Instruction :=
  accs ← buildAccountMetas payer wallet mint tokenProgram;
  mret (NewInstruction ATA_ProgramID accs []).

Definition NewCreateIdempotent (payer wallet mint tokenProgram : PublicKey) : result Instruction :=
  accs ← buildAccountMetas payer wallet mint tokenProgram;
  mret (NewInstruction ATA_ProgramID accs [1]).
End derived.

(** ** Specification *)

Inductive ComputeBudgetInstruction :=
| RequestHeapFrame (bytes : Z)
| SetComputeUnitLimit (units : Z)
| SetComputeUnitPrice (microLamports : Z).

Definition read_budget : Dec ComputeBudgetInstruction :=
  tag ← ReadUint8;
  match tag with
  | 1 => n ← ReadUint32; mret (RequestHeapFrame n)
  | 2 => n ← ReadUint32; mret (SetComputeUnitLimit n)
  | 3 => n ← ReadUint64; mret (SetComputeUnitPrice n)
  | _ => fail ErrShortBuffer
  end.

Definition parse_budget : Instruction → option ComputeBudgetInstruction :=
  parse_ix ComputeBudget_ProgramID read_budget (λ i rs, match rs with [] => Some i | _ => None end).

Inductive LookupTableInstruction :=
| I_Create (recentSlot bump : Z)
| I_Freeze
| I_Extend (newAddresses : list PublicKey)
| I_Deactivate
| I_Close.

Definition read_alt_args (tag : Z) : Dec LookupTableInstruction :=
  match tag with
  | 0 => s ← ReadUint64; b ← ReadUint8; mret (I_Create s b)
  | 1 => mret I_Freeze
  | 2 => n ← ReadUint64; ks ← for_range (Z.to_nat n) 0 (λ _, read_key); mret (I_Extend ks)
  | 3 => mret I_Deactivate
  | 4 => mret I_Close
  | _ => fail ErrShortBuffer
  end.

Definition read_alt : Dec LookupTableInstruction := tag ← ReadUint32; read_alt_args tag.

Inductive alt_call :=
| Create (table authority payer : PublicKey) (recentSlot bump : Z)
| Freeze (table authority : PublicKey)
| Extend (table authority payer : PublicKey) (newAddresses : list PublicKey)
| Deactivate (table authority : PublicKey)
| Close (table authority recipient : PublicKey).

Definition interp_alt (i : LookupTableInstruction) (rs : list role) : option alt_call :=
  match i, rs with
  | I_Create s b, [RW t; SG a; SW p; RO sys] => known sys SystemIx.ProgramID (Create t a p s b)
  | I_Freeze, [RW t; SG a] => Some (Freeze t a)
  | I_Extend ks, [RW t; SG a; SW p; RO sys] => known sys SystemIx.ProgramID (Extend t a p ks)
  | I_Deactivate, [RW t; SG a] => Some (Deactivate t a)
  | I_Close, [RW t; SG a; RW r] => Some (Close t a r)
  | _, _ => None
  end.

Definition parse_alt : Instruction → option alt_call := parse_ix ALT_ProgramID read_alt interp_alt.

(** ** Properties *)

Ltac alt_data :=
  unfold read_alt; rds;
  cbv beta iota delta [read_alt_args tagCreateLookupTable tagFreezeLookupTable tagExtendLookupTable
    tagDeactivateLookupTable tagCloseLookupTable];
  repeat rd; apply reads_ret.
Ltac budget_data :=
  unfold read_budget; rds;
  cbv beta iota delta [tagRequestHeapFrame tagSetComputeUnitLimit tagSetComputeUnitPrice];
  repeat rd; apply reads_ret.

(** The compute-budget and lookup-table builders are inverted by the
    reference readers of their programs' instruction enums: the budget
    instructions take no account; an extension carries its addresses in order
    behind a [u64] count, however many there are; every account is in its
    place with exactly its flags. *)
Theorem native_parse_build :
  (∀ n, is_u 32 n → parse_budget (NewSetComputeUnitLimit n) = Some (SetComputeUnitLimit n)) ∧
  (∀ n, is_u 64 n → parse_budget (NewSetComputeUnitPrice n) = Some (SetComputeUnitPrice n)) ∧
  (∀ n, is_u 32 n → parse_budget (NewRequestHeapFrame n) = Some (RequestHeapFrame n)) ∧
  (∀ t a, parse_alt (NewFreezeLookupTable t a) = Some (Freeze t a)) ∧
  (∀ t a p ks, is_u 64 (zlen ks) → Forall wf_key ks →
     parse_alt (NewExtendLookupTable t a p ks) = Some (Extend t a p ks)) ∧
  (∀ t a, parse_alt (NewDeactivateLookupTable t a) = Some (Deactivate t a)) ∧
  (∀ t a r, parse_alt (NewCloseLookupTable t a r) = Some (Close t a r)).
Proof.
  unfold parse_alt, parse_budget.
  split_and!; intros;
    try (eapply (parse_ix_intro _ _ _ []); [budget_data|done]);
    try (eapply parse_ix_intro; [alt_data|roles_done]).
  unfold NewExtendLookupTable. rewrite (wrapU_small 64) by done.
  eapply parse_ix_intro with (a := I_Extend ks); [|roles_done].
  unfold Bytes. rewrite (e_buf_fold Raw id) by (intros; apply e_buf_Raw).
  unfold read_alt. enc_norm. rewrite app_nil_l. rd.
  cbv beta iota delta [read_alt_args tagExtendLookupTable]. rd. apply reads_tail.
  eapply reads_seq; [|apply reads_ret].
  unfold zlen. rewrite Nat2Z.id. apply (reads_for_range id).
  intros _ k Hk. apply reads_pubkey. by eapply Forall_forall in Hk.
Qed.

(** The builders that derive addresses name the address they derive.
    [NewCreateLookupTable] succeeds exactly when the address derivation from
    the authority and the little-endian slot does; it then returns the derived
    table, makes it the writable first account, and writes into the data the
    slot and the bump for which [CreateProgramAddress] gives that table.
    [NewCreate] and [NewCreateIdempotent] succeed exactly when the derivation
    from wallet, token program and mint (in this order) does, list the derived
    account second and writable, agree on all accounts, and differ only in the
    data: empty against the single byte 1. *)
Theorem derived_address_builders `{!Curve, !CurveLaws} authority payer slot wallet mint tokenProgram :
  is_u 64 slot →
  match DeriveLookupTableAddress authority slot, NewCreateLookupTable authority payer slot with
  | Ok (table, bump), Ok (ix, table') =>
      table' = table ∧ parse_alt ix = Some (Create table authority payer slot bump) ∧
      CreateProgramAddress [authority; le 8 slot; [bump]] ALT_ProgramID = Ok table
  | Err e, Err e' => e' = ErrWrap "alt: CreateLookupTable: derive address" [] e
  | _, _ => False
  end ∧
  match FindAssociatedTokenAddress wallet mint tokenProgram,
        NewCreate payer wallet mint tokenProgram, NewCreateIdempotent payer wallet mint tokenProgram with
  | Ok (ata, bump), Ok ix, Ok ix' =>
      CreateProgramAddress [wallet; tokenProgram; mint; [bump]] ATA_ProgramID = Ok ata ∧
      roles (Ix_Accounts ix) =
        Some [SW payer; RW ata; RO wallet; RO mint; RO SystemIx.ProgramID; RO tokenProgram] ∧
      Ix_Accounts ix' = Ix_Accounts ix ∧ Ix_ProgramID ix = ATA_ProgramID ∧
      Ix_ProgramID ix' = ATA_ProgramID ∧ Ix_Data ix = Ok [] ∧ Ix_Data ix' = Ok [1]
  | Err e, Err e1, Err e2 => e1 = e ∧ e2 = e
  | _, _, _ => False
  end.
Proof.
  intros Hslot. unfold NewCreateLookupTable, NewCreate, NewCreateIdempotent, buildAccountMetas. split.
  - pose proof (FindProgramAddress_no_panic [authority; le 8 slot] ALT_ProgramID) as Hn.
    unfold DeriveLookupTableAddress.
    destruct (FindProgramAddress _ _) as [[table bump]|e|w] eqn:Hf; [|done|done].
    apply FindProgramAddress_ok in Hf as [Hb Hc].
    cbn [wrap_result mbind result_bind mret result_ret]. split_and!; [done| |done].
    eapply parse_ix_intro; [alt_data|roles_done].
  - pose proof (FindProgramAddress_no_panic [wallet; tokenProgram; mint] ATA_ProgramID) as Hn.
    unfold FindAssociatedTokenAddress.
    destruct (FindProgramAddress _ _) as [[ata bump]|e|w] eqn:Hf; [|done|done].
    by apply FindProgramAddress_ok in Hf as [Hb Hc].
Qed.
End native.

Lemma derived_address_builders_witness :
  let k := replicate 32 1 in
  is_u 64 300 ∧
  match @DeriveLookupTableAddress ToyBase58.toy_base58 Toy.toy_curve k 300,
        @NewCreateLookupTable ToyBase58.toy_base58 Toy.toy_curve k k 300 with
  | Ok (table, bump), Ok (ix, table') =>
      table' = table ∧
      @CreateProgramAddress Toy.toy_curve [k; le 8 300; [bump]] (@ALT_ProgramID ToyBase58.toy_base58) = Ok table
  | _, _ => False
  end.
Proof.
  intros k. assert (is_u 64 300) as Hs by (split; vm_compute; congruence). split; [exact Hs|].
  pose proof (@derived_address_builders ToyBase58.toy_base58 Toy.toy_curve Toy.toy_curve_laws
    k k 300 k k k Hs) as [H _].
  assert (Hok : is_ok (@DeriveLookupTableAddress ToyBase58.toy_base58 Toy.toy_curve k 300) = true)
    by (by vm_compute).
  destruct (@DeriveLookupTableAddress ToyBase58.toy_base58 Toy.toy_curve k 300) as [[table bump]| |]; [|done|done].
  destruct (@NewCreateLookupTable ToyBase58.toy_base58 Toy.toy_curve k k 300) as [[ix table']| |]; [|done|done].
  destruct H as (? & _ & ?). done.
Defined.

Lemma native_parse_build_witness :
  let k := replicate 32 1 in
  @parse_alt ToyBase58.toy_base58 (@NewExtendLookupTable ToyBase58.toy_base58 k k k [k; zero_array 32])
    = Some (Extend k k k [k; zero_array 32]).
Proof.
  intros k.
  pose proof (@native_parse_build ToyBase58.toy_base58) as (_ & _ & _ & _ & H & _).
  apply H; apply (bool_decide_unpack _); by vm_compute.
Defined.
