(* ===== verification/Token2022Ix.v ===== *)
(** * The Token-2022 program: [programs/token2022/instructions.go]

    The builders that wrap the classic token package's instructions under
    the Token-2022 program id, and those of the extensions, with the reference
    reader of the extension instructions (two-byte discriminators; an optional
    key is a key whose zero value stands for none). *)

From S2P Require Import Prelude Wire Keys Builder Ix.
From S2P Require TokenIx.

Local Open Scope go_scope.

Section token2022.
Context `{Base58}.

Definition ProgramID := well_known "TokenzQdBNbLqP5VEhdkAS6EPFLC1PHnBqCXEpPxuEb".

(** The [wrapped] type: the three methods of the interface, two of them
    delegated. *)
Definition Wrap (ix : Instruction) : Instruction :=
  mkInstruction ProgramID (Ix_Accounts ix) (Ix_Data ix).

Definition NewTransfer (source destination authority : PublicKey) (amount : Z) : Instruction :=
  Wrap (TokenIx.NewTransfer source destination authority amount).
Definition NewTransferChecked (source mint destination authority : PublicKey) (amount decimals : Z) : Instruction :=
  Wrap (TokenIx.NewTransferChecked source mint destination authority amount decimals).
Definition NewMintTo (mint destination authority : PublicKey) (amount : Z) : Instruction :=
  Wrap (TokenIx.NewMintTo mint destination authority amount).
Definition NewBurn (account mint authority : PublicKey) (amount : Z) : Instruction :=
  Wrap (TokenIx.NewBurn account mint authority amount).
Definition NewCloseAccount (account destination authority : PublicKey) : Instruction :=
  Wrap (TokenIx.NewCloseAccount account destination authority).
Definition NewInitializeMint2 (mint : PublicKey) (decimals : Z) (mintAuthority freezeAuthority : PublicKey) : Instruction :=
  Wrap (TokenIx.NewInitializeMint2 mint decimals mintAuthority freezeAuthority).
Definition NewInitializeAccount3 (account mint owner : PublicKey) : Instruction :=
  Wrap (TokenIx.NewInitializeAccount3 account mint owner).

Definition zeroPubkey : bytes := zero_array PublicKeySize.

Definition optNonZeroKey (p : option PublicKey) : bytes :=
  match p with None => zeroPubkey | Some p => p end.

(** The two account lists most builders use. *)
Definition mint_only (mint : PublicKey) : AccountMetaSlice := metas [NewAccountMeta mint false true].
Definition with_authority (mint authority : PublicKey) : AccountMetaSlice :=
  metas [NewAccountMeta mint false true; NewAccountMeta authority true false].

Definition NewInitializeMintCloseAuthority (mint : PublicKey) (closeAuth : option PublicKey) : Instruction :=
  NewInstruction ProgramID (mint_only mint) (Bytes (New ▹ U8 25 ▹ Raw (optNonZeroKey closeAuth))).

Definition NewInitializeNonTransferableMint (mint : PublicKey) : Instruction :=
  NewInstruction ProgramID (mint_only mint) [32].

Definition NewInitializePermanentDelegate (mint delegate : PublicKey) : Instruction :=
  NewInstruction ProgramID (mint_only mint) (Bytes (New ▹ U8 35 ▹ Raw delegate)).

(** [AccountState] is a [uint8]. *)
Definition AccountStateUninitialized : Z := 0.
Definition AccountStateInitialized : Z := 1.
Definition AccountStateFrozen : Z := 2.

Definition NewInitializeDefaultAccountState (mint : PublicKey) (state : Z) : Instruction :=
  NewInstruction ProgramID (mint_only mint) [28; 0; state].

Definition NewUpdateDefaultAccountState (mint freezeAuthority : PublicKey) (state : Z) : Instruction :=
  NewInstruction ProgramID (with_authority mint freezeAuthority) [28; 1; state].

Definition NewInitializeTransferFeeConfig (mint : PublicKey)
    (transferFeeAuthority withdrawWithheldAuthority : option PublicKey)
    (feeBasisPoints maximumFee : Z) : Instruction :=
  NewInstruction ProgramID (mint_only mint)
    (Bytes (New ▹ U8 26 ▹ U8 0
       ▹ Raw (optNonZeroKey transferFeeAuthority) ▹ Raw (optNonZeroKey withdrawWithheldAuthority)
       ▹ U16 feeBasisPoints ▹ U64 maximumFee)).

Definition NewSetTransferFee (mint authority : PublicKey) (feeBasisPoints maximumFee : Z) : Instruction :=
  NewInstruction ProgramID (with_authority mint authority)
    (Bytes (New ▹ U8 26 ▹ U8 5 ▹ U16 feeBasisPoints ▹ U64 maximumFee)).

Definition NewWithdrawWithheldTokensFromMint (mint destination withdrawAuthority : PublicKey) : Instruction :=
  NewInstruction ProgramID
    (metas [NewAccountMeta mint false true; NewAccountMeta destination false true;
            NewAccountMeta withdrawAuthority true false])
    [26; 2].

(** [for _, s := range sources { accounts = append(accounts, ...) }] *)
Definition append_sources (sources : list PublicKey) (accounts : AccountMetaSlice) : AccountMetaSlice :=
  fold_left (λ accounts s, accounts ++ [Some (NewAccountMeta s false true)]) sources accounts.

Definition NewWithdrawWithheldTokensFromAccounts (mint destination withdrawAuthority : PublicKey)
    (sources : list PublicKey) : Instruction :=
  let accounts :=
    metas [NewAccountMeta mint false true; NewAccountMeta destination false true;
           NewAccountMeta withdrawAuthority true false] in
  NewInstruction ProgramID (append_sources sources accounts) [26; 3; u8 (zlen sources)].

Definition NewHarvestWithheldTokensToMint (mint : PublicKey) (sources : list PublicKey) : Instruction :=
  NewInstruction ProgramID (append_sources sources (metas [NewAccountMeta mint false true])) [26; 4].

Definition NewInitializeInterestBearingMint (mint : PublicKey) (rateAuthority : option PublicKey) (rate : Z) : Instruction :=
  NewInstruction ProgramID (mint_only mint)
    (Bytes (New ▹ U8 33 ▹ U8 0 ▹ Raw (optNonZeroKey rateAuthority) ▹ I16 rate)).

Definition NewUpdateInterestBearingMintRate (mint rateAuthority : PublicKey) (rate : Z) : Instruction :=
  NewInstruction ProgramID (with_authority mint rateAuthority) (Bytes (New ▹ U8 33 ▹ U8 1 ▹ I16 rate)).

Definition NewInitializeMetadataPointer (mint : PublicKey) (authority metadataAddress : option PublicKey) : Instruction :=
  NewInstruction ProgramID (mint_only mint)
    (Bytes (New ▹ U8 39 ▹ U8 0 ▹ Raw (optNonZeroKey authority) ▹ Raw (optNonZeroKey metadataAddress))).

Definition NewUpdateMetadataPointer (mint authority : PublicKey) (metadataAddress : option PublicKey) : Instruction :=
  NewInstruction ProgramID (with_authority mint authority)
    (Bytes (New ▹ U8 39 ▹ U8 1 ▹ Raw (optNonZeroKey metadataAddress))).

Definition NewInitializeTransferHook (mint : PublicKey) (authority programId : option PublicKey) : Instruction :=
  NewInstruction ProgramID (mint_only mint)
    (Bytes (New ▹ U8 36 ▹ U8 0 ▹ Raw (optNonZeroKey authority) ▹ Raw (optNonZeroKey programId))).

Definition NewUpdateTransferHook (mint authority : PublicKey) (programId : option PublicKey) : Instruction :=
  NewInstruction ProgramID (with_authority mint authority)
    (Bytes (New ▹ U8 36 ▹ U8 1 ▹ Raw (optNonZeroKey programId))).

Definition NewEnableRequiredMemoTransfers (account owner : PublicKey) : Instruction :=
  NewInstruction ProgramID (with_authority account owner) [30; 0].
Definition NewDisableRequiredMemoTransfers (account owner : PublicKey) : Instruction :=
  NewInstruction ProgramID (with_authority account owner) [30; 1].
Definition NewEnableCpiGuard (account owner : PublicKey) : Instruction :=
  NewInstruction ProgramID (with_authority account owner) [34; 0].
Definition NewDisableCpiGuard (account owner : PublicKey) : Instruction :=
  NewInstruction ProgramID (with_authority account owner) [34; 1].

(** ** Specification *)

(** A call of one of the extension builders. *)
Inductive call :=
| InitializeMintCloseAuthority (mint : PublicKey) (closeAuth : option PublicKey)
| InitializeNonTransferableMint (mint : PublicKey)
| InitializePermanentDelegate (mint delegate : PublicKey)
| InitializeDefaultAccountState (mint : PublicKey) (state : Z)
| UpdateDefaultAccountState (mint freezeAuthority : PublicKey) (state : Z)
| InitializeTransferFeeConfig (mint : PublicKey) (feeAuth withheldAuth : option PublicKey) (bps maxFee : Z)
| SetTransferFee (mint authority : PublicKey) (bps maxFee : Z)
| WithdrawWithheldTokensFromMint (mint destination authority : PublicKey)
| WithdrawWithheldTokensFromAccounts (mint destination authority : PublicKey) (sources : list PublicKey)
| HarvestWithheldTokensToMint (mint : PublicKey) (sources : list PublicKey)
| InitializeInterestBearingMint (mint : PublicKey) (rateAuth : option PublicKey) (rate : Z)
| UpdateInterestBearingMintRate (mint rateAuth : PublicKey) (rate : Z)
| InitializeMetadataPointer (mint : PublicKey) (authority metadata : option PublicKey)
| UpdateMetadataPointer (mint authority : PublicKey) (metadata : option PublicKey)
| InitializeTransferHook (mint : PublicKey) (authority programId : option PublicKey)
| UpdateTransferHook (mint authority : PublicKey) (programId : option PublicKey)
| EnableRequiredMemoTransfers (account owner : PublicKey)
| DisableRequiredMemoTransfers (account owner : PublicKey)
| EnableCpiGuard (account owner : PublicKey)
| DisableCpiGuard (account owner : PublicKey).

Definition build (c : call) : Instruction :=
  match c with
  | InitializeMintCloseAuthority m k => NewInitializeMintCloseAuthority m k
  | InitializeNonTransferableMint m => NewInitializeNonTransferableMint m
  | InitializePermanentDelegate m d => NewInitializePermanentDelegate m d
  | InitializeDefaultAccountState m s => NewInitializeDefaultAccountState m s
  | UpdateDefaultAccountState m f s => NewUpdateDefaultAccountState m f s
  | InitializeTransferFeeConfig m a b bps mx => NewInitializeTransferFeeConfig m a b bps mx
  | SetTransferFee m a bps mx => NewSetTransferFee m a bps mx
  | WithdrawWithheldTokensFromMint m d a => NewWithdrawWithheldTokensFromMint m d a
  | WithdrawWithheldTokensFromAccounts m d a ss => NewWithdrawWithheldTokensFromAccounts m d a ss
  | HarvestWithheldTokensToMint m ss => NewHarvestWithheldTokensToMint m ss
  | InitializeInterestBearingMint m a r => NewInitializeInterestBearingMint m a r
  | UpdateInterestBearingMintRate m a r => NewUpdateInterestBearingMintRate m a r
  | InitializeMetadataPointer m a k => NewInitializeMetadataPointer m a k
  | UpdateMetadataPointer m a k => NewUpdateMetadataPointer m a k
  | InitializeTransferHook m a p => NewInitializeTransferHook m a p
  | UpdateTransferHook m a p => NewUpdateTransferHook m a p
  | EnableRequiredMemoTransfers a o => NewEnableRequiredMemoTransfers a o
  | DisableRequiredMemoTransfers a o => NewDisableRequiredMemoTransfers a o
  | EnableCpiGuard a o => NewEnableCpiGuard a o
  | DisableCpiGuard a o => NewDisableCpiGuard a o
  end.

(** An optional key that is present is not the zero key, which is how its
    absence is written. *)
Definition wf_nz (o : option PublicKey) : Prop :=
  match o with Some k => wf_key k ∧ k ≠ zero_array 32 | None => True end.
#[export] Instance wf_nz_dec o : Decision (wf_nz o).
Proof. destruct o; apply _. Defined.

Definition wf_call (c : call) : Prop :=
  match c with
  | InitializeMintCloseAuthority _ k | UpdateMetadataPointer _ _ k | UpdateTransferHook _ _ k => wf_nz k
  | InitializePermanentDelegate _ d => wf_key d
  | InitializeDefaultAccountState _ s | UpdateDefaultAccountState _ _ s => is_u 8 s
  | InitializeTransferFeeConfig _ a b bps mx => wf_nz a ∧ wf_nz b ∧ is_u 16 bps ∧ is_u 64 mx
  | SetTransferFee _ _ bps mx => is_u 16 bps ∧ is_u 64 mx
  | WithdrawWithheldTokensFromAccounts _ _ _ ss => zlen ss ≤ 255
  | InitializeInterestBearingMint _ a r => wf_nz a ∧ is_s 16 r
  | UpdateInterestBearingMintRate _ _ r => is_s 16 r
  | InitializeMetadataPointer _ a k | InitializeTransferHook _ a k => wf_nz a ∧ wf_nz k
  | _ => True
  end.

#[export] Instance wf_call_dec c : Decision (wf_call c).
Proof. destruct c; apply _. Defined.

Definition read_nz : Dec (option PublicKey) :=
  k ← read_key; mret (if decide (k = zero_array 32) then None else Some k).

(** The fields of an extension instruction. *)
Inductive ExtensionInstruction :=
| I_MintCloseAuthority (k : option PublicKey)
| I_PermanentDelegate (k : PublicKey)
| I_DefaultAccountState (sub state : Z)
| I_TransferFeeConfig (a b : option PublicKey) (bps maxFee : Z)
| I_SetTransferFee (bps maxFee : Z)
| I_WithdrawFromAccounts (n : Z)
| I_InterestBearing (a : option PublicKey) (rate : Z)
| I_UpdateRate (rate : Z)
| I_Pointers (tag : Z) (a k : option PublicKey)
| I_Pointer (tag : Z) (k : option PublicKey)
| I_Sub (tag sub : Z)
| I_NonTransferable.

Definition read_sub (tag sub : Z) : Dec ExtensionInstruction :=
  match tag, sub with
  | 28, (0 | 1) => s ← ReadUint8; mret (I_DefaultAccountState sub s)
  | 26, 0 => a ← read_nz; b ← read_nz; bps ← ReadUint16; mx ← ReadUint64; mret (I_TransferFeeConfig a b bps mx)
  | 26, 5 => bps ← ReadUint16; mx ← ReadUint64; mret (I_SetTransferFee bps mx)
  | 26, 3 => n ← ReadUint8; mret (I_WithdrawFromAccounts n)
  | 33, 0 => a ← read_nz; r ← read_i16; mret (I_InterestBearing a r)
  | 33, 1 => r ← read_i16; mret (I_UpdateRate r)
  | (36 | 39), 0 => a ← read_nz; k ← read_nz; mret (I_Pointers tag a k)
  | (36 | 39), 1 => k ← read_nz; mret (I_Pointer tag k)
  | 26, (2 | 4) | 30, (0 | 1) | 34, (0 | 1) => mret (I_Sub tag sub)
  | _, _ => fail ErrShortBuffer
  end.

Definition read_tag (tag : Z) : Dec ExtensionInstruction :=
  match tag with
  | 25 => k ← read_nz; mret (I_MintCloseAuthority k)
  | 32 => mret I_NonTransferable
  | 35 => k ← read_key; mret (I_PermanentDelegate k)
  | _ => sub ← ReadUint8; read_sub tag sub
  end.

Definition read_data : Dec ExtensionInstruction := tag ← ReadUint8; read_tag tag.

Definition interp (i : ExtensionInstruction) (rs : list role) : option call :=
  match i, rs with
  | I_MintCloseAuthority k, [RW m] => Some (InitializeMintCloseAuthority m k)
  | I_NonTransferable, [RW m] => Some (InitializeNonTransferableMint m)
  | I_PermanentDelegate d, [RW m] => Some (InitializePermanentDelegate m d)
  | I_DefaultAccountState 0 s, [RW m] => Some (InitializeDefaultAccountState m s)
  | I_DefaultAccountState 1 s, [RW m; SG f] => Some (UpdateDefaultAccountState m f s)
  | I_TransferFeeConfig a b bps mx, [RW m] => Some (InitializeTransferFeeConfig m a b bps mx)
  | I_SetTransferFee bps mx, [RW m; SG a] => Some (SetTransferFee m a bps mx)
  | I_Sub 26 2, [RW m; RW d; SG a] => Some (WithdrawWithheldTokensFromMint m d a)
  | I_WithdrawFromAccounts n, RW m :: RW d :: SG a :: rest =>
      ss ← keys_of the_RW rest;
      if zlen ss =? n then Some (WithdrawWithheldTokensFromAccounts m d a ss) else None
  | I_Sub 26 4, RW m :: rest => ss ← keys_of the_RW rest; Some (HarvestWithheldTokensToMint m ss)
  | I_InterestBearing a r, [RW m] => Some (InitializeInterestBearingMint m a r)
  | I_UpdateRate r, [RW m; SG a] => Some (UpdateInterestBearingMintRate m a r)
  | I_Pointers 39 a k, [RW m] => Some (InitializeMetadataPointer m a k)
  | I_Pointer 39 k, [RW m; SG a] => Some (UpdateMetadataPointer m a k)
  | I_Pointers 36 a k, [RW m] => Some (InitializeTransferHook m a k)
  | I_Pointer 36 k, [RW m; SG a] => Some (UpdateTransferHook m a k)
  | I_Sub 30 0, [RW a; SG o] => Some (EnableRequiredMemoTransfers a o)
  | I_Sub 30 1, [RW a; SG o] => Some (DisableRequiredMemoTransfers a o)
  | I_Sub 34 0, [RW a; SG o] => Some (EnableCpiGuard a o)
  | I_Sub 34 1, [RW a; SG o] => Some (DisableCpiGuard a o)
  | _, _ => None
  end.

Definition parse : Instruction → option call := parse_ix ProgramID read_data interp.

(** ** Lemmas *)

Lemma reads_nz o : wf_nz o → reads read_nz (optNonZeroKey o) o.
Proof.
  intros Ho. apply reads_tail. unfold read_nz. destruct o as [k|]; cbn [optNonZeroKey].
  - destruct Ho. eapply reads_seq; [by apply reads_pubkey|]. rewrite decide_False by done. apply reads_ret.
  - eapply reads_seq; [apply reads_pubkey; split; [done|by repeat constructor]|].
    rewrite decide_True by done. apply reads_ret.
Qed.

Lemma append_sources_metas ss ms :
  append_sources ss (metas ms) = metas (ms ++ ((λ s, NewAccountMeta s false true) <$> ss)).
Proof.
  unfold append_sources. revert ms. induction ss as [|s ss IH]; intros ms; cbn [fold_left].
  { by rewrite app_nil_r. }
  change (metas ms ++ [Some ?a]) with (metas ms ++ metas [a]). unfold metas at 1 2.
  rewrite <- fmap_app. change (Some <$> ?l) with (metas l). rewrite IH.
  by rewrite fmap_cons, <- (assoc_L (++)).
Qed.

Local Hint Resolve reads_nz : wire.

Ltac t22_data :=
  unfold read_data; rds; cbv beta iota delta [read_tag];
  repeat rd; cbv beta iota delta [read_sub]; repeat rd; apply reads_ret.
Ltac t22 := unfold mint_only, with_authority; eapply parse_ix_intro; [t22_data|roles_done].

(** Data given as a literal. *)
Lemma cons_app (x : Z) y l : x :: y :: l = [x] ++ y :: l.
Proof. done. Qed.

(** Every extension builder of the token2022 package is inverted by the
    reference reader of the extension instructions, for all arguments in
    range: signed rates, optional keys written as the zero key when absent,
    at most 255 fee sources, each account in its place with exactly its flags;
    so no two calls produce the same instruction.  The wrapped classic
    builders keep the data and accounts of the token instruction they wrap and
    only change the program id, so that any reader of token instructions reads
    them alike under the new id. *)
Theorem token2022_parse_build :
  (∀ c, wf_call c → parse (build c) = Some c) ∧
  (∀ A B (dec : Dec A) (interp : A → list role → option B) ix,
     Ix_ProgramID (Wrap ix) = ProgramID ∧
     parse_ix ProgramID dec interp (Wrap ix) = parse_ix (Ix_ProgramID ix) dec interp ix).
Proof.
  split.
  2: { intros. split; [done|]. unfold parse_ix, Wrap. simpl. by rewrite !decide_True by done. }
  intros c. destruct c as [| | | | | | | |m d a ss|m ss| | | | | | | | | |];
    cbn [wf_call build]; intros; destruct_and?; unfold parse;
    unfold NewInitializeDefaultAccountState, NewUpdateDefaultAccountState, NewWithdrawWithheldTokensFromMint,
      NewEnableRequiredMemoTransfers, NewDisableRequiredMemoTransfers, NewEnableCpiGuard, NewDisableCpiGuard,
      NewWithdrawWithheldTokensFromAccounts, NewHarvestWithheldTokensToMint;
    rewrite ?append_sources_metas, ?cons_app; try t22.
  - rewrite (wrapU_small 8) by (pose proof (zlen_nonneg ss); unfold is_u; lia).
    assert (is_u 8 (zlen ss)) by (pose proof (zlen_nonneg ss); unfold is_u; lia).
    eapply parse_ix_intro; [t22_data|]. rewrite fmap_app. cbn.
    rewrite (keys_of_metas the_RW) by done. cbn [mbind option_bind]. by rewrite Z.eqb_refl.
  - eapply parse_ix_intro; [t22_data|]. rewrite fmap_app. cbn. by rewrite (keys_of_metas the_RW).
Qed.

(** More than 255 sources: the count byte wraps, and the instruction no
    longer reads back. *)
Lemma withdraw_count_truncated m d a k :
  parse (NewWithdrawWithheldTokensFromAccounts m d a (replicate 256 k)) = None.
Proof.
  unfold NewWithdrawWithheldTokensFromAccounts. rewrite append_sources_metas.
  unfold parse, parse_ix. cbn [NewInstruction Ix_ProgramID Ix_Data Ix_Accounts].
  rewrite decide_True by done. rewrite zlen_replicate.
  change (run_all read_data [26; 3; u8 (Z.of_nat 256)]) with (Some (I_WithdrawFromAccounts 0)).
  cbn [mbind option_bind]. rewrite roles_metas, fmap_app. cbn [mbind option_bind fmap list_fmap app].
  cbn [interp role_of NewAccountMeta IsSigner IsWritable Meta_PublicKey].
  change (list_fmap ?A ?B ?f ?l) with (f <$> l).
  rewrite (keys_of_metas the_RW) by done. done.
Qed.
End token2022.

Lemma token2022_parse_build_witness :
  let c := InitializeInterestBearingMint (zero_array 32) (Some (replicate 32 1)) (-250) in
  wf_call c ∧ @parse ToyBase58.toy_base58 (@build ToyBase58.toy_base58 c) = Some c.
Proof.
  intros c. assert (wf_call c) as Hc by (apply (bool_decide_unpack _); by vm_compute).
  split; [exact Hc|].
  pose proof (@token2022_parse_build ToyBase58.toy_base58) as [H _]. exact (H c Hc).
Defined.
