(* ===== verification/PriorityFee.v ===== *)
(** * Priority fee statistics: [rpc/priorityfee.go]

    The percentiles of a window of fees.  The specification is the rank: the
    percentile [p] of [n] samples is the sample of rank
    [max 1 (p * n / 100)] in ascending order. *)

From S2P Require Import Prelude.

Record PriorityFeeStats := mkFeeStats {
  P50 : Z;
  P75 : Z;
  P95 : Z;
  Max : Z;
  Samples : Z;
}.

(** [sorted] ascending; integer division truncates.  The product [p * n] of two
    [int]s is exact: a slice that fits in memory has fewer than [2^56]
    elements. *)
Definition percentile (sorted : list Z) (p : Z) : result Z :=
  let n := zlen sorted in
  if n =? 0 then Ok 0 else
  let idx := Z.quot (p * n) 100 in
  let idx := if 0 <? idx then idx - 1 else idx in
  let idx := if n <=? idx then n - 1 else idx in
  index_at sorted idx.

(** The [PrioritizationFee] fields of the input, in its order. *)
Definition PriorityFeeStatsFromFees (fees : list Z) : result PriorityFeeStats :=
  if zlen fees =? 0 then Ok (mkFeeStats 0 0 0 0 0) else
  let values := merge_sort Z.le fees in
  p50 ← percentile values 50;
  p75 ← percentile values 75;
  p95 ← percentile values 95;
  max ← index_at values (zlen values - 1);
  Ok (mkFeeStats p50 p75 p95 max (zlen values)).

(** ** Specification *)

Definition count_le (fees : list Z) (v : Z) : Z := zlen (filter (λ x, x ≤ v) fees).
Definition count_lt (fees : list Z) (v : Z) : Z := zlen (filter (λ x, x < v) fees).

(** [v] is the sample of rank [k], counting from 1. *)
Definition has_rank (fees : list Z) (k v : Z) : Prop :=
  v ∈ fees ∧ count_lt fees v < k ≤ count_le fees v.

Definition rank_of (p n : Z) : Z := Z.max 1 (p * n / 100).

(** ** Lemmas *)

Lemma zlen_filter_le {A} (P : A → Prop) `{∀ x, Decision (P x)} l : zlen (filter P l) ≤ zlen l.
Proof. unfold zlen. pose proof (length_filter P l). lia. Qed.

Lemma filter_none {A} (P : A → Prop) `{∀ x, Decision (P x)} l : Forall (λ x, ¬ P x) l → filter P l = [].
Proof. induction 1 as [|x l Hx _ IH]; [done|]. by rewrite filter_cons_False. Qed.

(** In a sorted list the element at position [i] has rank [i + 1]. *)
Lemma sorted_rank l i v :
  StronglySorted Z.le l → l !! i = Some v → has_rank l (Z.of_nat i + 1) v.
Proof.
  intros Hs Hi. apply list_elem_of_split_length in Hi as (l1 & l2 & -> & Hlen).
  apply StronglySorted_app in Hs as (H12 & H1 & H2).
  inversion_clear H2 as [|?? _ Hv].
  split; [set_solver|]. unfold count_lt, count_le. rewrite !filter_app, !zlen_app.
  assert (Hle : Forall (λ x, x ≤ v) l1).
  { apply Forall_forall. intros x Hx. apply H12; [done|left]. }
  rewrite (filter_all (λ x, x ≤ v) l1) by done.
  rewrite filter_cons_False by lia. rewrite filter_cons_True by lia.
  rewrite (filter_none (λ x, x < v) l2).
  2: { eapply Forall_impl; [done|]. simpl. lia. }
  rewrite zlen_nil, zlen_cons.
  pose proof (zlen_filter_le (λ x, x < v) l1). pose proof (zlen_nonneg (filter (λ x, x ≤ v) l2)).
  unfold zlen in *. lia.
Qed.

Lemma has_rank_Permutation l l' k v : l ≡ₚ l' → has_rank l k v → has_rank l' k v.
Proof.
  intros Hp [Hin Hk]. unfold has_rank, count_le, count_lt, zlen in *.
  split; [by rewrite <- Hp|]. by rewrite <- !Hp.
Qed.

Lemma percentile_rank l p :
  0 ≤ p ≤ 100 → l ≠ [] → StronglySorted Z.le l →
  ∃ v, percentile l p = Ok v ∧ has_rank l (rank_of p (zlen l)) v.
Proof.
  intros Hp Hne Hs. unfold percentile, rank_of.
  assert (0 < zlen l) by (destruct l; [done|rewrite zlen_cons; pose proof (zlen_nonneg l); lia]).
  rewrite (proj2 (Z.eqb_neq _ _)) by lia.
  rewrite Z.quot_div_nonneg by lia. set (q := p * zlen l / 100).
  assert (0 ≤ q ≤ zlen l).
  { unfold q. split; [apply Z.div_pos; lia|]. apply Z.div_le_upper_bound; nia. }
  assert (Hidx : (let idx := if 0 <? q then q - 1 else q in if zlen l <=? idx then zlen l - 1 else idx)
            = Z.max 1 q - 1).
  { cbv zeta. destruct (Z.ltb_spec 0 q).
    - rewrite (proj2 (Z.leb_gt _ _)) by lia. lia.
    - rewrite (proj2 (Z.leb_gt _ _)) by lia. lia. }
  cbv zeta in Hidx. rewrite Hidx.
  destruct (lookup_lt_is_Some_2 l (Z.to_nat (Z.max 1 q - 1))) as [v Hv].
  { unfold zlen in *. lia. }
  exists v. split; [by apply index_at_Some; split; [lia|]|].
  replace (Z.max 1 q) with (Z.of_nat (Z.to_nat (Z.max 1 q - 1)) + 1) by lia. by apply sorted_rank.
Qed.

Lemma rank_monotone l k k' v v' : has_rank l k v → has_rank l k' v' → k ≤ k' → v ≤ v'.
Proof.
  intros [_ [Hlt _]] [_ [_ Hle]] Hk. destruct (Z.le_gt_cases v v') as [|Hgt]; [done|exfalso].
  assert (count_le l v' ≤ count_lt l v); [|lia].
  unfold count_le, count_lt, zlen. clear - Hgt.
  induction l as [|x l IH]; [done|]. rewrite !filter_cons.
  repeat case_decide; simpl; lia.
Qed.

Lemma rank_of_le p n : p ≤ 100 → 0 < n → rank_of p n ≤ n.
Proof. intros. unfold rank_of. apply Z.max_lub; [lia|]. apply Z.div_le_upper_bound; nia. Qed.

Lemma rank_of_mono p q n : p ≤ q → 0 < n → rank_of p n ≤ rank_of q n.
Proof. intros. unfold rank_of. apply Z.max_le_compat_l, Z.div_le_mono; nia. Qed.

Lemma merge_sort_same l l' : l' ≡ₚ l → merge_sort Z.le l' = merge_sort Z.le l.
Proof.
  intros Hp. apply (StronglySorted_unique Z.le); [apply StronglySorted_merge_sort; apply _..|].
  by rewrite !merge_sort_Permutation.
Qed.

(** ** Property *)

(** The fee statistics are order statistics.  On a non-empty window the
    computation never fails, [P50], [P75], [P95] and [Max] are samples of rank
    [max 1 (p * n / 100)] (the maximum has rank [n]), they are ordered
    [P50 <= P75 <= P95 <= Max], no sample exceeds [Max], the count is exact,
    and the order of the window does not matter; an empty window gives zeros. *)
Theorem PriorityFeeStats_order_statistics fees :
  match fees with
  | [] => PriorityFeeStatsFromFees fees = Ok (mkFeeStats 0 0 0 0 0)
  | _ => ∃ s, PriorityFeeStatsFromFees fees = Ok s ∧
      let n := zlen fees in
      Samples s = n ∧
      has_rank fees (rank_of 50 n) (P50 s) ∧ has_rank fees (rank_of 75 n) (P75 s) ∧
      has_rank fees (rank_of 95 n) (P95 s) ∧ has_rank fees n (Max s) ∧
      P50 s ≤ P75 s ≤ P95 s ∧ P95 s ≤ Max s ∧ Forall (λ f, f ≤ Max s) fees ∧
      ∀ fees', fees' ≡ₚ fees → PriorityFeeStatsFromFees fees' = Ok s
  end.
Proof.
  destruct (decide (fees = [])) as [->|Hne]; [done|].
  destruct fees as [|f0 fs]; [done|]. set (fees := f0 :: fs) in *.
  pose proof (merge_sort_Permutation Z.le fees) as Hp.
  pose proof (StronglySorted_merge_sort Z.le fees) as Hs.
  set (l := merge_sort Z.le fees) in *.
  assert (Hlen : zlen l = zlen fees) by (unfold zlen; by rewrite Hp).
  assert (Hl : l ≠ []) by (intros Hl; rewrite Hl in Hp; by apply Permutation_nil_l in Hp).
  assert (Hn : 0 < zlen fees) by (unfold fees; rewrite zlen_cons; pose proof (zlen_nonneg fs); lia).
  destruct (percentile_rank l 50) as (v50 & E50 & R50); [lia|done..|].
  destruct (percentile_rank l 75) as (v75 & E75 & R75); [lia|done..|].
  destruct (percentile_rank l 95) as (v95 & E95 & R95); [lia|done..|].
  destruct (lookup_lt_is_Some_2 l (Z.to_nat (zlen l - 1))) as [m Hm]; [unfold zlen in *; lia|].
  assert (Em : index_at l (zlen l - 1) = Ok m) by (apply index_at_Some; split; [lia|done]).
  pose proof (sorted_rank l _ m Hs Hm) as Rm.
  replace (Z.of_nat (Z.to_nat (zlen l - 1)) + 1) with (zlen l) in Rm by lia.
  assert (Heq : ∀ fees', fees' ≡ₚ fees → PriorityFeeStatsFromFees fees' = Ok (mkFeeStats v50 v75 v95 m (zlen fees))).
  { intros fees' Hf. unfold PriorityFeeStatsFromFees.
    rewrite (merge_sort_same fees fees') by done. fold l.
    assert (zlen fees' = zlen fees) as -> by (unfold zlen; by rewrite Hf).
    rewrite (proj2 (Z.eqb_neq _ _)) by lia.
    rewrite E50, E75, E95. cbn [mbind result_bind]. rewrite Em. cbn [mbind result_bind]. by rewrite Hlen. }
  exists (mkFeeStats v50 v75 v95 m (zlen fees)). split; [by apply Heq|]. cbn [Samples P50 P75 P95 Max].
  rewrite Hlen in *.
  split_and!; try done; try (eapply has_rank_Permutation; [exact Hp|done]).
  - by apply (rank_monotone l _ _ _ _ R50 R75), rank_of_mono.
  - by apply (rank_monotone l _ _ _ _ R75 R95), rank_of_mono.
  - by apply (rank_monotone l _ _ _ _ R95 Rm), rank_of_le.
  - apply Forall_forall. intros f Hf. rewrite <- Hp in Hf.
    apply list_elem_of_lookup in Hf as [i Hi].
    pose proof (lookup_lt_Some _ _ _ Hi). pose proof (sorted_rank l i f Hs Hi) as Rf.
    apply (rank_monotone l _ _ _ _ Rf Rm). unfold zlen in *. lia.
Qed.

Lemma PriorityFeeStats_order_statistics_witness :
  PriorityFeeStatsFromFees [3000; 1000; 2000] = Ok (mkFeeStats 1000 2000 2000 3000 3).
Proof.
  destruct (PriorityFeeStats_order_statistics [1000; 2000; 3000]) as (s & Hs & Hall).
  assert (Hp : [3000; 1000; 2000] ≡ₚ [1000; 2000; 3000]) by (apply (bool_decide_unpack _); by vm_compute).
  destruct Hall as (_ & _ & _ & _ & _ & _ & _ & _ & Hperm).
  rewrite (Hperm _ Hp), <- Hs. by vm_compute.
Defined.
