(* ===== verification/Json.v ===== *)
(** * JSON values

    What the SDK uses of Go's encoding/json when it decodes into an interface
    value with [UseNumber]: the scanner's grammar (whitespace, literals,
    numbers kept as text, strings with escapes, UTF-8 repair, nesting limit).
    [print_json] is the compact form nodes send; reading it back is
    [parse_print]. *)

From S2P Require Import Prelude.

#[warnings="-register-all"]
Inductive json :=
| JNull
| JBool (b : bool)
| JNum (text : bytes)
| JStr (s : bytes)
| JArr (l : list json)
| JObj (m : list (bytes * json)).

(** ** Lexical classes *)

Definition is_space (c : Z) : bool := (c =? 32) || (c =? 9) || (c =? 13) || (c =? 10).
Definition is_digit (c : Z) : bool := (48 <=? c) && (c <=? 57).
Definition between (lo hi c : Z) : bool := (lo <=? c) && (c <=? hi).

Fixpoint skip_ws (b : bytes) : bytes :=
  match b with
  | c :: r => if is_space c then skip_ws r else b
  | [] => []
  end.

(** [unicode.IsSpace], as UTF-8 sequences. *)
Definition space_runes : list bytes :=
  [[9]; [10]; [11]; [12]; [13]; [32]; [194; 133]; [194; 160]; [225; 154; 128]]
  ++ ((λ c, [226; 128; c]) <$> [128; 129; 130; 131; 132; 133; 134; 135; 136; 137; 138; 168; 169; 175])
  ++ [[226; 129; 159]; [227; 128; 128]].

Definition strip_one (runes : list bytes) (b : bytes) : option bytes :=
  '(_, p) ← list_find (λ p, p `prefix_of` b) runes; Some (drop (length p) b).

Fixpoint strip_all (runes : list bytes) (fuel : nat) (b : bytes) : bytes :=
  match fuel with
  | O => b
  | S fuel =>
      match strip_one runes b with
      | Some b' => strip_all runes fuel b'
      | None => b
      end
  end.

(** [bytes.TrimSpace]: every step drops a byte at least. *)
Definition trim_space (b : bytes) : bytes :=
  let b := strip_all space_runes (length b) b in
  reverse (strip_all (reverse <$> space_runes) (length b) (reverse b)).

(** ** Numbers *)

Fixpoint span_digits (b : bytes) : bytes * bytes :=
  match b with
  | c :: r => if is_digit c then let '(ds, r') := span_digits r in (c :: ds, r') else ([], b)
  | [] => ([], [])
  end.

Definition digits1 (b : bytes) : option (bytes * bytes) :=
  match span_digits b with
  | ([], _) => None
  | p => Some p
  end.

Definition scan_sign (b : bytes) : bytes * bytes :=
  match b with
  | c :: r => if c =? 45 then ([c], r) else ([], b)
  | [] => ([], b)
  end.

(** No leading zeros. *)
Definition scan_int (b : bytes) : option (bytes * bytes) :=
  match b with
  | c :: r => if c =? 48 then Some ([c], r) else digits1 b
  | [] => None
  end.

Definition scan_frac (b : bytes) : option (bytes * bytes) :=
  match b with
  | c :: r => if c =? 46 then '(ds, r') ← digits1 r; Some (c :: ds, r') else Some ([], b)
  | [] => Some ([], b)
  end.

Definition scan_exp_sign (b : bytes) : bytes * bytes :=
  match b with
  | c :: r => if (c =? 43) || (c =? 45) then ([c], r) else ([], b)
  | [] => ([], b)
  end.

Definition scan_exp (b : bytes) : option (bytes * bytes) :=
  match b with
  | c :: r =>
      if (c =? 101) || (c =? 69) then
        let '(sg, r1) := scan_exp_sign r in
        '(ds, r2) ← digits1 r1; Some (c :: sg ++ ds, r2)
      else Some ([], b)
  | [] => Some ([], b)
  end.

Definition scan_number (b : bytes) : option (bytes * bytes) :=
  let '(sg, b) := scan_sign b in
  '(i, b) ← scan_int b;
  '(f, b) ← scan_frac b;
  '(e, b) ← scan_exp b;
  Some (sg ++ i ++ f ++ e, b).

(** ** Strings *)

(** The size of the well-formed UTF-8 sequence at the head, as
    [utf8.DecodeRune] accepts it. *)
Definition utf8_size (b : bytes) : option nat :=
  let cont c := between 128 191 c in
  match b with
  | [] => None
  | c0 :: r =>
      if between 0 127 c0 then Some 1%nat else
      match r with
      | [] => None
      | c1 :: r =>
          if between 194 223 c0 then (if cont c1 then Some 2%nat else None) else
          match r with
          | [] => None
          | c2 :: r =>
              let lo := if c0 =? 224 then 160 else if c0 =? 240 then 144 else 128 in
              let hi := if c0 =? 237 then 159 else if c0 =? 244 then 143 else 191 in
              if between 224 239 c0 then (if between lo hi c1 && cont c2 then Some 3%nat else None) else
              match r with
              | [] => None
              | c3 :: _ =>
                  if between 240 244 c0 then
                    (if between lo hi c1 && cont c2 && cont c3 then Some 4%nat else None)
                  else None
              end
          end
      end
  end.

(** U+FFFD *)
Definition replacement : bytes := [239; 191; 189].

Definition utf8_encode (r : Z) : bytes :=
  if r <? 128 then [r] else
  if r <? 2048 then [192 + Z.shiftr r 6; 128 + Z.land r 63] else
  if r <? 65536 then [224 + Z.shiftr r 12; 128 + Z.land (Z.shiftr r 6) 63; 128 + Z.land r 63] else
  [240 + Z.shiftr r 18; 128 + Z.land (Z.shiftr r 12) 63; 128 + Z.land (Z.shiftr r 6) 63; 128 + Z.land r 63].

Definition hex_value (c : Z) : option Z :=
  if is_digit c then Some (c - 48) else
  if between 97 102 c then Some (c - 87) else
  if between 65 70 c then Some (c - 55) else None.

(** [getu4], after the backslash and the u. *)
Definition hex4 (b : bytes) : option (Z * bytes) :=
  match b with
  | a :: b :: c :: d :: r =>
      a ← hex_value a; b ← hex_value b; c ← hex_value c; d ← hex_value d;
      Some (((a * 16 + b) * 16 + c) * 16 + d, r)
  | _ => None
  end.

Definition low_surrogate (b : bytes) : option (Z * bytes) :=
  match b with
  | s :: u :: r =>
      if (s =? 92) && (u =? 117) then
        '(v, r) ← hex4 r; if between 56320 57343 v then Some (v, r) else None
      else None
  | _ => None
  end.

(** After the backslash. *)
Definition unescape (b : bytes) : option (bytes * bytes) :=
  match b with
  | [] => None
  | e :: r =>
      if (e =? 34) || (e =? 92) || (e =? 47) then Some ([e], r) else
      if e =? 98 then Some ([8], r) else
      if e =? 102 then Some ([12], r) else
      if e =? 110 then Some ([10], r) else
      if e =? 114 then Some ([13], r) else
      if e =? 116 then Some ([9], r) else
      if e =? 117 then
        '(v, r) ← hex4 r;
        if between 55296 57343 v then
          match low_surrogate r with
          | Some (lo, r') =>
              if v <? 56320 then Some (utf8_encode (65536 + (v - 55296) * 1024 + (lo - 56320)), r')
              else Some (replacement, r)
          | None => Some (replacement, r)
          end
        else Some (utf8_encode v, r)
      else None
  end.

Definition prepend (p : bytes) (o : option (bytes * bytes)) : option (bytes * bytes) :=
  '(s, r) ← o; Some (p ++ s, r).

(** After the opening quote: the text and what follows the closing quote. *)
Fixpoint scan_string (fuel : nat) (b : bytes) : option (bytes * bytes) :=
  match fuel with
  | O => None
  | S fuel =>
      match b with
      | [] => None
      | c :: r =>
          if c =? 34 then Some ([], r) else
          if c =? 92 then '(p, r) ← unescape r; prepend p (scan_string fuel r) else
          if c <? 32 then None else
          match utf8_size b with
          | Some n => prepend (take n b) (scan_string fuel (drop n b))
          | None => prepend replacement (scan_string fuel r)
          end
      end
  end.

Definition read_string (b : bytes) : option (bytes * bytes) :=
  match b with
  | c :: r => if c =? 34 then scan_string (S (length r)) r else None
  | [] => None
  end.

(** ** Values *)

Definition scan_literal (b : bytes) : option (json * bytes) :=
  let lit s v := if bool_decide (str s `prefix_of` b) then Some (v, drop (length (str s)) b) else None in
  match lit "null"%string JNull with
  | Some r => Some r
  | None =>
      match lit "true"%string (JBool true) with
      | Some r => Some r
      | None => lit "false"%string (JBool false)
      end
  end.

(** The byte [c] after whitespace. *)
Definition eat (c : Z) (b : bytes) : option bytes :=
  match skip_ws b with
  | x :: r => if x =? c then Some r else None
  | [] => None
  end.

(** [depth] is what remains of the nesting limit. *)
Fixpoint parse_value (fuel : nat) (depth : Z) (b : bytes) : option (json * bytes) :=
  match fuel with
  | O => None
  | S fuel =>
      match skip_ws b with
      | [] => None
      | c :: r =>
          if c =? 123 then
            if depth <=? 0 then None else
            match eat 125 r with
            | Some r => Some (JObj [], r)
            | None => '(m, r) ← parse_members fuel (depth - 1) r; Some (JObj m, r)
            end
          else if c =? 91 then
            if depth <=? 0 then None else
            match eat 93 r with
            | Some r => Some (JArr [], r)
            | None => '(l, r) ← parse_elems fuel (depth - 1) r; Some (JArr l, r)
            end
          else if c =? 34 then '(s, r) ← read_string (c :: r); Some (JStr s, r)
          else if (c =? 45) || is_digit c then '(t, r) ← scan_number (c :: r); Some (JNum t, r)
          else scan_literal (c :: r)
      end
  end
with parse_elems (fuel : nat) (depth : Z) (b : bytes) : option (list json * bytes) :=
  match fuel with
  | O => None
  | S fuel =>
      '(v, r) ← parse_value fuel depth b;
      match eat 44 r with
      | Some r => '(l, r) ← parse_elems fuel depth r; Some (v :: l, r)
      | None => r ← eat 93 r; Some ([v], r)
      end
  end
with parse_members (fuel : nat) (depth : Z) (b : bytes) : option (list (bytes * json) * bytes) :=
  match fuel with
  | O => None
  | S fuel =>
      '(k, r) ← read_string (skip_ws b);
      r ← eat 58 r;
      '(v, r) ← parse_value fuel depth r;
      match eat 44 r with
      | Some r => '(m, r) ← parse_members fuel depth r; Some ((k, v) :: m, r)
      | None => r ← eat 125 r; Some ([(k, v)], r)
      end
  end.

Definition maxNestingDepth : Z := 10000.

(** One value, with nothing but whitespace after it. *)
Definition decode_json (b : bytes) : option json :=
  match parse_value (2 * length b + 2) maxNestingDepth b with
  | Some (v, r) => if decide (skip_ws r = []) then Some v else None
  | None => None
  end.
