(* ===== verification/JsonSpec.v ===== *)
(** * The JSON reader is right

    [parse_fuel]: the fuel [decode_json] gives is enough, whatever the input.
    [decode_print]: reading the compact form of a value gives the value. *)

From S2P Require Import Prelude Json.

(** ** Progress: what each scanner leaves is shorter *)

Lemma skip_ws_length b : (length (skip_ws b) ≤ length b)%nat.
Proof. induction b as [|c r IH]; simpl; [lia|]. case_match; simpl; lia. Qed.

Lemma eat_length c b r : eat c b = Some r → (length r < length b)%nat.
Proof.
  unfold eat. pose proof (skip_ws_length b). destruct (skip_ws b) as [|x r']; [done|].
  case_match; [|done]. intros [= <-]. simpl in *. lia.
Qed.

Lemma span_digits_length b ds r : span_digits b = (ds, r) → length b = (length ds + length r)%nat.
Proof.
  revert ds r. induction b as [|c b IH]; intros ds r; simpl; [by intros [= <- <-]|].
  case_match; [|by intros [= <- <-]]. destruct (span_digits b) as [ds' r'].
  intros [= <- <-]. simpl. by rewrite (IH ds' r').
Qed.

Lemma digits1_length b ds r : digits1 b = Some (ds, r) → (length r < length b)%nat.
Proof.
  unfold digits1. destruct (span_digits b) as [[|d ds'] r'] eqn:Hs; [done|].
  intros [= <- <-]. apply span_digits_length in Hs. simpl in Hs. lia.
Qed.

Lemma scan_int_length b i r : scan_int b = Some (i, r) → (length r < length b)%nat.
Proof.
  destruct b as [|c b]; [done|]. cbn [scan_int]. case_match; [intros [= <- <-]; simpl; lia|].
  by intros ?%digits1_length.
Qed.

Lemma scan_frac_length b f r : scan_frac b = Some (f, r) → (length r ≤ length b)%nat.
Proof.
  destruct b as [|c b]; cbn [scan_frac]; [by intros [= <- <-]|]. case_match; [|by intros [= <- <-]].
  destruct (digits1 b) as [[ds r']|] eqn:Hd; [|done]. intros [= <- <-].
  apply digits1_length in Hd. simpl. lia.
Qed.

Lemma scan_exp_length b e r : scan_exp b = Some (e, r) → (length r ≤ length b)%nat.
Proof.
  destruct b as [|c b]; cbn [scan_exp]; [by intros [= <- <-]|]. case_match; [|by intros [= <- <-]].
  destruct (scan_exp_sign b) as [sg r1] eqn:Hs.
  assert (length r1 ≤ length b)%nat.
  { destruct b as [|x b]; simpl in Hs; [by simplify_eq|]. case_match; simplify_eq; simpl; lia. }
  destruct (digits1 r1) as [[ds r2]|] eqn:Hd; [|done]. intros [= <- <-].
  apply digits1_length in Hd. simpl. lia.
Qed.

Lemma scan_number_length b t r : scan_number b = Some (t, r) → (length r < length b)%nat.
Proof.
  unfold scan_number. destruct (scan_sign b) as [sg b0] eqn:Hs.
  assert (length b0 ≤ length b)%nat.
  { destruct b as [|x b]; simpl in Hs; [by simplify_eq|]. case_match; simplify_eq; simpl; lia. }
  destruct (scan_int b0) as [[i b1]|] eqn:Hi; [|done]. cbn [mbind option_bind].
  destruct (scan_frac b1) as [[f b2]|] eqn:Hf; [|done]. cbn [mbind option_bind].
  destruct (scan_exp b2) as [[e b3]|] eqn:He; [|done]. cbn [mbind option_bind]. intros [= <- <-].
  apply scan_int_length in Hi. apply scan_frac_length in Hf. apply scan_exp_length in He. lia.
Qed.

Lemma scan_literal_length b v r : scan_literal b = Some (v, r) → (length r < length b)%nat.
Proof.
  unfold scan_literal. intros H.
  assert (∀ s, str s ≠ [] → str s `prefix_of` b → length (drop (length (str s)) b) < length b)%nat as Hdrop.
  { intros s Hne [k ->]. rewrite length_drop, length_app. destruct (str s); [done|simpl; lia]. }
  repeat (case_bool_decide; [simplify_eq; by apply Hdrop|]). done.
Qed.

Lemma hex4_length b v r : hex4 b = Some (v, r) → (length r < length b)%nat.
Proof.
  destruct b as [|a [|b1 [|c [|d r']]]]; try done. cbn [hex4]. intros H.
  repeat (apply bind_Some in H as (? & _ & H)). simplify_eq. simpl. lia.
Qed.

Lemma low_surrogate_length b v r : low_surrogate b = Some (v, r) → (length r < length b)%nat.
Proof.
  destruct b as [|s [|u b]]; try done. cbn [low_surrogate]. case_match; [|done].
  destruct (hex4 b) as [[v' r']|] eqn:Hh; [|done]. cbn [mbind option_bind]. case_match; [|done].
  intros [= <- <-]. apply hex4_length in Hh. simpl. lia.
Qed.

Lemma unescape_length b p r : unescape b = Some (p, r) → (length r < length b)%nat.
Proof.
  destruct b as [|e b]; [done|]. cbn [unescape].
  repeat (case_match; [intros [= <- <-]; simpl; lia|]). case_match; [|done].
  destruct (hex4 b) as [[v r']|] eqn:Hh; [|done]. cbn [mbind option_bind]. apply hex4_length in Hh.
  case_match; [|intros [= <- <-]; simpl; lia].
  destruct (low_surrogate r') as [[lo r'']|] eqn:Hl; [|intros [= <- <-]; simpl; lia].
  apply low_surrogate_length in Hl. case_match; intros [= <- <-]; simpl; lia.
Qed.

Lemma utf8_size_bound b n : utf8_size b = Some n → (1 ≤ n ≤ 4)%nat ∧ (n ≤ length b)%nat.
Proof.
  unfold utf8_size. intros H. repeat (case_match; simplify_eq/=); lia.
Qed.

Lemma prepend_Some p o s r : prepend p o = Some (s, r) ↔ ∃ s', o = Some (s', r) ∧ s = p ++ s'.
Proof.
  unfold prepend. destruct o as [[s' r']|]; simpl; naive_solver.
Qed.

(** A successful scan consumed something, and any fuel that covers what it
    consumed gives the same result. *)
Lemma scan_string_fuel f b s r :
  scan_string f b = Some (s, r) →
  (length r < length b)%nat ∧ ∀ f', (length b - length r ≤ f')%nat → scan_string f' b = Some (s, r).
Proof.
  revert b s. induction f as [|f IH]; intros b s; [done|]. cbn [scan_string].
  destruct b as [|c b]; [done|].
  assert (Hstep : ∀ p b' , (length b' ≤ length b)%nat → prepend p (scan_string f b') = Some (s, r) →
    (length r < S (length b))%nat ∧
    ∀ f', (S (length b) - length r ≤ S f')%nat → prepend p (scan_string f' b') = Some (s, r)).
  { intros p b' Hb' (s' & Hs' & ->)%prepend_Some. apply IH in Hs' as [Hl Hs'].
    split; [lia|]. intros f' Hf'. apply prepend_Some. exists s'. split; [apply Hs'; lia|done]. }
  intros H. cut ((length r < S (length b))%nat ∧ ∀ f', (S (length b) - length r ≤ S f')%nat →
    scan_string (S f') (c :: b) = Some (s, r)).
  { intros [Hl Hs]. split; [done|]. intros [|f'] Hf'; [simpl in Hf'; lia|]. by apply Hs. }
  cbn [scan_string]. destruct (c =? 34); [simplify_eq; split; [lia|done]|].
  destruct (c =? 92).
  { destruct (unescape b) as [[p r']|] eqn:Hu; [|done]. apply unescape_length in Hu.
    apply Hstep; [lia|done]. }
  destruct (c <? 32); [done|].
  destruct (utf8_size (c :: b)) as [n|] eqn:Hn.
  - apply Hstep; [|done]. apply utf8_size_bound in Hn as [? _]. rewrite length_drop. simpl. lia.
  - by apply Hstep.
Qed.

Lemma read_string_length b s r : read_string b = Some (s, r) → (length r < length b)%nat.
Proof.
  destruct b as [|c b]; [done|]. cbn [read_string]. case_match; [|done].
  intros [? _]%scan_string_fuel. simpl. lia.
Qed.

(** ** The fuel of the parser is enough *)

Definition enough {A} (parse : nat → option (A * bytes)) (b : bytes) (x : A) (r : bytes) : Prop :=
  (length r < length b)%nat ∧ ∀ f, (length b - length r ≤ f)%nat → parse f = Some (x, r).

Lemma enough_S {A} (parse : nat → option (A * bytes)) b x r :
  (length r < length b)%nat → (∀ f, (length b - length r ≤ S f)%nat → parse (S f) = Some (x, r)) →
  enough parse b x r.
Proof. intros Hl H. split; [done|]. intros [|f] Hf; [lia|]. by apply H. Qed.

Definition ok_value (f : nat) : Prop :=
  ∀ d b v r, parse_value f d b = Some (v, r) → enough (λ f, parse_value f d b) b v r.
Definition ok_elems (f : nat) : Prop :=
  ∀ d b l r, parse_elems f d b = Some (l, r) → enough (λ f, parse_elems f d b) b l r.
Definition ok_members (f : nat) : Prop :=
  ∀ d b m r, parse_members f d b = Some (m, r) → enough (λ f, parse_members f d b) b m r.

Lemma value_step f : ok_elems f → ok_members f → ok_value (S f).
Proof.
  intros IHl IHm d b.
  intros v r H. cbn [parse_value] in H. pose proof (skip_ws_length b) as Hw.
  cut ((length r < length (skip_ws b))%nat ∧
       ∀ f, (length (skip_ws b) - length r ≤ S f)%nat → parse_value (S f) d b = Some (v, r)).
  { intros [Hl Hf]. apply enough_S; [lia|]. intros f' Hf'. apply Hf. lia. }
  cbn [parse_value]. clear Hw. destruct (skip_ws b) as [|c b']; [done|].
  destruct (c =? 123).
  { destruct (d <=? 0); [done|]. destruct (eat 125 b') as [r'|] eqn:He.
    - simplify_eq. apply eat_length in He. split; [simpl; lia|done].
    - destruct (parse_members f (d - 1) b') as [[m r']|] eqn:Hm; [|done]. cbn in H. simplify_eq.
      apply IHm in Hm as [Hl Hf]. split; [simpl; lia|]. intros f' Hf'. simpl in Hf'. by rewrite Hf by lia. }
  destruct (c =? 91).
  { destruct (d <=? 0); [done|]. destruct (eat 93 b') as [r'|] eqn:He.
    - simplify_eq. apply eat_length in He. split; [simpl; lia|done].
    - destruct (parse_elems f (d - 1) b') as [[m r']|] eqn:Hm; [|done]. cbn in H. simplify_eq.
      apply IHl in Hm as [Hl Hf]. split; [simpl; lia|]. intros f' Hf'. simpl in Hf'. by rewrite Hf by lia. }
  split; [|done]. destruct (c =? 34).
  { destruct (read_string (c :: b')) as [[s r']|] eqn:Hs; [|done]. cbn in H. simplify_eq.
    by apply read_string_length in Hs. }
  destruct ((c =? 45) || is_digit c); [|by apply scan_literal_length in H].
  destruct (scan_number (c :: b')) as [[t r']|] eqn:Hs; [|done]. cbn in H. simplify_eq.
  by apply scan_number_length in Hs.
Qed.

Lemma elems_step f : ok_value f → ok_elems f → ok_elems (S f).
Proof.
  intros IHv IHl d b.
  intros l r H. cbn [parse_elems] in H.
  destruct (parse_value f d b) as [[v r1]|] eqn:Hv; [|done]. cbn [mbind option_bind] in H.
  apply IHv in Hv as [Hl1 Hv]. destruct (eat 44 r1) as [r2|] eqn:He.
  + destruct (parse_elems f d r2) as [[l' r3]|] eqn:Hl; [|done]. cbn in H. simplify_eq.
    apply IHl in Hl as [Hl2 Hl]. pose proof (eat_length _ _ _ He).
    apply enough_S; [lia|]. intros f' Hf'. cbn [parse_elems].
    rewrite Hv by lia. cbn [mbind option_bind]. rewrite He, Hl by lia. done.
  + destruct (eat 93 r1) as [r2|] eqn:He2; [|done]. cbn in H. simplify_eq.
    pose proof (eat_length _ _ _ He2). apply enough_S; [lia|]. intros f' Hf'. cbn [parse_elems].
    rewrite Hv by lia. cbn [mbind option_bind]. by rewrite He, He2.
Qed.

Lemma members_step f : ok_value f → ok_members f → ok_members (S f).
Proof.
  intros IHv IHm d b.
  intros m r H. cbn [parse_members] in H. pose proof (skip_ws_length b) as Hw.
  destruct (read_string (skip_ws b)) as [[k r0]|] eqn:Hk; [|done]. cbn [mbind option_bind] in H.
  pose proof (read_string_length _ _ _ Hk).
  destruct (eat 58 r0) as [r1|] eqn:Hc; [|done]. cbn [mbind option_bind] in H.
  pose proof (eat_length _ _ _ Hc).
  destruct (parse_value f d r1) as [[v r2]|] eqn:Hv; [|done]. cbn [mbind option_bind] in H.
  apply IHv in Hv as [Hl1 Hv]. destruct (eat 44 r2) as [r3|] eqn:He.
  + destruct (parse_members f d r3) as [[m' r4]|] eqn:Hm; [|done]. cbn in H. simplify_eq.
    apply IHm in Hm as [Hl2 Hm]. pose proof (eat_length _ _ _ He).
    apply enough_S; [lia|]. intros f' Hf'. cbn [parse_members].
    rewrite Hk. cbn [mbind option_bind]. rewrite Hc. cbn [mbind option_bind].
    rewrite Hv by lia. cbn [mbind option_bind]. rewrite He, Hm by lia. done.
  + destruct (eat 125 r2) as [r3|] eqn:He2; [|done]. cbn in H. simplify_eq.
    pose proof (eat_length _ _ _ He2). apply enough_S; [lia|]. intros f' Hf'. cbn [parse_members].
    rewrite Hk. cbn [mbind option_bind]. rewrite Hc. cbn [mbind option_bind].
    rewrite Hv by lia. cbn [mbind option_bind]. by rewrite He, He2.
Qed.

Lemma parse_fuel f : ok_value f ∧ ok_elems f ∧ ok_members f.
Proof.
  induction f as [|f (IHv & IHl & IHm)]; [done|].
  split_and!; [by apply value_step|by apply elems_step|by apply members_step].
Qed.

(** Whatever fuel finds a value, [decode_json]'s finds it too. *)
Lemma decode_json_complete f b v r :
  parse_value f maxNestingDepth b = Some (v, r) → skip_ws r = [] → decode_json b = Some v.
Proof.
  intros Hp Hr. apply (proj1 (parse_fuel f)) in Hp as [Hl Hp]. unfold decode_json.
  rewrite Hp by lia. by rewrite decide_True.
Qed.

(** ** The compact form *)

Definition hex_digit (n : Z) : Z := if n <? 10 then 48 + n else 87 + n.

Definition escape (c : Z) : bytes :=
  if c =? 34 then [92; 34] else
  if c =? 92 then [92; 92] else
  if c <? 32 then [92; 117; 48; 48; hex_digit (c / 16); hex_digit (c mod 16)] else [c].

Definition quote_json (s : bytes) : bytes := 34 :: (s ≫= escape) ++ [34].

Fixpoint sep_text (close : Z) (ps : list bytes) : bytes :=
  match ps with
  | [] => [close]
  | [p] => p ++ [close]
  | p :: ps => p ++ 44 :: sep_text close ps
  end.

Fixpoint print_json (v : json) : bytes :=
  match v with
  | JNull => str "null"
  | JBool true => str "true"
  | JBool false => str "false"
  | JNum t => t
  | JStr s => quote_json s
  | JArr l => 91 :: sep_text 93 (map print_json l)
  | JObj m => 123 :: sep_text 125 (map (λ kv, quote_json kv.1 ++ 58 :: print_json kv.2) m)
  end.

(** Well-formed UTF-8. *)
Inductive utf8 : bytes → Prop :=
| utf8_nil : utf8 []
| utf8_rune r s : utf8_size r = Some (length r) → utf8 s → utf8 (r ++ s).

(** The values a node can send: numbers in JSON's grammar, UTF-8 strings, and
    at most [d] levels of nesting. *)
Fixpoint json_ok (d : Z) (v : json) : Prop :=
  match v with
  | JNull | JBool _ => True
  | JNum t => scan_number t = Some (t, [])
  | JStr s => utf8 s
  | JArr l => 0 < d ∧ foldr (λ v P, json_ok (d - 1) v ∧ P) True l
  | JObj m => 0 < d ∧ foldr (λ kv P, (utf8 kv.1 ∧ json_ok (d - 1) kv.2) ∧ P) True m
  end.

Section json_ind.
Context (P : json → Prop).
Context (HNull : P JNull) (HBool : ∀ b, P (JBool b)) (HNum : ∀ t, P (JNum t)) (HStr : ∀ s, P (JStr s)).
Context (HArr : ∀ l, Forall P l → P (JArr l)) (HObj : ∀ m, Forall (λ kv, P kv.2) m → P (JObj m)).

Fixpoint json_ind' (v : json) : P v :=
  match v with
  | JNull => HNull
  | JBool b => HBool b
  | JNum t => HNum t
  | JStr s => HStr s
  | JArr l => HArr l ((fix go l : Forall P l :=
      match l with [] => Forall_nil_2 _ | v :: l => Forall_cons_2 _ _ _ (json_ind' v) (go l) end) l)
  | JObj m => HObj m ((fix go m : Forall (λ kv, P kv.2) m :=
      match m with [] => Forall_nil_2 _ | kv :: m => Forall_cons_2 _ _ _ (json_ind' kv.2) (go m) end) m)
  end.
End json_ind.

(** ** Numbers *)

Definition num_end (b : bytes) : Prop :=
  match b with
  | [] => True
  | c :: _ => is_digit c = false ∧ (c =? 46) = false ∧ (c =? 101) = false ∧ (c =? 69) = false
  end.

Lemma span_digits_app b rest :
  num_end rest → span_digits (b ++ rest) = ((span_digits b).1, (span_digits b).2 ++ rest).
Proof.
  intros Hr. induction b as [|c b IH]; simpl.
  - destruct rest as [|c rest]; [done|]. simpl. by destruct Hr as [-> _].
  - case_match; [|done]. rewrite IH. by destruct (span_digits b).
Qed.

Lemma digits1_app b ds r rest :
  num_end rest → digits1 b = Some (ds, r) → digits1 (b ++ rest) = Some (ds, r ++ rest).
Proof.
  intros Hr. unfold digits1. rewrite span_digits_app by done.
  destruct (span_digits b) as [[|d ds'] r']; simpl; [done|]. by intros [= <- <-].
Qed.

Lemma scan_int_app b ds r rest :
  num_end rest → scan_int b = Some (ds, r) → scan_int (b ++ rest) = Some (ds, r ++ rest).
Proof.
  intros Hr. destruct b as [|c b]; [done|]. cbn [scan_int app]. case_match.
  - by intros [= <- <-].
  - intros Hd. by apply (digits1_app (c :: b)).
Qed.

Lemma scan_frac_app b ds r rest :
  num_end rest → scan_frac b = Some (ds, r) → scan_frac (b ++ rest) = Some (ds, r ++ rest).
Proof.
  intros Hr. destruct b as [|c b]; cbn [scan_frac app].
  - intros [= <- <-]. destruct rest as [|x rest]; [done|]. cbn [scan_frac]. by destruct Hr as (_ & -> & _).
  - case_match; [|by intros [= <- <-]]. destruct (digits1 b) as [[ds' r']|] eqn:Hd; [|done].
    intros [= <- <-]. by rewrite (digits1_app _ _ _ rest Hr Hd).
Qed.

Lemma scan_exp_app b ds r rest :
  num_end rest → scan_exp b = Some (ds, r) → scan_exp (b ++ rest) = Some (ds, r ++ rest).
Proof.
  intros Hr. destruct b as [|c b]; cbn [scan_exp app].
  - intros [= <- <-]. destruct rest as [|x rest]; [done|]. cbn [scan_exp].
    by destruct Hr as (_ & _ & -> & ->).
  - case_match; [|by intros [= <- <-]]. destruct (scan_exp_sign b) as [sg r1] eqn:Hs.
    destruct (digits1 r1) as [[ds' r']|] eqn:Hd; [|done]. intros [= <- <-].
    assert (scan_exp_sign (b ++ rest) = (sg, r1 ++ rest)) as ->.
    { destruct b as [|x b]; simpl in Hs; [by simplify_eq|]. cbn [scan_exp_sign app].
      case_match; by simplify_eq. }
    by rewrite (digits1_app _ _ _ rest Hr Hd).
Qed.

Lemma scan_number_app b t r rest :
  num_end rest → scan_number b = Some (t, r) → scan_number (b ++ rest) = Some (t, r ++ rest).
Proof.
  intros Hr. unfold scan_number. destruct (scan_sign b) as [sg b0] eqn:Hs.
  destruct (scan_int b0) as [[i b1]|] eqn:Hi; [|done]. cbn [mbind option_bind].
  destruct (scan_frac b1) as [[f b2]|] eqn:Hf; [|done]. cbn [mbind option_bind].
  destruct (scan_exp b2) as [[e b3]|] eqn:He; [|done]. cbn [mbind option_bind]. intros [= <- <-].
  assert (scan_sign (b ++ rest) = (sg, b0 ++ rest)) as ->.
  { destruct b as [|x b]; simpl in Hs; [by simplify_eq|]. cbn [scan_sign app]. case_match; by simplify_eq. }
  rewrite (scan_int_app _ _ _ rest Hr Hi). cbn [mbind option_bind].
  rewrite (scan_frac_app _ _ _ rest Hr Hf). cbn [mbind option_bind].
  by rewrite (scan_exp_app _ _ _ rest Hr He).
Qed.

Lemma scan_number_head b t r :
  scan_number b = Some (t, r) → ∃ c b', b = c :: b' ∧ ((c =? 45) || is_digit c) = true.
Proof.
  unfold scan_number. destruct b as [|c b]; [done|]. cbn [scan_sign]. intros H. exists c, b. split; [done|].
  destruct (c =? 45); [done|]. cbn [orb]. cbn [scan_int] in H.
  destruct (c =? 48) eqn:Hc; [apply Z.eqb_eq in Hc as ->; done|].
  unfold digits1 in H. cbn [span_digits] in H. by destruct (is_digit c).
Qed.

(** ** Strings *)

Lemma hex_value_digit n : 0 ≤ n < 16 → hex_value (hex_digit n) = Some n.
Proof.
  intros Hn. unfold hex_value, hex_digit, is_digit, between.
  destruct (Z.ltb_spec n 10).
  - rewrite !(proj2 (Z.leb_le _ _)) by lia. cbn. f_equal. lia.
  - rewrite (proj2 (Z.leb_gt (87 + n) 57)) by lia. rewrite andb_false_r.
    rewrite !(proj2 (Z.leb_le _ _)) by lia. cbn [andb]. f_equal. lia.
Qed.

Lemma utf8_size_app r rest : utf8_size r = Some (length r) → utf8_size (r ++ rest) = Some (length r).
Proof.
  unfold utf8_size. destruct r as [|c0 r]; [done|]. cbn [app].
  destruct (between 0 127 c0); [done|]. destruct r as [|c1 r]; [done|]. cbn [app].
  destruct (between 194 223 c0); [by destruct (between 128 191 c1)|].
  destruct r as [|c2 r]; [done|]. cbn [app].
  destruct (between 224 239 c0); [by destruct (_ && _)|].
  destruct r as [|c3 r]; [done|]. cbn [app]. by destruct (between 240 244 c0).
Qed.

Lemma between_true lo hi c : between lo hi c = true ↔ lo ≤ c ≤ hi.
Proof. unfold between. rewrite andb_true_iff, !Z.leb_le. done. Qed.

(** An ASCII byte stands alone; no other sequence contains one. *)
Lemma utf8_rune_cases r :
  utf8_size r = Some (length r) →
  (∃ c, r = [c] ∧ 0 ≤ c ≤ 127) ∨ (∃ c r', r = c :: r' ∧ Forall (λ c, 128 ≤ c) (c :: r')).
Proof.
  unfold utf8_size. destruct r as [|c0 r]; [done|].
  destruct (between 0 127 c0) eqn:E0; [apply between_true in E0|].
  { destruct r; [|done]. intros _. left. by exists c0. }
  destruct r as [|c1 r]; [done|].
  destruct (between 194 223 c0) eqn:E1; [apply between_true in E1|].
  { destruct (between 128 191 c1) eqn:E2; [apply between_true in E2|done]. destruct r; [|done].
    intros _. right. exists c0, [c1]. split; [done|]. repeat constructor; lia. }
  destruct r as [|c2 r]; [done|]. cbv zeta.
  set (lo := if c0 =? 224 then 160 else if c0 =? 240 then 144 else 128).
  assert (128 ≤ lo) by (unfold lo; repeat case_match; lia). clearbody lo.
  destruct (between 224 239 c0) eqn:E2; [apply between_true in E2|].
  { destruct (between lo _ c1 && between 128 191 c2) eqn:E3; [|done]. destruct r; [|done].
    apply andb_true_iff in E3 as [E3%between_true E4%between_true].
    intros _. right. exists c0, [c1; c2]. split; [done|]. repeat constructor; lia. }
  destruct r as [|c3 r]; [done|]. destruct (between 240 244 c0) eqn:E3; [apply between_true in E3|done].
  destruct (between lo _ c1 && between 128 191 c2 && between 128 191 c3) eqn:E4; [|done]. destruct r; [|done].
  rewrite !andb_true_iff in E4. destruct E4 as [[E4%between_true E5%between_true] E6%between_true].
  intros _. right. exists c0, [c1; c2; c3]. split; [done|]. repeat constructor; lia.
Qed.

Lemma escape_ascii c b f :
  0 ≤ c ≤ 127 → scan_string (S f) (escape c ++ b) = prepend [c] (scan_string f b).
Proof.
  intros Hc. unfold escape. destruct (Z.eqb_spec c 34) as [->|H34]; [done|].
  destruct (Z.eqb_spec c 92) as [->|H92]; [done|].
  destruct (Z.ltb_spec c 32) as [H32|H32].
  - cbn [app scan_string]. change (92 =? 34) with false. change (92 =? 92) with true. cbv iota.
    unfold unescape. change (117 =? 34) with false. cbn -[hex4].
    assert (0 ≤ c / 16 < 16) by (split; [apply Z.div_pos|apply Z.div_lt_upper_bound]; lia).
    assert (0 ≤ c mod 16 < 16) by (apply Z.mod_pos_bound; lia).
    unfold hex4. change (hex_value 48) with (Some 0). cbn [mbind option_bind].
    rewrite !hex_value_digit by done. cbn [mbind option_bind].
    assert ((((0 * 16 + 0) * 16 + c / 16) * 16 + c mod 16) = c) as ->.
    { pose proof (Z.div_mod c 16). lia. }
    destruct (between 55296 57343 c) eqn:Hsur; [apply between_true in Hsur; lia|].
    unfold utf8_encode. by rewrite (proj2 (Z.ltb_lt c 128)) by lia.
  - cbn [app scan_string]. rewrite !(proj2 (Z.eqb_neq _ _)) by done.
    rewrite (proj2 (Z.ltb_ge _ _)) by done. unfold utf8_size at 1.
    rewrite (proj2 (between_true 0 127 c)) by lia. done.
Qed.

Lemma escape_high r : Forall (λ c, 128 ≤ c) r → r ≫= escape = r.
Proof.
  induction 1 as [|c r Hc _ IH]; [done|]. rewrite bind_cons, IH. unfold escape.
  rewrite !(proj2 (Z.eqb_neq _ _)) by lia. by rewrite (proj2 (Z.ltb_ge _ _)) by lia.
Qed.

Lemma escape_length c : (1 ≤ length (escape c))%nat.
Proof. unfold escape. repeat case_match; simpl; lia. Qed.

Lemma scan_quoted s : utf8 s → ∀ f rest, (length (s ≫= escape) < f)%nat →
  scan_string f ((s ≫= escape) ++ 34 :: rest) = Some (s, rest).
Proof.
  induction 1 as [|r s Hr Hs IH]; intros f rest Hf.
  { by destruct f; [simpl in Hf; lia|]. }
  destruct f as [|f]; [lia|]. rewrite bind_app, length_app in Hf. rewrite bind_app, <- (assoc_L (++)).
  destruct (utf8_rune_cases r Hr) as [(c & -> & Hc)|(c & r' & -> & Hhigh)].
  - rewrite bind_cons in *. change ([] ≫= escape) with (@nil Z) in *. rewrite (right_id_L [] (++)) in *.
    pose proof (escape_length c). rewrite escape_ascii, IH by (done || lia). done.
  - rewrite escape_high in * by done. cbn [length] in Hf. inversion_clear Hhigh as [|?? Hc Hr'].
    cbn [app scan_string]. rewrite !(proj2 (Z.eqb_neq _ _)) by lia.
    rewrite (proj2 (Z.ltb_ge _ _)) by lia.
    change (c :: r' ++ (s ≫= escape) ++ 34 :: rest) with ((c :: r') ++ (s ≫= escape) ++ 34 :: rest).
    rewrite (utf8_size_app _ _ Hr). rewrite take_app_length, drop_app_length.
    by rewrite IH by lia.
Qed.

Lemma read_quoted s rest : utf8 s → read_string (quote_json s ++ rest) = Some (s, rest).
Proof.
  intros Hs. unfold quote_json. cbn [app read_string]. rewrite Z.eqb_refl, <- (assoc_L (++)).
  apply scan_quoted; [done|]. rewrite length_app. lia.
Qed.

(** ** Values *)

Lemma eat_other c x r : is_space x = false → eat c (x :: r) = if x =? c then Some r else None.
Proof. intros Hx. unfold eat. cbn [skip_ws]. by rewrite Hx. Qed.

Lemma print_head d v :
  json_ok d v → ∃ c b, print_json v = c :: b ∧ is_space c = false ∧ c ≠ 93 ∧ c ≠ 125.
Proof.
  destruct v as [|[]|t|s|l|m]; intros Hok; try (by eexists _, _).
  apply scan_number_head in Hok as (c & b & -> & Hc). exists c, b. split; [done|].
  unfold is_space, is_digit in *. destruct (Z.eqb_spec c 45) as [->|]; [done|].
  cbn [orb] in Hc. apply andb_true_iff in Hc as [H1%Z.leb_le H2%Z.leb_le].
  rewrite !(proj2 (Z.eqb_neq _ _)) by lia. lia.
Qed.

(** [v] is read back whatever follows it, with fuel for its text. *)
Definition reads_back (v : json) : Prop :=
  ∀ d f rest, json_ok d v → num_end rest → (length (print_json v) ≤ f)%nat →
    parse_value f d (print_json v ++ rest) = Some (v, rest).

Lemma sep_text_cons close p ps :
  sep_text close (p :: ps) = p ++ match ps with [] => [close] | _ => 44 :: sep_text close ps end.
Proof. by destruct ps. Qed.

Lemma elems_back l d f rest :
  Forall reads_back l → l ≠ [] → foldr (λ v P, json_ok d v ∧ P) True l →
  (length (sep_text 93 (map print_json l)) ≤ f)%nat →
  parse_elems f d (sep_text 93 (map print_json l) ++ rest) = Some (l, rest).
Proof.
  intros Hl. revert f. induction Hl as [|v l Hv _ IH]; intros f Hne Hok Hf; [done|].
  destruct Hok as [Hokv Hok]. cbn [map] in *. rewrite sep_text_cons in *. rewrite length_app in Hf.
  rewrite <- (assoc_L (++)). destruct f as [|f]; [destruct l; simpl in Hf; lia|]. cbn [parse_elems].
  destruct l as [|v' l].
  - cbn [map] in *. rewrite Hv by (done || simpl in *; lia). done.
  - cbn [map] in *. cbn [length] in Hf.
    rewrite Hv by (done || lia). cbn [mbind option_bind app]. rewrite eat_other by done.
    cbn [Z.eqb Pos.eqb]. rewrite IH by (done || lia). done.
Qed.

Definition member_text (kv : bytes * json) : bytes := quote_json kv.1 ++ 58 :: print_json kv.2.

Lemma members_back m d f rest :
  Forall (λ kv, reads_back kv.2) m → m ≠ [] → foldr (λ kv P, (utf8 kv.1 ∧ json_ok d kv.2) ∧ P) True m →
  (length (sep_text 125 (map member_text m)) ≤ f)%nat →
  parse_members f d (sep_text 125 (map member_text m) ++ rest) = Some (m, rest).
Proof.
  intros Hm. revert f. induction Hm as [|[k v] m Hv _ IH]; intros f Hne Hok Hf; [done|].
  destruct Hok as [[Hk Hokv] Hok]. cbn [map fst snd] in *. rewrite sep_text_cons in *.
  unfold member_text at 1. unfold member_text at 1 in Hf. cbn [fst snd] in *.
  rewrite !length_app in Hf. cbn [length] in Hf.
  rewrite <- !(assoc_L (++)). destruct f as [|f]; [lia|]. cbn [parse_members].
  change (skip_ws (quote_json k ++ ?x)) with (quote_json k ++ x). rewrite read_quoted by done.
  cbn [mbind option_bind app]. rewrite eat_other by done. cbn [Z.eqb Pos.eqb mbind option_bind].
  destruct m as [|kv' m].
  - cbn [map] in *. rewrite Hv by (done || simpl in *; lia). done.
  - cbn [map] in *. cbn [length] in Hf.
    rewrite Hv by (done || lia). cbn [mbind option_bind app]. rewrite eat_other by done.
    cbn [Z.eqb Pos.eqb]. rewrite IH by (done || lia). done.
Qed.

Lemma parse_print v : reads_back v.
Proof.
  induction v as [|[]|t|s|l IH|m IH] using json_ind'; intros d f rest Hok Hr Hf;
    (destruct f as [|f]; [simpl in Hf; try lia|]); try done.
  - apply scan_number_head in Hok as (c & b & -> & _). simpl in Hf. lia.
  - destruct (scan_number_head _ _ _ Hok) as (c & b & Ht & Hc).
    destruct (print_head _ _ Hok) as (c' & b' & Hp & Hsp & _). cbn [print_json] in *. simplify_eq.
    cbn [parse_value app skip_ws]. rewrite Hsp.
    assert ((c' =? 123) = false ∧ (c' =? 91) = false ∧ (c' =? 34) = false) as (-> & -> & ->).
    { unfold is_digit in Hc. rewrite !Z.eqb_neq. destruct (Z.eqb_spec c' 45); [lia|].
      cbn [orb] in Hc. apply andb_true_iff in Hc as [H1%Z.leb_le H2%Z.leb_le]. lia. }
    rewrite Hc. change (c' :: b' ++ rest) with ((c' :: b') ++ rest).
    by rewrite (scan_number_app _ _ _ rest Hr Hok).
  - cbn [print_json]. unfold parse_value; fold parse_value.
    change (skip_ws (quote_json s ++ rest)) with (quote_json s ++ rest).
    pose proof (read_quoted s rest Hok) as Hs. unfold quote_json in *. cbn [app] in *. cbn [Z.eqb Pos.eqb].
    by rewrite Hs.
  - destruct Hok as [Hd Hok]. cbn [print_json app parse_value skip_ws] in *. cbn [is_space Z.eqb Pos.eqb orb].
    rewrite (proj2 (Z.leb_gt _ _)) by lia. destruct l as [|v l]; [done|].
    destruct (print_head (d - 1) v) as (c & b & Hp & Hsp & H93 & _); [apply Hok|].
    assert (eat 93 (sep_text 93 (map print_json (v :: l)) ++ rest) = None) as ->.
    { cbn [map]. rewrite sep_text_cons, Hp. cbn [app]. rewrite eat_other by done.
      by rewrite (proj2 (Z.eqb_neq _ _)). }
    cbn [length] in Hf. by rewrite elems_back by (done || lia).
  - destruct Hok as [Hd Hok]. cbn [print_json app parse_value skip_ws] in *. cbn [is_space Z.eqb Pos.eqb orb].
    rewrite (proj2 (Z.leb_gt _ _)) by lia. destruct m as [|kv m]; [done|].
    change (λ kv, quote_json kv.1 ++ 58 :: print_json kv.2) with member_text in *.
    assert (eat 125 (sep_text 125 (map member_text (kv :: m)) ++ rest) = None) as ->.
    { cbn [map]. by rewrite sep_text_cons. }
    cbn [length] in Hf. by rewrite members_back by (done || lia).
Qed.

Lemma decode_print v : json_ok maxNestingDepth v → decode_json (print_json v) = Some v.
Proof.
  intros Hok. unfold decode_json. pose proof (parse_print v _ (2 * length (print_json v) + 2)%nat [] Hok I) as Hp.
  rewrite (right_id_L [] (++)) in Hp. rewrite Hp by lia. done.
Qed.
