(* ===== verification/Base64.v ===== *)
(** * Base64 and JSON strings

    What the SDK uses of Go's encoding/base64 ([StdEncoding]) and of
    encoding/json when it writes a string. *)

From S2P Require Import Prelude Json.

(** ** [base64.StdEncoding] *)

Definition base64_char (v : Z) : Z :=
  if v <? 26 then v + 65 else if v <? 52 then v + 71 else if v <? 62 then v - 4 else
  if v =? 62 then 43 else 47.

Definition base64_value (c : Z) : option Z :=
  if between 65 90 c then Some (c - 65) else if between 97 122 c then Some (c - 71) else
  if between 48 57 c then Some (c + 4) else if c =? 43 then Some 62 else if c =? 47 then Some 63 else None.

(** The digit of a 24-bit group at bit [k]. *)
Definition base64_digit (val k : Z) : Z := base64_char (Z.land (val ≫ k) 0x3F).

Fixpoint base64_encode (b : bytes) : bytes :=
  match b with
  | [] => []
  | [b0] => let val := b0 ≪ 16 in [base64_digit val 18; base64_digit val 12; 61; 61]
  | [b0; b1] =>
      let val := Z.lor (b0 ≪ 16) (b1 ≪ 8) in
      [base64_digit val 18; base64_digit val 12; base64_digit val 6; 61]
  | b0 :: b1 :: b2 :: b =>
      let val := Z.lor (Z.lor (b0 ≪ 16) (b1 ≪ 8)) b2 in
      base64_digit val 18 :: base64_digit val 12 :: base64_digit val 6 :: base64_digit val 0 :: base64_encode b
  end.

Fixpoint skip_newlines (s : bytes) : bytes :=
  match s with
  | c :: r => if (c =? 10) || (c =? 13) then skip_newlines r else s
  | [] => []
  end.

(** The 24-bit group of up to four digits. *)
Definition base64_group (d0 d1 d2 d3 : Z) : Z := Z.lor (Z.lor (Z.lor (d0 ≪ 18) (d1 ≪ 12)) (d2 ≪ 6)) d3.

(** [buf] holds the digits of the current group.  Newlines are skipped
    anywhere; padding must complete the last group; the bits it leaves over are
    not looked at. *)
Fixpoint base64_decode (buf : list Z) (s : bytes) : option bytes :=
  match s with
  | [] => match buf with [] => Some [] | _ => None end
  | c :: r =>
      match base64_value c with
      | Some v =>
          match buf with
          | [d0; d1; d2] =>
              let val := base64_group d0 d1 d2 v in
              bs ← base64_decode [] r; Some (u8 (val ≫ 16) :: u8 (val ≫ 8) :: u8 val :: bs)
          | _ => base64_decode (buf ++ [v]) r
          end
      | None =>
          if (c =? 10) || (c =? 13) then base64_decode buf r else
          if negb (c =? 61) then None else
          match buf with
          | [d0; d1] =>
              match skip_newlines r with
              | c' :: r' =>
                  if (c' =? 61) && bool_decide (skip_newlines r' = [])
                  then Some [u8 (base64_group d0 d1 0 0 ≫ 16)] else None
              | [] => None
              end
          | [d0; d1; d2] =>
              if bool_decide (skip_newlines r = [])
              then let val := base64_group d0 d1 d2 0 in Some [u8 (val ≫ 16); u8 (val ≫ 8)] else None
          | _ => None
          end
      end
  end.

Definition EncodeToString : bytes → bytes := base64_encode.

Definition DecodeString (s : bytes) : result bytes :=
  match base64_decode [] s with
  | Some b => Ok b
  | None => Err (ErrStruct "base64.CorruptInputError" [])
  end.

(** ** [json.Marshal] of a string *)

Definition hex_lower (v : Z) : Z := if v <? 10 then v + 48 else v + 87.

(** An ASCII byte; the default also escapes the characters of HTML. *)
Definition json_escape (c : Z) : bytes :=
  if (c =? 92) || (c =? 34) then [92; c] else
  if c =? 8 then str "\b" else if c =? 12 then str "\f" else if c =? 10 then str "\n" else
  if c =? 13 then str "\r" else if c =? 9 then str "\t" else
  if (c <? 32) || (c =? 60) || (c =? 62) || (c =? 38)
  then str "\u00" ++ [hex_lower (c ≫ 4); hex_lower (Z.land c 15)] else [c].

(** The body of the quoted string; a byte is dropped every turn. *)
Fixpoint json_text (fuel : nat) (s : bytes) : bytes :=
  match fuel with
  | O => []
  | S fuel =>
      match s with
      | [] => []
      | c :: r =>
          if c <? 128 then json_escape c ++ json_text fuel r else
          match utf8_size s with
          | None => str "\ufffd" ++ json_text fuel r
          | Some n =>
              (if decide (take n s = [226; 128; 168]) then str "\u2028" else
               if decide (take n s = [226; 128; 169]) then str "\u2029" else take n s)
              ++ json_text fuel (drop n s)
          end
      end
  end.

Definition json_string (s : bytes) : bytes := 34 :: json_text (length s) s ++ [34].

(** ** Round trip *)

Definition is_digit6 (v : Z) : Prop := 0 ≤ v < 64.

Lemma digit6_cases (P : Z → bool) : forallb P (seqZ 0 64) = true → ∀ v, is_digit6 v → P v = true.
Proof.
  intros H v Hv. rewrite forallb_forall in H. apply H. apply list_elem_of_In, elem_of_seqZ. unfold is_digit6 in Hv. lia.
Qed.

Lemma base64_value_char v : is_digit6 v → base64_value (base64_char v) = Some v.
Proof.
  intros Hv. apply (bool_decide_eq_true_1 _). revert v Hv.
  apply (digit6_cases (λ v, bool_decide (base64_value (base64_char v) = Some v))). by vm_compute.
Qed.

Lemma land63 v : Z.land v 0x3F = v `mod` 64.
Proof. apply (Z.land_ones v 6). lia. Qed.

Lemma digit6_mod v : is_digit6 (v `mod` 64).
Proof. apply Z.mod_pos_bound. lia. Qed.

Lemma lor_low hi lo k : 0 ≤ k → 0 ≤ lo < 2 ^ k → 0 ≤ hi → Z.lor (hi ≪ k) lo = hi * 2 ^ k + lo.
Proof. intros. rewrite Z.lor_comm, lor_shiftl_add by lia. lia. Qed.

(** Two parts of a group, the second of [k + j] bits, [j] of them zero. *)
Lemma lor_parts hi lo k j : 0 ≤ j ≤ k → 0 ≤ lo < 2 ^ (k - j) → 0 ≤ hi →
  Z.lor (hi * 2 ^ k) (lo ≪ j) = hi * 2 ^ k + lo * 2 ^ j.
Proof.
  intros. rewrite <- (Z.shiftl_mul_pow2 hi) at 1 by lia. rewrite (Z.shiftl_mul_pow2 lo) by lia.
  rewrite lor_low; [done|lia| |lia].
  assert (2 ^ k = 2 ^ (k - j) * 2 ^ j) by (rewrite <- Z.pow_add_r by lia; f_equal; lia). nia.
Qed.

Lemma group_arith d0 d1 d2 d3 : is_digit6 d0 → is_digit6 d1 → is_digit6 d2 → is_digit6 d3 →
  base64_group d0 d1 d2 d3 = d0 * 262144 + d1 * 4096 + d2 * 64 + d3.
Proof.
  unfold is_digit6. intros. unfold base64_group.
  rewrite (Z.shiftl_mul_pow2 d0), lor_parts by lia.
  replace (d0 * 2 ^ 18 + d1 * 2 ^ 12) with ((d0 * 64 + d1) * 2 ^ 12) by lia. rewrite lor_parts by lia.
  replace ((d0 * 64 + d1) * 2 ^ 12 + d2 * 2 ^ 6) with (((d0 * 64 + d1) * 64 + d2) * 2 ^ 6) by lia.
  rewrite <- (Z.shiftl_0_r d3) at 1. rewrite lor_parts by lia. lia.
Qed.

Lemma bytes3_arith b0 b1 b2 : is_u 8 b0 → is_u 8 b1 → is_u 8 b2 →
  Z.lor (Z.lor (b0 ≪ 16) (b1 ≪ 8)) b2 = b0 * 65536 + b1 * 256 + b2.
Proof.
  unfold is_u. intros. rewrite (Z.shiftl_mul_pow2 b0), lor_parts by lia.
  replace (b0 * 2 ^ 16 + b1 * 2 ^ 8) with ((b0 * 256 + b1) * 2 ^ 8) by lia.
  rewrite <- (Z.shiftl_0_r b2) at 1. rewrite lor_parts by lia. lia.
Qed.

(** The four digits of a 24-bit value give it back. *)
Lemma group_digits val : 0 ≤ val < 16777216 →
  base64_group ((val ≫ 18) `mod` 64) ((val ≫ 12) `mod` 64) ((val ≫ 6) `mod` 64) ((val ≫ 0) `mod` 64) = val.
Proof.
  intros. rewrite group_arith by apply digit6_mod. rewrite !Z.shiftr_div_pow2 by lia.
  change (2 ^ 18) with 262144. change (2 ^ 12) with 4096. change (2 ^ 6) with 64. change (2 ^ 0) with 1.
  Z.to_euclidean_division_equations. lia.
Qed.

Lemma group_bytes b0 b1 b2 : is_u 8 b0 → is_u 8 b1 → is_u 8 b2 →
  let val := b0 * 65536 + b1 * 256 + b2 in u8 (val ≫ 16) = b0 ∧ u8 (val ≫ 8) = b1 ∧ u8 val = b2.
Proof.
  unfold is_u. intros. unfold wrapU. rewrite !Z.shiftr_div_pow2 by lia.
  change (2 ^ 16) with 65536. change (2 ^ 8) with 256. Z.to_euclidean_division_equations. lia.
Qed.

Lemma base64_decode_digit buf v s : is_digit6 v →
  base64_decode buf (base64_char v :: s) =
    match buf with
    | [d0; d1; d2] =>
        let val := base64_group d0 d1 d2 v in
        bs ← base64_decode [] s; Some (u8 (val ≫ 16) :: u8 (val ≫ 8) :: u8 val :: bs)
    | _ => base64_decode (buf ++ [v]) s
    end.
Proof. intros Hv. cbn [base64_decode]. by rewrite base64_value_char. Qed.

(** Encoding in groups of three. *)
Lemma group_ind (P : bytes → Prop) :
  P [] → (∀ b0, P [b0]) → (∀ b0 b1, P [b0; b1]) → (∀ b0 b1 b2 b, P b → P (b0 :: b1 :: b2 :: b)) → ∀ b, P b.
Proof.
  intros H0 H1 H2 H3. fix IH 1. intros [|b0 [|b1 [|b2 b]]]; [done|apply H1|apply H2|]. apply H3, IH.
Qed.

(** The decoder on the digits of a 24-bit value. *)
Section group.
Context (val : Z) (Hval : 0 ≤ val < 16777216).

Lemma decode_full s :
  base64_decode [] (base64_digit val 18 :: base64_digit val 12 :: base64_digit val 6 :: base64_digit val 0 :: s) =
  bs ← base64_decode [] s; Some (u8 (val ≫ 16) :: u8 (val ≫ 8) :: u8 val :: bs).
Proof.
  unfold base64_digit. rewrite !land63, !base64_decode_digit by apply digit6_mod. cbn [app].
  by rewrite group_digits.
Qed.

Lemma decode_pad1 : val `mod` 64 = 0 →
  base64_decode [] [base64_digit val 18; base64_digit val 12; base64_digit val 6; 61] =
  Some [u8 (val ≫ 16); u8 (val ≫ 8)].
Proof.
  intros H0. unfold base64_digit. rewrite !land63, !base64_decode_digit by apply digit6_mod.
  pose proof (group_digits val Hval) as G. rewrite (Z.shiftr_0_r val), H0 in G.
  cbn. cbn in G. by rewrite G.
Qed.

Lemma decode_pad2 : val `mod` 4096 = 0 →
  base64_decode [] [base64_digit val 18; base64_digit val 12; 61; 61] = Some [u8 (val ≫ 16)].
Proof.
  intros H0. unfold base64_digit. rewrite !land63, !base64_decode_digit by apply digit6_mod.
  pose proof (group_digits val Hval) as G.
  assert ((val ≫ 6) `mod` 64 = 0 ∧ (val ≫ 0) `mod` 64 = 0) as [H6 H00].
  { rewrite !Z.shiftr_div_pow2 by lia. change (2 ^ 6) with 64. change (2 ^ 0) with 1.
    Z.to_euclidean_division_equations. lia. }
  rewrite H6, H00 in G. cbn. cbn in G. by rewrite G.
Qed.
End group.

Lemma base64_roundtrip b : wf_bytes b → base64_decode [] (base64_encode b) = Some b.
Proof.
  induction b as [|b0|b0 b1|b0 b1 b2 b IH] using group_ind; [done|..]; rewrite ?Forall_cons;
    intros; destruct_and?; cbn [base64_encode].
  - destruct (group_bytes b0 0 0) as (E & _); [done..|].
    rewrite Z.shiftl_mul_pow2 by lia. replace (b0 * 2 ^ 16) with (b0 * 65536 + 0 * 256 + 0) by lia.
    rewrite decode_pad2; [by rewrite E|unfold is_u in *; lia|]. Z.to_euclidean_division_equations. lia.
  - destruct (group_bytes b0 b1 0) as (E0 & E1 & _); [done..|].
    rewrite <- (Z.lor_0_r (Z.lor _ _)), bytes3_arith by done.
    rewrite decode_pad1; [by rewrite E0, E1|unfold is_u in *; lia|]. Z.to_euclidean_division_equations. lia.
  - destruct (group_bytes b0 b1 b2) as (E0 & E1 & E2); [done..|]. rewrite bytes3_arith by done.
    rewrite decode_full by (unfold is_u in *; lia). by rewrite IH, E0, E1, E2.
Qed.

Lemma DecodeString_EncodeToString b : wf_bytes b → DecodeString (EncodeToString b) = Ok b.
Proof. intros. unfold DecodeString, EncodeToString. by rewrite base64_roundtrip. Qed.
