(* ===== verification/TxError.v ===== *)
(** * Transaction errors: [rpc/transaction_error.go]

    [any] is Go's empty interface, with the dynamic types the code switches
    on.  The specification is the node's error enum and the JSON it sends for
    it ([wire_error]). *)

From Stdlib Require Import SpecFloat.
From S2P Require Import Prelude BigUint BigUintSpec Json JsonSpec.

(** ** Dynamic values *)

(** A map's keys are distinct; a signed integer is [AInt] and an unsigned one
    [AUint], whatever its width; [AOther] is any other type. *)
#[warnings="-register-all"]
Inductive any :=
| ANil
| ARawMessage (b : bytes)
| ABytes (b : bytes)
| AString (s : bytes)
| AMap (m : list (bytes * any))
| ASlice (l : list any)
| ANumber (text : bytes)
| ABool (b : bool)
| AFloat64 (f : spec_float)
| AFloat32 (f : spec_float)
| AInt (n : Z)
| AUint (n : N)
| AOther.

(** Assigning a key of a map. *)
Fixpoint map_set (k : bytes) (v : any) (m : list (bytes * any)) : list (bytes * any) :=
  match m with
  | [] => [(k, v)]
  | (k', v') :: m => if decide (k' = k) then (k, v) :: m else (k', v') :: map_set k v m
  end.

(** What [decoder.Decode] stores in an interface under [UseNumber]; a repeated
    key keeps its last value. *)
Fixpoint any_of_json (v : json) : any :=
  match v with
  | JNull => ANil
  | JBool b => ABool b
  | JNum t => ANumber t
  | JStr s => AString s
  | JArr l => ASlice (map any_of_json l)
  | JObj m => AMap (fold_left (λ acc kv, map_set kv.1 kv.2 acc) (map (λ kv, (kv.1, any_of_json kv.2)) m) [])
  end.

(** ** Errors *)

(** [Malformed] is every [fmt.Errorf] of the file. *)
Inductive tx_error :=
| TransactionError (Kind : bytes) (Details : any)
| InstructionError (Index : Z) (Kind : bytes) (CustomErrorCode : Z) (Details : any)
| Malformed (e : error).

(** ** [decodeUnsigned] *)

(** [strconv.ParseUint(s, 10, 64)] *)
Definition ParseUint (s : bytes) : option Z :=
  match s with
  | [] => None
  | _ => v ← parse_digits s 0; if v <? 2 ^ 64 then Some v else None
  end.

Definition sf_nan_or_inf (f : spec_float) : bool :=
  match f with S754_nan | S754_infinity _ => true | _ => false end.

Definition sf_negative (f : spec_float) : bool :=
  match f with S754_finite true _ _ | S754_infinity true => true | _ => false end.

(** [math.Trunc] *)
Definition sf_trunc (f : spec_float) : Z :=
  match f with
  | S754_finite s m e =>
      let t := if 0 <=? e then Zpos m * 2 ^ e else Zpos m / 2 ^ (- e) in if s then - t else t
  | _ => 0
  end.

Definition sf_integral (f : spec_float) : bool :=
  match f with
  | S754_finite _ m e => if 0 <=? e then true else Zpos m mod 2 ^ (- e) =? 0
  | _ => true
  end.

(** [f > float64(z)], for an integer below [2^53], which converts exactly. *)
Definition sf_above (f : spec_float) (z : Z) : bool :=
  match f with
  | S754_finite s m e =>
      let m := if s then Zneg m else Zpos m in
      if 0 <=? e then z <? m * 2 ^ e else z * 2 ^ (- e) <? m
  | S754_infinity s => negb s
  | S754_zero _ => z <? 0
  | S754_nan => false
  end.

Definition decode_float (f : spec_float) (max : Z) : Z + error :=
  if sf_nan_or_inf f || sf_negative f || negb (sf_integral f) || sf_above f max
  then inr (ErrFmt "expected an integer between 0 and %d, got %v" [AZ max])
  else inl (sf_trunc f).

Definition unsigned_value (raw : any) (max : Z) : Z + error :=
  match raw with
  | ANumber t =>
      match ParseUint t with
      | Some v => inl v
      | None => inr (ErrFmt "expected an unsigned integer, got %q" [AB t])
      end
  | AFloat64 f | AFloat32 f => decode_float f max
  | AInt n => if n <? 0 then inr (ErrFmt "expected an unsigned integer, got %d" [AZ n]) else inl n
  | AUint n => inl (Z.of_N n)
  | _ => inr (ErrFmt "expected an unsigned integer, got %T" [])
  end.

Definition decodeUnsigned (raw : any) (max : Z) : Z + error :=
  match unsigned_value raw max with
  | inl value =>
      if max <? value then inr (ErrFmt "integer %d exceeds maximum %d" [AZ value; AZ max]) else inl value
  | inr e => inr e
  end.

(** ** The decoders; [None] is a nil error *)

Definition decodeInstructionError (raw : any) : tx_error :=
  match raw with
  | ASlice [part0; part1] =>
      match decodeUnsigned part0 255 with
      | inl index =>
          match part1 with
          | AString value => InstructionError index value 0 ANil
          | AMap [(kind, details)] =>
              if decide (kind = str "Custom") then
                match decodeUnsigned details (2 ^ 32 - 1) with
                | inl code => InstructionError index (str "Custom") (u32 code) ANil
                | inr e => Malformed (ErrWrap "solana rpc: decode custom program error code" [] e)
                end
              else InstructionError index kind 0 details
          | AMap m =>
              Malformed (ErrFmt "solana rpc: instruction error object must contain exactly one variant, got %d" [AZ (zlen m)])
          | _ => Malformed (ErrFmt "solana rpc: unrecognized instruction error at index %d: %v" [AZ index])
          end
      | inr e => Malformed (ErrWrap "solana rpc: decode InstructionError index" [] e)
      end
  | _ => Malformed (ErrFmt "solana rpc: InstructionError must be [index, error], got %v" [])
  end.

(** The cases of [DecodeTransactionError] that are not raw JSON; the decoded
    JSON holds no raw JSON itself. *)
Definition decode_shape (raw : any) : option tx_error :=
  match raw with
  | ANil => None
  | AString v => Some (TransactionError v ANil)
  | AMap [(kind, details)] =>
      Some (if decide (kind = str "InstructionError") then decodeInstructionError details
            else TransactionError kind details)
  | AMap m =>
      Some (Malformed (ErrFmt "solana rpc: transaction error object must contain exactly one variant, got %d" [AZ (zlen m)]))
  | _ => Some (Malformed (ErrFmt "solana rpc: unrecognized transaction error shape: %v" []))
  end.

Definition decodeTransactionErrorJSON (raw : bytes) : option tx_error :=
  let trimmed := trim_space raw in
  if (zlen trimmed =? 0) || bool_decide (trimmed = str "null") then None else
  match decode_json trimmed with
  | None => Some (Malformed (ErrFmt "solana rpc: decode transaction error JSON: %w" []))
  | Some v => decode_shape (any_of_json v)
  end.

Definition DecodeTransactionError (raw : any) : option tx_error :=
  match raw with
  | ARawMessage b | ABytes b => decodeTransactionErrorJSON b
  | _ => decode_shape raw
  end.
