(* ===== verification/TxErrorSpec.v ===== *)
(** * What the transaction-error decoder guarantees *)

From S2P Require Import Prelude BigUint BigUintSpec Json JsonSpec TxError.

(** ** The node's errors and the JSON it sends for them *)

Inductive wire_error :=
| WTransaction (kind : bytes) (details : option json)
| WInstruction (index : Z) (kind : bytes) (details : option json)
| WCustom (index code : Z).

Definition with_details (kind : bytes) (details : option json) : json :=
  match details with None => JStr kind | Some d => JObj [(kind, d)] end.

Definition json_int (z : Z) : json := JNum (format_nat z).

Definition wire_json (w : wire_error) : json :=
  match w with
  | WTransaction k d => with_details k d
  | WInstruction i k d => JObj [(str "InstructionError", JArr [json_int i; with_details k d])]
  | WCustom i c => JObj [(str "InstructionError", JArr [json_int i; JObj [(str "Custom", json_int c)]])]
  end.

Definition wire_ok (w : wire_error) : Prop :=
  match w with
  | WTransaction k d =>
      utf8 k ∧ (∀ v, d = Some v → k ≠ str "InstructionError" ∧ json_ok (maxNestingDepth - 1) v)
  | WInstruction i k d =>
      0 ≤ i < 256 ∧ utf8 k ∧ (∀ v, d = Some v → k ≠ str "Custom" ∧ json_ok (maxNestingDepth - 3) v)
  | WCustom i c => 0 ≤ i < 256 ∧ 0 ≤ c < 2 ^ 32
  end.

Definition details_any (d : option json) : any := match d with None => ANil | Some v => any_of_json v end.

Definition decoded (w : wire_error) : tx_error :=
  match w with
  | WTransaction k d => TransactionError k (details_any d)
  | WInstruction i k d => InstructionError i k 0 (details_any d)
  | WCustom i c => InstructionError i (str "Custom") c ANil
  end.

(** ** Trimming *)

(** Every space starts with a byte that no visible ASCII character is. *)
Definition space_start (p : bytes) : bool :=
  match p with x :: _ => (x <=? 32) || (128 <=? x) | [] => false end.

Lemma space_runes_start :
  forallb space_start space_runes = true ∧ forallb space_start (reverse <$> space_runes) = true.
Proof. by vm_compute. Qed.

Lemma strip_all_visible runes f c b :
  forallb space_start runes = true → 32 < c < 128 → strip_all runes f (c :: b) = c :: b.
Proof.
  intros Hr Hc. destruct f as [|f]; [done|]. cbn [strip_all].
  assert (strip_one runes (c :: b) = None) as ->; [|done].
  unfold strip_one. rewrite (proj2 (list_find_None _ _)); [done|].
  apply Forall_forall. intros p Hp [k Hk]. rewrite forallb_forall in Hr.
  specialize (Hr p (proj1 (list_elem_of_In _ _) Hp)). destruct p as [|x p]; [done|]. simpl in Hr. simplify_eq/=.
  apply orb_true_iff in Hr as [?%Z.leb_le|?%Z.leb_le]; lia.
Qed.

Lemma strip_one_space c b :
  is_space c = true →
  strip_one space_runes (c :: b) = Some b ∧ strip_one (reverse <$> space_runes) (c :: b) = Some b.
Proof.
  unfold is_space. rewrite !orb_true_iff, !Z.eqb_eq. by intros [[[->| ->]| ->]| ->].
Qed.

Lemma strip_all_spaces runes sp f b :
  (∀ c b, is_space c = true → strip_one runes (c :: b) = Some b) →
  Forall (λ c, is_space c = true) sp → strip_all runes (length sp + f) (sp ++ b) = strip_all runes f b.
Proof. intros Hr. induction 1 as [|c sp Hc _ IH]; [done|]. cbn [length plus app strip_all]. by rewrite Hr. Qed.

Lemma trim_space_around pre post c x t :
  Forall (λ c, is_space c = true) pre → Forall (λ c, is_space c = true) post →
  32 < c < 128 → 32 < x < 128 →
  trim_space (pre ++ (c :: t ++ [x]) ++ post) = c :: t ++ [x].
Proof.
  intros Hpre Hpost Hc Hx. unfold trim_space. destruct space_runes_start as [Hs1 Hs2].
  rewrite length_app, strip_all_spaces; [|apply strip_one_space|done].
  cbn [app]. rewrite strip_all_visible by done.
  assert (Hrev : reverse (c :: (t ++ [x]) ++ post) = reverse post ++ x :: reverse (c :: t)).
  { change (c :: (t ++ [x]) ++ post) with ((c :: t ++ [x]) ++ post).
    change (c :: t ++ [x]) with ((c :: t) ++ [x]). by rewrite !reverse_app, reverse_singleton. }
  rewrite Hrev. cbn [length]. rewrite !length_app. cbn [length].
  replace (S (length t + 1 + length post)) with (length (reverse post) + S (length t + 1))%nat
    by (rewrite length_reverse; lia).
  rewrite strip_all_spaces; [|apply strip_one_space|by apply Forall_reverse].
  rewrite strip_all_visible by done. rewrite reverse_cons, reverse_involutive. done.
Qed.

(** ** Numbers *)

Lemma digits_all n z acc : 0 ≤ z → Forall (λ c, is_digit c = true) acc →
  Forall (λ c, is_digit c = true) (digits n z acc).
Proof.
  revert z acc. induction n as [|n IH]; intros z acc Hz Hacc; [done|]. cbn [digits].
  assert (is_digit (48 + z mod 10) = true).
  { unfold is_digit. pose proof (Z.mod_pos_bound z 10). rewrite !(proj2 (Z.leb_le _ _)) by lia. done. }
  case_match; [by constructor|]. apply IH; [apply Z.div_pos; lia|by constructor].
Qed.

(** No leading zero. *)
Lemma digits_lead n z acc :
  0 < z < 10 ^ Z.of_nat n → ∃ c r, digits n z acc = c :: r ∧ c ≠ 48.
Proof.
  revert z acc. induction n as [|n IH]; intros z acc Hz; [simpl in Hz; lia|]. cbn [digits].
  rewrite Nat2Z.inj_succ, Z.pow_succ_r in Hz by lia. destruct (Z.ltb_spec z 10).
  - rewrite Z.mod_small by lia. eexists _, _. split; [done|lia].
  - apply IH. split; [apply Z.div_str_pos; lia|apply Z.div_lt_upper_bound; lia].
Qed.

Lemma span_digits_all b : Forall (λ c, is_digit c = true) b → span_digits b = (b, []).
Proof. induction 1 as [|c b Hc _ IH]; [done|]. cbn [span_digits]. by rewrite Hc, IH. Qed.

Lemma scan_number_format z : 0 ≤ z → scan_number (format_nat z) = Some (format_nat z, []).
Proof.
  intros Hz. destruct (decide (z = 0)) as [->|Hnz]; [done|].
  pose proof (format_nat_fuel z Hz) as Hf. pose proof (λ n, digits_all n z [] Hz (Forall_nil_2 _)) as Hall.
  destruct (digits_lead (S (Z.to_nat (Z.log2 z))) z [] ltac:(lia)) as (c & r & Hd & H48).
  specialize (Hall (S (Z.to_nat (Z.log2 z)))). unfold format_nat. rewrite Hd in *.
  unfold scan_number. cbn [scan_sign]. pose proof (Forall_inv Hall) as Hc. simpl in Hc.
  rewrite (proj2 (Z.eqb_neq c 45)).
  2: { unfold is_digit in Hc. apply andb_true_iff in Hc as [?%Z.leb_le _]. lia. }
  cbn [scan_int]. rewrite (proj2 (Z.eqb_neq c 48)) by done. unfold digits1.
  rewrite span_digits_all by done. cbn. by rewrite (right_id_L [] (++)).
Qed.

Lemma decodeUnsigned_int z max :
  0 ≤ z ≤ max → max < 2 ^ 64 → decodeUnsigned (ANumber (format_nat z)) max = inl z.
Proof.
  intros Hz Hmax. unfold decodeUnsigned, unsigned_value, ParseUint.
  rewrite parse_digits_format by lia. destruct (format_nat_head z) as (c & r & -> & _); [lia|].
  cbn [mbind option_bind]. rewrite (proj2 (Z.ltb_lt _ _)) by lia. by rewrite (proj2 (Z.ltb_ge _ _)) by lia.
Qed.

(** ** Properties *)

Lemma str_utf8 s : forallb (λ c, (0 <=? c) && (c <=? 127)) s = true → utf8 s.
Proof.
  induction s as [|c s IH]; [constructor|]. cbn [forallb]. rewrite andb_true_iff. intros [Hc Hs].
  apply (utf8_rune [c]); [|by apply IH]. unfold utf8_size, between. by rewrite Hc.
Qed.

Lemma with_details_ok k d n :
  0 < n → utf8 k → (∀ v, d = Some v → json_ok (n - 1) v) → json_ok n (with_details k d).
Proof. intros Hn Hk Hd. destruct d as [v|]; simpl; [|done]. split_and!; try done. by apply Hd. Qed.

Lemma wire_json_ok w : wire_ok w → json_ok maxNestingDepth (wire_json w).
Proof.
  assert (utf8 (str "InstructionError") ∧ utf8 (str "Custom")) as [HI HC] by (split; apply str_utf8; by vm_compute).
  destruct w as [k d|i k d|i c]; intros Hw; cbn [wire_json].
  - destruct Hw as [Hk Hd]. apply with_details_ok; [done|done|]. intros v Hv. by apply Hd.
  - destruct Hw as (Hi & Hk & Hd). cbn [json_ok foldr fst snd json_int].
    split_and!; try done; [apply scan_number_format; lia|].
    apply with_details_ok; [done|done|]. intros v Hv. by apply Hd.
  - destruct Hw as [Hi Hc]. cbn [json_ok foldr fst snd json_int].
    split_and!; try done; apply scan_number_format; lia.
Qed.

(** An error object or string starts and ends with a visible character. *)
Lemma wire_json_ends w :
  ∃ c t x, print_json (wire_json w) = c :: t ++ [x] ∧ 32 < c < 128 ∧ 32 < x < 128.
Proof.
  assert (Hobj : ∀ kv, ∃ c t x, print_json (JObj [kv]) = c :: t ++ [x] ∧ 32 < c < 128 ∧ 32 < x < 128).
  { intros kv. exists 123, (member_text kv), 125. done. }
  destruct w as [k [d|]|i k d|i c]; try apply Hobj.
  exists 34, (k ≫= escape), 34. done.
Qed.

Lemma decode_shape_wire w : wire_ok w → decode_shape (any_of_json (wire_json w)) = Some (decoded w).
Proof.
  destruct w as [k [d|]|i k d|i c]; intros Hw; cbn [wire_json with_details json_int any_of_json map fold_left fst snd map_set decode_shape];
    [| done | |].
  - destruct Hw as [_ Hd]. by rewrite decide_False by (by eapply Hd).
  - destruct Hw as (Hi & _ & Hd). rewrite decide_True by done. cbn [decodeInstructionError].
    rewrite decodeUnsigned_int by lia. destruct d as [d|]; [|done].
    cbn [with_details any_of_json map fold_left fst snd map_set]. by rewrite decide_False by (by eapply Hd).
  - destruct Hw as [Hi Hc]. rewrite decide_True by done. cbn [decodeInstructionError].
    rewrite decodeUnsigned_int by lia. rewrite decide_True by done.
    rewrite decodeUnsigned_int by lia. by rewrite wrapU_small.
Qed.

(** C40: every error a node can report is decoded to the value that says what it
    is.  For each variant of the node's error enum, a plain transaction error,
    one with details, an instruction error by name, one with details, a custom
    program error with its code, the JSON sent for it, surrounded by any
    whitespace, is decoded to exactly that kind, instruction index, code and
    details. *)
Theorem tx_error_roundtrip w pre post :
  wire_ok w → Forall (λ c, is_space c = true) pre → Forall (λ c, is_space c = true) post →
  DecodeTransactionError (ARawMessage (pre ++ print_json (wire_json w) ++ post)) = Some (decoded w).
Proof.
  intros Hw Hpre Hpost. destruct (wire_json_ends w) as (c & t & x & Hp & Hc & Hx).
  cbn [DecodeTransactionError]. unfold decodeTransactionErrorJSON.
  rewrite Hp, trim_space_around by done. rewrite <- Hp.
  rewrite decode_print by (by apply wire_json_ok).
  rewrite decode_shape_wire by done. rewrite Hp.
  rewrite (proj2 (Z.eqb_neq _ _)) by (rewrite zlen_cons; pose proof (zlen_nonneg (t ++ [x])); lia).
  rewrite bool_decide_false; [done|]. rewrite <- Hp. intros Hn.
  pose proof (decode_shape_wire w Hw) as Hs. pose proof (decode_print _ (wire_json_ok w Hw)) as Hd.
  rewrite Hn in Hd. assert (decode_json (str "null") = Some JNull) as He by (by vm_compute).
  rewrite Hd in He. simplify_eq. by rewrite He in Hs.
Qed.

Lemma tx_error_roundtrip_witness :
  wire_ok (WCustom 2 42) ∧
  DecodeTransactionError (ARawMessage ([32] ++ print_json (wire_json (WCustom 2 42)) ++ [10])) =
    Some (InstructionError 2 (str "Custom") 42 ANil).
Proof.
  assert (Hw : wire_ok (WCustom 2 42)) by (split; lia).
  split; [done|]. by apply (tx_error_roundtrip (WCustom 2 42) [32] [10]); [|repeat constructor..].
Defined.

(** ** When the result is nil *)

Definition nonempty (p : bytes) : bool := match p with [] => false | _ => true end.

Lemma space_runes_nonempty :
  forallb nonempty space_runes = true ∧ forallb nonempty (reverse <$> space_runes) = true.
Proof. by vm_compute. Qed.

Lemma strip_one_suffix runes b b' :
  forallb nonempty runes = true → strip_one runes b = Some b' → ∃ k, b = k ++ b' ∧ k ≠ [].
Proof.
  intros Hr H. unfold strip_one in H. destruct (list_find _ runes) as [[i p]|] eqn:Hf; [|done].
  cbn in H. simplify_eq. apply list_find_Some in Hf as (Hi & [k ->] & _).
  rewrite drop_app_length. exists p. split; [done|]. rewrite forallb_forall in Hr.
  specialize (Hr p). intros ->. apply list_elem_of_lookup_2, list_elem_of_In in Hi. by apply Hr in Hi.
Qed.

Lemma strip_all_spec runes f b :
  forallb nonempty runes = true → (length b ≤ f)%nat →
  strip_one runes (strip_all runes f b) = None ∧ ∃ k, b = k ++ strip_all runes f b.
Proof.
  intros Hr. revert b. induction f as [|f IH]; intros b Hb.
  - destruct b as [|c b]; [|simpl in Hb; lia]. split; [|by exists []]. cbn [strip_all].
    destruct (strip_one runes []) as [b'|] eqn:Hs; [|done].
    apply strip_one_suffix in Hs as (k & Hk & Hne); [|done]. by destruct k.
  - cbn [strip_all]. destruct (strip_one runes b) as [b'|] eqn:Hs.
    + apply strip_one_suffix in Hs as (k & -> & Hne); [|done]. rewrite length_app in Hb.
      destruct (IH b') as [IH1 [k' IH2]]; [destruct k; [done|simpl in Hb; lia]|].
      split; [done|]. exists (k ++ k'). by rewrite <- (assoc_L (++)), <- IH2.
    + split; [done|]. by exists [].
Qed.

Lemma trim_space_ends b :
  (∀ c r, trim_space b = c :: r → is_space c = false) ∧
  (∀ c r, trim_space b = r ++ [c] → is_space c = false).
Proof.
  destruct space_runes_nonempty as [Hn1 Hn2]. unfold trim_space.
  destruct (strip_all_spec space_runes (length b) b) as [H1 _]; [done|lia|].
  set (b1 := strip_all space_runes (length b) b) in *. clearbody b1.
  destruct (strip_all_spec (reverse <$> space_runes) (length b1) (reverse b1)) as [H2 [k Hk]];
    [done|by rewrite length_reverse|].
  set (s := strip_all (reverse <$> space_runes) (length b1) (reverse b1)) in *. clearbody s.
  split; intros c r Hs; apply not_true_is_false; intros Hc.
  - assert (b1 = c :: r ++ reverse k) as ->.
    { rewrite <- (reverse_involutive b1), Hk, reverse_app, Hs. done. }
    by rewrite (proj1 (strip_one_space c _ Hc)) in H1.
  - assert (s = c :: reverse r) as ->.
    { rewrite <- (reverse_involutive s), Hs, reverse_app. done. }
    by rewrite (proj2 (strip_one_space c _ Hc)) in H2.
Qed.

Lemma skip_ws_nil r : skip_ws r = [] → Forall (λ c, is_space c = true) r.
Proof. induction r as [|c r IH]; [constructor|]. simpl. case_match; [|done]. intros. constructor; auto. Qed.

Lemma decode_null t :
  (∀ c r, t = c :: r → is_space c = false) → (∀ c r, t = r ++ [c] → is_space c = false) →
  decode_json t = Some JNull → t = str "null".
Proof.
  intros Hhead Hlast H. unfold decode_json in H.
  destruct (parse_value _ _ t) as [[v r]|] eqn:Hp; [|done]. case_decide as Hr; [|done]. simplify_eq.
  replace (2 * length t + 2)%nat with (S (2 * length t + 1)) in Hp by lia. cbn [parse_value] in Hp.
  destruct t as [|c t]; [done|]. cbn [skip_ws] in Hp. rewrite (Hhead c t) in Hp by done.
  destruct (c =? 123).
  { case_match; [done|]. case_match; [by simplify_eq|]. by destruct (parse_members _ _ _) as [[]|]. }
  destruct (c =? 91).
  { case_match; [done|]. case_match; [by simplify_eq|]. by destruct (parse_elems _ _ _) as [[]|]. }
  destruct (c =? 34); [by destruct (read_string _) as [[]|]|].
  destruct ((c =? 45) || is_digit c); [by destruct (scan_number _) as [[]|]|].
  unfold scan_literal in Hp. case_bool_decide as Hpre; [|repeat case_bool_decide; by simplify_eq].
  destruct Hpre as [k Hk]. rewrite Hk in *. rewrite drop_app_length in Hp. simplify_eq.
  apply skip_ws_nil in Hr. destruct r as [|x r _] using rev_ind; [by rewrite (right_id_L [] (++))|].
  apply Forall_app in Hr as [_ Hx%Forall_inv]. simpl in Hx.
  by rewrite (Hlast x (str "null" ++ r)) in Hx by (by rewrite (assoc_L (++))).
Qed.

(** A transaction error is never swallowed: the decoder returns nil exactly
    for a nil interface and for raw JSON that is, up to surrounding space, empty
    or the literal null.  Everything else, malformed input included, is a
    non-nil error. *)
Theorem tx_error_nil_iff raw :
  DecodeTransactionError raw = None ↔
  raw = ANil ∨ ∃ b, (raw = ARawMessage b ∨ raw = ABytes b) ∧ (trim_space b = [] ∨ trim_space b = str "null").
Proof.
  assert (Hshape : ∀ x, decode_shape x = None → x = ANil).
  { intros x. by destruct x as [| | | |[|[] []]| | | | | | | |]. }
  assert (Hraw : ∀ b, decodeTransactionErrorJSON b = None ↔ trim_space b = [] ∨ trim_space b = str "null").
  { intros b. unfold decodeTransactionErrorJSON. split.
    - intros H. destruct (Z.eqb_spec (zlen (trim_space b)) 0) as [Hz|_].
      { left. destruct (trim_space b); [done|]. rewrite zlen_cons in Hz. pose proof (zlen_nonneg l). lia. }
      case_bool_decide as Hn; [by right|]. cbn [orb] in H.
      destruct (decode_json (trim_space b)) as [v|] eqn:Hd; [|done].
      apply Hshape in H. right. destruct v; try done.
      by apply decode_null; [apply trim_space_ends..|].
    - by intros [-> | ->]. }
  split.
  - destruct raw as [|b|b| | | | | | | | | |]; intros H; cbn [DecodeTransactionError] in H; try (by apply Hshape in H); [by left|right|right];
      exists b; (split; [by auto|by apply Hraw]).
  - by intros [->|(b & [-> | ->] & Hb)]; [|apply Hraw..].
Qed.

(** ** Ranges *)

Lemma parse_digits_nonneg b a v : 0 ≤ a → parse_digits b a = Some v → 0 ≤ v.
Proof.
  revert a. induction b as [|c b IH]; intros a Ha; simpl; [by intros [= <-]|]. case_match eqn:Hc; [|done].
  apply IH. apply andb_true_iff in Hc as [?%Z.leb_le _]. lia.
Qed.

Lemma decodeUnsigned_range raw max v : decodeUnsigned raw max = inl v → 0 ≤ v ≤ max.
Proof.
  unfold decodeUnsigned. destruct (unsigned_value raw max) as [v'|] eqn:Hu; [|done].
  destruct (Z.ltb_spec max v'); [done|]. intros [= <-]. split; [|done].
  assert (Hf : ∀ f, decode_float f max = inl v' → 0 ≤ v').
  { intros f. unfold decode_float. destruct (sf_negative f) eqn:Hs; [by rewrite orb_true_r|].
    case_match; [done|]. intros [= <-]. destruct f as [| | |[] m e]; try done. cbn [sf_trunc].
    destruct (Z.leb_spec 0 e).
    - apply Z.mul_nonneg_nonneg; [lia|]. by apply Z.pow_nonneg.
    - apply Z.div_pos; [lia|]. apply Z.pow_pos_nonneg; lia. }
  destruct raw; cbn [unsigned_value] in Hu; try done; try by eapply Hf.
  - unfold ParseUint in Hu. destruct text as [|c t]; [done|].
    destruct (parse_digits (c :: t) 0) as [p|] eqn:Hp; [|done]. cbn [mbind option_bind] in Hu.
    apply parse_digits_nonneg in Hp; [|done]. destruct (p <? 2 ^ 64); by simplify_eq.
  - destruct (Z.ltb_spec n 0); by simplify_eq.
  - simplify_eq. lia.
Qed.

(** A decoded instruction error names an instruction the wire format can index
    and a 32-bit code, whatever the input. *)
Theorem tx_error_ranges raw i k c d :
  DecodeTransactionError raw = Some (InstructionError i k c d) → 0 ≤ i < 256 ∧ 0 ≤ c < 2 ^ 32.
Proof.
  assert (Hi : ∀ x, decodeInstructionError x = InstructionError i k c d → 0 ≤ i < 256 ∧ 0 ≤ c < 2 ^ 32).
  { intros x. destruct x as [| | | | |[|p0 [|p1 []]]| | | | | | |]; try done. cbn [decodeInstructionError].
    destruct (decodeUnsigned p0 255) as [idx|] eqn:Hidx; [|done]. apply decodeUnsigned_range in Hidx.
    destruct p1 as [| | |s|[|[kind det] []]| | | | | | | |]; try done.
    - intros [= <- <- <- <-]. lia.
    - case_decide; [|intros [= <- <- <- <-]; lia].
      destruct (decodeUnsigned det _) as [code|] eqn:Hcode; [|done]. apply decodeUnsigned_range in Hcode.
      intros [= <- <- <- <-]. rewrite wrapU_small by (unfold is_u; lia). lia. }
  assert (Hs : ∀ x, decode_shape x = Some (InstructionError i k c d) → 0 ≤ i < 256 ∧ 0 ≤ c < 2 ^ 32).
  { intros x. destruct x as [| | | |[|[kind det] []]| | | | | | | |]; try done. cbn [decode_shape].
    case_decide; [|done]. intros [= Hx]. by apply Hi in Hx. }
  assert (Hj : ∀ b, decodeTransactionErrorJSON b = Some (InstructionError i k c d) → 0 ≤ i < 256 ∧ 0 ≤ c < 2 ^ 32).
  { intros b. unfold decodeTransactionErrorJSON. case_match; [done|]. case_match; [|done]. apply Hs. }
  intros H. destruct raw; cbn [DecodeTransactionError] in H; first [by apply Hj in H|by apply Hs in H].
Qed.
