(* ===== verification/AccountInfo.v ===== *)
(** * Encoded payloads in JSON: [account_info.go] and the JSON methods of
    [message.go] and [transaction.go]

    A node sends account data, messages and transactions as a JSON pair
    [[value, encoding]].  Base64 and the JSON text are modelled ([Base64],
    [Json]); base58 and zstd are classes with their laws. *)

From S2P Require Import Prelude Wire Keys Message MessageCodec Transaction TransactionCodec BigUint Json JsonSpec Base64.

(** [github.com/klauspost/compress/zstd]: [EncodeAll] and [DecodeAll]. *)
Class Zstd := {
  zstd_EncodeAll : bytes → bytes;
  zstd_DecodeAll : bytes → result bytes;
}.

Class ZstdLaws `{Zstd} := {
  zstd_roundtrip b : wf_bytes b → zstd_DecodeAll (zstd_EncodeAll b) = Ok b;
  zstd_wf b : wf_bytes b → wf_bytes (zstd_EncodeAll b);
  zstd_nonempty b : b ≠ [] → zstd_EncodeAll b ≠ [];
  zstd_decode_no_panic b : no_panic (zstd_DecodeAll b);
  zstd_decode_wf b out : zstd_DecodeAll b = Ok out → wf_bytes out;
}.

(** The base58 alphabet has only letters and digits; a decoded text is bytes. *)
Class Base58Alphabet `{Base58} := {
  base58_alphabet b : wf_bytes b → Forall (λ c, between 48 57 c || between 65 90 c || between 97 122 c) (base58_Encode b);
  base58_decode_wf s b : base58_Decode s = Ok b → wf_bytes b;
}.

(** ** [Encoding] ([options.go]) *)

Definition EncodingJSONParsed : bytes := str "jsonParsed".
Definition EncodingJSON : bytes := str "json".
Definition EncodingBase58 : bytes := str "base58".
Definition EncodingBase64 : bytes := str "base64".
Definition EncodingBase64ZSTD : bytes := str "base64+zstd".

(** ** [EncodedData] *)

Record EncodedData := mkEncodedData { ED_Bytes : bytes; ED_Encoding : bytes }.

(** [json.Unmarshal] of an element of a [[2]string] that holds the empty
    string: a null leaves it; anything but a string is an error. *)
Definition string_elem (v : option json) : option bytes :=
  match v with
  | None | Some JNull => Some []
  | Some (JStr s) => Some s
  | Some _ => None
  end.

(** [json.Unmarshal] into a [[2]string]: missing elements are empty, elements
    after the second are skipped. *)
Definition string_pair (v : json) : option (bytes * bytes) :=
  match v with
  | JNull => Some ([], [])
  | JArr l => a ← string_elem (l !! 0%nat); b ← string_elem (l !! 1%nat); Some (a, b)
  | _ => None
  end.

Section codecs.
Context `{Base58, Zstd}.

(** The switch on the encoding. *)
Definition decode_value (enc value : bytes) : result bytes :=
  if decide (enc = EncodingBase64) then
    wrap_result "solana: EncodedData: base64 decode" [] (DecodeString value)
  else if decide (enc = EncodingBase58) then
    wrap_result "solana: EncodedData: base58 decode" [] (base58_Decode value)
  else if decide (enc = EncodingBase64ZSTD) then
    compressed ← wrap_result "solana: EncodedData: base64 decode" [] (DecodeString value);
    wrap_result "solana: EncodedData: zstd decompress" [] (zstd_DecodeAll compressed)
  else if decide (enc = EncodingJSONParsed ∨ enc = EncodingJSON) then
    Err (ErrFmt "solana: EncodedData: encoding %q is a parsed object, not raw bytes" [AB enc])
  else Err (ErrFmt "solana: EncodedData: unknown encoding %q" [AB enc]).

(** After [json.Unmarshal]: the encoding is stored before the value is
    decoded. *)
Definition assign_pair (d : EncodedData) (value enc : bytes) : method EncodedData :=
  if decide (value = []) then (Ok (), mkEncodedData [] enc) else
  match decode_value enc value with
  | Ok b => (Ok (), mkEncodedData b enc)
  | Err e => (Err e, mkEncodedData (ED_Bytes d) enc)
  | Panic w => (Panic w, mkEncodedData (ED_Bytes d) enc)
  end.

Definition json_error : error := ErrStruct "json.SyntaxError or json.UnmarshalTypeError" [].

Definition EncodedData_UnmarshalJSON (d : EncodedData) (data : bytes) : method EncodedData :=
  match v ← decode_json data; string_pair v with
  | None => (Err (ErrWrap "solana: EncodedData" [] json_error), d)
  | Some (value, enc) => assign_pair d value enc
  end.

Definition encode_value (enc b : bytes) : result bytes :=
  if decide (enc = EncodingBase64) then Ok (EncodeToString b)
  else if decide (enc = EncodingBase58) then Ok (base58_Encode b)
  else if decide (enc = EncodingBase64ZSTD) then Ok (EncodeToString (zstd_EncodeAll b))
  else if decide (enc = EncodingJSONParsed ∨ enc = EncodingJSON) then
    Err (ErrFmt "solana: EncodedData: encoding %q has no raw-bytes form" [AB enc])
  else if decide (enc = []) then Err (ErrFmt "solana: EncodedData: empty Encoding" [])
  else Err (ErrFmt "solana: EncodedData: unknown encoding %q" [AB enc]).

(** [json.Marshal([2]string{a, b})] *)
Definition marshal_pair (a b : bytes) : bytes := [91] ++ json_string a ++ [44] ++ json_string b ++ [93].

Definition EncodedData_MarshalJSON (d : EncodedData) : result bytes :=
  value ← encode_value (ED_Encoding d) (ED_Bytes d);
  Ok (marshal_pair value (ED_Encoding d)).

(** ** [AccountInfo] *)

Record AccountInfo := mkAccountInfo {
  Lamports : Z;
  Owner : PublicKey;
  AccountData : EncodedData;
  Executable : bool;
  RentEpoch : Z;
  Space : Z;
}.

Definition AccountInfo_Bytes (a : AccountInfo) : bytes := ED_Bytes (AccountData a).

(** ** [Message] and [Transaction] *)

(** [var d EncodedData; json.Unmarshal(data, &d)], then the binary form: a nil
    pointer, or an empty payload, leaves the receiver alone. *)
Definition unmarshal_payload {T} (label : string) (p : T) (data : bytes) (unmarshal : T → bytes → method T) : method T :=
  if isJSONNull data then (Ok (), p) else
  match EncodedData_UnmarshalJSON (mkEncodedData [] []) data with
  | (Err e, _) => (Err (ErrWrap label [] e), p)
  | (Panic w, _) => (Panic w, p)
  | (Ok _, d) => if zlen (ED_Bytes d) =? 0 then (Ok (), p) else unmarshal p (ED_Bytes d)
  end.

Definition Message_UnmarshalJSON (m : Message) (data : bytes) : method Message :=
  unmarshal_payload "solana: Message" m data UnmarshalBinary.

Definition Transaction_UnmarshalJSON (tx : Transaction) (data : bytes) : method Transaction :=
  unmarshal_payload "solana: Transaction" tx data Transaction_UnmarshalBinary.

Definition ToBase64 (tx : Transaction) : result bytes :=
  data ← Transaction_Marshal tx; Ok (EncodeToString data).
End codecs.

(** ** [MessageVersion] and [Uint8Slice] *)

(** [strconv.ParseUint(s, 10, w)] *)
Definition ParseUint (s : bytes) (w : Z) : option Z :=
  match s with
  | [] => None
  | _ => v ← parse_digits s 0; if v <? 2 ^ w then Some v else None
  end.

Definition quoted_legacy : bytes := [34] ++ str "legacy" ++ [34].

Definition MessageVersion_UnmarshalJSON (v : Z) (data : bytes) : method Z :=
  if decide (data = str "null" ∨ data = [34; 34] ∨ data = quoted_legacy) then (Ok (), MessageVersionLegacy) else
  match ParseUint data 8 with
  | Some n => (Ok (), n)
  | None => (Err (ErrWrap "solana: MessageVersion" [] (ErrStruct "strconv.NumError" [AB data])), v)
  end.

Definition MessageVersion_MarshalJSON (v : Z) : result bytes :=
  if v =? MessageVersionLegacy then Ok quoted_legacy else Ok (format_uint v).

(** [json.Marshal] of the widened numbers; nil is made an empty slice first. *)
Fixpoint number_list (l : list Z) : bytes :=
  match l with
  | [] => []
  | [n] => format_uint n
  | n :: l => format_uint n ++ [44] ++ number_list l
  end.

Definition Uint8Slice_MarshalJSON (u8s : list Z) : result bytes := Ok ([91] ++ number_list u8s ++ [93]).
