(* ===== verification/AccountInfoSpec.v ===== *)
(** * Encoded payloads: theorems

    Writing and reading the pair are inverse for every binary encoding, also
    through transactions; reading never panics, whatever the text. *)

From S2P Require Import Prelude Wire Keys Message MessageCodec Transaction TransactionCodec BigUint BigUintSpec Json JsonSpec Base64 AccountInfo.

(** ** Text that needs no escape *)

Definition plain (c : Z) : bool :=
  between 32 126 c && negb ((c =? 34) || (c =? 92) || (c =? 60) || (c =? 62) || (c =? 38)).

Definition plain_text (s : bytes) : Prop := Forall (λ c, plain c = true) s.

Lemma plain_cases c : plain c = true → 32 ≤ c ≤ 126 ∧ c ≠ 34 ∧ c ≠ 92 ∧ c ≠ 60 ∧ c ≠ 62 ∧ c ≠ 38.
Proof.
  unfold plain. intros [H1%between_true H2]%andb_true_iff. split; [done|].
  apply negb_true_iff in H2. rewrite !orb_false_iff, !Z.eqb_neq in H2. tauto.
Qed.

Lemma json_text_plain s : plain_text s → ∀ f, (length s ≤ f)%nat → json_text f s = s.
Proof.
  induction 1 as [|c s Hc%plain_cases _ IH]; intros f Hf; [by destruct f|].
  destruct f as [|f]; [simpl in Hf; lia|]. cbn [json_text]. simpl in Hf.
  rewrite (proj2 (Z.ltb_lt _ _)), IH by lia. unfold json_escape.
  by rewrite !(proj2 (Z.eqb_neq _ _)), (proj2 (Z.ltb_ge _ _)) by lia.
Qed.

Lemma plain_quote s : plain_text s → json_string s = quote_json s.
Proof.
  intros Hs. unfold json_string, quote_json. rewrite json_text_plain by done. do 2 f_equal.
  induction Hs as [|c s Hc%plain_cases _ IH]; [done|]. rewrite bind_cons, <- IH. unfold escape.
  by rewrite !(proj2 (Z.eqb_neq _ _)), (proj2 (Z.ltb_ge _ _)) by lia.
Qed.

Lemma plain_utf8 s : plain_text s → utf8 s.
Proof.
  induction 1 as [|c s Hc%plain_cases _ IH]; [constructor|]. apply (utf8_rune [c]); [|done].
  unfold utf8_size. by rewrite (proj2 (between_true _ _ _)) by lia.
Qed.

(** Reading back a written pair. *)
Lemma decode_pair a b : plain_text a → plain_text b → decode_json (marshal_pair a b) = Some (JArr [JStr a; JStr b]).
Proof.
  intros Ha Hb. replace (marshal_pair a b) with (print_json (JArr [JStr a; JStr b])).
  - apply decode_print. split; [done|]. repeat split; by apply plain_utf8.
  - unfold marshal_pair. rewrite !plain_quote by done. done.
Qed.

Lemma marshal_pair_not_null a b : isJSONNull (marshal_pair a b) = false.
Proof. unfold marshal_pair, isJSONNull. cbn [app]. by destruct (json_string a ++ _) as [|? [|? [|? [|? ?]]]]. Qed.

Lemma base64_char_plain v : is_digit6 v → plain (base64_char v) = true.
Proof. revert v. apply digit6_cases. by vm_compute. Qed.

Lemma base64_plain b : plain_text (EncodeToString b).
Proof.
  assert (∀ val k, plain (base64_digit val k) = true) as Hd.
  { intros. unfold base64_digit. rewrite land63. apply base64_char_plain, digit6_mod. }
  unfold EncodeToString, plain_text. induction b using group_ind; cbn [base64_encode]; repeat constructor; auto.
Qed.

Lemma base64_nonempty b : b ≠ [] → EncodeToString b ≠ [].
Proof. unfold EncodeToString. destruct b as [|? [|? [|? ?]]]; done. Qed.

(** ** [EncodedData] *)

Section theorems.
Context `{B : Base58, BL : !Base58Laws, BA : !Base58Alphabet, ZS : Zstd, ZL : !ZstdLaws}.

Definition binary_encoding (enc : bytes) : Prop :=
  enc = EncodingBase64 ∨ enc = EncodingBase58 ∨ enc = EncodingBase64ZSTD.

Lemma binary_encoding_plain enc : binary_encoding enc → plain_text enc.
Proof. unfold plain_text. intros [->|[->| ->]]; apply Forall_forall; intros c Hc; by repeat (apply elem_of_cons in Hc as [->|Hc]; [done|]); apply elem_of_nil in Hc. Qed.

Lemma alnum_plain s : Forall (λ c, between 48 57 c || between 65 90 c || between 97 122 c) s → plain_text s.
Proof.
  intros H. apply (Forall_impl _ _ _ H). intros c Hc. apply Is_true_true in Hc.
  rewrite !orb_true_iff, !between_true in Hc. unfold plain. rewrite (proj2 (between_true _ _ _)) by lia.
  by rewrite !(proj2 (Z.eqb_neq _ _)) by lia.
Qed.

(** What is written under a binary encoding is plain text that decodes; base58
    has no text for the empty value. *)
Lemma encode_value_spec enc b : binary_encoding enc → wf_bytes b → (enc = EncodingBase58 → b ≠ []) →
  ∃ value, encode_value enc b = Ok value ∧ plain_text value ∧ decode_value enc value = Ok b ∧ (b ≠ [] → value ≠ []).
Proof.
  intros [->|[->| ->]] Hb Hne; unfold encode_value, decode_value.
  - exists (EncodeToString b). rewrite !decide_True by done. rewrite DecodeString_EncodeToString by done.
    split_and!; [done|apply base64_plain|done|apply base64_nonempty].
  - exists (base58_Encode b). rewrite !(decide_False (P:=EncodingBase58 = EncodingBase64)) by done.
    rewrite !decide_True by done. rewrite base58_roundtrip by (done || by apply Hne).
    split_and!; [done|by apply alnum_plain, base58_alphabet|done|apply base58_nonempty].
  - exists (EncodeToString (zstd_EncodeAll b)).
    rewrite !(decide_False (P:=EncodingBase64ZSTD = EncodingBase64)), !(decide_False (P:=EncodingBase64ZSTD = EncodingBase58)) by done.
    rewrite !decide_True by done. rewrite DecodeString_EncodeToString by (by apply zstd_wf). simpl.
    rewrite zstd_roundtrip by done. split_and!; [done|apply base64_plain|done|].
    intros. by apply base64_nonempty, zstd_nonempty.
Qed.

(** The pair written for a payload under base64, base58 or zstd is read
    back as the payload and its encoding, whatever the receiver held (an empty
    payload under base58 apart, on which the codec's laws are silent); under any
    other encoding nothing is written. *)
Theorem EncodedData_roundtrip (d0 d : EncodedData) (Hwf : wf_bytes (ED_Bytes d)) :
  (binary_encoding (ED_Encoding d) → (ED_Encoding d = EncodingBase58 → ED_Bytes d ≠ []) →
     ∃ text, EncodedData_MarshalJSON d = Ok text ∧ EncodedData_UnmarshalJSON d0 text = (Ok (), d)) ∧
  (¬ binary_encoding (ED_Encoding d) → ∃ e, EncodedData_MarshalJSON d = Err e).
Proof.
  destruct d as [b enc]. simpl in *. unfold EncodedData_MarshalJSON, EncodedData_UnmarshalJSON. simpl. split.
  - intros Henc Hb. destruct (encode_value_spec enc b Henc Hwf Hb) as (value & E & Hp & Hdec & Hne).
    exists (marshal_pair value enc). rewrite E. split; [done|].
    rewrite decode_pair by (done || by apply binary_encoding_plain). cbn. unfold assign_pair.
    case_decide as Hv; [|by rewrite Hdec]. destruct b; [done|]. by destruct (Hne ltac:(done)).
  - unfold binary_encoding, encode_value. intros Hn. repeat case_decide; simpl; try tauto; by eexists.
Qed.

(** ** Reading never panics *)

Lemma base64_decode_wf s : ∀ buf b, base64_decode buf s = Some b → wf_bytes b.
Proof.
  induction s as [|c s IH]; intros buf b; cbn [base64_decode].
  { destruct buf; [|done]. intros [= <-]. constructor. }
  assert (∀ z, is_u 8 (u8 z)) as Hu by (intros; by apply wrapU_is_u).
  repeat case_match; intros Hb; simplify_eq; eauto.
  all: try (destruct (base64_decode [] s) eqn:E; simplify_eq/=).
  all: repeat (apply Forall_cons_2; [apply Hu|]); eauto.
Qed.

Lemma DecodeString_ok s : no_panic (DecodeString s) ∧ ∀ b, DecodeString s = Ok b → wf_bytes b.
Proof.
  unfold DecodeString. destruct (base64_decode [] s) eqn:E; split; try done. intros b [= <-]. by eapply base64_decode_wf.
Qed.

Lemma decode_value_ok enc value : no_panic (decode_value enc value) ∧ ∀ b, decode_value enc value = Ok b → wf_bytes b.
Proof.
  destruct (DecodeString_ok value) as [Hp Hwf]. unfold decode_value.
  repeat case_decide; try done.
  - by destruct (DecodeString value).
  - pose proof (base58_decode_no_panic value). destruct (base58_Decode value) eqn:E; try done.
    split; [done|]. intros ? [= <-]. by eapply base58_decode_wf.
  - destruct (DecodeString value) as [c| |]; try done. cbn.
    pose proof (zstd_decode_no_panic c). destruct (zstd_DecodeAll c) eqn:E; try done.
    split; [done|]. intros ? [= <-]. by eapply zstd_decode_wf.
Qed.

Lemma EncodedData_UnmarshalJSON_ok d data :
  no_panic (EncodedData_UnmarshalJSON d data).1 ∧
  ((EncodedData_UnmarshalJSON d data).1 = Ok () → wf_bytes (ED_Bytes (EncodedData_UnmarshalJSON d data).2)).
Proof.
  unfold EncodedData_UnmarshalJSON. destruct (decode_json data ≫= string_pair) as [[value enc]|]; [|done].
  unfold assign_pair. case_decide; [done|]. destruct (decode_value_ok enc value) as [Hp Hwf].
  destruct (decode_value enc value); try done. split; [done|]. intros _. by apply Hwf.
Qed.

(** The payload methods of [Message] and [Transaction], for a binary decoder
    that is total and leaves its receiver alone when it fails. *)
Lemma unmarshal_payload_total {T} label (p : T) data (unmarshal : T → bytes → method T) :
  (∀ p b, wf_bytes b → no_panic (unmarshal p b).1 ∧ ((unmarshal p b).1 ≠ Ok () → (unmarshal p b).2 = p)) →
  no_panic (unmarshal_payload label p data unmarshal).1 ∧
  ((unmarshal_payload label p data unmarshal).1 ≠ Ok () → (unmarshal_payload label p data unmarshal).2 = p).
Proof.
  intros Hu. unfold unmarshal_payload. case_if; [done|].
  destruct (EncodedData_UnmarshalJSON_ok (mkEncodedData [] []) data) as [Hp Hwf].
  destruct (EncodedData_UnmarshalJSON _ data) as [[[]|e|w] d]; try done. case_if; [done|]. by apply Hu, Hwf.
Qed.

(** [UnmarshalJSON] of a message or a transaction never panics, whatever
    the text, and a call that fails leaves its receiver as it was. *)
Theorem UnmarshalJSON_total (m : Message) (tx : Transaction) (data : bytes) :
  no_panic (Message_UnmarshalJSON m data).1 ∧
  ((Message_UnmarshalJSON m data).1 ≠ Ok () → (Message_UnmarshalJSON m data).2 = m) ∧
  no_panic (Transaction_UnmarshalJSON tx data).1 ∧
  ((Transaction_UnmarshalJSON tx data).1 ≠ Ok () → (Transaction_UnmarshalJSON tx data).2 = tx).
Proof.
  assert (∀ A B C D : Prop, (A ∧ B) → (C ∧ D) → A ∧ B ∧ C ∧ D) as Hand by tauto.
  apply Hand; apply unmarshal_payload_total; intros p b Hwf.
  - pose proof (UnmarshalBinary_spec p b Hwf) as H. by destruct (UnmarshalBinary p b) as [[[]|e|w] q].
  - pose proof (Transaction_UnmarshalBinary_spec p b Hwf) as H. by destruct (Transaction_UnmarshalBinary p b) as [[[]|e|w] q].
Qed.

(** ** Transactions *)

Lemma unmarshal_payload_pair {T} label (p q : T) enc value b unmarshal :
  binary_encoding enc → plain_text value → value ≠ [] → decode_value enc value = Ok b → b ≠ [] →
  unmarshal p b = (Ok (), q) → unmarshal_payload label p (marshal_pair value enc) unmarshal = (Ok (), q).
Proof.
  intros Henc Hp Hv Hd Hb Hu. unfold unmarshal_payload, EncodedData_UnmarshalJSON.
  rewrite marshal_pair_not_null, decode_pair by (done || by apply binary_encoding_plain). cbn. unfold assign_pair.
  rewrite decide_False, Hd by done. simpl. destruct b; [done|]. by rewrite zlen_cons; pose proof (zlen_nonneg b); case_if; [lia|].
Qed.

(** C23: the base64 and base58 text of a transaction that survives the wire
    ([survives]: a well-formed message, one slot per required signer, a legacy
    message with fewer than 128 signers, a v0 one with any number but 129), sent
    back as the pair a node answers with, is read as the same transaction; so is
    its zstd-compressed form.  The base58 and zstd codecs satisfy their laws. *)
Theorem Transaction_json_roundtrip (tx0 tx : Transaction) (Htx : survives tx) :
  (∃ s, ToBase64 tx = Ok s ∧ Transaction_UnmarshalJSON tx0 (marshal_pair s EncodingBase64) = (Ok (), tx)) ∧
  (∃ s, ToBase58 tx = Ok s ∧ Transaction_UnmarshalJSON tx0 (marshal_pair s EncodingBase58) = (Ok (), tx)) ∧
  (∃ b, Transaction_Marshal tx = Ok b ∧
        Transaction_UnmarshalJSON tx0 (marshal_pair (EncodeToString (zstd_EncodeAll b)) EncodingBase64ZSTD) = (Ok (), tx)).
Proof.
  destruct Htx as [Hwf Hor]. pose proof (framing_enc_tx tx Hwf Hor) as Hf. pose proof (framing_nonempty _ _ Hf) as Hne.
  pose proof (Transaction_UnmarshalBinary_framing tx0 tx _ Hf) as Hu.
  assert (∀ enc, binary_encoding enc → ∃ value, encode_value enc (enc_tx tx) = Ok value ∧
    Transaction_UnmarshalJSON tx0 (marshal_pair value enc) = (Ok (), tx)) as H.
  { intros enc Henc. destruct (encode_value_spec enc (enc_tx tx) Henc) as (value & E & Hp & Hd & Hv); [by apply (reads_DecodeTransaction tx)|done|].
    exists value. split; [done|]. by apply (unmarshal_payload_pair _ _ _ _ _ (enc_tx tx)); auto. }
  unfold ToBase64, ToBase58. rewrite Transaction_Marshal_enc by done. split_and!.
  - destruct (H EncodingBase64) as (v & [= <-] & ?); [by left|]. by eexists.
  - destruct (H EncodingBase58) as (v & [= <-] & ?); [by right; left|]. by eexists.
  - destruct (H EncodingBase64ZSTD) as (v & [= <-] & ?); [by right; right|]. by eexists.
Qed.
End theorems.

(** ** Versions *)

(** Writing a version and reading it back; 255 is the legacy sentinel, so the
    JSON number 255 is read as legacy too. *)
Lemma MessageVersion_json_roundtrip (v0 v : Z) : is_u 8 v →
  ∃ text, MessageVersion_MarshalJSON v = Ok text ∧ MessageVersion_UnmarshalJSON v0 text = (Ok (), v).
Proof.
  intros Hv. unfold MessageVersion_MarshalJSON. destruct (Z.eqb_spec v MessageVersionLegacy) as [->|Hne]; [by eexists|].
  exists (format_uint v). split; [done|]. unfold MessageVersion_UnmarshalJSON, format_uint.
  destruct (format_nat_head v ltac:(unfold is_u in *; lia)) as (c & r & E & Hc).
  rewrite decide_False; [|rewrite E; intros [Hs|[Hs|Hs]]; vm_compute in Hs; simplify_eq; lia].
  unfold ParseUint. rewrite parse_digits_format by (unfold is_u in *; lia). rewrite E. cbn [mbind option_bind].
  by rewrite (proj2 (Z.ltb_lt _ _)) by (unfold is_u in *; lia).
Qed.

Lemma MessageVersion_255 v0 : MessageVersion_UnmarshalJSON v0 (str "255") = (Ok (), MessageVersionLegacy).
Proof. done. Qed.

Lemma MessageVersion_256 v0 : is_ok (MessageVersion_UnmarshalJSON v0 (str "256")).1 = false.
Proof. done. Qed.

(** ** Shapes that are accepted *)

(** A null, an array of any length and an unknown encoding with an empty value
    are all read without an error. *)
Lemma EncodedData_loose_shape `{Base58, Zstd} d :
  EncodedData_UnmarshalJSON d (str "null") = (Ok (), mkEncodedData [] []) ∧
  EncodedData_UnmarshalJSON d (str "[]") = (Ok (), mkEncodedData [] []) ∧
  EncodedData_UnmarshalJSON d (marshal_pair [] EncodingJSONParsed) = (Ok (), mkEncodedData [] EncodingJSONParsed) ∧
  (EncodedData_UnmarshalJSON d ([91] ++ json_string (str "aGk=") ++ [44] ++ json_string EncodingBase64 ++ str ",7]")) =
    (Ok (), mkEncodedData (str "hi") EncodingBase64).
Proof. by vm_compute. Qed.

(** A failure after the pair is read has already replaced the encoding. *)
Lemma EncodedData_failure_assigns `{Base58, Zstd} d :
  EncodedData_UnmarshalJSON d (marshal_pair (str "!") EncodingBase64) =
    (Err (ErrWrap "solana: EncodedData: base64 decode" [] (ErrStruct "base64.CorruptInputError" [])),
     mkEncodedData (ED_Bytes d) EncodingBase64).
Proof. by vm_compute. Qed.

(** ** Codecs on which the definitions run *)

Module ToyCodecs.
(** Two letters a byte. *)
Fixpoint pairs (b : bytes) : bytes :=
  match b with [] => [] | x :: b => (65 + x / 16) :: (65 + x mod 16) :: pairs b end.

Definition unpair (x y : Z) : Z := (x - 65) * 16 + (y - 65).

Fixpoint unpairs (s : bytes) : option bytes :=
  match s with
  | [] => Some []
  | x :: y :: s => if between 65 80 x && between 65 80 y then b ← unpairs s; Some (unpair x y :: b) else None
  | _ => None
  end.

#[export] Instance pair_base58 : Base58 := {|
  base58_Encode := pairs;
  base58_Decode s :=
    match unpairs s with
    | Some [] => Err (ErrFmt "zero length string" [])
    | Some b => Ok b
    | None => Err (ErrFmt "invalid base58 digit" [])
    end;
|}.

Lemma byte_parts x : is_u 8 x → 65 ≤ 65 + x / 16 ≤ 80 ∧ 65 ≤ 65 + x mod 16 ≤ 80 ∧ unpair (65 + x / 16) (65 + x mod 16) = x.
Proof. unfold is_u, unpair. intros. Z.to_euclidean_division_equations. lia. Qed.

Lemma unpairs_pairs b : wf_bytes b → unpairs (pairs b) = Some b.
Proof.
  induction 1 as [|x b (Hx & Hy & E)%byte_parts _ IH]; [done|]. cbn [pairs unpairs].
  rewrite !(proj2 (between_true _ _ _)) by done. cbn [andb]. by rewrite IH, E.
Qed.

Lemma unpairs_wf s : ∀ b, unpairs s = Some b → wf_bytes b.
Proof.
  induction s as [s IH] using (well_founded_ind (well_founded_ltof _ (@length Z))).
  destruct s as [|x [|y s]]; intros b; cbn [unpairs]; [by intros [= <-]|done|].
  destruct (between 65 80 x && between 65 80 y) eqn:E; [|done].
  apply andb_true_iff in E as [Hx%between_true Hy%between_true].
  destruct (unpairs s) as [b'|] eqn:Hs; [|done]. intros [= <-]. apply Forall_cons_2.
  - unfold is_u, unpair. lia.
  - apply (IH s); [|done]. unfold ltof. simpl. lia.
Qed.

#[export] Instance pair_base58_laws : Base58Laws.
Proof.
  constructor.
  - intros b Hb Hne. simpl. rewrite unpairs_pairs by done. by destruct b.
  - by intros [|x b].
  - intros s. simpl. by destruct (unpairs s) as [[|? ?]|].
Qed.

#[export] Instance pair_base58_alphabet : Base58Alphabet.
Proof.
  constructor.
  - induction 1 as [|x b (Hx & Hy & _)%byte_parts _ IH]; [constructor|]. simpl.
    apply Forall_cons_2; [|apply Forall_cons_2; [|exact IH]].
    + by rewrite (proj2 (between_true 65 90 _)), orb_true_r by lia.
    + by rewrite (proj2 (between_true 65 90 _)), orb_true_r by lia.
  - intros s b. simpl. destruct (unpairs s) as [[|x b']|] eqn:E; try done. intros [= <-]. by eapply unpairs_wf.
Qed.

(** A one-byte header. *)
#[export] Instance header_zstd : Zstd := {|
  zstd_EncodeAll b := 40 :: b;
  zstd_DecodeAll b :=
    match b with
    | 40 :: b => if decide (wf_bytes b) then Ok b else Err (ErrFmt "corrupted" [])
    | _ => Err (ErrFmt "invalid magic" [])
    end;
|}.

#[export] Instance header_zstd_laws : ZstdLaws.
Proof.
  assert (∀ b, no_panic (zstd_DecodeAll b) ∧ ∀ out, zstd_DecodeAll b = Ok out → wf_bytes out) as H.
  { intros b. simpl. repeat case_match; split; try done. by intros ? [= <-]. }
  constructor.
  - intros b Hb. simpl. by rewrite decide_True.
  - intros b Hb. by apply Forall_cons_2.
  - done.
  - apply H.
  - apply H.
Qed.
End ToyCodecs.

(** ** Witnesses *)

Import ToyCodecs.

Lemma EncodedData_roundtrip_witness :
  ∃ text, EncodedData_MarshalJSON (mkEncodedData [104; 105; 0] EncodingBase64ZSTD) = Ok text ∧
    EncodedData_UnmarshalJSON (mkEncodedData [] []) text = (Ok (), mkEncodedData [104; 105; 0] EncodingBase64ZSTD).
Proof.
  assert (wf_bytes [104; 105; 0]) as Hwf by (apply (bool_decide_unpack _); by vm_compute).
  apply (EncodedData_roundtrip (mkEncodedData [] []) (mkEncodedData [104; 105; 0] EncodingBase64ZSTD) Hwf).
  - by right; right.
  - done.
Defined.

Lemma Transaction_json_roundtrip_witness :
  ∃ s, ToBase64 sample_tx_v0 = Ok s ∧
    Transaction_UnmarshalJSON sample_tx_v1 (marshal_pair s EncodingBase64) = (Ok (), sample_tx_v0).
Proof.
  apply (Transaction_json_roundtrip sample_tx_v1 sample_tx_v0).
  split; [apply (bool_decide_unpack _); by vm_compute|right; by vm_compute].
Defined.
