(* ===== verification/Signer.v ===== *)
(** * Keypairs, HD wallets and Anchor discriminators: [signer.go],
    [mnemonic.go], [internal/hdwallet/hdwallet.go], [anchor/anchor.go]

    Ed25519 and HMAC-SHA512 are classes, with what their documentation says of
    sizes and of signing; so is the BIP-39 package. *)

From S2P Require Import Prelude Wire Keys Message Transaction BigUint Json Base64 AccountInfo Pda.

(** ** Cryptography *)

(** [crypto/ed25519]: the public key of a seed, and a signature under a private
    key, which is a seed followed by its public key. *)
Class Ed25519Keys := {
  ed25519_public : bytes → bytes;
  ed25519_sign : bytes → bytes → bytes;
}.

Class Ed25519KeysLaws `{Ed25519, Ed25519Keys} := {
  ed25519_public_wf seed : wf_array 32 seed → wf_array 32 (ed25519_public seed);
  ed25519_sign_wf priv msg : wf_array 64 priv → wf_array 64 (ed25519_sign priv msg);
  ed25519_verifies seed msg : wf_array 32 seed →
    ed25519_Verify (ed25519_public seed) msg (ed25519_sign (seed ++ ed25519_public seed) msg) = true;
}.

(** [crypto/hmac] over [crypto/sha512]: a key and the data. *)
Class Hmac512 := { hmac_sha512 : bytes → bytes → bytes }.
Class Hmac512Laws `{Hmac512} := { hmac_sha512_wf key data : wf_array 64 (hmac_sha512 key data) }.

(** [github.com/tyler-smith/go-bip39]: [NewSeedWithErrorChecking],
    [NewEntropy] with what the random source gave, [NewMnemonic]. *)
Class Bip39 := {
  bip39_NewSeedWithErrorChecking : bytes → bytes → result bytes;
  bip39_NewEntropy : Z → result bytes;
  bip39_NewMnemonic : bytes → result bytes;
}.

(** ** [Ed25519Keypair] *)

Record Ed25519Keypair := mkKeypair { kp_public : PublicKey; kp_private : bytes }.

Definition SeedSize : Z := 32.
Definition PrivateKeySize : Z := 64.

Section keypair.
Context `{Ed25519Keys}.

(** [ed25519.NewKeyFromSeed] and [priv.Public()]. *)
Definition NewKeyFromSeed (seed : bytes) : bytes := seed ++ ed25519_public seed.
Definition Public (priv : bytes) : bytes := copy_array 32 (drop 32 priv).

Definition keypair_of (priv : bytes) : Ed25519Keypair := mkKeypair (copy_array 32 (Public priv)) priv.

(** [ed25519.GenerateKey] makes a key of the seed the random source gives. *)
Definition NewEd25519Keypair (random : result bytes) : result Ed25519Keypair :=
  seed ← wrap_result "solana: ed25519 keypair" [] random;
  Ok (keypair_of (NewKeyFromSeed seed)).

Definition Ed25519KeypairFromSeed (seed : bytes) : result Ed25519Keypair :=
  if negb (zlen seed =? SeedSize)
  then Err (ErrWrap "solana: ed25519 seed" [AZ (zlen seed); AZ SeedSize] ErrInvalidLength) else
  Ok (keypair_of (NewKeyFromSeed seed)).

Definition Ed25519KeypairFromPrivateKey (priv : bytes) : result Ed25519Keypair :=
  if negb (zlen priv =? PrivateKeySize)
  then Err (ErrWrap "solana: ed25519 private key" [AZ (zlen priv); AZ PrivateKeySize] ErrInvalidLength) else
  Ok (keypair_of priv).

Definition Ed25519KeypairFromBase58Key `{Base58} (key : bytes) : result Ed25519Keypair :=
  if zlen key =? 0 then Err (ErrFmt "solana: ed25519 keypair: empty key" []) else
  b ← wrap_result "solana: ed25519 keypair" [] (base58_Decode key);
  if zlen b =? PrivateKeySize then Ed25519KeypairFromPrivateKey b
  else if zlen b =? SeedSize then Ed25519KeypairFromSeed b
  else Err (ErrWrap "solana: ed25519 keypair" [AZ (zlen b); AZ PrivateKeySize; AZ SeedSize] ErrInvalidLength).

Definition Keypair_PublicKey (k : Ed25519Keypair) : PublicKey := kp_public k.

(** [ed25519.Sign] panics on a private key of another size. *)
Definition Keypair_Sign (k : Ed25519Keypair) (message : bytes) : result Signature :=
  if negb (zlen (kp_private k) =? PrivateKeySize) then Panic "ed25519: bad private key length" else
  Ok (copy_array 64 (ed25519_sign (kp_private k) message)).

Definition Keypair_PrivateKey (k : Ed25519Keypair) : bytes := kp_private k.

(** The keypair as the [Signer] of [Transaction.Sign]. *)
Definition keypair_signer (k : Ed25519Keypair) : Signer := mkSigner (Keypair_PublicKey k) (Keypair_Sign k).
End keypair.

(** ** [RemoteSigner] *)

Record RemoteSigner := mkRemoteSigner { rs_pk : PublicKey; rs_fn : bytes → result Signature }.

Definition NewRemoteSigner (pk : PublicKey) (fn : option (bytes → result Signature)) : result RemoteSigner :=
  match fn with
  | None => Err (ErrFmt "solana: remote signer: nil sign function" [])
  | Some fn => Ok (mkRemoteSigner pk fn)
  end.

Definition RemoteSigner_PublicKey (r : RemoteSigner) : PublicKey := rs_pk r.
Definition RemoteSigner_Sign (r : RemoteSigner) (message : bytes) : result Signature := rs_fn r message.

Definition remote_signer (r : RemoteSigner) : Signer := mkSigner (RemoteSigner_PublicKey r) (RemoteSigner_Sign r).

(** ** SLIP-0010 derivation *)

Record Key := mkKey { PrivateKey : bytes; ChainCode : bytes }.

(** [binary.BigEndian.PutUint32] *)
Definition be32 (v : Z) : bytes := [u8 (v ≫ 24); u8 (v ≫ 16); u8 (v ≫ 8); u8 v].

(** [strings.Split(s, "/")] *)
Fixpoint split_slash (s : bytes) : list bytes :=
  match s with
  | [] => [[]]
  | c :: r =>
      if c =? 47 then [] :: split_slash r else
      match split_slash r with
      | seg :: segs => (c :: seg) :: segs
      | [] => [[c]]
      end
  end.

(** The regular expression [^m(/\d+')*$]; where the matcher is after the [m]:
    between segments, after a slash, among digits. *)
Inductive path_state := PBetween | PSlash | PDigits.

Fixpoint path_match (q : path_state) (s : bytes) : bool :=
  match s, q with
  | [], PBetween => true
  | [], _ => false
  | c :: r, PBetween => (c =? 47) && path_match PSlash r
  | c :: r, PSlash => is_digit c && path_match PDigits r
  | c :: r, PDigits => if c =? 39 then path_match PBetween r else is_digit c && path_match PDigits r
  end.

Definition validPath (s : bytes) : bool :=
  match s with c :: r => (c =? 109) && path_match PBetween r | [] => false end.

Section hdwallet.
Context `{Hmac512}.

Definition key_of (I : bytes) : Key := mkKey (take 32 I) (drop 32 I).

Definition CreateMasterKey (seed : bytes) : Key := key_of (hmac_sha512 (str "ed25519 seed") seed).

Definition CKDPriv (key : Key) (index : Z) : Key :=
  key_of (hmac_sha512 (ChainCode key) ([0] ++ PrivateKey key ++ be32 index)).

(** [uint32(n)+1<<31] *)
Definition hardened (n : Z) : Z := u32 (u32 n + 1 ≪ 31).

(** The loop over the segments. *)
Fixpoint derive_segments (key : Key) (segments : list bytes) : result Key :=
  match segments with
  | [] => Ok key
  | segment :: segments =>
      text ← slice segment 0 (zlen segment - 1);
      match ParseUint text 32 with
      | None => Err (ErrWrap "hdwallet: parse segment %q" [AB segment] (ErrStruct "strconv.NumError" [AB text]))
      | Some n => derive_segments (CKDPriv key (hardened n)) segments
      end
  end.

Definition Derived (path seed : bytes) : result Key :=
  if negb (validPath path) then Err (ErrFmt "hdwallet: invalid derivation path %q" [AB path]) else
  segments ← slice_from (split_slash path) 1;
  derive_segments (CreateMasterKey seed) segments.
End hdwallet.

(** ** Mnemonics and key files *)

Definition DefaultDerivationPath : bytes := str "m/44'/501'/0'/0'".

(** [json.Unmarshal] into a [[]byte]: base64 text or an array of numbers, where
    a null is a zero. *)
Definition json_byte (v : json) : option Z :=
  match v with
  | JNull => Some 0
  | JNum t => ParseUint t 8
  | _ => None
  end.

Definition json_bytes (v : json) : option bytes :=
  match v with
  | JNull => Some []
  | JArr l => mapM json_byte l
  | JStr s => base64_decode [] s
  | _ => None
  end.

Section mnemonic.
Context `{Ed25519Keys, Hmac512, Bip39}.

Definition Ed25519KeypairFromMnemonic (mnemonic password path : bytes) : result Ed25519Keypair :=
  seed ← wrap_result "solana: mnemonic" [] (bip39_NewSeedWithErrorChecking mnemonic password);
  let path := if decide (path = []) then DefaultDerivationPath else path in
  if negb (validPath path) then Err (ErrFmt "solana: mnemonic: invalid derivation path %q" [AB path]) else
  derived ← wrap_result "solana: mnemonic" [] (Derived path seed);
  private ← slice (PrivateKey derived) 0 SeedSize;
  Ed25519KeypairFromSeed private.

Definition GenerateMnemonic (bitSize : Z) : result bytes :=
  entropy ← wrap_result "solana: generate mnemonic" [] (bip39_NewEntropy bitSize);
  wrap_result "solana: generate mnemonic" [] (bip39_NewMnemonic entropy).

(** [file] is what [os.ReadFile] returns. *)
Definition Ed25519KeypairFromKeygenFile (file : result bytes) : result Ed25519Keypair :=
  data ← wrap_result "solana: keygen file" [] file;
  match v ← decode_json data; json_bytes v with
  | None => Err (ErrWrap "solana: keygen file: decode" [] json_error)
  | Some keyBytes => Ed25519KeypairFromPrivateKey keyBytes
  end.
End mnemonic.

(** ** Anchor discriminators *)

Section anchor.
Context `{Curve}.

Definition Sighash (namespace name : bytes) : bytes :=
  copy_array 8 (take 8 (sha256 (namespace ++ [58] ++ name))).

Definition MethodDisc (name : bytes) : bytes := Sighash (str "global") name.
Definition AccountDisc (name : bytes) : bytes := Sighash (str "account") name.
End anchor.
