(* ===== verification/SignerSpec.v ===== *)
(** * Keypairs and derivation: theorems

    Local keypairs satisfy what [Transaction.Sign] needs, keys survive export
    and import, and a derivation path means what its text says, as long as its
    indexes fit in 31 bits. *)

From S2P Require Import Prelude Wire Keys Message MessageCodec Transaction TransactionSign BigUint BigUintSpec Json JsonSpec TxErrorSpec Base64 AccountInfo AccountInfoSpec Pda Signer.

(** ** Keypairs *)

Section keypairs.
Context `{E : Ed25519, K : Ed25519Keys, KL : !Ed25519KeysLaws}.

(** The keypair of a seed. *)
Definition seed_keypair (seed : bytes) : Ed25519Keypair :=
  mkKeypair (ed25519_public seed) (seed ++ ed25519_public seed).

Lemma keypair_of_seed seed : wf_array 32 seed → keypair_of (NewKeyFromSeed seed) = seed_keypair seed.
Proof.
  intros Hs. destruct (ed25519_public_wf seed Hs) as [Hl _]. destruct Hs as [Hsl _].
  unfold keypair_of, Public, NewKeyFromSeed, seed_keypair. unfold zlen in *.
  rewrite (drop_app_length' _ _ 32) by lia. by rewrite (copy_array_id 32 (ed25519_public seed)), copy_array_id by lia.
Qed.

Lemma FromSeed_ok seed : wf_array 32 seed → Ed25519KeypairFromSeed seed = Ok (seed_keypair seed).
Proof.
  intros Hs. unfold Ed25519KeypairFromSeed. rewrite (proj1 Hs). simpl. by rewrite keypair_of_seed.
Qed.

Lemma private_wf seed : wf_array 32 seed → wf_array 64 (kp_private (seed_keypair seed)).
Proof.
  intros Hs. destruct (ed25519_public_wf seed Hs) as [Hl Hw]. destruct Hs as [Hsl Hsw]. split.
  - simpl. by rewrite zlen_app, Hl, Hsl.
  - by apply Forall_app_2.
Qed.

Lemma private_length seed : wf_array 32 seed → zlen (kp_private (seed_keypair seed)) = 64.
Proof. apply private_wf. Qed.

Lemma seed_keypair_sign seed msg : wf_array 32 seed →
  Keypair_Sign (seed_keypair seed) msg = Ok (ed25519_sign (seed ++ ed25519_public seed) msg).
Proof.
  intros Hs. unfold Keypair_Sign. rewrite private_length by done. simpl.
  destruct (ed25519_sign_wf (seed ++ ed25519_public seed) msg) as [Hl _]; [by apply private_wf|]. unfold zlen in Hl.
  by rewrite copy_array_id by lia.
Qed.

Lemma keypair_honest seed : wf_array 32 seed → honest (keypair_signer (seed_keypair seed)).
Proof.
  intros Hs msg sig. simpl. rewrite seed_keypair_sign by done. intros [= <-]. by apply ed25519_verifies.
Qed.

Lemma unsigned_verifies (m : Message) msg :
  NumRequiredSignatures (Header m) ≤ zlen (AccountKeys m) → Marshal m = Ok msg →
  VerifySignatures (NewTransaction m) = Ok ().
Proof.
  intros Hk Hm. apply VerifySignatures_Ok. unfold NewTransaction, num_required. simpl.
  split; [rewrite zlen_replicate; lia|]. split; [done|]. exists msg. split; [done|]. intros i Hi.
  destruct (lookup_lt_is_Some_2 (AccountKeys m) i) as [key Hkey]; [unfold zlen in *; lia|].
  exists (zero_array 64), key. split; [by apply lookup_replicate_2|]. by split; [|left].
Qed.

(** The keypairs the seeds make. *)
Definition made_of (seeds : list bytes) (kps : list Ed25519Keypair) : Prop :=
  Forall2 (λ seed kp, wf_array 32 seed ∧ Ed25519KeypairFromSeed seed = Ok kp) seeds kps.

Lemma made_of_eq seeds kps : made_of seeds kps → kps = seed_keypair <$> seeds ∧ Forall (wf_array 32) seeds.
Proof.
  induction 1 as [|seed kp seeds kps [Hs Hkp] _ [-> IH]]; [done|]. rewrite FromSeed_ok in Hkp by done.
  simplify_eq. split; [done|]. by constructor.
Qed.

(** C24: A new transaction signed with keypairs made from seeds, each the key
    of a required signer: signing succeeds, every keypair's slots hold a
    signature of the marshalled message under that key, and the result
    verifies. *)
Theorem sign_with_keypairs (m : Message) (seeds : list bytes) (kps : list Ed25519Keypair) (msg : bytes)
  (Hn : NumRequiredSignatures (Header m) ≠ 0)
  (Hk : NumRequiredSignatures (Header m) ≤ zlen (AccountKeys m))
  (Hm : Marshal m = Ok msg) (Hkps : made_of seeds kps)
  (Hreq : Forall (λ kp, Keypair_PublicKey kp ∈ take (Z.to_nat (NumRequiredSignatures (Header m))) (AccountKeys m)) kps) :
  ∃ tx, Sign (NewTransaction m) (keypair_signer <$> kps) = (Ok (), tx) ∧ VerifySignatures tx = Ok () ∧
    Forall (λ kp, ∃ (i : nat) sig, AccountKeys m !! i = Some (Keypair_PublicKey kp) ∧ Signatures tx !! i = Some sig ∧
      ed25519_Verify (Keypair_PublicKey kp) msg sig = true) kps.
Proof.
  destruct (made_of_eq _ _ Hkps) as [-> Hseeds].
  assert (Forall honest (keypair_signer <$> (seed_keypair <$> seeds))) as Hhonest.
  { rewrite !Forall_fmap. apply (Forall_impl _ _ _ Hseeds). apply keypair_honest. }
  pose proof (Sign_total (NewTransaction m) (keypair_signer <$> (seed_keypair <$> seeds)) msg Hn Hk Hm) as Hok.
  destruct (Sign _ _) as [r tx] eqn:Hsign. simpl in Hok. assert (r = Ok ()) as ->.
  { apply Hok; [by rewrite Forall_fmap|]. rewrite !Forall_fmap. apply (Forall_impl _ _ _ Hseeds).
    intros seed Hs. simpl. by rewrite seed_keypair_sign. }
  exists tx. split; [done|]. split; [eapply Sign_Verify; [done|by eapply unsigned_verifies|done]|].
  apply Forall_forall. intros kp Hkp.
  apply Sign_filled in Hsign as (msg' & Hmsg' & Hall). assert (msg' = msg) as -> by (simpl in Hmsg'; congruence).
  destruct (Hall (keypair_signer kp)) as (i & s' & sig & _ & Hkey & Hin & Hpk & Hsig & Hi); [by apply list_elem_of_fmap_2|].
  exists i, sig. split; [done|]. split; [done|]. rewrite Forall_forall in Hhonest.
  change (Keypair_PublicKey kp) with (Signer_PublicKey (keypair_signer kp)). rewrite <- Hpk. by apply Hhonest.
Qed.

(** Export and import agree: the private key of a seed's keypair, as bytes
    or as base58, gives the keypair back, and so does the base58 of the seed;
    any other length is refused, and so is the empty string. *)
Theorem keypair_import `{BB : Base58, BL : !Base58Laws} (seed other : bytes)
  (Hs : wf_array 32 seed) (Ho : wf_bytes other) (Hlen : zlen other ≠ 32 ∧ zlen other ≠ 64) :
  let kp := seed_keypair seed in
  Ed25519KeypairFromSeed seed = Ok kp ∧
  Ed25519KeypairFromPrivateKey (Keypair_PrivateKey kp) = Ok kp ∧
  Ed25519KeypairFromBase58Key (base58_Encode (Keypair_PrivateKey kp)) = Ok kp ∧
  Ed25519KeypairFromBase58Key (base58_Encode seed) = Ok kp ∧
  is_ok (Ed25519KeypairFromSeed other) = false ∧ is_ok (Ed25519KeypairFromPrivateKey other) = false ∧
  is_ok (Ed25519KeypairFromBase58Key []) = false ∧
  (other ≠ [] → is_ok (Ed25519KeypairFromBase58Key (base58_Encode other)) = false).
Proof.
  intros kp. pose proof (private_length seed Hs) as Hpl. change (zlen (Keypair_PrivateKey kp) = 64) in Hpl.
  assert (Ed25519KeypairFromPrivateKey (Keypair_PrivateKey kp) = Ok kp) as Hpriv.
  { unfold Ed25519KeypairFromPrivateKey. rewrite Hpl. simpl. f_equal. by apply keypair_of_seed. }
  assert (wf_bytes (Keypair_PrivateKey kp)) as Hwf by by apply private_wf.
  assert (∀ b, wf_bytes b → zlen b ≠ 0 → zlen (base58_Encode b) ≠ 0) as Hne.
  { intros b Hb Hz Hl. assert (b ≠ []) as Hb' by (by intros ->). apply base58_nonempty in Hb'.
    by destruct (base58_Encode b). }
  split_and!.
  - by apply FromSeed_ok.
  - done.
  - unfold Ed25519KeypairFromBase58Key. rewrite (proj2 (Z.eqb_neq _ _)) by (apply Hne; [done|lia]).
    rewrite base58_roundtrip by (done || intros Hnil; by rewrite Hnil in Hpl). cbn [wrap_result mbind result_bind]. by rewrite Hpl.
  - unfold Ed25519KeypairFromBase58Key. destruct Hs as [Hsl Hsw].
    rewrite (proj2 (Z.eqb_neq _ _)) by (apply Hne; [done|lia]).
    rewrite base58_roundtrip by (done || by intros ->). cbn. rewrite Hsl. simpl. by apply FromSeed_ok.
  - unfold Ed25519KeypairFromSeed. by rewrite (proj2 (Z.eqb_neq _ _)) by apply Hlen.
  - unfold Ed25519KeypairFromPrivateKey. by rewrite (proj2 (Z.eqb_neq _ _)) by apply Hlen.
  - done.
  - intros Hother. unfold Ed25519KeypairFromBase58Key. destruct (zlen (base58_Encode other) =? 0); [done|].
    rewrite base58_roundtrip by done. cbn. by rewrite !(proj2 (Z.eqb_neq _ _)) by apply Hlen.
Qed.
End keypairs.

(** ** Derivation paths *)

(** The text of a path with the given decimal segments, and of a whole path. *)
Definition path_body (segs : list bytes) : bytes := segs ≫= λ ds, 47 :: ds ++ [39].
Definition path_text (segs : list bytes) : bytes := 109 :: path_body segs.

Definition decimal (ds : bytes) : Prop := ds ≠ [] ∧ Forall (λ c, is_digit c = true) ds.

Lemma path_match_sound s :
  (path_match PBetween s = true → ∃ segs, Forall decimal segs ∧ s = path_body segs) ∧
  (path_match PSlash s = true → ∃ ds segs, decimal ds ∧ Forall decimal segs ∧ s = ds ++ 39 :: path_body segs) ∧
  (path_match PDigits s = true →
     ∃ ds segs, Forall (λ c, is_digit c = true) ds ∧ Forall decimal segs ∧ s = ds ++ 39 :: path_body segs).
Proof.
  induction s as [|c s (IHb & IHs & IHd)]; [split; [by exists []|done]|].
  cbn [path_match]. split_and!.
  - intros [->%Z.eqb_eq H]%andb_true_iff. destruct (IHs H) as (ds & segs & ? & ? & ->).
    exists (ds :: segs). split; [by constructor|]. unfold path_body. rewrite bind_cons. simpl. by rewrite <- (assoc_L (++)).
  - intros [Hc H]%andb_true_iff. destruct (IHd H) as (ds & segs & ? & ? & ->).
    exists (c :: ds), segs. split; [|done]. split; [done|by constructor].
  - case_if.
    + intros H. destruct (IHb H) as (segs & ? & ->). subst c. by exists [], segs.
    + intros [Hc H]%andb_true_iff. destruct (IHd H) as (ds & segs & ? & ? & ->).
      exists (c :: ds), segs. split; [by constructor|done].
Qed.

Lemma is_digit_range c : is_digit c = true → 48 ≤ c ≤ 57.
Proof. unfold is_digit. rewrite andb_true_iff, !Z.leb_le. done. Qed.

Lemma path_match_digits ds s : Forall (λ c, is_digit c = true) ds →
  path_match PDigits (ds ++ 39 :: s) = path_match PBetween s.
Proof.
  induction 1 as [|c ds Hc _ IH]; [done|]. cbn [app path_match]. pose proof (is_digit_range c Hc).
  rewrite (proj2 (Z.eqb_neq _ _)) by lia. by rewrite Hc.
Qed.

Lemma path_match_complete segs : Forall decimal segs → path_match PBetween (path_body segs) = true.
Proof.
  induction 1 as [|ds segs [Hne Hds] _ IH]; [done|]. unfold path_body. rewrite bind_cons. cbn [app path_match].
  rewrite <- (assoc_L (++)). cbn [app]. destruct ds as [|c ds]; [done|]. apply Forall_cons in Hds as [Hc Hds].
  cbn [app path_match]. rewrite Hc. cbn [andb]. by rewrite path_match_digits.
Qed.

Lemma validPath_iff s : validPath s = true ↔ ∃ segs, Forall decimal segs ∧ s = path_text segs.
Proof.
  unfold validPath, path_text. destruct s as [|c s].
  { split; [done|]. by intros (segs & _ & ?). }
  rewrite andb_true_iff, Z.eqb_eq. split.
  - intros [-> H]. apply path_match_sound in H as (segs & ? & ->). by exists segs.
  - intros (segs & Hs & [= -> ->]). split; [done|by apply path_match_complete].
Qed.

(** *** Splitting *)

Lemma split_slash_app ds s : Forall (λ c, c ≠ 47) ds →
  split_slash (ds ++ s) = match split_slash s with seg :: segs => (ds ++ seg) :: segs | [] => [ds] end.
Proof.
  assert (∀ s, split_slash s ≠ []) as Hne.
  { intros [|c s']; [done|]. simpl. case_if; [done|]. by destruct (split_slash s'). }
  induction 1 as [|c ds Hc _ IH]; [by destruct (split_slash s) eqn:E; [destruct (Hne s)|]|].
  cbn [app split_slash]. rewrite (proj2 (Z.eqb_neq _ _)) by done. rewrite IH. by destruct (split_slash s).
Qed.

Lemma split_path segs : Forall decimal segs →
  split_slash (path_text segs) = [109] :: ((λ ds, ds ++ [39]) <$> segs).
Proof.
  assert (∀ pre, Forall (λ c, c ≠ 47) pre → Forall decimal segs →
    split_slash (pre ++ path_body segs) = pre :: ((λ ds, ds ++ [39]) <$> segs)) as H.
  2: { apply (H [109]). by constructor. }
  induction segs as [|ds segs IH]; intros pre Hpre Hsegs.
  { rewrite split_slash_app by done. simpl. by rewrite app_nil_r. }
  apply Forall_cons in Hsegs as [[_ Hds] Hsegs]. rewrite split_slash_app by done.
  unfold path_body. rewrite bind_cons. cbn [app split_slash]. rewrite Z.eqb_refl, app_nil_r. f_equal. fold (path_body segs).
  rewrite (IH (ds ++ [39])); [done| |done]. apply Forall_app_2; [|by constructor].
  apply (Forall_impl _ _ _ Hds). intros c Hc%is_digit_range. lia.
Qed.

(** *** Deriving *)

Section derive.
Context `{Hmac512}.

Lemma slice_init (ds : bytes) x : slice (ds ++ [x]) 0 (zlen (ds ++ [x]) - 1) = Ok ds.
Proof.
  replace (zlen (ds ++ [x]) - 1) with (zlen (@nil Z) + zlen ds) by (rewrite zlen_app; unfold zlen; simpl; lia).
  apply (slice_app [] ds [x]).
Qed.

Lemma derive_segments_spec segs key :
  match mapM (λ ds, ParseUint ds 32) segs with
  | Some idxs => derive_segments key ((λ ds, ds ++ [39]) <$> segs) = Ok (fold_left CKDPriv (hardened <$> idxs) key)
  | None => ∃ e, derive_segments key ((λ ds, ds ++ [39]) <$> segs) = Err e
  end.
Proof.
  revert key. induction segs as [|ds segs IH]; intros key; [done|].
  cbn [fmap list_fmap derive_segments mapM]. rewrite slice_init. cbn [mbind result_bind option_bind].
  destruct (ParseUint ds 32) as [n|]; [|by eexists]. cbn [mbind option_bind].
  specialize (IH (CKDPriv key (hardened n))). by destruct (mapM _ segs).
Qed.

Lemma Derived_spec path seed :
  match Derived path seed with
  | Ok key => ∃ segs idxs, Forall decimal segs ∧ path = path_text segs ∧
      mapM (λ ds, ParseUint ds 32) segs = Some idxs ∧
      key = fold_left CKDPriv (hardened <$> idxs) (CreateMasterKey seed)
  | Err _ => ∀ segs, Forall decimal segs → path = path_text segs → mapM (λ ds, ParseUint ds 32) segs = None
  | Panic _ => False
  end.
Proof.
  unfold Derived. destruct (validPath path) eqn:Hv; cbn [negb].
  - apply validPath_iff in Hv as (segs & Hsegs & ->). rewrite split_path by done.
    rewrite (slice_from_app [[109]] _ : slice_from ([109] :: _) 1 = _). cbn [mbind result_bind].
    pose proof (derive_segments_spec segs (CreateMasterKey seed)) as Hd.
    destruct (mapM _ segs) as [idxs|] eqn:Hi; [rewrite Hd; by exists segs, idxs|].
    destruct Hd as [e ->]. intros segs' Hsegs' Heq.
    assert (segs' = segs) as ->; [|done].
    apply (inj (fmap (λ ds, ds ++ [39]))), (inj (cons [109])). rewrite <- !split_path by done. by rewrite Heq.
  - intros segs Hsegs ->. assert (validPath (path_text segs) = true) as Hv'; [|congruence]. apply validPath_iff. by exists segs.
Qed.

(** C25: Derivation along a path succeeds exactly when the path is an [m]
    followed by quoted decimal segments below [2^32], and then the key is the
    master key of the seed taken down the hardened indexes in order; it never
    panics. For a component of 2^31 or more the index wraps and is not hardened
    (lemma [Derived_unhardened]). *)
Theorem Derived_iff (path seed : bytes) (key : Key) :
  no_panic (Derived path seed) ∧
  (Derived path seed = Ok key ↔
   ∃ segs idxs, Forall decimal segs ∧ path = path_text segs ∧ mapM (λ ds, ParseUint ds 32) segs = Some idxs ∧
     key = fold_left CKDPriv (hardened <$> idxs) (CreateMasterKey seed)).
Proof.
  pose proof (Derived_spec path seed) as Hd. split; [by destruct (Derived path seed)|]. split.
  - intros E. by rewrite E in Hd.
  - intros (segs & idxs & Hsegs & -> & Hi & ->).
    destruct (Derived _ seed) as [k|e|w]; [|by rewrite Hd in Hi|done].
    destruct Hd as (segs' & idxs' & Hsegs' & Heq & Hi' & ->).
    assert (segs' = segs) as ->; [|by simplify_eq].
    apply (inj (fmap (λ ds, ds ++ [39]))), (inj (cons [109])). rewrite <- !split_path by done. by rewrite Heq.
Qed.
End derive.

(** An index below [2^31] gets the hardened bit; a larger one, which the path
    syntax and the 32-bit parse accept, loses it. *)
Lemma hardened_index n : is_u 32 n → hardened n = if n <? 2 ^ 31 then n + 2 ^ 31 else n - 2 ^ 31.
Proof.
  intros Hn. unfold hardened. rewrite (wrapU_small 32 n) by done. change (1 ≪ 31) with (2 ^ 31).
  unfold is_u in Hn. case_if; [by apply wrapU_small; unfold is_u; lia|].
  unfold wrapU. Z.to_euclidean_division_equations. lia.
Qed.

Lemma Derived_unhardened `{Hmac512} seed :
  Derived (str "m/2147483648'") seed = Ok (CKDPriv (CreateMasterKey seed) 0).
Proof. by vm_compute. Qed.

(** ** Mnemonics and key files *)

Section mnemonics.
Context `{E : Ed25519, K : Ed25519Keys, KL : !Ed25519KeysLaws, Hm : Hmac512, HL : !Hmac512Laws, BP : Bip39}.

(** Every derived key has 32 bytes. *)
Lemma derived_wf l seed : wf_array 32 (PrivateKey (fold_left CKDPriv l (CreateMasterKey seed))).
Proof.
  assert (∀ k d, wf_array 32 (PrivateKey (key_of (hmac_sha512 k d)))) as Hk.
  { intros k d. destruct (hmac_sha512_wf k d) as [Hl Hw]. split.
    - simpl. unfold zlen in *. rewrite length_take. lia.
    - by apply Forall_take. }
  destruct l as [|i l] using rev_ind; [apply Hk|]. rewrite fold_left_app. apply Hk.
Qed.

(** With a mnemonic that BIP-39 accepts, a keypair is derived exactly for
    the valid paths (the empty one stands for the default); it is the keypair
    of the derived key, whose signatures verify. *)
Theorem keypair_from_mnemonic (mnemonic password path seed : bytes)
  (Hseed : bip39_NewSeedWithErrorChecking mnemonic password = Ok seed) :
  let path' := if decide (path = []) then DefaultDerivationPath else path in
  match Ed25519KeypairFromMnemonic mnemonic password path with
  | Ok kp => ∃ key, Derived path' seed = Ok key ∧ kp = seed_keypair (PrivateKey key) ∧ honest (keypair_signer kp)
  | Err _ => is_ok (Derived path' seed) = false
  | Panic _ => False
  end.
Proof.
  cbv zeta. unfold Ed25519KeypairFromMnemonic. rewrite Hseed. cbn [wrap_result mbind result_bind].
  set (path' := if decide (path = []) then DefaultDerivationPath else path).
  destruct (validPath path') eqn:Hv; cbn [negb].
  2: { unfold Derived. by rewrite Hv. }
  pose proof (Derived_spec path' seed) as Hd. destruct (Derived path' seed) as [key|e|w]; [|done|done].
  destruct Hd as (segs & idxs & _ & _ & _ & ->). cbn [wrap_result mbind result_bind].
  pose proof (derived_wf (hardened <$> idxs) seed) as Hwf. set (key := fold_left _ _ _) in *.
  assert (slice (PrivateKey key) 0 SeedSize = Ok (PrivateKey key)) as ->.
  { pose proof (slice_app [] (PrivateKey key) []) as Hs. rewrite app_nil_r, (proj1 Hwf) in Hs. apply Hs. }
  cbn [mbind result_bind]. rewrite FromSeed_ok by done. exists key. split; [done|]. split; [done|]. by apply keypair_honest.
Qed.

Lemma default_path_ok seed : is_ok (Derived DefaultDerivationPath seed) = true.
Proof. by vm_compute. Qed.
End mnemonics.

(** *** Key files *)

Lemma number_list_print l : [91] ++ number_list l ++ [93] = print_json (JArr ((λ n, JNum (format_uint n)) <$> l)).
Proof.
  cbn [print_json]. rewrite <- (app_comm_cons []). cbn [app]. f_equal.
  induction l as [|n l IH]; [done|]. destruct l as [|n' l]; [done|].
  cbn [number_list fmap list_fmap map sep_text] in *. rewrite <- IH. cbn [print_json]. by rewrite <- !(assoc_L (++)).
Qed.

Lemma json_bytes_numbers l : Forall (is_u 8) l → mapM json_byte ((λ n, JNum (format_uint n)) <$> l) = Some l.
Proof.
  induction 1 as [|n l Hn _ IH]; [done|]. cbn [fmap list_fmap mapM json_byte]. unfold is_u in Hn.
  unfold ParseUint, format_uint. rewrite parse_digits_format by lia.
  destruct (format_nat_head n) as (c & r & E & _); [lia|]. rewrite E. cbn [mbind option_bind].
  rewrite (proj2 (Z.ltb_lt _ _)) by lia. cbn [mbind option_bind]. unfold format_uint in IH. by rewrite IH.
Qed.

(** A key file holding the private key as a JSON array of its 64 bytes, as
    [Uint8Slice] prints them, loads as the keypair it came from. *)
Theorem keygen_file_roundtrip `{E : Ed25519, K : Ed25519Keys, KL : !Ed25519KeysLaws} (seed : bytes) (Hs : wf_array 32 seed) :
  ∃ file, Uint8Slice_MarshalJSON (Keypair_PrivateKey (seed_keypair seed)) = Ok file ∧
    Ed25519KeypairFromKeygenFile (Ok file) = Ok (seed_keypair seed).
Proof.
  eexists. split; [done|]. unfold Ed25519KeypairFromKeygenFile. cbn [wrap_result mbind result_bind].
  assert (wf_bytes (Keypair_PrivateKey (seed_keypair seed))) as Hwf by by apply private_wf.
  rewrite number_list_print, decode_print.
  - cbn [mbind option_bind json_bytes]. rewrite json_bytes_numbers by done.
    unfold Ed25519KeypairFromPrivateKey. change (zlen (Keypair_PrivateKey _)) with (zlen (kp_private (seed_keypair seed))).
    rewrite private_length by done. simpl. f_equal. by apply keypair_of_seed.
  - split; [done|]. induction Hwf as [|n l Hn _ IH]; [done|]. cbn. split; [|done].
    apply scan_number_format. unfold is_u in Hn. lia.
Qed.

(** ** An instance *)

Module ToySigner.
(** A seed is its own public key, and the signature names it. *)
#[export] Instance verify : Ed25519 := toy_ed25519.
#[export] Instance keys : Ed25519Keys := {|
  ed25519_public seed := seed;
  ed25519_sign priv msg := toy_signature (drop 32 priv) msg;
|}.

Lemma copy_array_wf n b : wf_bytes b → wf_bytes (copy_array n b).
Proof. intros Hb. apply Forall_app_2; [by apply Forall_take|]. by apply Forall_replicate. Qed.

#[export] Instance keys_laws : Ed25519KeysLaws.
Proof.
  constructor.
  - done.
  - intros priv msg [_ Hw]. split; [unfold zlen; simpl; unfold toy_signature; by rewrite length_copy_array|].
    apply copy_array_wf, Forall_app_2; [by apply Forall_drop|]. apply Forall_singleton. by apply wrapU_is_u.
  - intros seed msg [Hl _]. cbn. rewrite (drop_app_length' _ _ 32) by (unfold zlen in Hl; lia).
    by apply bool_decide_eq_true.
Qed.

#[export] Instance hmac : Hmac512 := {| hmac_sha512 k d := copy_array 64 (u8 <$> (drop 30 d ++ k)) |}.

#[export] Instance hmac_laws : Hmac512Laws.
Proof.
  constructor. intros k d. split; [unfold zlen; simpl; unfold toy_signature; by rewrite length_copy_array|].
  apply copy_array_wf. apply Forall_fmap, Forall_forall. intros. by apply wrapU_is_u.
Qed.

(** A mnemonic is its own seed. *)
#[export] Instance bip39 : Bip39 := {|
  bip39_NewSeedWithErrorChecking m p := if decide (m = []) then Err (ErrFmt "invalid mnemonic" []) else Ok (m ++ p);
  bip39_NewEntropy n := Ok (zero_array (n `div` 8));
  bip39_NewMnemonic := Ok;
|}.
End ToySigner.
Import ToySigner ToyCodecs.

Lemma sample_key_wf : wf_array 32 (sample_key 1).
Proof. split; [done|]. apply (bool_decide_unpack _). by vm_compute. Qed.

Lemma sign_with_keypairs_witness :
  ∃ tx, Sign (NewTransaction sample_v0) [keypair_signer (seed_keypair (sample_key 1))] = (Ok (), tx) ∧
    VerifySignatures tx = Ok ().
Proof.
  destruct (sign_with_keypairs sample_v0 [sample_key 1] [seed_keypair (sample_key 1)] (enc_message sample_v0))
    as (tx & Hs & Hv & _).
  - by vm_compute.
  - by vm_compute.
  - by vm_compute.
  - constructor; [|constructor]. split; [exact sample_key_wf|by vm_compute].
  - repeat constructor.
  - exists tx. split; [exact Hs|exact Hv].
Defined.

Lemma keypair_import_witness :
  Ed25519KeypairFromBase58Key (base58_Encode (Keypair_PrivateKey (seed_keypair (sample_key 1)))) =
    Ok (seed_keypair (sample_key 1)) ∧ is_ok (Ed25519KeypairFromSeed [1; 2; 3]) = false.
Proof.
  destruct (keypair_import (sample_key 1) [1; 2; 3]) as (_ & _ & H & _ & H' & _).
  - exact sample_key_wf.
  - apply (bool_decide_unpack _). by vm_compute.
  - by vm_compute.
  - split; [exact H|exact H'].
Defined.

Lemma keypair_from_mnemonic_witness :
  ∃ kp, Ed25519KeypairFromMnemonic (str "legal winner") [] (str "m/44'/501'") = Ok kp ∧ honest (keypair_signer kp).
Proof.
  pose proof (keypair_from_mnemonic (str "legal winner") [] (str "m/44'/501'") (str "legal winner") eq_refl) as H.
  cbv zeta in H.
  assert (is_ok (Ed25519KeypairFromMnemonic (str "legal winner") [] (str "m/44'/501'")) = true) as Hok by by vm_compute.
  destruct (Ed25519KeypairFromMnemonic _ _ _) as [kp|e|w]; [|discriminate|discriminate].
  exists kp. split; [reflexivity|]. destruct H as (key & _ & _ & H). exact H.
Defined.

Lemma keygen_file_roundtrip_witness :
  ∃ file, Uint8Slice_MarshalJSON (Keypair_PrivateKey (seed_keypair (sample_key 1))) = Ok file ∧
    Ed25519KeypairFromKeygenFile (Ok file) = Ok (seed_keypair (sample_key 1)).
Proof. apply (keygen_file_roundtrip (sample_key 1) sample_key_wf). Defined.
