(* ===== verification/JsonRpc.v ===== *)
(** * The JSON-RPC client: [jsonrpc/errors.go], [classify.go], [retry.go],
    [client.go], [call_context.go] and [batch.go]

    Errors here keep their text, because the classifiers search it.  The
    network, the codec, the clock and the random source are an environment
    indexed by the attempt: the loop consults each at most once per attempt, so
    every environment, however it reacts, is some such family on a given run. *)

From S2P Require Import Prelude Keys BigUint Ix.

(** ** Errors *)

Inductive goerr :=
| GSentinel (text : bytes)                          (* a package-level errors.New value *)
| GOther (text : bytes)                             (* any other leaf *)
| GWrap (prefix : bytes) (cause : goerr)            (* fmt.Errorf("prefix: %w", cause) *)
| ErrRPC (method : bytes) (code : Z) (msg data body : bytes)
| httpError (statusCode : Z) (body : bytes).

Inductive gres (A : Type) :=
| GOk (a : A)
| GErr (e : goerr)
| GPanic.
Arguments GOk {A} a.
Arguments GErr {A} e.
Arguments GPanic {A}.

(** [strconv.Itoa] *)
Definition itoa (z : Z) : bytes := big_String z.

Definition truncate (b : bytes) (n : Z) : bytes :=
  if zlen b <=? n then b else take (Z.to_nat n) b ++ str "...".

(** [err.Error()] *)
Fixpoint error_text (e : goerr) : bytes :=
  match e with
  | GSentinel t | GOther t => t
  | GWrap p c => p ++ str ": " ++ error_text c
  | ErrRPC method code msg _ _ =>
      str "solana rpc " ++ method ++ str ": rpc error " ++ itoa code ++ str ": " ++ msg
  | httpError status body => str "http " ++ itoa status ++ str ": " ++ truncate body 256
  end.

(** [errors.Is(err, sentinel)] *)
Fixpoint is_sentinel (e : goerr) (sentinel : bytes) : bool :=
  match e with
  | GSentinel t => bool_decide (t = sentinel)
  | GWrap _ c => is_sentinel c sentinel
  | _ => false
  end.

(** [errors.As(err, &rpcErr)], then [rpcErr.Code]. *)
Fixpoint as_rpc_code (e : goerr) : option Z :=
  match e with
  | ErrRPC _ code _ _ _ => Some code
  | GWrap _ c => as_rpc_code c
  | _ => None
  end.

(** [errors.As(err, &httpErr)], then [httpErr.StatusCode]. *)
Fixpoint as_http_status (e : goerr) : option Z :=
  match e with
  | httpError status _ => Some status
  | GWrap _ c => as_http_status c
  | _ => None
  end.

(** ** [classify.go] *)

Definition RPCErrCodeBlockCleanedUp : Z := -32001.
Definition RPCErrCodeNodeUnhealthy : Z := -32005.
Definition RPCErrCodeSlotSkipped : Z := -32007.
Definition RPCErrCodeLongTermStorageSlotSkipped : Z := -32009.

Definition ErrBlockhashExpired : bytes := str "solana: blockhash expired".
Definition ErrInsufficientFunds : bytes := str "solana: insufficient funds".
Definition ErrRateLimited : bytes := str "solana: rate limited".
Definition ErrNodeBehind : bytes := str "solana: node is behind the cluster".
Definition ErrTransactionExpired : bytes := str "solana: transaction expired".
Definition ErrAccountNotFound : bytes := str "solana: account not found".
Definition ErrSignatureNotFound : bytes := str "solana: signature not found".
Definition ErrSlotSkipped : bytes := str "solana: slot skipped".
Definition ErrBlockCleanedUp : bytes := str "solana: block cleaned up".

(** [strings.Contains] *)
Fixpoint contains (s sub : bytes) : bool :=
  bool_decide (sub `prefix_of` s) ||
  match s with [] => false | _ :: s => contains s sub end.

Definition messageContainsAny (s : bytes) (subs : list bytes) : bool :=
  existsb (contains s) subs.

(** The common shape of the classifiers: nil, sentinel, codes, substrings. *)
Definition classify (sentinel : bytes) (codes : list Z) (subs : list string) (err : option goerr) : bool :=
  match err with
  | None => false
  | Some err =>
      if is_sentinel err sentinel then true else
      if match as_rpc_code err with Some c => bool_decide (c ∈ codes) | None => false end then true else
      messageContainsAny (error_text err) (str <$> subs)
  end.

Definition IsBlockhashExpired : option goerr → bool :=
  classify ErrBlockhashExpired [] ["BlockhashNotFound"; "blockhash not found"; "Blockhash not found"].
Definition IsInsufficientFunds : option goerr → bool :=
  classify ErrInsufficientFunds []
    ["InsufficientFundsForFee"; "InsufficientFundsForRent"; "insufficient funds"; "Insufficient funds"].
Definition IsRateLimited : option goerr → bool :=
  classify ErrRateLimited []
    ["rate limit"; "Rate limit"; "too many requests"; "Too Many Requests"; "HTTP 429"].
Definition IsNodeBehind : option goerr → bool :=
  classify ErrNodeBehind [RPCErrCodeNodeUnhealthy] ["Node is behind"; "node is behind"; "NodeUnhealthy"].
Definition IsTransactionExpired : option goerr → bool :=
  classify ErrTransactionExpired [] ["TransactionExpired"; "transaction expired"].
Definition IsAccountNotFound : option goerr → bool :=
  classify ErrAccountNotFound [] ["AccountNotFound"; "account not found"].
Definition IsSignatureNotFound : option goerr → bool :=
  classify ErrSignatureNotFound [] ["SignatureNotFound"; "signature not found"].
Definition IsSlotSkipped : option goerr → bool :=
  classify ErrSlotSkipped [RPCErrCodeSlotSkipped; RPCErrCodeLongTermStorageSlotSkipped]
    ["SlotSkipped"; "slot was skipped"].
Definition IsBlockCleanedUp : option goerr → bool :=
  classify ErrBlockCleanedUp [RPCErrCodeBlockCleanedUp] ["BlockCleanedUp"; "block was cleaned up"].

(** ** [retry.go] *)

Definition context_Canceled : bytes := str "context canceled".
Definition context_DeadlineExceeded : bytes := str "context deadline exceeded".

Definition isRetryable (err : goerr) : bool :=
  if is_sentinel err context_Canceled || is_sentinel err context_DeadlineExceeded then false else
  match as_http_status err with
  | Some status => (500 <=? status) || (status =? 429)
  | None => true
  end.

(** Durations are nanoseconds in an [int64]. *)
Record exponentialBackoff := mkBackoff { MaxAttempts : Z; Base : Z; MaxDelay : Z }.

Definition DefaultRetryPolicy : exponentialBackoff := mkBackoff 5 200000000 10000000000.

(** [rand] is [rand.Int64N], which panics on a bound that is not positive. *)
Definition ShouldRetry (e : exponentialBackoff) (rand : Z → Z) (attempt : Z) (err : goerr) : gres (Z * bool) :=
  if MaxAttempts e <=? attempt then GOk (0, false) else
  if negb (isRetryable err) then GOk (0, false) else
  let shift := u64 (attempt - 1) in
  let shift := if 10 <? shift then 10 else shift in
  let delay := s64 (Base e ≪ shift) in
  let delay := if (MaxDelay e <? delay) || (delay <=? 0) then MaxDelay e else delay in
  if delay <=? 0 then GPanic else GOk (rand delay, true).

(** ** [client.go]: one exchange and the retry loop *)

(** What the HTTP stack answers to one request. *)
Inductive exchange :=
| NewRequestFails (e : goerr)
| AuthFails (e : goerr)
| DoFails (e : goerr)
| ReadFails (e : goerr)
| Answer (statusCode : Z) (body : bytes).

Definition doHTTP (x : exchange) : gres bytes :=
  match x with
  | NewRequestFails e => GErr e
  | AuthFails e => GErr (GWrap (str "auth") e)
  | DoFails e => GErr e
  | ReadFails e => GErr (GWrap (str "read body") e)
  | Answer status body =>
      if (status <? 200) || (300 <=? status) then GErr (httpError status body) else GOk body
  end.

(** The environment of one [sendRaw] call, by attempt. *)
Record SendEnv := mkSendEnv {
  env_build : Z → gres bytes;              (* the build callback *)
  env_http : Z → bytes → exchange;         (* the answer to this body *)
  env_rand : Z → Z → Z;                    (* rand.Int64N *)
  env_wait : Z → Z → option goerr;         (* ctx.Err() if the context ends the wait *)
}.

(** The policy decides with the attempt's random source. *)
Definition policy := (Z → Z) → Z → goerr → gres (Z * bool).

Definition rpc_label (label : bytes) : bytes := str "solana rpc " ++ label.

(** The result, and the delays waited for. *)
Fixpoint sendRaw (fuel : nat) (env : SendEnv) (retry : policy) (label : bytes) (attempt : Z) :
    option (gres bytes * list Z) :=
  match fuel with
  | O => None
  | S fuel =>
      match env_build env attempt with
      | GErr e => Some (GErr (GWrap (rpc_label label ++ str ": marshal request") e), [])
      | GPanic => Some (GPanic, [])
      | GOk body =>
          match doHTTP (env_http env attempt body) with
          | GOk resp => Some (GOk resp, [])
          | GPanic => Some (GPanic, [])
          | GErr err =>
              match retry (env_rand env attempt) attempt err with
              | GErr e => Some (GErr e, [])
              | GPanic => Some (GPanic, [])
              | GOk (_, false) => Some (GErr (GWrap (rpc_label label) err), [])
              | GOk (delay, true) =>
                  match env_wait env attempt delay with
                  | Some ctx_err => Some (GErr (GWrap (rpc_label label) ctx_err), [delay])
                  | None =>
                      '(r, ds) ← sendRaw fuel env retry label (attempt + 1);
                      Some (r, delay :: ds)
                  end
              end
          end
      end
  end.

(** [callRaw]: the request is fixed, so the build callback is constant. *)
Definition callRaw (fuel : nat) (env : SendEnv) (retry : policy) (method : bytes) : option (gres bytes * list Z) :=
  sendRaw fuel env retry method 1.

(** ** [call_context.go] *)

(** [Error] of [request.go]. *)
Record RpcErrorObject := mkRpcError { Code : Z; Message : bytes; ErrorData : bytes }.

(** [unmarshal] is the codec at the envelope type: the result and the error
    object. *)
Definition CallContext {T} (unmarshal : bytes → gres (T * option RpcErrorObject)) (method : bytes)
    (sent : gres bytes) : gres T :=
  match sent with
  | GErr err => GErr err
  | GPanic => GPanic
  | GOk body =>
      match unmarshal body with
      | GErr err => GErr (GWrap (rpc_label method ++ str ": decode response") err)
      | GPanic => GPanic
      | GOk (_, Some e) => GErr (ErrRPC method (Code e) (Message e) (ErrorData e) body)
      | GOk (r, None) => GOk r
      end
  end.

(** ** [batch.go] *)

(** [Result] is the target the caller passed, [None] for nil; its contents are
    the value decoded into it.  The targets of two elements are distinct
    objects. *)
Record BatchElem (T : Type) := mkElem {
  Method : bytes;
  Result : option T;
  Error : option goerr;
}.
Arguments mkElem {T} _ _ _.
Arguments Method {T} _.
Arguments Result {T} _.
Arguments Error {T} _.

Record Response := mkResponse { ID : Z; RawResult : bytes; RespError : option RpcErrorObject }.

Definition ErrMissingResponse : goerr := GSentinel (str "no response for batch element").

Section batch.
Context {T : Type}.
(** The codec at the element's type, given the target's contents: on an error
    it may have written part of the target. *)
Context (unmarshal : bytes → T → T * option goerr).

(** The body of the loop over the responses, for the element it names. *)
Definition apply_response (r : Response) (elem : BatchElem T) : BatchElem T :=
  match RespError r with
  | Some e => mkElem (Method elem) (Result elem) (Some (ErrRPC (Method elem) (Code e) (Message e) (ErrorData e) []))
  | None =>
      match Result elem with
      | Some t =>
          if 0 <? zlen (RawResult r) then
            let '(t, err) := unmarshal (RawResult r) t in
            mkElem (Method elem) (Some t)
              (match err with
               | Some err => Some (GWrap (rpc_label (Method elem) ++ str ": decode result") err)
               | None => Error elem
               end)
          else elem
      | None => elem
      end
  end.

(** [idToIdx] maps an id to the position of its request. *)
Fixpoint index_ids (i : nat) (ids : list Z) (m : gmap Z nat) : gmap Z nat :=
  match ids with
  | [] => m
  | id :: ids => index_ids (S i) ids (<[id := i]> m)
  end.

Fixpoint match_responses (idToIdx : gmap Z nat) (resps : list Response)
    (b : list (BatchElem T)) (seen : list bool) : list (BatchElem T) * list bool :=
  match resps with
  | [] => (b, seen)
  | r :: resps =>
      match idToIdx !! ID r with
      | None => match_responses idToIdx resps b seen
      | Some idx => match_responses idToIdx resps (alter (apply_response r) idx b) (<[idx := true]> seen)
      end
  end.

Fixpoint mark_missing (b : list (BatchElem T)) (seen : list bool) : list (BatchElem T) :=
  match b, seen with
  | e :: b, s :: seen =>
      (if s then e else mkElem (Method e) (Result e) (Some ErrMissingResponse)) :: mark_missing b seen
  | _, _ => b
  end.

(** [ids] are the values [c.nextID.Add(1)] returned, in order; [send] is
    [sendRaw]; [decode] the codec at the response array. *)
Definition BatchCallContext (ids : list Z) (send : gres bytes) (decode : bytes → gres (list Response))
    (label : bytes) (b : list (BatchElem T)) : gres () * list (BatchElem T) :=
  if zlen b =? 0 then (GOk (), b) else
  let idToIdx := index_ids 0 ids ∅ in
  match send with
  | GErr err => (GErr err, b)
  | GPanic => (GPanic, b)
  | GOk body =>
      match decode body with
      | GErr err => (GErr (GWrap (rpc_label label ++ str ": decode response array") err), b)
      | GPanic => (GPanic, b)
      | GOk resps =>
          let '(b, seen) := match_responses idToIdx resps b (replicate (length b) false) in
          (GOk (), mark_missing b seen)
      end
  end.
End batch.

(** ** Specification of the retry loop *)

(** Attempt [k] fails in the way the loop retries: the request was built, the
    exchange failed with [err], which is transient. *)
Definition transient_failure (env : SendEnv) (k : Z) (err : goerr) : Prop :=
  ∃ body, env_build env k = GOk body ∧ doHTTP (env_http env k body) = GErr err ∧ isRetryable err = true.

(** How attempt [n] ends the call. *)
Inductive ends (env : SendEnv) (p : exponentialBackoff) (label : bytes) (n : Z) : gres bytes → Prop :=
| Ends_ok body resp :
    env_build env n = GOk body → doHTTP (env_http env n body) = GOk resp → ends env p label n (GOk resp)
| Ends_build e :
    env_build env n = GErr e →
    ends env p label n (GErr (GWrap (rpc_label label ++ str ": marshal request") e))
| Ends_fatal body err :
    env_build env n = GOk body → doHTTP (env_http env n body) = GErr err →
    isRetryable err = false ∨ n = MaxAttempts p →
    ends env p label n (GErr (GWrap (rpc_label label) err))
| Ends_ctx err d ctx_err :
    n < MaxAttempts p → transient_failure env n err → env_wait env n d = Some ctx_err →
    ends env p label n (GErr (GWrap (rpc_label label) ctx_err)).

(** Sound random source and a builder that returns. *)
Definition env_ok (env : SendEnv) : Prop :=
  (∀ k b, 0 < b → 0 ≤ env_rand env k b < b) ∧ (∀ k, env_build env k ≠ GPanic).

Definition backoff_ok (p : exponentialBackoff) : Prop :=
  1 ≤ MaxAttempts p ∧ 0 < MaxDelay p ∧ 0 < Base p ∧ Base p * 1024 < 2 ^ 63.

(** The bound of the delay after attempt [k]. *)
Definition delay_bound (p : exponentialBackoff) (k : Z) : Z :=
  Z.min (MaxDelay p) (Base p * 2 ^ Z.min (k - 1) 10).

(** ** Lemmas *)

Lemma ShouldRetry_stop p rand k err :
  MaxAttempts p ≤ k ∨ isRetryable err = false → ShouldRetry p rand k err = GOk (0, false).
Proof.
  unfold ShouldRetry. intros [Hk| ->].
  - by rewrite (proj2 (Z.leb_le _ _)).
  - by case_if.
Qed.

Lemma ShouldRetry_go p rand k err :
  backoff_ok p → 1 ≤ k < MaxAttempts p → k < 2 ^ 64 → isRetryable err = true →
  ShouldRetry p rand k err = GOk (rand (delay_bound p k), true) ∧ 0 < delay_bound p k.
Proof.
  intros (_ & Hmax & Hb & Hover) Hk Hk64 Hr. unfold ShouldRetry, delay_bound.
  rewrite (proj2 (Z.leb_gt _ _)) by lia. rewrite Hr. cbn [negb].
  rewrite (wrapU_small 64) by (unfold is_u; lia).
  assert (Hs : (if 10 <? k - 1 then 10 else k - 1) = Z.min (k - 1) 10) by (case_if; lia).
  rewrite Hs. set (s := Z.min (k - 1) 10).
  assert (0 ≤ s ≤ 10) by lia.
  rewrite Z.shiftl_mul_pow2 by lia.
  assert (1 ≤ 2 ^ s ≤ 1024).
  { split; [|change 1024 with (2 ^ 10); apply Z.pow_le_mono_r; lia].
    change 1 with (2 ^ 0) at 1. apply Z.pow_le_mono_r; lia. }
  rewrite wrapS_small; [|lia|unfold is_s; change (64 - 1) with 63; nia].
  assert (0 < Base p * 2 ^ s) by nia.
  assert (Hd : (if (MaxDelay p <? Base p * 2 ^ s) || (Base p * 2 ^ s <=? 0) then MaxDelay p else Base p * 2 ^ s)
    = Z.min (MaxDelay p) (Base p * 2 ^ s)).
  { rewrite (proj2 (Z.leb_gt (Base p * 2 ^ s) 0)) by lia. rewrite orb_false_r. case_if; lia. }
  rewrite Hd, (proj2 (Z.leb_gt _ 0)) by lia. split; [done|lia].
Qed.

Lemma sendRaw_from env p label m k :
  env_ok env → backoff_ok p → MaxAttempts p < 2 ^ 64 →
  1 ≤ k → k + Z.of_nat m = MaxAttempts p + 1 → (0 < m)%nat →
  ∃ n r ds, sendRaw m env (ShouldRetry p) label k = Some (r, ds) ∧
    k ≤ n ≤ MaxAttempts p ∧ ends env p label n r ∧
    (∀ j, k ≤ j < n → ∃ err, transient_failure env j err) ∧
    n - k ≤ zlen ds ≤ n - k + 1 ∧
    (∀ i d, ds !! i = Some d → 0 ≤ d < delay_bound p (k + Z.of_nat i)).
Proof.
  intros [Hrand Hbuild] Hp H64. revert k. induction m as [|m IH]; intros k Hk Hm H0; [lia|]. cbn [sendRaw].
  destruct (env_build env k) as [body|e|] eqn:Hbody; [| |by destruct (Hbuild k)].
  2: { eexists k, _, []. split; [done|]. split; [lia|]. split; [by constructor|].
       split; [lia|]. split; [change (zlen (A:=Z) []) with 0; lia|done]. }
  destruct (doHTTP (env_http env k body)) as [resp|err|] eqn:Hdo.
  { eexists k, _, []. split; [done|]. split; [lia|]. split; [by econstructor|].
    split; [lia|]. split; [change (zlen (A:=Z) []) with 0; lia|done]. }
  2: { by destruct (env_http env k body) as [| | | |st b]; simpl in Hdo; repeat case_match. }
  destruct (decide (MaxAttempts p ≤ k ∨ isRetryable err = false)) as [Hstop|Hgo].
  { rewrite ShouldRetry_stop by done. eexists k, _, []. split; [done|]. split; [lia|].
    split; [eapply Ends_fatal; [done|done|]; destruct Hstop; [right; lia|by left]|].
    split; [lia|]. split; [change (zlen (A:=Z) []) with 0; lia|done]. }
  assert (Hr : isRetryable err = true) by (destruct (isRetryable err); [done|tauto]).
  destruct (ShouldRetry_go p (env_rand env k) k err Hp ltac:(lia) ltac:(lia) Hr) as [-> Hpos].
  pose proof (Hrand k _ Hpos) as Hd. set (d := env_rand env k (delay_bound p k)) in *.
  assert (Htf : transient_failure env k err) by (by exists body).
  destruct (env_wait env k d) as [ctx_err|] eqn:Hwait.
  { eexists k, _, [d]. split; [done|]. split; [lia|]. split; [eapply Ends_ctx; [lia|done|done]|].
    split; [lia|]. split; [change (zlen [d]) with 1; lia|].
    intros [|i] d' Hi; simplify_eq/=. by rewrite Z.add_0_r. }
  destruct (IH (k + 1)) as (n & r & ds & Hs & Hn & Hends & Hprev & Hlen & Hds); [lia..|].
  rewrite Hs. cbn [mbind option_bind]. exists n, r, (d :: ds). split; [done|]. split; [lia|]. split; [done|].
  split.
  { intros j Hj. destruct (decide (j = k)) as [->|]; [by exists err|]. apply Hprev. lia. }
  split; [rewrite zlen_cons; lia|].
  intros [|i] d' Hi; simplify_eq/=; [by rewrite Z.add_0_r|].
  replace (k + Z.of_nat (S i)) with (k + 1 + Z.of_nat i) by lia. by apply Hds.
Qed.
