(* ===== verification/JsonRpcSpec.v ===== *)
(** * What the JSON-RPC client guarantees

    The retry loop terminates within its attempt budget, with bounded delays,
    and retries only transient failures; batch responses are matched by id;
    error classification survives wrapping. *)

From S2P Require Import Prelude Keys BigUint Ix JsonRpc.

(** ** More fuel changes nothing *)

Lemma sendRaw_fuel m env retry label k x :
  sendRaw m env retry label k = Some x → ∀ m', (m ≤ m')%nat → sendRaw m' env retry label k = Some x.
Proof.
  revert k x. induction m as [|m IH]; intros k x Hs m' Hm; [done|].
  destruct m' as [|m']; [lia|]. cbn [sendRaw] in *.
  destruct (env_build env k); [|done|done].
  destruct (doHTTP _); [done| |done].
  destruct (retry _ _ _) as [[d [|]]| |]; [|done|done|done].
  destruct (env_wait env k d); [done|].
  destruct (sendRaw m env retry label (k + 1)) as [[r ds]|] eqn:Hrec; [|done].
  by rewrite (IH _ _ Hrec m') by lia.
Qed.

(** C38: the JSON-RPC retry loop terminates and retries only what it may.  Under
    an exponential-backoff policy and whatever the network, the codec, the
    random source and the context do, the loop returns after at most
    [MaxAttempts] attempts; every attempt before the last failed with a
    transient error (not a context error; an HTTP status of 429 or 5xx, or no
    HTTP status at all); the last attempt decides the result: its response, or
    its error when it is not transient or the budget is used up, or the
    context's error when the wait after it was cut short; and the delay waited
    for after attempt [k] is non-negative and below
    [min Max (Base * 2^min(k-1, 10))]. *)
Theorem sendRaw_terminates env p label fuel :
  env_ok env → backoff_ok p → MaxAttempts p < 2 ^ 64 → (Z.to_nat (MaxAttempts p) ≤ fuel)%nat →
  ∃ n r ds, sendRaw fuel env (ShouldRetry p) label 1 = Some (r, ds) ∧
    1 ≤ n ≤ MaxAttempts p ∧ ends env p label n r ∧
    (∀ j, 1 ≤ j < n → ∃ err, transient_failure env j err) ∧
    n - 1 ≤ zlen ds ≤ n ∧
    (∀ i d, ds !! i = Some d → 0 ≤ d < delay_bound p (1 + Z.of_nat i)).
Proof.
  intros Henv Hp H64 Hfuel. assert (1 ≤ MaxAttempts p) by apply Hp.
  destruct (sendRaw_from env p label (Z.to_nat (MaxAttempts p)) 1)
    as (n & r & ds & Hs & Hn & Hends & Hprev & Hlen & Hds); [done|done|done|lia..|].
  exists n, r, ds. split; [by eapply sendRaw_fuel|]. split_and!; try done; lia.
Qed.

(** Two server errors, then an answer. *)
Definition sample_env : SendEnv := {|
  env_build k := GOk [123; 125];
  env_http k body := if k <? 3 then Answer 503 (str "busy") else Answer 200 (str "ok");
  env_rand k b := b / 2;
  env_wait k d := None;
|}.

Lemma sendRaw_terminates_witness :
  env_ok sample_env ∧ backoff_ok DefaultRetryPolicy ∧
  sendRaw 5 sample_env (ShouldRetry DefaultRetryPolicy) [] 1 = Some (GOk (str "ok"), [100000000; 200000000]).
Proof.
  assert (He : env_ok sample_env).
  { split; [|done]. intros k b Hb. cbn [env_rand sample_env].
    split; [apply Z.div_pos; lia|apply Z.div_lt_upper_bound; lia]. }
  assert (Hp : backoff_ok DefaultRetryPolicy) by (split_and!; vm_compute; congruence).
  split; [exact He|]. split; [exact Hp|].
  destruct (sendRaw_terminates sample_env DefaultRetryPolicy [] 5 He Hp) as (n & r & ds & Hs & _).
  - by vm_compute.
  - vm_compute. lia.
  - rewrite Hs. rewrite <- Hs. by vm_compute.
Defined.

(** ** Batches *)

Section batch.
Context {T : Type} (unmarshal : bytes → T → T * option goerr).

Lemma index_ids_lookup i ids m id :
  NoDup ids →
  index_ids i ids m !! id =
    match list_find (λ x, x = id) ids with Some (j, _) => Some (i + j)%nat | None => m !! id end.
Proof.
  revert i m. induction ids as [|x ids IH]; intros i m Hnd; [done|].
  inversion_clear Hnd as [|?? Hx Hnd']. cbn [index_ids list_find]. rewrite IH by done.
  case_decide as Heq.
  - subst x. destruct (list_find (λ x, x = id) ids) as [[j y]|] eqn:Hf.
    + apply list_find_Some in Hf as (Hj & -> & _). exfalso. apply Hx. by eapply list_elem_of_lookup_2.
    + by rewrite lookup_insert_eq, Nat.add_0_r.
  - destruct (list_find (λ x, x = id) ids) as [[j y]|]; cbn.
    + f_equal. lia.
    + by rewrite lookup_insert_ne.
Qed.

Lemma index_ids_Some ids id i :
  NoDup ids → index_ids 0 ids ∅ !! id = Some i ↔ ids !! i = Some id.
Proof.
  intros Hnd. rewrite index_ids_lookup by done. split.
  - destruct (list_find _ ids) as [[j y]|] eqn:Hf; [|by rewrite lookup_empty].
    apply list_find_Some in Hf as (Hj & -> & _). by intros [= <-].
  - intros Hi. destruct (list_find (λ x, x = id) ids) as [[j y]|] eqn:Hf.
    + apply list_find_Some in Hf as (Hj & -> & _). f_equal. by eapply NoDup_lookup.
    + apply list_find_None in Hf. rewrite Forall_forall in Hf. exfalso.
      eapply Hf; [by eapply list_elem_of_lookup_2|done].
Qed.

(** The responses that carry an id, in their order. *)
Definition responses_for (id : Z) (resps : list Response) : list Response := filter (λ r, ID r = id) resps.

Definition apply_responses (rs : list Response) (e : BatchElem T) : BatchElem T :=
  fold_left (λ e r, apply_response unmarshal r e) rs e.

Lemma match_responses_spec ids resps b seen b' seen' i id e s :
  NoDup ids → ids !! i = Some id → b !! i = Some e → seen !! i = Some s → length seen = length b →
  match_responses unmarshal (index_ids 0 ids ∅) resps b seen = (b', seen') →
  b' !! i = Some (apply_responses (responses_for id resps) e) ∧
  seen' !! i = Some (s || bool_decide (responses_for id resps ≠ [])) ∧
  length b' = length b ∧ length seen' = length seen.
Proof.
  intros Hnd Hid. revert b seen e s. induction resps as [|r resps IH]; intros b seen e s Hb Hs Hlen Hm.
  { simpl in Hm. simplify_eq. cbn. by rewrite orb_false_r. }
  cbn [match_responses] in Hm. unfold responses_for. rewrite filter_cons.
  destruct (index_ids 0 ids ∅ !! ID r) as [j|] eqn:Hj.
  - apply index_ids_Some in Hj; [|done].
    destruct (decide (j = i)) as [->|Hne].
    + assert (ID r = id) by congruence. rewrite decide_True by done.
      eapply (IH _ _ (apply_response unmarshal r e) true) in Hm as (? & Hs' & Hl1 & Hl2).
      * split_and!; [done| |by rewrite Hl1, length_alter|by rewrite Hl2, length_insert].
        rewrite Hs'. by rewrite orb_true_l, orb_true_r.
      * by rewrite list_lookup_alter_eq, Hb.
      * apply list_lookup_insert_eq. by apply lookup_lt_Some in Hs.
      * by rewrite length_insert, length_alter.
    + rewrite decide_False. 2: { intros Heq. apply Hne. eapply NoDup_lookup; [exact Hnd|exact Hj|by rewrite Heq]. }
      eapply (IH _ _ e s) in Hm as (? & ? & Hl1 & Hl2).
      * split_and!; [done|done|by rewrite Hl1, length_alter|by rewrite Hl2, length_insert].
      * by rewrite list_lookup_alter_ne.
      * by rewrite list_lookup_insert_ne.
      * by rewrite length_insert, length_alter.
  - rewrite decide_False.
    + by apply (IH _ _ e s).
    + intros Heq. assert (index_ids 0 ids ∅ !! ID r = Some i) as Hsome by (apply index_ids_Some; congruence).
      congruence.
Qed.

Lemma mark_missing_lookup (b : list (BatchElem T)) (seen : list bool) (i : nat) e (s : bool) :
  b !! i = Some e → seen !! i = Some s →
  mark_missing b seen !! i = Some (if s then e else mkElem (Method e) (Result e) (Some ErrMissingResponse)).
Proof.
  revert seen i. induction b as [|e0 b IH]; intros [|s0 seen] [|i] Hb Hs; simplify_eq/=; [done|].
  by apply IH.
Qed.

Lemma length_mark_missing (b : list (BatchElem T)) (seen : list bool) : length (mark_missing b seen) = length b.
Proof. revert seen. induction b as [|e b IH]; intros [|s seen]; simpl; [done..|]. by rewrite IH. Qed.

Lemma length_match_responses (m : gmap Z nat) resps (b : list (BatchElem T)) (seen : list bool) :
  length (match_responses unmarshal m resps b seen).1 = length b.
Proof.
  revert b seen. induction resps as [|r resps IH]; intros b seen; cbn [match_responses]; [done|].
  case_match; rewrite IH; [by rewrite length_alter|done].
Qed.

Lemma responses_for_NoDup id resps : NoDup (ID <$> resps) → (length (responses_for id resps) ≤ 1)%nat.
Proof.
  induction resps as [|r resps IH]; [simpl; lia|]. rewrite fmap_cons. intros [Hr Hnd]%NoDup_cons.
  unfold responses_for in *. rewrite filter_cons. case_decide as Heq; [|by apply IH].
  assert (filter (λ r, ID r = id) resps = []) as ->; [|simpl; lia].
  apply elem_of_nil_inv. intros r' Hr'. apply list_elem_of_filter in Hr' as [Hid Hin].
  apply Hr. rewrite Heq, <- Hid. by apply list_elem_of_fmap_2.
Qed.

Lemma responses_for_Permutation id resps resps' :
  NoDup (ID <$> resps) → resps ≡ₚ resps' → responses_for id resps = responses_for id resps'.
Proof.
  intros Hnd Hp. pose proof (responses_for_NoDup id resps Hnd) as H1.
  assert (responses_for id resps ≡ₚ responses_for id resps') as Hp' by (unfold responses_for; by rewrite Hp).
  destruct (responses_for id resps) as [|r [|]]; simpl in H1; [| |lia].
  - by apply Permutation_nil_l in Hp'.
  - by apply Permutation_singleton_l.
Qed.

(** One element's outcome, from the responses that carry its id. *)
Definition batch_outcome (resps : list Response) (id : Z) (e : BatchElem T) : BatchElem T :=
  match responses_for id resps with
  | [] => mkElem (Method e) (Result e) (Some ErrMissingResponse)
  | rs => apply_responses rs e
  end.

Lemma batch_spec ids body decode label b resps :
  b ≠ [] → NoDup ids → length ids = length b → decode body = GOk resps →
  BatchCallContext unmarshal ids (GOk body) decode label b = (GOk (), zip_with (batch_outcome resps) ids b).
Proof.
  intros Hne Hnd Hlen Hdec. unfold BatchCallContext.
  rewrite (proj2 (Z.eqb_neq _ _)) by (destruct b; [done|rewrite zlen_cons; unfold zlen; lia]).
  rewrite Hdec. destruct (match_responses _ _ _ _ _) as [b' seen'] eqn:Hm. f_equal.
  apply list_eq_same_length with (length b).
  - rewrite length_zip_with. lia.
  - rewrite length_mark_missing. pose proof (length_match_responses (index_ids 0 ids ∅) resps b (replicate (length b) false)) as Hl.
    by rewrite Hm in Hl.
  - intros i e1 e2 Hi He1 He2.
    apply lookup_zip_with_Some in He2 as (id & e & -> & Hid & He).
    eapply (match_responses_spec ids resps b _ b' seen' i id e false) in Hm as (Hb' & Hs' & _); try done.
    + rewrite (mark_missing_lookup _ _ _ _ _ Hb' Hs') in He1. simplify_eq. unfold batch_outcome.
      destruct (responses_for id resps) as [|r rs] eqn:Hr; cbn [orb].
      * by rewrite bool_decide_false by (intros Hf; by destruct Hf).
      * by rewrite bool_decide_true by done.
    + by apply lookup_replicate_2.
    + by rewrite length_replicate.
Qed.
End batch.

(** C39: batch responses are matched by id, not by position.  For distinct
    request ids and any response array, the outcome of each element is
    determined by the responses that carry its id alone: none gives
    [ErrMissingResponse], one applies it (its error object as an [ErrRPC] naming
    the element's method, or its decoded result), and responses with ids that
    were not asked for are ignored; hence, when the server answers each id at
    most once, the order of the array does not matter. *)
Theorem batch_matches_by_id {T} (unmarshal : bytes → T → T * option goerr) ids body decode label b resps :
  b ≠ [] → NoDup ids → length ids = length b → decode body = GOk resps →
  BatchCallContext unmarshal ids (GOk body) decode label b =
    (GOk (), zip_with (batch_outcome unmarshal resps) ids b) ∧
  (NoDup (ID <$> resps) → ∀ decode' resps', decode' body = GOk resps' → resps' ≡ₚ resps →
     BatchCallContext unmarshal ids (GOk body) decode' label b =
     BatchCallContext unmarshal ids (GOk body) decode label b).
Proof.
  intros Hne Hnd Hlen Hdec. split; [by apply batch_spec|].
  intros Hnd' decode' resps' Hdec' Hp.
  rewrite (batch_spec unmarshal ids body decode label b resps), (batch_spec unmarshal ids body decode' label b resps')
    by done.
  f_equal. apply list_eq. intros i. rewrite !lookup_zip_with.
  destruct (ids !! i) as [id|]; [|done]. destruct (b !! i) as [e|]; [|done]. simpl.
  unfold batch_outcome. by rewrite (responses_for_Permutation id resps resps' Hnd' (symmetry Hp)).
Qed.

Lemma batch_matches_by_id_witness :
  let um := λ (raw : bytes) (t : Z), (zlen raw, @None goerr) in
  let b := [mkElem [97] (Some 0) None; mkElem [98] (Some 0) None] in
  let resps := [mkResponse 8 [1; 2; 3] None; mkResponse 99 [] None] in
  BatchCallContext um [7; 8] (GOk []) (λ _, GOk resps) [] b =
    (GOk (), [mkElem [97] (Some 0) (Some ErrMissingResponse); mkElem [98] (Some 3) None]).
Proof.
  intros um b resps.
  rewrite (proj1 (batch_matches_by_id um [7; 8] [] (λ _, GOk resps) [] b resps
    ltac:(done) ltac:(by apply (bool_decide_unpack _); vm_compute) eq_refl eq_refl)).
  by vm_compute.
Defined.

(** ** Classification *)

Lemma contains_spec s sub : contains s sub = true ↔ ∃ pre post, s = pre ++ sub ++ post.
Proof.
  induction s as [|x s IH]; cbn [contains]; rewrite orb_true_iff, bool_decide_eq_true.
  - split.
    + intros [[post Hp]|]; [|done]. by exists [], post.
    + intros (pre & post & Hp). left. exists post. by destruct pre; [|done].
  - rewrite IH. split.
    + intros [[post Hp]|(pre & post & ->)]; [by exists [], post|by exists (x :: pre), post].
    + intros (pre & post & Hp). destruct pre as [|y pre]; [left; by exists post|right].
      simplify_eq/=. by exists pre, post.
Qed.

Lemma contains_app p s sub : contains s sub = true → contains (p ++ s) sub = true.
Proof.
  rewrite !contains_spec. intros (pre & post & ->). exists (p ++ pre), post. by rewrite <- !(assoc_L (++)).
Qed.

Lemma classify_wrap sentinel codes subs p e :
  classify sentinel codes subs (Some e) = true → classify sentinel codes subs (Some (GWrap p e)) = true.
Proof.
  unfold classify. cbn [is_sentinel as_rpc_code error_text].
  destruct (is_sentinel e sentinel); [done|].
  destruct (match as_rpc_code e with Some c => bool_decide (c ∈ codes) | None => false end); [done|].
  unfold messageContainsAny. rewrite !existsb_exists. intros (sub & Hin & Hc).
  exists sub. split; [done|]. rewrite (assoc_L (++)). by apply contains_app.
Qed.

Definition classifiers : list (option goerr → bool) :=
  [IsBlockhashExpired; IsInsufficientFunds; IsRateLimited; IsNodeBehind; IsTransactionExpired;
   IsAccountNotFound; IsSignatureNotFound; IsSlotSkipped; IsBlockCleanedUp].

(** Wrapping an error with [%w], however often, never hides it from the
    nine classifiers or changes whether it is retried; no classifier accepts
    nil; and the server's numeric codes are recognised whatever the message
    says. *)
Theorem classification_survives_wrapping :
  (∀ cls e p, cls ∈ classifiers → cls (Some e) = true → cls (Some (GWrap p e)) = true) ∧
  (∀ e p, isRetryable (GWrap p e) = isRetryable e) ∧
  (∀ cls, cls ∈ classifiers → cls None = false) ∧
  (∀ m msg d b, IsNodeBehind (Some (ErrRPC m (-32005) msg d b)) = true ∧
                IsSlotSkipped (Some (ErrRPC m (-32007) msg d b)) = true ∧
                IsSlotSkipped (Some (ErrRPC m (-32009) msg d b)) = true ∧
                IsBlockCleanedUp (Some (ErrRPC m (-32001) msg d b)) = true).
Proof.
  split_and!.
  - intros cls e p Hcls. unfold classifiers in Hcls. rewrite !elem_of_cons in Hcls.
    destruct_or?; subst; try (apply classify_wrap); by apply not_elem_of_nil in Hcls.
  - done.
  - intros cls Hcls. unfold classifiers in Hcls. rewrite !elem_of_cons in Hcls.
    destruct_or?; subst; try done; by apply not_elem_of_nil in Hcls.
  - done.
Qed.

Lemma classification_survives_wrapping_witness :
  let e := GSentinel (str "solana: blockhash expired") in
  IsBlockhashExpired (Some (GWrap (str "send") e)) = true.
Proof.
  apply (proj1 classification_survives_wrapping IsBlockhashExpired).
  - unfold classifiers. left.
  - by vm_compute.
Defined.

(** An HTTP 429 answer is retried, but it is recognised as rate limiting only
    if its body says so: with an empty body it is not. *)
Lemma http_429_not_rate_limited :
  isRetryable (httpError 429 []) = true ∧ IsRateLimited (Some (httpError 429 [])) = false.
Proof. by vm_compute. Qed.
