(* ===== verification/JsonRpcOptions.v ===== *)
(** * Constructing a JSON-RPC client: the options of [jsonrpc/client.go],
    [context_headers.go] and [rawjson.go]

    An [http.Header] is a map from keys to values, by the exact text of the
    key.  The HTTP client, the codec and the retry policy are opaque values;
    the authentication callback is a function on headers. *)

From S2P Require Import Prelude Keys JsonRpc.

Abbreviation Header := (gmap bytes (list bytes)).

(** ** [net/http] headers *)

(** The characters of an HTTP token. *)
Definition is_token_char (c : Z) : bool :=
  ((48 <=? c) && (c <=? 57)) || ((65 <=? c) && (c <=? 90)) || ((97 <=? c) && (c <=? 122))
  || bool_decide (c ∈ str "!#$%&'*+-.^_`|~").

Definition upper (c : Z) : Z := if (97 <=? c) && (c <=? 122) then c - 32 else c.
Definition lower (c : Z) : Z := if (65 <=? c) && (c <=? 90) then c + 32 else c.

(** Upper case at the start and after a hyphen, lower case elsewhere. *)
Fixpoint canonical_from (up : bool) (s : bytes) : bytes :=
  match s with
  | [] => []
  | c :: s => (if up then upper c else lower c) :: canonical_from (c =? 45) s
  end.

(** [http.CanonicalHeaderKey]: a key that is not a token is left alone. *)
Definition CanonicalHeaderKey (s : bytes) : bytes :=
  if forallb is_token_char s then canonical_from true s else s.

(** [h.Set(key, value)] *)
Definition Header_Set (key value : bytes) (h : Header) : Header := <[CanonicalHeaderKey key := [value]]> h.

(** ** The client *)

Section client.
Context {HTTPClient Codec RetryPolicy : Type}.

Record Client := mkClient {
  endpoint : bytes;
  httpClient : option HTTPClient;
  headers : option Header;                        (* None for the nil map *)
  httpAuth : option (Header → Header * option goerr);
  codec : Codec;
  retry : RetryPolicy;
  maxIdleConns : Z;
  maxIdleConnsPerHost : Z;
}.

Definition DefaultMaxIdleConnsPerHost : Z := 10.
Definition DefaultMaxIdleConns : Z := 100.

(** [opt.applyOption(c)] *)
Definition ClientOption : Type := Client → Client.

Definition set_httpClient (hc : HTTPClient) (c : Client) : Client :=
  mkClient (endpoint c) (Some hc) (headers c) (httpAuth c) (codec c) (retry c) (maxIdleConns c) (maxIdleConnsPerHost c).
Definition set_headers (h : option Header) (c : Client) : Client :=
  mkClient (endpoint c) (httpClient c) h (httpAuth c) (codec c) (retry c) (maxIdleConns c) (maxIdleConnsPerHost c).

Definition WithHTTPClient (hc : option HTTPClient) : ClientOption := λ c,
  match hc with Some hc => set_httpClient hc c | None => c end.

Definition WithMaxIdleConns (n : Z) : ClientOption := λ c,
  if 0 <? n then
    mkClient (endpoint c) (httpClient c) (headers c) (httpAuth c) (codec c) (retry c) n (maxIdleConnsPerHost c)
  else c.

Definition WithMaxIdleConnsPerHost (n : Z) : ClientOption := λ c,
  if 0 <? n then
    mkClient (endpoint c) (httpClient c) (headers c) (httpAuth c) (codec c) (retry c) (maxIdleConns c) n
  else c.

Definition WithCodec (codec : option Codec) : ClientOption := λ c,
  match codec with
  | Some codec =>
      mkClient (endpoint c) (httpClient c) (headers c) (httpAuth c) codec (retry c) (maxIdleConns c) (maxIdleConnsPerHost c)
  | None => c
  end.

Definition WithRetryPolicy (p : option RetryPolicy) : ClientOption := λ c,
  match p with
  | Some p =>
      mkClient (endpoint c) (httpClient c) (headers c) (httpAuth c) (codec c) p (maxIdleConns c) (maxIdleConnsPerHost c)
  | None => c
  end.

Definition WithHeader (key value : bytes) : ClientOption := λ c,
  set_headers (Some (Header_Set key value (default ∅ (headers c)))) c.

(** The keys are stored as they are; a later value replaces an earlier one. *)
Definition WithHeaders (h : Header) : ClientOption := λ c,
  set_headers (Some (h ∪ default ∅ (headers c))) c.

(** A nil callback clears it. *)
Definition WithHTTPAuth (a : option (Header → Header * option goerr)) : ClientOption := λ c,
  mkClient (endpoint c) (httpClient c) (headers c) a (codec c) (retry c) (maxIdleConns c) (maxIdleConnsPerHost c).

Definition SetHeader (c : Client) (key value : bytes) : Client := WithHeader key value c.

(** The struct of options; zero values are ignored. *)
Record Config := mkConfig {
  cfg_HTTPClient : option HTTPClient;
  cfg_MaxIdleConns : Z;
  cfg_MaxIdleConnsPerHost : Z;
  cfg_Codec : option Codec;
  cfg_RetryPolicy : option RetryPolicy;
  cfg_Headers : Header;
  cfg_HTTPAuth : option (Header → Header * option goerr);
}.

Definition Config_applyOption (cfg : Config) : ClientOption := λ c,
  let c := WithHTTPClient (cfg_HTTPClient cfg) c in
  let c := WithMaxIdleConns (cfg_MaxIdleConns cfg) c in
  let c := WithMaxIdleConnsPerHost (cfg_MaxIdleConnsPerHost cfg) c in
  let c := WithCodec (cfg_Codec cfg) c in
  let c := WithRetryPolicy (cfg_RetryPolicy cfg) c in
  let c := if decide (cfg_Headers cfg = ∅) then c else WithHeaders (cfg_Headers cfg) c in
  match cfg_HTTPAuth cfg with Some a => WithHTTPAuth (Some a) c | None => c end.

(** [NewDefaultTransport], [GoJSONCodec] and [DefaultRetryPolicy]. *)
Context (NewDefaultTransport : Z → Z → HTTPClient) (GoJSONCodec : Codec) (DefaultRetryPolicy : RetryPolicy).

Definition newClient (ep : bytes) (opts : list ClientOption) : Client :=
  let c := mkClient ep None None None GoJSONCodec DefaultRetryPolicy DefaultMaxIdleConns DefaultMaxIdleConnsPerHost in
  let c := fold_left (λ c opt, opt c) opts c in
  match httpClient c with
  | None => set_httpClient (NewDefaultTransport (maxIdleConns c) (maxIdleConnsPerHost c)) c
  | Some _ => c
  end.

Definition NewClient (ep : bytes) (cfg : Config) : Client := newClient ep [Config_applyOption cfg].
Definition NewClientWith (ep : bytes) (opts : list ClientOption) : Client := newClient ep opts.
Definition Endpoint (c : Client) : bytes := endpoint c.

(** ** Headers of one request *)

(** What a context carries under the header key. *)
Definition setHeaders (dst src : Header) : Header := kmap CanonicalHeaderKey src ∪ dst.

Definition NewContextWithHeaders (ctx : option Header) (h : Header) : option Header :=
  if decide (h = ∅) then ctx else
  Some (match ctx with Some prev => setHeaders prev h | None => h end).

Definition headersFromContext (ctx : option Header) : Header := default ∅ ctx.

(** What [doHTTP] sets first. *)
Definition default_headers : Header :=
  Header_Set (str "Accept") (str "application/json") (Header_Set (str "Content-Type") (str "application/json") ∅).

(** The headers [doHTTP] sends, or the error of the callback. *)
Definition request_headers (c : Client) (ctx : option Header) : Header + goerr :=
  let h := default ∅ (headers c) ∪ default_headers in
  let h := headersFromContext ctx ∪ h in
  match httpAuth c with
  | None => inl h
  | Some auth =>
      match auth h with
      | (h, None) => inl h
      | (_, Some e) => inr (GWrap (str "auth") e)
      end
  end.
End client.

(** ** [RawJSON] *)

Definition RawJSON_MarshalJSON (r : bytes) : bytes := if zlen r =? 0 then str "null" else r.

(** A nil receiver is an error. *)
Definition RawJSON_UnmarshalJSON (r : option bytes) (data : bytes) : option bytes * option goerr :=
  match r with
  | None => (None, Some (GOther (str "rpc: RawJSON: nil receiver")))
  | Some _ => (Some data, None)
  end.

(** ** Properties *)

Section properties.
Context {HTTPClient Codec RetryPolicy : Type}.
Context (NewDefaultTransport : Z → Z → HTTPClient) (GoJSONCodec : Codec) (DefaultRetryPolicy : RetryPolicy).
Abbreviation newClient := (newClient NewDefaultTransport GoJSONCodec DefaultRetryPolicy).
Abbreviation NewClient := (NewClient NewDefaultTransport GoJSONCodec DefaultRetryPolicy).

(** The options a [Config] stands for. *)
Definition config_options (cfg : @Config HTTPClient Codec RetryPolicy) : list ClientOption :=
  [WithHTTPClient (cfg_HTTPClient cfg); WithMaxIdleConns (cfg_MaxIdleConns cfg);
   WithMaxIdleConnsPerHost (cfg_MaxIdleConnsPerHost cfg); WithCodec (cfg_Codec cfg);
   WithRetryPolicy (cfg_RetryPolicy cfg)]
  ++ (if decide (cfg_Headers cfg = ∅) then [] else [WithHeaders (cfg_Headers cfg)])
  ++ match cfg_HTTPAuth cfg with Some a => [WithHTTPAuth (Some a)] | None => [] end.

(** Both ways of constructing a client agree. *)
Lemma construction_agrees ep cfg : NewClient ep cfg = newClient ep (config_options cfg).
Proof.
  unfold NewClient, JsonRpcOptions.NewClient, newClient, JsonRpcOptions.newClient. f_equal.
  unfold config_options, Config_applyOption. destruct (decide _), (cfg_HTTPAuth cfg); done.
Qed.

Lemma default_headers_lookup k :
  default_headers !! k =
  if decide (k = str "Accept" ∨ k = str "Content-Type") then Some [str "application/json"] else None.
Proof.
  unfold default_headers, Header_Set.
  change (CanonicalHeaderKey (str "Accept")) with (str "Accept").
  change (CanonicalHeaderKey (str "Content-Type")) with (str "Content-Type").
  case_decide as Hk; [|rewrite !lookup_insert_ne by naive_solver; done].
  destruct Hk as [->| ->]; [by rewrite lookup_insert_eq|]. by rewrite lookup_insert_ne, lookup_insert_eq by done.
Qed.

(** A request carries the context's headers over the client's over the two
    default ones, key by key. *)
Lemma request_headers_precedence (c : @Client HTTPClient Codec RetryPolicy) ctx h k :
  httpAuth c = None → request_headers c ctx = inl h →
  h !! k = match headersFromContext ctx !! k with
           | Some v => Some v
           | None =>
               match default ∅ (headers c) !! k with
               | Some v => Some v
               | None => if decide (k = str "Accept" ∨ k = str "Content-Type") then Some [str "application/json"] else None
               end
           end.
Proof.
  unfold request_headers. intros ->. intros [= <-]. rewrite !lookup_union, default_headers_lookup.
  destruct (headersFromContext ctx !! k), (default ∅ (headers c) !! k), (decide _); done.
Qed.

(** [NewContextWithHeaders] keeps the keys of the first call as they are, so a
    lower-case key does not replace the client's header of the same name: both
    are sent. *)
Lemma context_header_not_canonical (c : @Client HTTPClient Codec RetryPolicy) :
  headers c = None → httpAuth c = None →
  request_headers (WithHeader (str "x-api-key") (str "client") c)
    (NewContextWithHeaders None {[str "x-api-key" := [str "call"]]}) =
  inl ({[str "x-api-key" := [str "call"]; str "X-Api-Key" := [str "client"];
        str "Accept" := [str "application/json"]; str "Content-Type" := [str "application/json"]]}).
Proof. intros Hh Ha. unfold request_headers. simpl. rewrite Ha, Hh. by vm_compute. Qed.
End properties.
