(* ===== verification/Send.v ===== *)
(** * Sending and confirming: [rpc/send.go]

    The confirmation loop and the blockhash-refresh loop.  What the loops
    consult (the clock, the context, the node) is an environment indexed by the
    poll and by the attempt; each is consulted at most once per index, so every
    run is the run of some environment. *)

From S2P Require Import Prelude Keys Transaction TxError JsonRpc.

(** ** Commitment *)

Definition CommitmentLevel := bytes.
Definition CommitmentProcessed : CommitmentLevel := str "processed".
Definition CommitmentConfirmed : CommitmentLevel := str "confirmed".
Definition CommitmentFinalized : CommitmentLevel := str "finalized".

Definition commitmentRank (c : CommitmentLevel) : Z :=
  if decide (c = CommitmentProcessed) then 0 else
  if decide (c = CommitmentConfirmed) then 1 else
  if decide (c = CommitmentFinalized) then 2 else -1.

Definition statusReachedCommitment (status : bytes) (required : CommitmentLevel) : bool :=
  let statusN := commitmentRank status in
  let reqN := commitmentRank required in
  if (statusN <? 0) || (reqN <? 0) then false else reqN <=? statusN.

(** ** Configuration *)

(** Durations are nanoseconds. *)
Record sendConfig := mkSendConfig {
  commitment : CommitmentLevel;
  confirmTimeout : Z;
  pollInterval : Z;
  maxBlockhashRetries : Z;
  skipPreflight : option bool;
}.

Definition defaultSendConfig : sendConfig :=
  mkSendConfig CommitmentConfirmed 60000000000 2000000000 3 None.

Definition SendAndConfirmOption := sendConfig → sendConfig.
Definition WithSendCommitment (c : CommitmentLevel) : SendAndConfirmOption := λ cfg,
  mkSendConfig c (confirmTimeout cfg) (pollInterval cfg) (maxBlockhashRetries cfg) (skipPreflight cfg).
Definition WithConfirmTimeout (d : Z) : SendAndConfirmOption := λ cfg,
  mkSendConfig (commitment cfg) d (pollInterval cfg) (maxBlockhashRetries cfg) (skipPreflight cfg).
Definition WithPollInterval (d : Z) : SendAndConfirmOption := λ cfg,
  mkSendConfig (commitment cfg) (confirmTimeout cfg) d (maxBlockhashRetries cfg) (skipPreflight cfg).
Definition WithMaxBlockhashRetries (n : Z) : SendAndConfirmOption := λ cfg,
  mkSendConfig (commitment cfg) (confirmTimeout cfg) (pollInterval cfg) n (skipPreflight cfg).
Definition WithSendSkipPreflight (b : bool) : SendAndConfirmOption := λ cfg,
  mkSendConfig (commitment cfg) (confirmTimeout cfg) (pollInterval cfg) (maxBlockhashRetries cfg) (Some b).

Definition apply_options (opts : list SendAndConfirmOption) : sendConfig :=
  fold_left (λ cfg opt, opt cfg) opts defaultSendConfig.

(** ** Errors *)

Inductive send_err :=
| SErr (e : goerr)
| STx (e : tx_error).

Definition errBlockhashExpired : goerr := GSentinel (str "solana client: blockhash expired").

(** [errors.Is(err, errBlockhashExpired)]; then the error itself, which is no
    transaction error. *)
Definition expired_cause (e : send_err) : option goerr :=
  match e with
  | SErr e => if is_sentinel e (str "solana client: blockhash expired") then Some e else None
  | STx _ => None
  end.

(** [ctx.Err()] *)
Inductive ctx_err := Canceled | DeadlineExceeded.

Definition ctx_goerr (e : ctx_err) : goerr :=
  GSentinel (match e with Canceled => context_Canceled | DeadlineExceeded => context_DeadlineExceeded end).

(** A value or an error. *)
Abbreviation or_err A := (A + goerr)%type.

(** ** Confirmation *)

Record SignatureStatus := mkSignatureStatus {
  Slot : Z;
  Confirmations : option Z;
  StatusErr : bytes;
  ConfirmationStatus : bytes;
}.

(** The environment of one confirmation, by poll. *)
Record ConfirmEnv := mkConfirmEnv {
  start_time : Z;                                             (* time.Now() on entry *)
  poll_time : nat → Z;                                        (* time.Now() at the poll *)
  poll_ctx : nat → option ctx_err;                            (* ctx.Done() at the poll *)
  poll_status : nat → or_err (list (option SignatureStatus));   (* GetSignatureStatuses *)
  poll_height : nat → or_err Z;                               (* GetBlockHeight *)
  poll_wait : nat → option ctx_err;                           (* ctx.Done() during the wait *)
}.

(** The status of the signature, if the query succeeded and knows it. *)
Definition visible_status (r : or_err (list (option SignatureStatus))) : option SignatureStatus :=
  match r with
  | inl (Some s :: _) => Some s
  | _ => None
  end.

(** [None] is running out of fuel, [Some None] a nil error. *)
Fixpoint confirm_poll (fuel : nat) (env : ConfirmEnv) (lastValidBlockHeight : option Z)
    (cfg : sendConfig) (i : nat) : option (option send_err) :=
  match fuel with
  | O => None
  | S fuel =>
      if start_time env + confirmTimeout cfg <? poll_time env i
      then Some (Some (SErr (GOther (str "solana client: confirmation timeout")))) else
      match poll_ctx env i with
      | Some e => Some (Some (SErr (ctx_goerr e)))
      | None =>
          let wait :=
            match poll_wait env i with
            | Some e => Some (Some (SErr (ctx_goerr e)))
            | None => confirm_poll fuel env lastValidBlockHeight cfg (S i)
            end in
          match visible_status (poll_status env i) with
          | Some s =>
              match DecodeTransactionError (ARawMessage (StatusErr s)) with
              | Some txErr => Some (Some (STx txErr))
              | None =>
                  if statusReachedCommitment (ConfirmationStatus s) (commitment cfg)
                  then Some None else wait
              end
          | None =>
              match lastValidBlockHeight with
              | Some last =>
                  match poll_height env i with
                  | inl height => if last <? height then Some (Some (SErr errBlockhashExpired)) else wait
                  | _ => wait
                  end
              | None => wait
              end
          end
      end
  end.

Definition confirmSignature (fuel : nat) (env : ConfirmEnv) (lastValidBlockHeight : option Z)
    (cfg : sendConfig) : option (option send_err) :=
  confirm_poll fuel env lastValidBlockHeight cfg 0.

(** ** Sending *)

(** The environment of one call, by attempt: [GetLatestBlockhash] with its last
    valid height, the caller's builder, [SendTransaction] and the confirmation
    of what it sent. *)
Record SendTxEnv := mkSendTxEnv {
  get_blockhash : Z → or_err (Hash * Z);
  build : option (Z → Hash → or_err Transaction);             (* None for nil *)
  SendTransaction : Z → Transaction → or_err Signature;
  confirm_env : Z → Signature → ConfirmEnv;
}.

Definition sendOnce (env : SendTxEnv) (attempt : Z) (tx : Transaction) : or_err Signature :=
  match SendTransaction env attempt tx with
  | inr e => inr (GWrap (str "solana client: send") e)
  | inl sig => inl sig
  end.

Definition zero_sig : Signature := zero_array 64.

(** What a call returns (Go returns a signature next to the error), and the
    signatures the node accepted, in order: the ghost state the properties are
    about. *)
Record send_result := mkSendResult {
  ret_sig : Signature;
  ret_err : option send_err;
  accepted : list (Z * Signature);
}.

Definition failed (e : goerr) : send_result := mkSendResult zero_sig (Some (SErr e)) [].

Definition exhausted (lastErr : option goerr) : goerr :=
  match lastErr with
  | Some e => GWrap (str "solana client: exhausted blockhash retries") e
  | None => GOther (str "solana client: exhausted blockhash retries")
  end.

(** [n] attempts remain; [fuel] is for each confirmation. *)
Fixpoint send_attempts (fuel : nat) (env : SendTxEnv) (builder : Z → Hash → or_err Transaction)
    (cfg : sendConfig) (n : nat) (attempt : Z) (lastErr : option goerr) : option send_result :=
  match n with
  | O => Some (failed (exhausted lastErr))
  | S n =>
      match get_blockhash env attempt with
      | inr e => Some (failed (GWrap (str "solana client: get blockhash") e))
      | inl (hash, lastValid) =>
          match builder attempt hash with
          | inr e => Some (failed (GWrap (str "solana client: build transaction") e))
          | inl tx =>
              match sendOnce env attempt tx with
              | inr err =>
                  if IsBlockhashExpired (Some err) && (attempt <? maxBlockhashRetries cfg)
                  then send_attempts fuel env builder cfg n (attempt + 1) (Some err)
                  else Some (failed err)
              | inl sig =>
                  confirmed ← confirmSignature fuel (confirm_env env attempt sig) (Some lastValid) cfg;
                  match confirmed with
                  | None => Some (mkSendResult sig None [(attempt, sig)])
                  | Some err =>
                      match expired_cause err, attempt <? maxBlockhashRetries cfg with
                      | Some e, true =>
                          r ← send_attempts fuel env builder cfg n (attempt + 1) (Some e);
                          Some (mkSendResult (ret_sig r) (ret_err r) ((attempt, sig) :: accepted r))
                      | _, _ => Some (mkSendResult sig (Some err) [(attempt, sig)])
                      end
                  end
              end
          end
      end
  end.

(** [attempt] runs from 0 to [maxBlockhashRetries]. *)
Definition SendAndConfirmTransaction (fuel : nat) (env : SendTxEnv) (opts : list SendAndConfirmOption) : option send_result :=
  match build env with
  | None => Some (failed (GOther (str "solana client: SendAndConfirmTransaction: nil builder")))
  | Some builder =>
      let cfg := apply_options opts in
      send_attempts fuel env builder cfg (Z.to_nat (maxBlockhashRetries cfg + 1)) 0 None
  end.

(** [None] for a nil transaction. *)
Definition SendAndConfirmSignedTransaction (fuel : nat) (env : SendTxEnv) (tx : option Transaction)
    (opts : list SendAndConfirmOption) : option send_result :=
  match tx with
  | None => Some (failed (GOther (str "solana client: SendAndConfirmSignedTransaction: nil transaction")))
  | Some tx =>
      let cfg := apply_options opts in
      match sendOnce env 0 tx with
      | inr err => Some (failed err)
      | inl sig =>
          confirmed ← confirmSignature fuel (confirm_env env 0 sig) None cfg;
          Some (mkSendResult sig confirmed [(0, sig)])
      end
  end.
