(* ===== verification/SendSpec.v ===== *)
(** * What sending and confirming guarantees

    The loops refine two abstract runs: a confirmation is a sequence of
    undecided polls and one that decides ([confirm_ends]); a call is a sequence
    of attempts ([send_run]). *)

From S2P Require Import Prelude Keys Message Transaction TxError JsonRpc Send.

(** ** The abstract confirmation *)

Section confirm.
Context (env : ConfirmEnv) (last : option Z) (cfg : sendConfig).

Definition deadline : Z := start_time env + confirmTimeout cfg.

(** The poll is made: in time and with a live context. *)
Definition polled (i : nat) : Prop := poll_time env i ≤ deadline ∧ poll_ctx env i = None.

(** The signature is visible, has not failed, and is short of the commitment;
    or it is not visible and its blockhash is not known to have expired. *)
Definition undecided (i : nat) : Prop :=
  polled i ∧
  match visible_status (poll_status env i) with
  | Some s =>
      DecodeTransactionError (ARawMessage (StatusErr s)) = None ∧
      statusReachedCommitment (ConfirmationStatus s) (commitment cfg) = false
  | None => ∀ l h, last = Some l → poll_height env i = inl h → h ≤ l
  end.

(** How poll [i] ends the confirmation. *)
Inductive poll_ends (i : nat) : option send_err → Prop :=
| Ends_timeout :
    deadline < poll_time env i →
    poll_ends i (Some (SErr (GOther (str "solana client: confirmation timeout"))))
| Ends_cancelled e :
    poll_time env i ≤ deadline → poll_ctx env i = Some e → poll_ends i (Some (SErr (ctx_goerr e)))
| Ends_failed s e :
    polled i → visible_status (poll_status env i) = Some s →
    DecodeTransactionError (ARawMessage (StatusErr s)) = Some e → poll_ends i (Some (STx e))
| Ends_confirmed s :
    polled i → visible_status (poll_status env i) = Some s →
    DecodeTransactionError (ARawMessage (StatusErr s)) = None →
    statusReachedCommitment (ConfirmationStatus s) (commitment cfg) = true → poll_ends i None
| Ends_expired l h :
    polled i → visible_status (poll_status env i) = None →
    last = Some l → poll_height env i = inl h → l < h → poll_ends i (Some (SErr errBlockhashExpired))
| Ends_wait e :
    undecided i → poll_wait env i = Some e → poll_ends i (Some (SErr (ctx_goerr e))).

Definition confirm_ends (n : nat) (r : option send_err) : Prop :=
  (∀ j, (j < n)%nat → undecided j ∧ poll_wait env j = None) ∧ poll_ends n r.

(** One poll: it ends the confirmation, or it is undecided and the next one is
    made. *)
Lemma confirm_step f i :
  (∃ r, confirm_poll (S f) env last cfg i = Some r ∧ poll_ends i r) ∨
  (undecided i ∧ poll_wait env i = None ∧
   confirm_poll (S f) env last cfg i = confirm_poll f env last cfg (S i)).
Proof.
  cbn [confirm_poll]. fold deadline. destruct (Z.ltb_spec deadline (poll_time env i)) as [|Ht].
  { left. eexists. split; [done|]. by constructor. }
  destruct (poll_ctx env i) as [e|] eqn:Hctx.
  { left. eexists. split; [done|]. by constructor. }
  assert (Hp : polled i) by done.
  assert (Hwait : undecided i → ∀ x, x = match poll_wait env i with
      | Some e => Some (Some (SErr (ctx_goerr e))) | None => confirm_poll f env last cfg (S i) end →
    (∃ r, x = Some r ∧ poll_ends i r) ∨ (undecided i ∧ poll_wait env i = None ∧ x = confirm_poll f env last cfg (S i))).
  { intros Hu x ->. destruct (poll_wait env i) as [e|] eqn:Hw; [left|by right].
    eexists. split; [done|]. by constructor. }
  destruct (visible_status (poll_status env i)) as [s|] eqn:Hs.
  - destruct (DecodeTransactionError _) as [e|] eqn:Hd.
    { left. eexists. split; [done|]. by eapply Ends_failed. }
    destruct (statusReachedCommitment _ _) eqn:Hr.
    { left. eexists. split; [done|]. by eapply Ends_confirmed. }
    apply Hwait; [|done]. unfold undecided. by rewrite Hs.
  - assert (Hu : (∀ l h, last = Some l → poll_height env i = inl h → h ≤ l) → undecided i).
    { intros Hh. split; [done|]. by rewrite Hs. }
    destruct last as [l|] eqn:Hl; [|by apply Hwait; [apply Hu|]].
    destruct (poll_height env i) as [h|] eqn:Hh; [|by apply Hwait; [apply Hu|]].
    destruct (Z.ltb_spec l h).
    + left. eexists. split; [done|]. by eapply Ends_expired.
    + apply Hwait; [|done]. apply Hu. by intros ? ? [= <-] [= <-].
Qed.

(** Every wait takes the poll interval. *)
Definition clock_ok : Prop :=
  0 < pollInterval cfg ∧ start_time env ≤ poll_time env 0 ∧
  ∀ i, poll_time env i + pollInterval cfg ≤ poll_time env (S i).

Lemma clock_poll i : clock_ok → start_time env + Z.of_nat i * pollInterval cfg ≤ poll_time env i.
Proof.
  intros (HP & H0 & Hs). induction i as [|i IH]; [lia|]. specialize (Hs i). lia.
Qed.

(** The polls before the deadline, and one more. *)
Definition max_polls : nat := Z.to_nat (confirmTimeout cfg / pollInterval cfg + 1).

Lemma late_poll i : clock_ok → (max_polls ≤ i)%nat → deadline < poll_time env i.
Proof.
  intros Hc Hi. pose proof (clock_poll i Hc). destruct Hc as (HP & _). unfold max_polls, deadline in *.
  pose proof (Z.mul_succ_div_gt (confirmTimeout cfg) (pollInterval cfg) HP). nia.
Qed.

Lemma confirm_from f i :
  clock_ok → (max_polls < i + f)%nat → (0 < f)%nat →
  ∃ n r, (i ≤ n ≤ Nat.max i max_polls)%nat ∧ confirm_poll f env last cfg i = Some r ∧
    (∀ j, (i ≤ j < n)%nat → undecided j ∧ poll_wait env j = None) ∧ poll_ends n r.
Proof.
  intros Hc. revert i. induction f as [|f IH]; intros i Hf H0; [lia|].
  destruct (confirm_step f i) as [(r & Hr & He)|(Hu & Hw & Heq)].
  { exists i, r. split_and!; [lia..|done| |done]. intros. lia. }
  assert (i < max_polls)%nat.
  { apply Nat.nle_gt. intros Hle. pose proof (late_poll i Hc Hle). destruct Hu as [[? _] _]. lia. }
  destruct (IH (S i)) as (n & r & Hn & Hr & Hj & He); [lia..|].
  exists n, r. split_and!; [lia..|by rewrite Heq| |done].
  intros j Hj'. destruct (decide (j = i)) as [->|]; [done|]. apply Hj. lia.
Qed.

Lemma confirm_total f :
  clock_ok → (max_polls < f)%nat →
  ∃ n r, (n ≤ max_polls)%nat ∧ confirmSignature f env last cfg = Some r ∧ confirm_ends n r.
Proof.
  intros Hc Hf. destruct (confirm_from f 0 Hc) as (n & r & Hn & Hr & Hj & He); [lia..|].
  exists n, r. split_and!; [lia|done|]. split; [|done]. intros j Hlt. apply Hj. lia.
Qed.

(** The only error that means expiry is the one expiry raises. *)
Lemma poll_ends_expired n e c :
  poll_ends n (Some e) → expired_cause e = Some c →
  c = errBlockhashExpired ∧ visible_status (poll_status env n) = None ∧
  ∃ l h, last = Some l ∧ poll_height env n = inl h ∧ l < h.
Proof.
  intros He Hc. inversion He as [?|ce ? ?|? ? ? ? ?| |l h ? ? ? ? ?|ce ? ?]; subst; try done;
    try by destruct ce.
  simplify_eq/=. split_and!; try done. by exists l, h.
Qed.
End confirm.

(** C15: waiting for confirmation terminates with the right verdict.  If every
    wait takes the poll interval, the loop returns after at most
    [confirmTimeout / pollInterval + 1] further polls; every poll before the
    last saw either nothing, with a block height not known to be past the limit,
    or an unfailed status short of the commitment; and the last one decides: nil
    only for a visible status that decodes to no error and has reached the
    commitment, a transaction error only for a visible status that carries it,
    expiry only if the signature was not visible and the height was past the
    limit, otherwise the timeout or the context's error. *)
Theorem confirmation_decides env last cfg fuel :
  clock_ok env cfg → (max_polls cfg < fuel)%nat →
  ∃ n r, (n ≤ max_polls cfg)%nat ∧ confirmSignature fuel env last cfg = Some r ∧
    confirm_ends env last cfg n r.
Proof. apply confirm_total. Qed.

(** The signature shows up as processed, then confirmed. *)
Definition sample_confirm : ConfirmEnv := {|
  start_time := 0;
  poll_time i := 2000000000 * Z.of_nat i;
  poll_ctx i := None;
  poll_status i := inl
    [match i with
     | O => None
     | 1%nat => Some (mkSignatureStatus 5 (Some 0) (str "null") CommitmentProcessed)
     | _ => Some (mkSignatureStatus 5 (Some 1) [] CommitmentConfirmed)
     end];
  poll_height i := inl 90;
  poll_wait i := None;
|}.

Lemma sample_clock cfg : pollInterval cfg = 2000000000 → clock_ok sample_confirm cfg.
Proof. intros Hp. unfold clock_ok. rewrite Hp. cbn [start_time poll_time sample_confirm]. split_and!; lia. Qed.

Lemma confirmation_decides_witness :
  confirmSignature 40 sample_confirm (Some 100) defaultSendConfig = Some None ∧
  confirm_ends sample_confirm (Some 100) defaultSendConfig 2 None.
Proof.
  destruct (confirmation_decides sample_confirm (Some 100) defaultSendConfig 40) as (n & r & _ & Hr & He).
  - by apply sample_clock.
  - vm_compute. lia.
  - assert (Hd : confirmSignature 40 sample_confirm (Some 100) defaultSendConfig = Some None) by (by vm_compute).
    split; [done|]. rewrite Hd in Hr. simplify_eq. destruct He as [Hj He].
    inversion He as [| | |s Hp Hs Hn Hc| |]; subst.
    destruct n as [|[|[|n]]]; [done| |by split|].
    + simpl in Hs. injection Hs as <-. by vm_compute in Hc.
    + destruct (Hj 2%nat) as [[_ Hu] _]; [lia|]. simpl in Hu. destruct Hu as [_ Hu]. by vm_compute in Hu.
Defined.

(** ** The abstract call *)

Section send.
Context (env : SendTxEnv) (builder : Z → Hash → or_err Transaction) (cfg : sendConfig).

(** The attempt sends a transaction built on the latest blockhash, whose last
    valid height is [last], and gets the node's answer. *)
Definition sends (attempt : Z) (last : Z) (answer : or_err Signature) : Prop :=
  ∃ hash tx, get_blockhash env attempt = inl (hash, last) ∧ builder attempt hash = inl tx ∧
    sendOnce env attempt tx = answer.

Definition confirms (attempt : Z) (sig : Signature) (last : Z) (r : option send_err) : Prop :=
  ∃ n, confirm_ends (confirm_env env attempt sig) (Some last) cfg n r.

Inductive send_run (attempt : Z) : send_result → Prop :=
| Run_no_blockhash e :
    get_blockhash env attempt = inr e →
    send_run attempt (failed (GWrap (str "solana client: get blockhash") e))
| Run_no_transaction hash last e :
    get_blockhash env attempt = inl (hash, last) → builder attempt hash = inr e →
    send_run attempt (failed (GWrap (str "solana client: build transaction") e))
| Run_rejected last e :
    sends attempt last (inr e) →
    IsBlockhashExpired (Some e) = false ∨ maxBlockhashRetries cfg ≤ attempt →
    send_run attempt (failed e)
| Run_stale last e r :
    sends attempt last (inr e) → IsBlockhashExpired (Some e) = true → attempt < maxBlockhashRetries cfg →
    send_run (attempt + 1) r → send_run attempt r
| Run_confirmed last sig :
    sends attempt last (inl sig) → confirms attempt sig last None →
    send_run attempt (mkSendResult sig None [(attempt, sig)])
| Run_unconfirmed last sig e :
    sends attempt last (inl sig) → confirms attempt sig last (Some e) →
    expired_cause e = None ∨ maxBlockhashRetries cfg ≤ attempt →
    send_run attempt (mkSendResult sig (Some e) [(attempt, sig)])
| Run_expired last sig r :
    sends attempt last (inl sig) → confirms attempt sig last (Some (SErr errBlockhashExpired)) →
    attempt < maxBlockhashRetries cfg → send_run (attempt + 1) r →
    send_run attempt (mkSendResult (ret_sig r) (ret_err r) ((attempt, sig) :: accepted r)).

Definition clocks_ok : Prop := ∀ attempt sig, clock_ok (confirm_env env attempt sig) cfg.

Lemma send_attempts_run fuel n attempt lastErr :
  clocks_ok → (max_polls cfg < fuel)%nat →
  attempt + Z.of_nat (S n) = maxBlockhashRetries cfg + 1 →
  ∃ r, send_attempts fuel env builder cfg (S n) attempt lastErr = Some r ∧ send_run attempt r.
Proof.
  intros Hc Hf. revert attempt lastErr. induction n as [|n IH]; intros attempt lastErr Hn; cbn [send_attempts].
  all: destruct (get_blockhash env attempt) as [[hash last]|e] eqn:Hb;
    [|eexists; split; [done|by apply Run_no_blockhash]].
  all: destruct (builder attempt hash) as [tx|e] eqn:Ht;
    [|eexists; split; [done|by eapply Run_no_transaction]].
  all: destruct (sendOnce env attempt tx) as [sig|e] eqn:Hs;
    [assert (sends attempt last (inl sig)) by (by exists hash, tx)
    |assert (sends attempt last (inr e)) by (by exists hash, tx)].
  all: try (destruct (confirm_total (confirm_env env attempt sig) (Some last) cfg fuel (Hc _ _) Hf)
      as (k & c & _ & -> & He); cbn [mbind option_bind];
    assert (confirms attempt sig last c) by (by exists k)).
  - destruct c as [e|]; [|eexists; split; [done|by eapply Run_confirmed]].
    rewrite (proj2 (Z.ltb_ge _ _)) by lia. eexists. split; [by destruct (expired_cause e)|].
    eapply Run_unconfirmed; [done|done|right; lia].
  - rewrite (proj2 (Z.ltb_ge _ _)) by lia. rewrite andb_false_r. eexists. split; [done|].
    eapply Run_rejected; [done|right; lia].
  - destruct c as [e|]; [|eexists; split; [done|by eapply Run_confirmed]].
    rewrite (proj2 (Z.ltb_lt _ _)) by lia.
    destruct (expired_cause e) as [x|] eqn:Hx.
    2: { eexists. split; [done|]. eapply Run_unconfirmed; [done|done|by left]. }
    destruct He as [Hj He]. destruct (poll_ends_expired _ _ _ _ _ _ He Hx) as (-> & _).
    assert (e = SErr errBlockhashExpired) as ->.
    { destruct e as [e|]; [|done]. simpl in Hx. case_match; by simplify_eq. }
    destruct (IH (attempt + 1) (Some errBlockhashExpired)) as (r & Hr & Hrun); [lia|].
    cbn [send_attempts] in Hr. rewrite Hr. cbn [mbind option_bind]. eexists. split; [done|].
    eapply Run_expired; [done|done|lia|done].
  - rewrite (proj2 (Z.ltb_lt _ _)) by lia. rewrite andb_true_r.
    destruct (IsBlockhashExpired (Some e)) eqn:Hx.
    2: { eexists. split; [done|]. eapply Run_rejected; [done|by left]. }
    destruct (IH (attempt + 1) (Some e)) as (r & Hr & Hrun); [lia|].
    exists r. split; [done|]. eapply Run_stale; [done|done|lia|done].
Qed.

(** ** What a run guarantees *)

(** The signature was not seen on the poll after which its blockhash was found
    to have expired. *)
Definition given_up (a : Z) (sig : Signature) : Prop :=
  ∃ last n h, sends a last (inl sig) ∧
    visible_status (poll_status (confirm_env env a sig) n) = None ∧
    poll_height (confirm_env env a sig) n = inl h ∧ last < h.

(** Attempts in increasing order from [attempt] on, within the limit; all but
    the last signature given up. *)
Fixpoint history (attempt : Z) (l : list (Z * Signature)) : Prop :=
  match l with
  | [] => True
  | (a, sig) :: l =>
      attempt ≤ a ≤ maxBlockhashRetries cfg ∧ (∃ last, sends a last (inl sig)) ∧
      (l ≠ [] → given_up a sig) ∧ history (a + 1) l
  end.

Lemma history_le a b l : a ≤ b → history b l → history a l.
Proof. destruct l as [|[x s] l]; [done|]. cbn [history]. intros ? (? & ?). split_and!; try lia; tauto. Qed.

Lemma history_length a l : history a l → l ≠ [] → zlen l ≤ maxBlockhashRetries cfg - a + 1.
Proof.
  revert a. induction l as [|[x s] l IH]; intros a; [done|]. intros (Hx & _ & _ & Hl) _. rewrite zlen_cons.
  destruct (decide (l = [])) as [->|Hne]; [rewrite zlen_nil; lia|]. specialize (IH _ Hl Hne). lia.
Qed.

Lemma send_run_history attempt r : attempt ≤ maxBlockhashRetries cfg → send_run attempt r → history attempt (accepted r).
Proof.
  intros Ha Hr. induction Hr as [| | |attempt last e r Hs Hx Hlt Hr IH|attempt last sig Hs Hc|attempt last sig e Hs Hc Hx|attempt last sig r Hs (n & _ & He) Hlt Hr IH];
    cbn [accepted failed history]; try done.
  - eapply history_le; [|apply IH; lia]. lia.
  - split_and!; [lia..|by exists last|by intros []|done].
  - split_and!; [lia..|by exists last|by intros []|done].
  - split_and!; [lia..|by exists last| |apply IH; lia]. intros _.
    destruct (poll_ends_expired _ _ _ _ _ _ He eq_refl) as (_ & Hv & l & h & [= <-] & Hh & Hlt').
    by exists last, n, h.
Qed.

(** The verdict of the last accepted signature. *)
Lemma send_run_success attempt r :
  send_run attempt r → ret_err r = None →
  ∃ pre a last, accepted r = pre ++ [(a, ret_sig r)] ∧ sends a last (inl (ret_sig r)) ∧
    confirms a (ret_sig r) last None.
Proof.
  intros Hr Hnone. induction Hr as [| | |attempt last e r Hs Hx Hlt Hr IH|attempt last sig Hs Hc|attempt last sig e Hs Hc Hx|attempt last sig r Hs Hc Hlt Hr IH];
    cbn [ret_err ret_sig accepted failed] in *; try done.
  - by apply IH.
  - by exists [], attempt, last.
  - destruct (IH Hnone) as (pre & a & l & -> & ?). by exists ((attempt, sig) :: pre), a, l.
Qed.

Lemma send_run_not_exhausted attempt r c : send_run attempt r → ret_err r ≠ Some (SErr (exhausted c)).
Proof.
  intros Hr. induction Hr as [| |attempt last e Hs Hx|attempt last e r Hs Hx Hlt Hr IH|attempt last sig Hs Hc|attempt last sig e Hs (n & _ & He) Hx|attempt last sig r Hs Hc Hlt Hr IH];
    cbn [ret_err failed] in *; try done; try by destruct c.
  - destruct Hs as (hash & tx & _ & _ & Hs). unfold sendOnce in Hs. destruct (SendTransaction _ _ _); simplify_eq.
    by destruct c.
  - intros [= ->]. inversion He as [?|ce ? ?|? ? ? ? ?| |l h ? ? ? ? ?|ce ? ?]; destruct c; try done; by destruct ce.
Qed.
End send.

(** The call is a run of attempts; with a negative retry count there is none. *)
Lemma SendAndConfirmTransaction_run env opts builder fuel :
  let cfg := apply_options opts in
  build env = Some builder → clocks_ok env cfg → (max_polls cfg < fuel)%nat →
  ∃ r, SendAndConfirmTransaction fuel env opts = Some r ∧
    if maxBlockhashRetries cfg <? 0 then r = failed (exhausted None) else send_run env builder cfg 0 r.
Proof.
  intros cfg Hb Hc Hf. unfold SendAndConfirmTransaction. rewrite Hb. fold cfg.
  destruct (Z.ltb_spec (maxBlockhashRetries cfg) 0) as [Hneg|Hmax].
  { replace (Z.to_nat (maxBlockhashRetries cfg + 1)) with 0%nat by lia. by eexists. }
  replace (Z.to_nat (maxBlockhashRetries cfg + 1)) with (S (Z.to_nat (maxBlockhashRetries cfg))) by lia.
  apply send_attempts_run; [done|done|lia].
Qed.

(** C13: sending with blockhash refresh terminates and never gives up on a
    signature it can see. If the poll interval is positive and each wait of a
    confirmation takes at least it, the call returns, whatever the node answers.
    With a retry count that is not negative it is the run of some sequence of
    attempts; at most [maxBlockhashRetries + 1] transactions are accepted by the
    node; another transaction is built and sent after an accepted one only if a
    poll did not see that one while the block height was past its limit; a nil
    error means that the confirmation of the returned signature, the last one
    accepted, ended in its commitment; and the errors about exhausted retries do
    not occur. With a negative retry count nothing is sent and the error is the
    one about exhausted retries. *)
Theorem send_and_confirm_sound env opts builder fuel :
  let cfg := apply_options opts in
  build env = Some builder → clocks_ok env cfg → (max_polls cfg < fuel)%nat →
  ∃ r, SendAndConfirmTransaction fuel env opts = Some r ∧
    if maxBlockhashRetries cfg <? 0 then r = failed (exhausted None) else
    send_run env builder cfg 0 r ∧
    zlen (accepted r) ≤ maxBlockhashRetries cfg + 1 ∧ history env builder cfg 0 (accepted r) ∧
    (ret_err r = None → ∃ pre a last, accepted r = pre ++ [(a, ret_sig r)] ∧
       sends env builder a last (inl (ret_sig r)) ∧ confirms env cfg a (ret_sig r) last None) ∧
    (∀ c, ret_err r ≠ Some (SErr (exhausted c))).
Proof.
  intros cfg Hb Hc Hf. destruct (SendAndConfirmTransaction_run env opts builder fuel Hb Hc Hf) as (r & Hr & Hrun).
  exists r. split; [done|]. fold cfg in Hrun. destruct (Z.ltb_spec (maxBlockhashRetries cfg) 0) as [|Hmax]; [done|].
  pose proof (send_run_history _ _ _ _ _ Hmax Hrun) as Hh. split_and!; try done.
  - destruct (decide (accepted r = [])) as [->|Hne]; [rewrite zlen_nil; lia|].
    pose proof (history_length _ _ _ _ _ Hh Hne). lia.
  - by eapply send_run_success.
  - intros c. by eapply send_run_not_exhausted.
Qed.

(** The first transaction's blockhash expires unseen, the second is confirmed. *)
Definition sample_tx : Transaction := NewTransaction (mkMessage 0 (mkHeader 0 0 0) [] [] [] [] None).

Definition sample_send (unseen : or_err (list (option SignatureStatus))) : SendTxEnv := {|
  get_blockhash a := inl (zero_array 32, 100 + 150 * a);
  build := Some (λ _ _, inl sample_tx);
  SendTransaction a tx := inl (replicate 64 (a + 1));
  confirm_env a sig := {|
    start_time := 0;
    poll_time i := 2000000000 * Z.of_nat i;
    poll_ctx i := None;
    poll_status i := if a =? 0 then unseen else inl [Some (mkSignatureStatus 7 None [] CommitmentFinalized)];
    poll_height i := inl 120;
    poll_wait i := None;
  |};
|}.

Lemma send_and_confirm_sound_witness :
  SendAndConfirmTransaction 40 (sample_send (inl [None])) [] =
    Some (mkSendResult (replicate 64 2) None [(0, replicate 64 1); (1, replicate 64 2)]).
Proof.
  destruct (send_and_confirm_sound (sample_send (inl [None])) [] (λ _ _, inl sample_tx) 40) as (r & Hr & _).
  - done.
  - intros a sig. unfold clock_ok. cbn. split_and!; lia.
  - vm_compute. lia.
  - rewrite Hr, <- Hr. by vm_compute.
Defined.

(** A status query that fails counts as "not visible": a transaction that every
    successful query would have shown as finalized is given up and replaced, so
    the caller's instructions are executed twice. *)
Lemma resend_after_failed_query e :
  SendAndConfirmTransaction 40 (sample_send (inr e)) [] =
    Some (mkSendResult (replicate 64 2) None [(0, replicate 64 1); (1, replicate 64 2)]).
Proof. by vm_compute. Qed.

(** The expiry error is recognised by neither public classifier. *)
Lemma expiry_not_classified :
  IsTransactionExpired (Some errBlockhashExpired) = false ∧
  IsBlockhashExpired (Some errBlockhashExpired) = false.
Proof. by vm_compute. Qed.
