(* ===== verification/RpcTypes.v ===== *)
(** * The data of the RPC client: [rpc/options.go], [rpc/types.go] and
    [transaction_meta.go]

    Results are the Go structs; a pointer is an option, a raw message its bytes,
    a float a [spec_float].  A configuration is encoded as the JSON object its
    tags describe. *)

From S2P Require Import Prelude Keys Message Transaction TxError BigUint Json AccountInfo Send.
From Stdlib Require Import SpecFloat.

(** ** JSON objects from structs *)

Abbreviation field := (list (bytes * json)).

Definition jnum (z : Z) : json := JNum (big_String z).

(** [json:"name,omitempty"] on a string, and on a pointer. *)
Definition opt_str (name : string) (s : bytes) : field :=
  if decide (s = []) then [] else [(str name, JStr s)].
Definition opt_num (name : string) (z : option Z) : field :=
  match z with Some z => [(str name, jnum z)] | None => [] end.
Definition opt_bool (name : string) (b : option bool) : field :=
  match b with Some b => [(str name, JBool b)] | None => [] end.
Definition opt_obj (name : string) (o : option json) : field :=
  match o with Some o => [(str name, o)] | None => [] end.

(** ** Enumerations of [options.go] *)

Definition TxDetailLevelNone : bytes := str "none".
Definition TxDetailLevelFull : bytes := str "full".
Definition TxDetailLevelAccounts : bytes := str "accounts".
Definition TxDetailLevelSignatures : bytes := str "signatures".
Definition FilterCirculating : bytes := str "circulating".
Definition FilterNonCirculating : bytes := str "nonCirculating".

(** ** Configurations *)

Record DataSlice := mkDataSlice { Offset : Z; Length : Z }.
Definition DataSlice_json (d : DataSlice) : json :=
  JObj [(str "offset", jnum (Offset d)); (str "length", jnum (Length d))].

Record CommitmentCfg := mkCommitmentCfg { CC_Commitment : bytes }.
Definition CommitmentCfg_json (c : CommitmentCfg) : json := JObj (opt_str "commitment" (CC_Commitment c)).

Record CommitmentWithMinSlotCfg := mkCommitmentWithMinSlotCfg { CM_Commitment : bytes; CM_MinContextSlot : option Z }.
Definition CommitmentWithMinSlotCfg_json (c : CommitmentWithMinSlotCfg) : json :=
  JObj (opt_str "commitment" (CM_Commitment c) ++ opt_num "minContextSlot" (CM_MinContextSlot c)).

Record CommitmentWithEncodingCfg := mkCommitmentWithEncodingCfg { CE_Commitment : bytes; CE_Encoding : bytes }.

Record AccountInfoCfg := mkAccountInfoCfg {
  AC_Commitment : bytes;
  AC_Encoding : bytes;
  AC_DataSlice : option DataSlice;
  AC_MinContextSlot : option Z;
}.

(** [MarshalJSON] fills in the encoding. *)
Definition AccountInfoCfg_json (c : AccountInfoCfg) : json :=
  let enc := if decide (AC_Encoding c = []) then EncodingBase64 else AC_Encoding c in
  JObj (opt_str "commitment" (AC_Commitment c) ++ opt_str "encoding" enc
        ++ opt_obj "dataSlice" (DataSlice_json <$> AC_DataSlice c) ++ opt_num "minContextSlot" (AC_MinContextSlot c)).

Record GetBlockCfg := mkGetBlockCfg {
  GB_Commitment : bytes;
  GB_Encoding : bytes;
  GB_MaxSupportedTransactionVersion : option Z;
  GB_TransactionDetails : bytes;
  GB_Rewards : option bool;
}.
Definition GetBlockCfg_json (c : GetBlockCfg) : json :=
  JObj (opt_str "commitment" (GB_Commitment c) ++ opt_str "encoding" (GB_Encoding c)
        ++ opt_num "maxSupportedTransactionVersion" (GB_MaxSupportedTransactionVersion c)
        ++ opt_str "transactionDetails" (GB_TransactionDetails c) ++ opt_bool "rewards" (GB_Rewards c)).

Record GetTransactionCfg := mkGetTransactionCfg {
  GT_Commitment : bytes;
  GT_Encoding : bytes;
  GT_MaxSupportedTransactionVersion : option Z;
}.
Definition GetTransactionCfg_json (c : GetTransactionCfg) : json :=
  JObj (opt_str "commitment" (GT_Commitment c) ++ opt_str "encoding" (GT_Encoding c)
        ++ opt_num "maxSupportedTransactionVersion" (GT_MaxSupportedTransactionVersion c)).

Record SignaturesForAddressCfg := mkSignaturesForAddressCfg {
  SA_Commitment : bytes;
  SA_MinContextSlot : option Z;
  SA_Limit : option Z;
  SA_Before : bytes;
  SA_Until : bytes;
}.
Definition SignaturesForAddressCfg_json (c : SignaturesForAddressCfg) : json :=
  JObj (opt_str "commitment" (SA_Commitment c) ++ opt_num "minContextSlot" (SA_MinContextSlot c)
        ++ opt_num "limit" (SA_Limit c) ++ opt_str "before" (SA_Before c) ++ opt_str "until" (SA_Until c)).

Record SignatureStatusesCfg := mkSignatureStatusesCfg { SS_SearchTransactionHistory : option bool }.
Definition SignatureStatusesCfg_json (c : SignatureStatusesCfg) : json :=
  JObj (opt_bool "searchTransactionHistory" (SS_SearchTransactionHistory c)).

Record SendTxCfg := mkSendTxCfg {
  ST_SkipPreflight : option bool;
  ST_PreflightCommitment : bytes;
  ST_MaxRetries : option Z;
  ST_MinContextSlot : option Z;
  ST_Encoding : bytes;
}.
Definition SendTxCfg_json (c : SendTxCfg) : json :=
  JObj (opt_bool "skipPreflight" (ST_SkipPreflight c) ++ opt_str "preflightCommitment" (ST_PreflightCommitment c)
        ++ opt_num "maxRetries" (ST_MaxRetries c) ++ opt_num "minContextSlot" (ST_MinContextSlot c)
        ++ opt_str "encoding" (ST_Encoding c)).

(** [None] is the nil slice. *)
Record SimulateAccountsCfg := mkSimulateAccountsCfg { SM_AccEncoding : bytes; SM_Addresses : option (list PublicKey) }.
Record SimulateTxCfg := mkSimulateTxCfg {
  SM_Commitment : bytes;
  SM_SigVerify : option bool;
  SM_ReplaceRecentBlockhash : option bool;
  SM_MinContextSlot : option Z;
  SM_Encoding : bytes;
  SM_InnerInstructions : option bool;
  SM_Accounts : option SimulateAccountsCfg;
}.

Section base58.
Context `{Base58}.

Definition keys_json (l : list PublicKey) : json := JArr ((λ a, JStr (PublicKey_String a)) <$> l).

(** A nil slice is null; the keys go through [PublicKey.MarshalJSON]. *)
Definition SimulateAccountsCfg_json (c : SimulateAccountsCfg) : json :=
  JObj (opt_str "encoding" (SM_AccEncoding c)
        ++ [(str "addresses", match SM_Addresses c with Some l => keys_json l | None => JNull end)]).

Definition SimulateTxCfg_json (c : SimulateTxCfg) : json :=
  JObj (opt_str "commitment" (SM_Commitment c) ++ opt_bool "sigVerify" (SM_SigVerify c)
        ++ opt_bool "replaceRecentBlockhash" (SM_ReplaceRecentBlockhash c)
        ++ opt_num "minContextSlot" (SM_MinContextSlot c) ++ opt_str "encoding" (SM_Encoding c)
        ++ opt_bool "innerInstructions" (SM_InnerInstructions c)
        ++ opt_obj "accounts" (SimulateAccountsCfg_json <$> SM_Accounts c)).
End base58.

Record LargestAccountsCfg := mkLargestAccountsCfg { LA_Commitment : bytes; LA_Filter : bytes }.
Definition LargestAccountsCfg_json (c : LargestAccountsCfg) : json :=
  JObj (opt_str "commitment" (LA_Commitment c) ++ opt_str "filter" (LA_Filter c)).

Record InflationRewardCfg := mkInflationRewardCfg {
  IR_Commitment : bytes;
  IR_MinContextSlot : option Z;
  IR_Epoch : option Z;
}.
Definition InflationRewardCfg_json (c : InflationRewardCfg) : json :=
  JObj (opt_str "commitment" (IR_Commitment c) ++ opt_num "minContextSlot" (IR_MinContextSlot c)
        ++ opt_num "epoch" (IR_Epoch c)).

Record LeaderScheduleCfg := mkLeaderScheduleCfg { LS_Commitment : bytes; LS_Identity : bytes }.
Definition LeaderScheduleCfg_json (c : LeaderScheduleCfg) : json :=
  JObj (opt_str "commitment" (LS_Commitment c) ++ opt_str "identity" (LS_Identity c)).

Record LogsSubscribeCfg := mkLogsSubscribeCfg { LC_Commitment : bytes }.
Definition LogsSubscribeCfg_json (c : LogsSubscribeCfg) : json := JObj (opt_str "commitment" (LC_Commitment c)).

Record SignatureSubscribeCfg := mkSignatureSubscribeCfg { SC_Commitment : bytes }.
Definition SignatureSubscribeCfg_json (c : SignatureSubscribeCfg) : json := JObj (opt_str "commitment" (SC_Commitment c)).

(** A configuration type with its zero value; [FirstOrZero] of the variadic
    argument. *)
Class Zero (T : Type) := zero_value : T.
#[export] Instance CommitmentCfg_zero : Zero CommitmentCfg := mkCommitmentCfg [].
#[export] Instance CommitmentWithMinSlotCfg_zero : Zero CommitmentWithMinSlotCfg := mkCommitmentWithMinSlotCfg [] None.
#[export] Instance CommitmentWithEncodingCfg_zero : Zero CommitmentWithEncodingCfg := mkCommitmentWithEncodingCfg [] [].
#[export] Instance AccountInfoCfg_zero : Zero AccountInfoCfg := mkAccountInfoCfg [] [] None None.
#[export] Instance GetBlockCfg_zero : Zero GetBlockCfg := mkGetBlockCfg [] [] None [] None.
#[export] Instance GetTransactionCfg_zero : Zero GetTransactionCfg := mkGetTransactionCfg [] [] None.
#[export] Instance SignaturesForAddressCfg_zero : Zero SignaturesForAddressCfg := mkSignaturesForAddressCfg [] None None [] [].
#[export] Instance SignatureStatusesCfg_zero : Zero SignatureStatusesCfg := mkSignatureStatusesCfg None.
#[export] Instance SendTxCfg_zero : Zero SendTxCfg := mkSendTxCfg None [] None None [].
#[export] Instance SimulateTxCfg_zero : Zero SimulateTxCfg := mkSimulateTxCfg [] None None None [] None None.
#[export] Instance LargestAccountsCfg_zero : Zero LargestAccountsCfg := mkLargestAccountsCfg [] [].
#[export] Instance InflationRewardCfg_zero : Zero InflationRewardCfg := mkInflationRewardCfg [] None None.
#[export] Instance LeaderScheduleCfg_zero : Zero LeaderScheduleCfg := mkLeaderScheduleCfg [] [].
#[export] Instance LogsSubscribeCfg_zero : Zero LogsSubscribeCfg := mkLogsSubscribeCfg [].
#[export] Instance SignatureSubscribeCfg_zero : Zero SignatureSubscribeCfg := mkSignatureSubscribeCfg [].

Definition FirstOrZero {T} `{Zero T} (opts : list T) : T := match opts with [] => zero_value | c :: _ => c end.

(** ** Transaction metadata *)

Record TxStatus := mkTxStatus { TS_Ok : any; TS_Err : bytes }.
Record InnerInstruction := mkInnerInstruction { II_Index : Z; II_Instructions : list CompiledInstruction }.
Record UiTokenAmount := mkUiTokenAmount {
  UT_Address : option PublicKey;
  UT_Amount : bytes;
  UT_Decimals : Z;
  UT_UiAmount : spec_float;
  UT_UiAmountString : bytes;
}.
Record TokenBalance := mkTokenBalance {
  TB_AccountIndex : Z;
  TB_Mint : PublicKey;
  TB_Owner : PublicKey;
  TB_ProgramID : PublicKey;
  TB_UiTokenAmount : UiTokenAmount;
}.
Record LoadedAddresses := mkLoadedAddresses { LD_Writable : list PublicKey; LD_ReadOnly : list PublicKey }.
Record Reward := mkReward {
  RW_Pubkey : PublicKey;
  RW_Lamports : Z;
  RW_PostBalance : Z;
  RW_RewardType : bytes;
  RW_Commission : option Z;
}.
Record TransactionMeta := mkTransactionMeta {
  TM_Err : bytes;
  TM_Fee : Z;
  TM_PreBalances : list Z;
  TM_PostBalances : list Z;
  TM_LogMessages : list bytes;
  TM_ComputeUnitsConsumed : option Z;
  TM_InnerInstructions : list InnerInstruction;
  TM_PreTokenBalances : list TokenBalance;
  TM_PostTokenBalances : list TokenBalance;
  TM_Status : option TxStatus;
  TM_Rewards : list Reward;
  TM_LoadedAddresses : option LoadedAddresses;
}.
Record PrioritizationFee := mkPrioritizationFee { PF_Slot : Z; PF_PrioritizationFee : Z }.
Record LatestBlockhash := mkLatestBlockhash { LB_Slot : Z; LB_Blockhash : Hash; LB_LastValidBlockHeight : Z }.

(** ** Results shared by several methods *)

Record GetSignatureStatusesResult := mkGetSignatureStatusesResult { GS_Slot : Z; GS_Statuses : list (option SignatureStatus) }.
Record SimulationReturnData := mkSimulationReturnData { SR_ProgramID : PublicKey; SR_Data : EncodedData }.
Record SimulationInstruction := mkSimulationInstruction {
  SI_Program : bytes;
  SI_ProgramID : PublicKey;
  SI_Parsed : bytes;
  SI_Accounts : list PublicKey;
  SI_Data : bytes;
  SI_StackHeight : option Z;
}.
Record SimulationInnerInstruction := mkSimulationInnerInstruction { SN_Index : Z; SN_Instructions : list SimulationInstruction }.
Record SimulateResult := mkSimulateResult {
  SV_Slot : Z;
  SV_Accounts : list (option AccountInfo);
  SV_Err : any;
  SV_Fee : option Z;
  SV_PreBalances : list Z;
  SV_PostBalances : list Z;
  SV_InnerInstructions : list SimulationInnerInstruction;
  SV_PreTokenBalances : list TokenBalance;
  SV_PostTokenBalances : list TokenBalance;
  SV_LoadedAccountsDataSize : option Z;
  SV_LoadedAddresses : option LoadedAddresses;
  SV_Logs : list bytes;
  SV_ReplacementBlockhash : option LatestBlockhash;
  SV_ReturnData : option SimulationReturnData;
  SV_UnitsConsumed : option Z;
}.
Record BlockTransaction := mkBlockTransaction {
  BT_Transaction : option Transaction;
  BT_Meta : option TransactionMeta;
  BT_Version : Z;
}.
Record GetBlockResult := mkGetBlockResult {
  BR_Blockhash : bytes;
  BR_PreviousBlockhash : bytes;
  BR_ParentSlot : Z;
  BR_Transactions : list BlockTransaction;
  BR_BlockHeight : option Z;
  BR_BlockTime : option Z;
  BR_Rewards : list Reward;
}.
