(* ===== verification/Rpc.v ===== *)
(** * The RPC methods: [rpc/client.go] and [rpc/methods_*.go]

    A method builds its parameters, makes at most one call and converts the
    answer.  A call is a log of the requests made and a result; the transport
    and the codec are classes, the transport being [callRaw] of [JsonRpc]
    ([transport_of]). *)

From S2P Require Import Prelude Keys Message MessageCodec Transaction TransactionCodec BigUint Json Base64 AccountInfo TokenState TxError JsonRpc JsonRpcSpec Send RpcTypes.
From Stdlib Require Import SpecFloat.

(** ** Calls *)

Inductive rpc_error :=
| CallError (e : goerr)        (* CallContext's, or a text of the method's own *)
| SdkError (e : error).        (* the codecs', or a format of the method's own *)

Inductive rpc_result (A : Type) :=
| ROk (a : A)
| RErr (e : rpc_error)
| RPanic.
Arguments ROk {A} a.
Arguments RErr {A} e.
Arguments RPanic {A}.

Record request := mkRequest { RequestMethod : bytes; RequestParams : list json }.

Record rpc (A : Type) := mkRpc { requests : list request; outcome : rpc_result A }.
Arguments mkRpc {A} _ _.
Arguments requests {A} _.
Arguments outcome {A} _.

#[export] Instance rpc_ret : MRet rpc := λ A a, mkRpc [] (ROk a).
#[export] Instance rpc_bind : MBind rpc := λ A B f m,
  match outcome m with
  | ROk a => mkRpc (requests m ++ requests (f a)) (outcome (f a))
  | RErr e => mkRpc (requests m) (RErr e)
  | RPanic => mkRpc (requests m) RPanic
  end.

Definition fail {A} (e : rpc_error) : rpc A := mkRpc [] (RErr e).
Definition sdk {A} (r : result A) : rpc A :=
  mkRpc [] (match r with Ok a => ROk a | Err e => RErr (SdkError e) | Panic _ => RPanic end).

(** [Request] ([jsonrpc/request.go]) as the codecs write it; [callRaw] makes nil
    arguments an empty array. *)
Definition Request_json (id : Z) (method : bytes) (params : json) : json :=
  JObj [(str "jsonrpc", JStr (str "2.0")); (str "id", jnum id); (str "method", JStr method); (str "params", params)].
Definition callRaw_request (id : Z) (r : request) : json :=
  Request_json id (RequestMethod r) (JArr (RequestParams r)).

(** [callRaw] on a request, retries included. *)
Class Transport := transport_call : bytes → list json → gres bytes.

(** The transport of [JsonRpc] under a policy: the fuel is the policy's number
    of attempts ([transport_of_callRaw]). *)
Definition transport_of (env : bytes → list json → SendEnv) (p : exponentialBackoff) : Transport := λ m ps,
  match callRaw (Z.to_nat (MaxAttempts p)) (env m ps) (ShouldRetry p) m with
  | Some (r, _) => r
  | None => GPanic
  end.

(** The codec at the response envelope of a result type. *)
Class Envelope (T : Type) := decode_envelope : bytes → gres (T * option RpcErrorObject).

Record ContextValue (T : Type) := mkContextValue { CV_Slot : Z; CV_Value : T }.
Arguments mkContextValue {T} _ _.
Arguments CV_Slot {T} _.
Arguments CV_Value {T} _.

Definition call T `{Transport, Envelope T} (method : string) (params : list json) : rpc T :=
  mkRpc [mkRequest (str method) params]
    (match CallContext decode_envelope (str method) (transport_call (str method) params) with
     | GOk a => ROk a
     | GErr e => RErr (CallError e)
     | GPanic => RPanic
     end).

(** A nil pointer to a number is null. *)
Definition jptr (z : option Z) : json := match z with Some z => jnum z | None => JNull end.

Definition errorf {A} (text : bytes) : rpc A := fail (CallError (GOther text)).

(** ** Results *)

Record GetAccountInfoResult := mkGetAccountInfoResult { GAI_Slot : Z; GAI_Account : option AccountInfo }.
Record GetMultipleAccountsResult := mkGetMultipleAccountsResult { GMA_Slot : Z; GMA_Accounts : list (option AccountInfo) }.
Record GetAddressLookupTableResult := mkGetAddressLookupTableResult { GAL_Slot : Z; GAL_State : TableState }.
Record TokenAmount := mkTokenAmount {
  TA_Amount : bytes;
  TA_Decimals : Z;
  TA_UIAmount : option spec_float;
  TA_UIAmountString : bytes;
}.
Record GetTokenAccountBalanceResult := mkGetTokenAccountBalanceResult { GTB_Slot : Z; GTB_Value : TokenAmount }.
Record GetTokenSupplyResult := mkGetTokenSupplyResult { GTS_Slot : Z; GTS_Value : TokenAmount }.
Record BlockCommitment := mkBlockCommitment { BC_Commitment : list Z; BC_TotalStake : Z }.
Record EpochInfo := mkEpochInfo {
  EI_AbsoluteSlot : Z;
  EI_BlockHeight : Z;
  EI_Epoch : Z;
  EI_SlotIndex : Z;
  EI_SlotsInEpoch : Z;
  EI_TransactionCount : option Z;
}.
Record SupplyResult := mkSupplyResult {
  SU_Slot : Z;
  SU_Total : Z;
  SU_Circulating : Z;
  SU_NonCirculating : Z;
  SU_NonCirculatingAccounts : list bytes;
}.
Record InflationRate := mkInflationRate {
  IN_Total : spec_float;
  IN_Validator : spec_float;
  IN_Foundation : spec_float;
  IN_Epoch : Z;
}.
Record EpochSchedule := mkEpochSchedule {
  ES_SlotsPerEpoch : Z;
  ES_LeaderScheduleSlotOffset : Z;
  ES_Warmup : bool;
  ES_FirstNormalEpoch : Z;
  ES_FirstNormalSlot : Z;
}.
Record InflationGovernor := mkInflationGovernor {
  IG_Initial : spec_float;
  IG_Terminal : spec_float;
  IG_Taper : spec_float;
  IG_Foundation : spec_float;
  IG_FoundationTerm : spec_float;
}.
Record InflationReward := mkInflationReward {
  IW_Epoch : Z;
  IW_EffectiveSlot : Z;
  IW_Amount : Z;
  IW_PostBalance : Z;
  IW_Commission : option Z;
}.
Record PerformanceSample := mkPerformanceSample {
  PS_Slot : Z;
  PS_NumTransactions : Z;
  PS_NumSlots : Z;
  PS_SamplePeriodSecs : Z;
  PS_NumNonVoteTransactions : Z;
}.
Record GetFeeForMessageResult := mkGetFeeForMessageResult { GF_Slot : Z; GF_Fee : option Z }.
Record ProgramAccount := mkProgramAccount { PA_Pubkey : PublicKey; PA_Account : AccountInfo }.
Record TokenAccountFilter := mkTokenAccountFilter { TF_Mint : PublicKey; TF_ProgramID : PublicKey }.
Record TokenAccount := mkTokenAccount { TK_Pubkey : PublicKey; TK_Account : AccountInfo }.
Record TokenLargestAccount := mkTokenLargestAccount {
  TL_Address : PublicKey;
  TL_Amount : bytes;
  TL_Decimals : Z;
  TL_UIAmount : option spec_float;
  TL_UIAmountString : bytes;
}.
Record LargestAccount := mkLargestAccount { LG_Address : PublicKey; LG_Lamports : Z }.
Record GetBalanceResult := mkGetBalanceResult { GBal_Slot : Z; GBal_Value : Z }.
Record ConfirmedSignatureForAddress := mkConfirmedSignatureForAddress {
  CS_Signature : bytes;
  CS_Slot : Z;
  CS_Err : any;
  CS_Memo : option bytes;
  CS_BlockTime : option Z;
  CS_ConfirmationStatus : bytes;
}.
Record SolanaVersion := mkSolanaVersion { SolanaCore : bytes; FeatureSet : Z }.
(** The anonymous struct of [GetIdentity]. *)
Record Identity := mkIdentity { IdentityText : bytes }.
Record HighestSnapshotSlot := mkHighestSnapshotSlot { HS_Full : Z; HS_Incremental : option Z }.
Record GetTransactionResult := mkGetTransactionResult {
  GTR_Slot : Z;
  GTR_BlockTime : option Z;
  GTR_Meta : option TransactionMeta;
  GTR_Transaction : option Transaction;
  GTR_Version : Z;
}.
Record VoteAccount := mkVoteAccount {
  VA_VotePubkey : PublicKey;
  VA_NodePubkey : PublicKey;
  VA_ActivatedStake : Z;
  VA_EpochVoteAccount : bool;
  VA_Commission : Z;
  VA_LastVote : Z;
  VA_EpochCredits : list (Z * Z * Z);
  VA_RootSlot : Z;
}.
Record VoteAccounts := mkVoteAccounts { Current : list VoteAccount; Delinquent : list VoteAccount }.
Record ClusterNode := mkClusterNode {
  CN_Pubkey : PublicKey;
  CN_Gossip : bytes;
  CN_TPU : bytes;
  CN_RPC : bytes;
  CN_Version : bytes;
  CN_FeatureSet : option Z;
  CN_ShredVersion : option Z;
}.
Record BlockProductionRange := mkBlockProductionRange { BPR_FirstSlot : Z; BPR_LastSlot : Z }.
Record BlockProductionValue := mkBlockProductionValue {
  BPV_ByIdentity : gmap bytes (Z * Z);
  BPV_Range : BlockProductionRange;
}.
Record BlockProductionResult := mkBlockProductionResult { BP_Slot : Z; BP_Value : BlockProductionValue }.
Record StakeActivation := mkStakeActivation { SK_State : bytes; SK_Active : Z; SK_Inactive : Z }.

(** ** Limits *)

Definition MaxGetMultipleAccountsAddresses : Z := 100.
Definition MaxGetSignatureStatusesSignatures : Z := 256.
Definition MaxGetRecentPrioritizationFeesAddresses : Z := 128.

Definition exceeds (method : string) (n : Z) (what : string) (max : Z) : bytes :=
  str "solana: " ++ str method ++ str ": " ++ itoa n ++ str " " ++ str what
  ++ str " exceeds Solana RPC max of " ++ itoa max.

Section methods.
Context `{B : Base58, TR : Transport}.

Definition pubkey_json (p : PublicKey) : json := JStr (PublicKey_String p).

(** ** [methods_account.go] and [methods_alt.go] *)

Definition GetAccountInfo `{Envelope (ContextValue (option AccountInfo))}
    (pubkey : PublicKey) (cfg : list AccountInfoCfg) : rpc GetAccountInfoResult :=
  resp ← call (ContextValue (option AccountInfo)) "getAccountInfo" [pubkey_json pubkey; AccountInfoCfg_json (FirstOrZero cfg)];
  mret (mkGetAccountInfoResult (CV_Slot resp) (CV_Value resp)).

Definition GetMultipleAccounts `{Envelope (ContextValue (list (option AccountInfo)))}
    (addresses : list PublicKey) (cfg : list AccountInfoCfg) : rpc GetMultipleAccountsResult :=
  if MaxGetMultipleAccountsAddresses <? zlen addresses
  then errorf (exceeds "GetMultipleAccounts" (zlen addresses) "addresses" MaxGetMultipleAccountsAddresses) else
  resp ← call (ContextValue (list (option AccountInfo))) "getMultipleAccounts"
           [keys_json addresses; AccountInfoCfg_json (FirstOrZero cfg)];
  mret (mkGetMultipleAccountsResult (CV_Slot resp) (CV_Value resp)).

Definition table_cfg (opt : CommitmentWithMinSlotCfg) : AccountInfoCfg :=
  mkAccountInfoCfg (CM_Commitment opt) EncodingBase64 None (CM_MinContextSlot opt).

(** [None] is the nil result of an account that does not exist. *)
Definition GetAddressLookupTable `{Envelope (ContextValue (option AccountInfo))}
    (address : PublicKey) (cfg : list CommitmentWithMinSlotCfg) : rpc (option GetAddressLookupTableResult) :=
  resp ← call (ContextValue (option AccountInfo)) "getAccountInfo"
           [pubkey_json address; AccountInfoCfg_json (table_cfg (FirstOrZero cfg))];
  match CV_Value resp with
  | None => mret None
  | Some acc =>
      state ← sdk (wrap_result "client: GetAddressLookupTable" [] (DecodeTableState (ED_Bytes (AccountData acc))));
      mret (Some (mkGetAddressLookupTableResult (CV_Slot resp) state))
  end.

(** ** [methods_block_token.go] *)

Definition block_defaults (c : GetBlockCfg) : GetBlockCfg :=
  mkGetBlockCfg (GB_Commitment c)
    (if decide (GB_Encoding c = []) then EncodingBase64 else GB_Encoding c)
    (Some (default 0 (GB_MaxSupportedTransactionVersion c)))
    (if decide (GB_TransactionDetails c = []) then str "full" else GB_TransactionDetails c)
    (GB_Rewards c).

Definition GetBlock `{Envelope (option GetBlockResult)} (slot : Z) (cfg : list GetBlockCfg) : rpc (option GetBlockResult) :=
  call (option GetBlockResult) "getBlock" [jnum slot; GetBlockCfg_json (block_defaults (FirstOrZero cfg))].

Definition GetBlocks `{Envelope (list Z)} (start : Z) (end_ : option Z) (cfg : list CommitmentCfg) : rpc (list Z) :=
  call (list Z) "getBlocks" [jnum start; jptr end_; CommitmentCfg_json (FirstOrZero cfg)].

Definition GetTokenAccountBalance `{Envelope (ContextValue TokenAmount)}
    (account : PublicKey) (cfg : list CommitmentCfg) : rpc GetTokenAccountBalanceResult :=
  resp ← call (ContextValue TokenAmount) "getTokenAccountBalance" [pubkey_json account; CommitmentCfg_json (FirstOrZero cfg)];
  mret (mkGetTokenAccountBalanceResult (CV_Slot resp) (CV_Value resp)).

Definition GetTokenSupply `{Envelope (ContextValue TokenAmount)}
    (mint : PublicKey) (cfg : list CommitmentCfg) : rpc GetTokenSupplyResult :=
  resp ← call (ContextValue TokenAmount) "getTokenSupply" [pubkey_json mint; CommitmentCfg_json (FirstOrZero cfg)];
  mret (mkGetTokenSupplyResult (CV_Slot resp) (CV_Value resp)).

Definition GetBlockCommitment `{Envelope BlockCommitment} (slot : Z) : rpc BlockCommitment :=
  call BlockCommitment "getBlockCommitment" [jnum slot].

Definition GetBlocksWithLimit `{Envelope (list Z)} (startSlot limit : Z) (cfg : list CommitmentCfg) : rpc (list Z) :=
  call (list Z) "getBlocksWithLimit" [jnum startSlot; jnum limit; CommitmentCfg_json (FirstOrZero cfg)].

Definition GetFirstAvailableBlock `{Envelope Z} : rpc Z := call Z "getFirstAvailableBlock" [].

(** ** [methods_chain.go] *)

Definition GetEpochInfo `{Envelope EpochInfo} (cfg : list CommitmentWithMinSlotCfg) : rpc EpochInfo :=
  call EpochInfo "getEpochInfo" [CommitmentWithMinSlotCfg_json (FirstOrZero cfg)].

Definition GetSupply `{Envelope (ContextValue SupplyResult)} (cfg : list CommitmentCfg) : rpc SupplyResult :=
  resp ← call (ContextValue SupplyResult) "getSupply" [CommitmentCfg_json (FirstOrZero cfg)];
  let v := CV_Value resp in
  mret (mkSupplyResult (CV_Slot resp) (SU_Total v) (SU_Circulating v) (SU_NonCirculating v) (SU_NonCirculatingAccounts v)).

Definition GetInflationRate `{Envelope InflationRate} : rpc InflationRate := call InflationRate "getInflationRate" [].

Definition GetMinimumBalanceForRentExemption `{Envelope Z} (dataSize : Z) (cfg : list CommitmentCfg) : rpc Z :=
  call Z "getMinimumBalanceForRentExemption" [jnum dataSize; CommitmentCfg_json (FirstOrZero cfg)].

Definition GetSlotLeader `{Envelope bytes} (cfg : list CommitmentWithMinSlotCfg) : rpc PublicKey :=
  leader ← call bytes "getSlotLeader" [CommitmentWithMinSlotCfg_json (FirstOrZero cfg)];
  sdk (PublicKeyFromBase58 leader).

Definition GetBlockTime `{Envelope (option Z)} (slot : Z) : rpc (option Z) :=
  call (option Z) "getBlockTime" [jnum slot].

Definition GetEpochSchedule `{Envelope EpochSchedule} : rpc EpochSchedule := call EpochSchedule "getEpochSchedule" [].

(** The loop over the leaders. *)
Fixpoint parse_leaders (raw : list bytes) : result (list PublicKey) :=
  match raw with
  | [] => Ok []
  | s :: raw => pk ← PublicKeyFromBase58 s; leaders ← parse_leaders raw; Ok (pk :: leaders)
  end.

Definition GetSlotLeaders `{Envelope (list bytes)} (startSlot limit : Z) : rpc (list PublicKey) :=
  raw ← call (list bytes) "getSlotLeaders" [jnum startSlot; jnum limit];
  sdk (parse_leaders raw).

Definition GetLeaderSchedule `{Envelope (gmap bytes (list Z))}
    (slot : option Z) (cfg : list LeaderScheduleCfg) : rpc (gmap bytes (list Z)) :=
  call (gmap bytes (list Z)) "getLeaderSchedule" [jptr slot; LeaderScheduleCfg_json (FirstOrZero cfg)].

Definition GetInflationGovernor `{Envelope InflationGovernor} (cfg : list CommitmentCfg) : rpc InflationGovernor :=
  call InflationGovernor "getInflationGovernor" [CommitmentCfg_json (FirstOrZero cfg)].

Definition GetInflationReward `{Envelope (list (option InflationReward))}
    (addresses : list PublicKey) (cfg : list InflationRewardCfg) : rpc (list (option InflationReward)) :=
  call (list (option InflationReward)) "getInflationReward" [keys_json addresses; InflationRewardCfg_json (FirstOrZero cfg)].

Definition GetRecentPerformanceSamples `{Envelope (list PerformanceSample)} (limit : option Z) : rpc (list PerformanceSample) :=
  call (list PerformanceSample) "getRecentPerformanceSamples" [jptr limit].

(** ** [methods_fees.go] *)

Definition RequestAirdrop `{Envelope bytes} (pubkey : PublicKey) (lamports : Z) (cfg : list CommitmentCfg) : rpc Signature :=
  sigStr ← call bytes "requestAirdrop" [pubkey_json pubkey; jnum lamports; CommitmentCfg_json (FirstOrZero cfg)];
  sdk (SignatureFromBase58 sigStr).

(** [None] is a nil message. *)
Definition GetFeeForMessage `{Envelope (ContextValue (option Z))}
    (msg : option Message.Message) (cfg : list CommitmentWithMinSlotCfg) : rpc GetFeeForMessageResult :=
  match msg with
  | None => errorf (str "solana: GetFeeForMessage: nil message")
  | Some msg =>
      msgBytes ← sdk (wrap_result "solana: GetFeeForMessage: marshal" [] (Message.Marshal msg));
      resp ← call (ContextValue (option Z)) "getFeeForMessage"
               [JStr (EncodeToString msgBytes); CommitmentWithMinSlotCfg_json (FirstOrZero cfg)];
      mret (mkGetFeeForMessageResult (CV_Slot resp) (CV_Value resp))
  end.

Definition GetRecentPrioritizationFees `{Envelope (list PrioritizationFee)}
    (addresses : list PublicKey) : rpc (list PrioritizationFee) :=
  if MaxGetRecentPrioritizationFeesAddresses <? zlen addresses
  then errorf (exceeds "GetRecentPrioritizationFees" (zlen addresses) "addresses" MaxGetRecentPrioritizationFeesAddresses) else
  call (list PrioritizationFee) "getRecentPrioritizationFees" [keys_json addresses].

(** ** [methods_program.go] *)

Definition GetProgramAccounts `{Envelope (list ProgramAccount)}
    (program : PublicKey) (cfg : list AccountInfoCfg) : rpc (list ProgramAccount) :=
  call (list ProgramAccount) "getProgramAccounts" [pubkey_json program; AccountInfoCfg_json (FirstOrZero cfg)].

Definition filter_json (filter : TokenAccountFilter) : json :=
  if negb (PublicKey_IsZero (TF_Mint filter))
  then JObj [(str "mint", pubkey_json (TF_Mint filter))]
  else JObj [(str "programId", pubkey_json (TF_ProgramID filter))].

Definition tokenAccountsCall `{Envelope (ContextValue (list TokenAccount))}
    (method : string) (addr : PublicKey) (filter : TokenAccountFilter) (cfg : list AccountInfoCfg) : rpc (list TokenAccount) :=
  resp ← call (ContextValue (list TokenAccount)) method
           [pubkey_json addr; filter_json filter; AccountInfoCfg_json (FirstOrZero cfg)];
  mret (CV_Value resp).

Definition GetTokenAccountsByOwner `{Envelope (ContextValue (list TokenAccount))} :=
  tokenAccountsCall "getTokenAccountsByOwner".
Definition GetTokenAccountsByDelegate `{Envelope (ContextValue (list TokenAccount))} :=
  tokenAccountsCall "getTokenAccountsByDelegate".

Definition GetTokenLargestAccounts `{Envelope (ContextValue (list TokenLargestAccount))}
    (mint : PublicKey) (cfg : list CommitmentCfg) : rpc (list TokenLargestAccount) :=
  resp ← call (ContextValue (list TokenLargestAccount)) "getTokenLargestAccounts"
           [pubkey_json mint; CommitmentCfg_json (FirstOrZero cfg)];
  mret (CV_Value resp).

Definition GetLargestAccounts `{Envelope (ContextValue (list LargestAccount))}
    (cfg : list LargestAccountsCfg) : rpc (list LargestAccount) :=
  resp ← call (ContextValue (list LargestAccount)) "getLargestAccounts" [LargestAccountsCfg_json (FirstOrZero cfg)];
  mret (CV_Value resp).

(** ** [methods_query.go] *)

Definition GetBalance `{Envelope (ContextValue Z)} (pubkey : PublicKey) (cfg : list CommitmentWithMinSlotCfg) : rpc GetBalanceResult :=
  resp ← call (ContextValue Z) "getBalance" [pubkey_json pubkey; CommitmentWithMinSlotCfg_json (FirstOrZero cfg)];
  mret (mkGetBalanceResult (CV_Slot resp) (CV_Value resp)).

Definition GetSlot `{Envelope Z} (cfg : list CommitmentWithMinSlotCfg) : rpc Z :=
  call Z "getSlot" [CommitmentWithMinSlotCfg_json (FirstOrZero cfg)].

Definition GetBlockHeight `{Envelope Z} (cfg : list CommitmentWithMinSlotCfg) : rpc Z :=
  call Z "getBlockHeight" [CommitmentWithMinSlotCfg_json (FirstOrZero cfg)].

Definition GetLatestBlockhash `{Envelope (ContextValue LatestBlockhash)}
    (cfg : list CommitmentWithMinSlotCfg) : rpc LatestBlockhash :=
  resp ← call (ContextValue LatestBlockhash) "getLatestBlockhash" [CommitmentWithMinSlotCfg_json (FirstOrZero cfg)];
  mret (mkLatestBlockhash (CV_Slot resp) (LB_Blockhash (CV_Value resp)) (LB_LastValidBlockHeight (CV_Value resp))).

(** ** [methods_signatures.go] *)

Definition GetSignatureStatuses `{Envelope (ContextValue (list (option SignatureStatus)))}
    (sigs : list Signature) (cfg : list SignatureStatusesCfg) : rpc GetSignatureStatusesResult :=
  if MaxGetSignatureStatusesSignatures <? zlen sigs
  then errorf (exceeds "GetSignatureStatuses" (zlen sigs) "signatures" MaxGetSignatureStatusesSignatures) else
  resp ← call (ContextValue (list (option SignatureStatus))) "getSignatureStatuses"
           [JArr ((λ s, JStr (Signature_String s)) <$> sigs); SignatureStatusesCfg_json (FirstOrZero cfg)];
  mret (mkGetSignatureStatusesResult (CV_Slot resp) (CV_Value resp)).

Definition GetSignaturesForAddress `{Envelope (list (option ConfirmedSignatureForAddress))}
    (addr : PublicKey) (cfg : list SignaturesForAddressCfg) : rpc (list (option ConfirmedSignatureForAddress)) :=
  call (list (option ConfirmedSignatureForAddress)) "getSignaturesForAddress"
    [pubkey_json addr; SignaturesForAddressCfg_json (FirstOrZero cfg)].

(** ** [methods_system.go] *)

Definition GetHealth `{Envelope bytes} : rpc bytes := call bytes "getHealth" [].
Definition GetVersion `{Envelope SolanaVersion} : rpc SolanaVersion := call SolanaVersion "getVersion" [].
Definition GetIdentity `{Envelope Identity} : rpc PublicKey :=
  raw ← call Identity "getIdentity" []; sdk (PublicKeyFromBase58 (IdentityText raw)).
Definition GetGenesisHash `{Envelope bytes} : rpc Hash :=
  raw ← call bytes "getGenesisHash" []; sdk (HashFromBase58 raw).
Definition GetHighestSnapshotSlot `{Envelope HighestSnapshotSlot} : rpc HighestSnapshotSlot :=
  call HighestSnapshotSlot "getHighestSnapshotSlot" [].
Definition GetTransactionCount `{Envelope Z} (cfg : list CommitmentWithMinSlotCfg) : rpc Z :=
  call Z "getTransactionCount" [CommitmentWithMinSlotCfg_json (FirstOrZero cfg)].
Definition IsBlockhashValid `{Envelope (ContextValue bool)} (blockhash : Hash) (cfg : list CommitmentWithMinSlotCfg) : rpc bool :=
  resp ← call (ContextValue bool) "isBlockhashValid"
           [JStr (Hash_String blockhash); CommitmentWithMinSlotCfg_json (FirstOrZero cfg)];
  mret (CV_Value resp).
Definition MinimumLedgerSlot `{Envelope Z} : rpc Z := call Z "minimumLedgerSlot" [].
Definition GetMaxRetransmitSlot `{Envelope Z} : rpc Z := call Z "getMaxRetransmitSlot" [].
Definition GetMaxShredInsertSlot `{Envelope Z} : rpc Z := call Z "getMaxShredInsertSlot" [].

(** ** [methods_vote.go] *)

Definition GetVoteAccounts `{Envelope VoteAccounts} (cfg : list CommitmentCfg) : rpc VoteAccounts :=
  call VoteAccounts "getVoteAccounts" [CommitmentCfg_json (FirstOrZero cfg)].
Definition GetClusterNodes `{Envelope (list ClusterNode)} : rpc (list ClusterNode) :=
  call (list ClusterNode) "getClusterNodes" [].
Definition GetBlockProduction `{Envelope (ContextValue BlockProductionValue)} (cfg : list CommitmentCfg) : rpc BlockProductionResult :=
  resp ← call (ContextValue BlockProductionValue) "getBlockProduction" [CommitmentCfg_json (FirstOrZero cfg)];
  mret (mkBlockProductionResult (CV_Slot resp) (CV_Value resp)).
Definition GetStakeActivation `{Envelope StakeActivation}
    (account : PublicKey) (cfg : list CommitmentWithMinSlotCfg) : rpc StakeActivation :=
  call StakeActivation "getStakeActivation" [pubkey_json account; CommitmentWithMinSlotCfg_json (FirstOrZero cfg)].
Definition GetStakeMinimumDelegation `{Envelope (ContextValue Z)} (cfg : list CommitmentCfg) : rpc Z :=
  resp ← call (ContextValue Z) "getStakeMinimumDelegation" [CommitmentCfg_json (FirstOrZero cfg)];
  mret (CV_Value resp).

(** ** [methods_transaction.go] *)

Definition transaction_defaults (c : GetTransactionCfg) : GetTransactionCfg :=
  mkGetTransactionCfg (GT_Commitment c)
    (if decide (GT_Encoding c = []) then EncodingBase64 else GT_Encoding c)
    (Some (default 0 (GT_MaxSupportedTransactionVersion c))).

Definition GetTransaction `{Envelope (option GetTransactionResult)}
    (sig : Signature) (cfg : list GetTransactionCfg) : rpc (option GetTransactionResult) :=
  call (option GetTransactionResult) "getTransaction"
    [JStr (Signature_String sig); GetTransactionCfg_json (transaction_defaults (FirstOrZero cfg))].

Definition send_defaults (c : SendTxCfg) : SendTxCfg :=
  mkSendTxCfg (ST_SkipPreflight c) (ST_PreflightCommitment c) (ST_MaxRetries c) (ST_MinContextSlot c)
    (if decide (ST_Encoding c = []) then EncodingBase64 else ST_Encoding c).

(** The switch on the transaction's encoding, shared by the two methods;
    [what] is the method's error format. *)
Definition encode_transaction (what : string) (enc raw : bytes) : rpc bytes :=
  if decide (enc = EncodingBase64) then mret (EncodeToString raw)
  else if decide (enc = EncodingBase58) then mret (base58_Encode raw)
  else fail (SdkError (ErrFmt what [AB enc])).

Definition SendRawTransaction `{Envelope bytes} (raw : bytes) (cfg : list SendTxCfg) : rpc Signature :=
  let c0 := send_defaults (FirstOrZero cfg) in
  encoded ← encode_transaction "solana: SendRawTransaction: unsupported encoding %q" (ST_Encoding c0) raw;
  sigStr ← call bytes "sendTransaction" [JStr encoded; SendTxCfg_json c0];
  sdk (SignatureFromBase58 sigStr).

(** A nil transaction panics. *)
Definition SendTransaction `{Envelope bytes} (tx : option Transaction) (cfg : list SendTxCfg) : rpc Signature :=
  match tx with
  | None => mkRpc [] RPanic
  | Some tx =>
      raw ← sdk (wrap_result "solana: SendTransaction: marshal" [] (Transaction_Marshal tx));
      SendRawTransaction raw cfg
  end.

(** ** [methods_simulate.go] *)

Definition both_true (c : SimulateTxCfg) : bool :=
  match SM_SigVerify c, SM_ReplaceRecentBlockhash c with
  | Some true, Some true => true
  | _, _ => false
  end.

(** The account snapshots: base64 by default, and only the raw encodings. *)
Definition simulate_accounts (c : SimulateTxCfg) : rpc (option SimulateAccountsCfg) :=
  match SM_Accounts c with
  | None => mret None
  | Some a =>
      let enc := if decide (SM_AccEncoding a = []) then EncodingBase64 else SM_AccEncoding a in
      if decide (enc = EncodingBase64 ∨ enc = EncodingBase64ZSTD)
      then mret (Some (mkSimulateAccountsCfg enc (SM_Addresses a)))
      else fail (SdkError (ErrFmt "solana: SimulateTransaction: unsupported account encoding %q" [AB enc]))
  end.

Definition set_slot (slot : Z) (v : SimulateResult) : SimulateResult :=
  mkSimulateResult slot (SV_Accounts v) (SV_Err v) (SV_Fee v) (SV_PreBalances v) (SV_PostBalances v)
    (SV_InnerInstructions v) (SV_PreTokenBalances v) (SV_PostTokenBalances v) (SV_LoadedAccountsDataSize v)
    (SV_LoadedAddresses v) (SV_Logs v) (SV_ReplacementBlockhash v) (SV_ReturnData v) (SV_UnitsConsumed v).

Definition simulate_cfg (c : SimulateTxCfg) (accounts : option SimulateAccountsCfg) : SimulateTxCfg :=
  mkSimulateTxCfg (SM_Commitment c) (SM_SigVerify c) (SM_ReplaceRecentBlockhash c) (SM_MinContextSlot c)
    (if decide (SM_Encoding c = []) then EncodingBase64 else SM_Encoding c)
    (SM_InnerInstructions c) accounts.

Definition SimulateTransaction `{Envelope (ContextValue SimulateResult)}
    (tx : option Transaction) (cfg : list SimulateTxCfg) : rpc SimulateResult :=
  match tx with
  | None => errorf (str "solana: SimulateTransaction: nil transaction")
  | Some tx =>
      raw ← sdk (wrap_result "solana: SimulateTransaction: marshal" [] (Transaction_Marshal tx));
      let c0 := FirstOrZero cfg in
      if both_true c0
      then errorf (str "solana: SimulateTransaction: sigVerify and replaceRecentBlockhash cannot both be true") else
      accounts ← simulate_accounts c0;
      let c0 := simulate_cfg c0 accounts in
      encoded ← encode_transaction "solana: SimulateTransaction: unsupported transaction encoding %q" (SM_Encoding c0) raw;
      resp ← call (ContextValue SimulateResult) "simulateTransaction" [JStr encoded; SimulateTxCfg_json c0];
      mret (set_slot (CV_Slot resp) (CV_Value resp))
  end.
End methods.
