(* ===== verification/RpcSpec.v ===== *)
(** * The RPC methods: theorems

    What a method sends, and when it sends nothing. *)

From S2P Require Import Prelude Wire Keys Message MessageCodec Transaction TransactionCodec BigUint Json Base64 AccountInfo AccountInfoSpec TokenState TxError JsonRpc JsonRpcSpec Send RpcTypes Rpc.

(** ** Reading a configuration object *)

(** The encoding after the default. *)
Definition effective (enc : bytes) : bytes := if decide (enc = []) then EncodingBase64 else enc.

Lemma effective_ne enc : effective enc ≠ [].
Proof. unfold effective. by case_decide. Qed.

Fixpoint assoc (k : bytes) (m : list (bytes * json)) : option json :=
  match m with
  | [] => None
  | (k', v) :: m => if decide (k' = k) then Some v else assoc k m
  end.

Definition json_field (k : string) (v : json) : option json :=
  match v with JObj m => assoc (str k) m | _ => None end.

Lemma assoc_app k a b : assoc k (a ++ b) = match assoc k a with Some v => Some v | None => assoc k b end.
Proof. induction a as [|[k' v] a IH]; [done|]. simpl. by case_decide. Qed.

Lemma assoc_opt_str_ne k name s : str name ≠ k → assoc k (opt_str name s) = None.
Proof. intros. unfold opt_str. case_decide; simpl; by try rewrite decide_False. Qed.
Lemma assoc_opt_num_ne k name z : str name ≠ k → assoc k (opt_num name z) = None.
Proof. intros. destruct z; simpl; by try rewrite decide_False. Qed.
Lemma assoc_opt_bool_ne k name b : str name ≠ k → assoc k (opt_bool name b) = None.
Proof. intros. destruct b; simpl; by try rewrite decide_False. Qed.
Lemma assoc_opt_obj_ne k name o : str name ≠ k → assoc k (opt_obj name o) = None.
Proof. intros. destruct o; simpl; by try rewrite decide_False. Qed.
Lemma assoc_opt_str_eq name s : s ≠ [] → assoc (str name) (opt_str name s) = Some (JStr s).
Proof. intros. unfold opt_str. rewrite decide_False by done. simpl. by rewrite decide_True. Qed.

Ltac solve_field :=
  rewrite ?assoc_app;
  repeat first
    [ rewrite assoc_opt_str_ne by done | rewrite assoc_opt_num_ne by done
    | rewrite assoc_opt_bool_ne by done | rewrite assoc_opt_obj_ne by done ];
  try rewrite assoc_opt_str_eq by (done || apply effective_ne).

(** ** Calls *)

(** The transport is [callRaw] on any run of a sound environment. *)
Lemma transport_of_callRaw env p m ps :
  env_ok (env m ps) → backoff_ok p → MaxAttempts p < 2 ^ 64 →
  ∃ n ds, let r := @transport_call (transport_of env p) m ps in
    callRaw (Z.to_nat (MaxAttempts p)) (env m ps) (ShouldRetry p) m = Some (r, ds) ∧
    1 ≤ n ≤ MaxAttempts p ∧ ends (env m ps) p m n r.
Proof.
  intros Henv Hp Hmax. pose proof Hp as [H1 _].
  destruct (sendRaw_from (env m ps) p m (Z.to_nat (MaxAttempts p)) 1) as (n & r & ds & E & Hn & Hends & _); [done..|lia|lia|lia|].
  exists n, ds. unfold transport_call, transport_of, callRaw. by rewrite E.
Qed.

Section theorems.
Context `{B : Base58, BL : !Base58Laws, BA : !Base58Alphabet, ZS : Zstd, ZL : !ZstdLaws, TR : Transport}.

Lemma requests_sdk_ok {A C} (a : A) (f : A → rpc C) : (sdk (Ok a) ≫= f) = f a.
Proof. unfold sdk. cbn. by destruct (f a). Qed.

Lemma sdk_silent {A} (r : result A) : requests (sdk r) = [].
Proof. done. Qed.

(** After one call, a continuation that sends nothing. *)
Lemma requests_call {T C} `{Envelope T} m ps (f : T → rpc C) :
  (∀ a, requests (f a) = []) → requests (call T m ps ≫= f) = [mkRequest (str m) ps].
Proof. intros Hf. unfold mbind, rpc_bind. destruct (outcome (call T m ps)); simpl; [|done..]. by rewrite Hf. Qed.

(** A call the node answers. *)
Lemma outcome_call {T C} `{Envelope T} m ps (f : T → rpc C) body a :
  transport_call (str m) ps = GOk body → decode_envelope body = GOk (a, None) →
  outcome (call T m ps ≫= f) = outcome (f a).
Proof. intros Ht He. unfold mbind, rpc_bind, call, CallContext. cbn [outcome]. by rewrite Ht, He. Qed.

Lemma signature_text sig : wf_array 64 sig → SignatureFromBase58 (Signature_String sig) = Ok sig.
Proof. apply (kind_roundtrip KSignature). Qed.
Lemma pubkey_text key : wf_array 32 key → PublicKeyFromBase58 (PublicKey_String key) = Ok key.
Proof. apply (kind_roundtrip KPublicKey). Qed.

(** ** Lists over the server's limits *)

(** C34: A list over the server's limit is refused with an error and nothing is
    sent; a list within it is sent whole, in one request and in order. *)
Theorem oversized_lists_refused
    `{!Envelope (ContextValue (list (option AccountInfo))), !Envelope (list PrioritizationFee),
      !Envelope (ContextValue (list (option SignatureStatus)))}
    (keys : list PublicKey) (sigs : list Signature) (ac : list AccountInfoCfg) (sc : list SignatureStatusesCfg) :
  (if 100 <? zlen keys
   then requests (GetMultipleAccounts keys ac) = [] ∧ ∃ t, outcome (GetMultipleAccounts keys ac) = RErr (CallError (GOther t))
   else requests (GetMultipleAccounts keys ac) =
     [mkRequest (str "getMultipleAccounts") [keys_json keys; AccountInfoCfg_json (FirstOrZero ac)]]) ∧
  (if 256 <? zlen sigs
   then requests (GetSignatureStatuses sigs sc) = [] ∧ ∃ t, outcome (GetSignatureStatuses sigs sc) = RErr (CallError (GOther t))
   else requests (GetSignatureStatuses sigs sc) =
     [mkRequest (str "getSignatureStatuses") [keys_json sigs; SignatureStatusesCfg_json (FirstOrZero sc)]]) ∧
  (if 128 <? zlen keys
   then requests (GetRecentPrioritizationFees keys) = [] ∧ ∃ t, outcome (GetRecentPrioritizationFees keys) = RErr (CallError (GOther t))
   else requests (GetRecentPrioritizationFees keys) = [mkRequest (str "getRecentPrioritizationFees") [keys_json keys]]).
Proof.
  unfold GetMultipleAccounts, GetSignatureStatuses, GetRecentPrioritizationFees, MaxGetMultipleAccountsAddresses,
    MaxGetSignatureStatusesSignatures, MaxGetRecentPrioritizationFeesAddresses.
  split_and!; case_if; try (split; [done|by eexists]); [by apply requests_call..|done].
Qed.

(** ** Account methods *)

Lemma AccountInfoCfg_encoding c :
  json_field "encoding" (AccountInfoCfg_json c) =
    Some (JStr (effective (AC_Encoding c))).
Proof. unfold json_field, AccountInfoCfg_json. fold (effective (AC_Encoding c)). by solve_field. Qed.

(** Every method that reads account data asks for an encoding: the caller's, or
    base64; the lookup-table method always for base64. *)
Definition asks_encoding {A} (enc : bytes) (m : rpc A) : Prop :=
  Forall (λ r, ∃ cfg, last (RequestParams r) = Some cfg ∧ json_field "encoding" cfg = Some (JStr enc)) (requests m).

Lemma asks_one {A} (m : rpc A) enc method ps c :
  requests m = [mkRequest method ps] → last ps = Some (AccountInfoCfg_json c) → effective (AC_Encoding c) = enc → asks_encoding enc m.
Proof.
  intros E Hl <-. unfold asks_encoding. rewrite E. apply Forall_singleton. exists (AccountInfoCfg_json c).
  split; [done|]. apply AccountInfoCfg_encoding.
Qed.

Lemma account_methods_ask_encoding
    `{!Envelope (ContextValue (option AccountInfo)), !Envelope (ContextValue (list (option AccountInfo))),
      !Envelope (list ProgramAccount), !Envelope (ContextValue (list TokenAccount))} key keys filter cfg tcfg :
  let enc := effective (AC_Encoding (FirstOrZero cfg)) in
  asks_encoding enc (GetAccountInfo key cfg) ∧ asks_encoding enc (GetMultipleAccounts keys cfg) ∧
  asks_encoding enc (GetProgramAccounts key cfg) ∧ asks_encoding enc (GetTokenAccountsByOwner key filter cfg) ∧
  asks_encoding enc (GetTokenAccountsByDelegate key filter cfg) ∧
  asks_encoding EncodingBase64 (GetAddressLookupTable key tcfg).
Proof.
  split_and!; try by (eapply asks_one; [by apply requests_call|done|done]).
  - unfold GetMultipleAccounts. case_if; [by apply Forall_nil|]. by eapply asks_one; [apply requests_call|..].
  - by eapply asks_one.
  - eapply (asks_one _ _ _ _ (table_cfg (FirstOrZero tcfg))); [apply requests_call|done|done].
    intros a. by destruct (CV_Value a) as [acc|]; [destruct (DecodeTableState (ED_Bytes (AccountData acc)))|].
Qed.

(** ** Transactions on the wire *)

Definition accepted_encoding (enc : bytes) : Prop := enc = [] ∨ enc = EncodingBase64 ∨ enc = EncodingBase58.
#[export] Instance accepted_encoding_dec enc : Decision (accepted_encoding enc) := _.

(** The request's text, read under the encoding its configuration declares, is
    the transaction. *)
Definition carries (r : request) (method : string) (tx : Transaction) : Prop :=
  ∃ text cfg enc raw,
    r = mkRequest (str method) [JStr text; cfg] ∧
    json_field "encoding" cfg = Some (JStr enc) ∧
    decode_value enc text = Ok raw ∧
    ∀ tx0, Transaction_UnmarshalBinary tx0 raw = (Ok (), tx).

Lemma encode_transaction_accepted what enc raw : accepted_encoding enc → wf_bytes raw → raw ≠ [] →
  ∃ text, encode_transaction what (effective enc) raw = mret text ∧ decode_value (effective enc) text = Ok raw.
Proof.
  intros Ha Hwf Hne. assert (effective enc = EncodingBase64 ∨ effective enc = EncodingBase58) as He.
  { unfold effective. destruct Ha as [->|[->| ->]]; [by left..|by right]. }
  destruct (encode_value_spec (effective enc) raw ltac:(unfold binary_encoding; tauto) Hwf (λ _, Hne)) as (v & E & _ & Hd & _).
  exists v. split; [|done]. unfold encode_value in E. unfold encode_transaction.
  destruct He as [He|He]; rewrite He in *; by injection E as <-.
Qed.

Lemma encode_transaction_refused what enc raw : ¬ accepted_encoding enc →
  encode_transaction what (effective enc) raw = fail (SdkError (ErrFmt what [AB enc])).
Proof.
  unfold accepted_encoding, effective, encode_transaction. intros Hn.
  repeat case_decide; simplify_eq; tauto.
Qed.

(** What a marshalled transaction reads back as. *)
Lemma marshalled tx : survives tx →
  Transaction_Marshal tx = Ok (enc_tx tx) ∧ wf_bytes (enc_tx tx) ∧ enc_tx tx ≠ [] ∧
  ∀ tx0, Transaction_UnmarshalBinary tx0 (enc_tx tx) = (Ok (), tx).
Proof.
  intros [Hwf Hor]. pose proof (framing_enc_tx tx Hwf Hor) as Hf. split_and!.
  - by apply Transaction_Marshal_enc.
  - by apply (reads_DecodeTransaction tx).
  - by eapply framing_nonempty.
  - intros tx0. by apply Transaction_UnmarshalBinary_framing.
Qed.

Lemma SendTxCfg_encoding c : json_field "encoding" (SendTxCfg_json (send_defaults c)) = Some (JStr (effective (ST_Encoding c))).
Proof. unfold json_field, SendTxCfg_json. change (ST_Encoding (send_defaults c)) with (effective (ST_Encoding c)). by solve_field. Qed.

Lemma SendTransaction_accepted `{!Envelope bytes} tx cfg :
  survives tx → accepted_encoding (ST_Encoding (FirstOrZero cfg)) →
  ∃ text, let m := SendTransaction (Some tx) cfg in
    let r := mkRequest (str "sendTransaction") [text; SendTxCfg_json (send_defaults (FirstOrZero cfg))] in
    requests m = [r] ∧ carries r "sendTransaction" tx ∧
    ∀ body sig, transport_call (RequestMethod r) (RequestParams r) = GOk body →
      decode_envelope body = GOk (Signature_String sig, None) → wf_array 64 sig → outcome m = ROk sig.
Proof.
  intros Htx Ha. destruct (marshalled tx Htx) as (Hm & Hb & Hne & Hu). unfold SendTransaction.
  rewrite Hm. cbn [wrap_result]. rewrite requests_sdk_ok. unfold SendRawTransaction.
  set (c := FirstOrZero cfg) in *. change (ST_Encoding (send_defaults c)) with (effective (ST_Encoding c)).
  destruct (encode_transaction_accepted "solana: SendRawTransaction: unsupported encoding %q" _ _ Ha Hb Hne) as (text & -> & Hd).
  change (mret text ≫= ?f) with (sdk (Ok text) ≫= f). rewrite requests_sdk_ok.
  exists (JStr text). split; [by apply requests_call|]. split.
  - eexists _, _, _, _. split; [done|]. split; [apply SendTxCfg_encoding|]. by split.
  - intros body sig Ht He Hs. rewrite (outcome_call _ _ _ body _ Ht He). cbn [sdk outcome].
    by rewrite signature_text.
Qed.

Lemma SendTransaction_refused `{!Envelope bytes} tx cfg :
  ¬ accepted_encoding (ST_Encoding (FirstOrZero cfg)) →
  no_panic (Transaction_Marshal tx) →
  requests (SendTransaction (Some tx) cfg) = [] ∧ ∃ e, outcome (SendTransaction (Some tx) cfg) = RErr e.
Proof.
  intros Ha Hp. unfold SendTransaction. destruct (Transaction_Marshal tx) as [raw|e|w]; [|split; [done|by eexists]|done].
  cbn [wrap_result]. rewrite requests_sdk_ok. unfold SendRawTransaction.
  change (ST_Encoding (send_defaults ?c)) with (effective (ST_Encoding c)).
  rewrite encode_transaction_refused by done. split; [done|]. by eexists.
Qed.

(** C16: [SendTransaction] of a transaction that survives the wire ([survives]:
    a well-formed message, one slot per required signer, a legacy message with
    fewer than 128 signers, a v0 one with any number but 129) sends it in one
    request when the encoding is base64 (the default) or base58, as a text that
    reads back, under the encoding declared next to it, as the same transaction,
    and returns the signature when the node's answer decodes to the text of one;
    under any other encoding nothing is sent and an error is returned. The
    base58 and zstd codecs satisfy their laws. *)
Theorem SendTransaction_carries `{!Envelope bytes} (tx : Transaction) (cfg : list SendTxCfg)
  (Htx : survives tx) :
  let m := SendTransaction (Some tx) cfg in
  if decide (accepted_encoding (ST_Encoding (FirstOrZero cfg)))
  then ∃ r, requests m = [r] ∧ carries r "sendTransaction" tx ∧
       ∀ body sig, transport_call (RequestMethod r) (RequestParams r) = GOk body →
         decode_envelope body = GOk (Signature_String sig, None) → wf_array 64 sig → outcome m = ROk sig
  else requests m = [] ∧ ∃ e, outcome m = RErr e.
Proof.
  case_decide as Ha.
  - destruct (SendTransaction_accepted tx cfg Htx Ha) as [text H]. by eexists.
  - apply SendTransaction_refused; [done|]. by destruct (marshalled tx Htx) as (-> & _).
Qed.

(** The configurations [SimulateTransaction] sends. *)
Definition accepted_accounts (a : option SimulateAccountsCfg) : Prop :=
  match a with
  | None => True
  | Some a => effective (SM_AccEncoding a) = EncodingBase64 ∨ effective (SM_AccEncoding a) = EncodingBase64ZSTD
  end.
#[export] Instance accepted_accounts_dec a : Decision (accepted_accounts a).
Proof. destruct a; simpl; apply _. Defined.

Definition simulate_accepts (c : SimulateTxCfg) : Prop :=
  both_true c = false ∧ accepted_encoding (SM_Encoding c) ∧ accepted_accounts (SM_Accounts c).
#[export] Instance simulate_accepts_dec c : Decision (simulate_accepts c) := _.

Definition snapshots (c : SimulateTxCfg) : option SimulateAccountsCfg :=
  (λ a, mkSimulateAccountsCfg (effective (SM_AccEncoding a)) (SM_Addresses a)) <$> SM_Accounts c.

Lemma SimulateTxCfg_encoding c a :
  json_field "encoding" (SimulateTxCfg_json (simulate_cfg c a)) = Some (JStr (effective (SM_Encoding c))).
Proof.
  unfold json_field, SimulateTxCfg_json. change (SM_Encoding (simulate_cfg c a)) with (effective (SM_Encoding c)).
  by solve_field.
Qed.

Lemma simulate_accounts_spec c :
  simulate_accounts c =
    if decide (accepted_accounts (SM_Accounts c))
    then mret (snapshots c)
    else fail (SdkError (ErrFmt "solana: SimulateTransaction: unsupported account encoding %q"
      [AB (default [] (SM_AccEncoding <$> SM_Accounts c))])).
Proof.
  unfold simulate_accounts, snapshots. destruct (SM_Accounts c) as [a|]; [|by rewrite decide_True].
  fold (effective (SM_AccEncoding a)). cbn [fmap option_fmap option_map default from_option].
  case_decide as H1; case_decide as H2; try (done || by destruct (H1 H2) || by destruct (H2 H1)).
  do 5 f_equal. unfold effective in *. case_decide; [|done]. by destruct H1; left.
Qed.

(** C22: [SimulateTransaction] of a transaction that survives the wire
    ([survives]: a well-formed message, one slot per required signer, a legacy
    message with fewer than 128 signers, a v0 one with any number but 129) sends
    it in one request, as a text that reads back under the declared encoding as
    the same transaction, with the account snapshots' encoding filled in,
    exactly when the configuration is acceptable, and returns the value the
    node's answer decodes to under the slot of its context; otherwise nothing is
    sent and an error is returned. The base58 and zstd codecs satisfy their
    laws. *)
Theorem SimulateTransaction_carries `{!Envelope (ContextValue SimulateResult)} (tx : Transaction) (cfg : list SimulateTxCfg)
  (Htx : survives tx) :
  let m := SimulateTransaction (Some tx) cfg in
  let c := FirstOrZero cfg in
  if decide (simulate_accepts c)
  then ∃ text, let r := mkRequest (str "simulateTransaction") [text; SimulateTxCfg_json (simulate_cfg c (snapshots c))] in
       requests m = [r] ∧ carries r "simulateTransaction" tx ∧
       ∀ body slot v, transport_call (RequestMethod r) (RequestParams r) = GOk body →
         decode_envelope body = GOk (mkContextValue slot v, None) → outcome m = ROk (set_slot slot v)
  else requests m = [] ∧ ∃ e, outcome m = RErr e.
Proof.
  destruct (marshalled tx Htx) as (Hm & Hb & Hne & Hu). unfold SimulateTransaction.
  rewrite Hm. cbn [wrap_result]. rewrite requests_sdk_ok. cbv zeta. set (c := FirstOrZero cfg).
  rewrite simulate_accounts_spec. destruct (decide (simulate_accepts c)) as [(-> & Ha & Hacc)|Hn].
  - rewrite decide_True by done.
    change (mret (snapshots c) ≫= ?f) with (sdk (Ok (snapshots c)) ≫= f). rewrite requests_sdk_ok.
    change (SM_Encoding (simulate_cfg c (snapshots c))) with (effective (SM_Encoding c)).
    destruct (encode_transaction_accepted "solana: SimulateTransaction: unsupported transaction encoding %q" _ _ Ha Hb Hne)
      as (text & -> & Hd).
    change (mret text ≫= ?f) with (sdk (Ok text) ≫= f). rewrite requests_sdk_ok.
    exists (JStr text). split; [by apply requests_call|]. split.
    + eexists _, _, _, _. split; [done|]. split; [apply SimulateTxCfg_encoding|]. by split.
    + intros body slot v Ht He. by rewrite (outcome_call _ _ _ body _ Ht He).
  - destruct (both_true c) eqn:Hboth; [split; [done|by eexists]|].
    case_decide as Hacc; [|split; [done|by eexists]].
    change (mret (snapshots c) ≫= ?f) with (sdk (Ok (snapshots c)) ≫= f). rewrite requests_sdk_ok.
    change (SM_Encoding (simulate_cfg c (snapshots c))) with (effective (SM_Encoding c)).
    rewrite encode_transaction_refused by (unfold simulate_accepts in Hn; tauto). split; [done|]. by eexists.
Qed.

(** ** Leaders *)

Lemma parse_leaders_iff raw keys :
  parse_leaders raw = Ok keys ↔ Forall2 (λ s k, PublicKeyFromBase58 s = Ok k) raw keys.
Proof.
  revert keys. induction raw as [|s raw IH]; intros keys; simpl.
  { split; [by intros [= <-]|]. by intros ->%Forall2_nil_inv_l. }
  split.
  - destruct (PublicKeyFromBase58 s) as [k| |] eqn:E; [|done..]. cbn [mbind result_bind].
    destruct (parse_leaders raw) as [ks| |]; [|done..]. intros [= <-]. constructor; [done|]. by apply IH.
  - intros (k & ks & Hk & Hks & ->)%Forall2_cons_inv_l. rewrite Hk. cbn [mbind result_bind].
    apply IH in Hks. by rewrite Hks.
Qed.

Lemma parse_leaders_no_panic raw : no_panic (parse_leaders raw).
Proof.
  induction raw as [|s raw IH]; [done|]. simpl. pose proof (kind_no_panic KPublicKey s) as Hp. simpl in Hp.
  destruct (PublicKeyFromBase58 s); [|done..]. cbn [mbind result_bind]. by destruct (parse_leaders raw).
Qed.

(** The keys [GetSlotLeaders] returns are the node's texts read one by one,
    in order; one text that is no key fails the whole call. *)
Theorem GetSlotLeaders_reads `{!Envelope (list bytes)} (startSlot limit : Z) (body : bytes) (raw : list bytes)
  (Ht : transport_call (str "getSlotLeaders") [jnum startSlot; jnum limit] = GOk body)
  (He : decode_envelope body = GOk (raw, None)) :
  (∀ keys, outcome (GetSlotLeaders startSlot limit) = ROk keys ↔ Forall2 (λ s k, PublicKeyFromBase58 s = Ok k) raw keys) ∧
  ((∃ s, s ∈ raw ∧ is_ok (PublicKeyFromBase58 s) = false) → ∃ e, outcome (GetSlotLeaders startSlot limit) = RErr e).
Proof.
  unfold GetSlotLeaders. rewrite (outcome_call _ _ _ body raw Ht He). cbn [sdk outcome]. split.
  - intros keys. rewrite <- parse_leaders_iff. destruct (parse_leaders raw); split; intros; by simplify_eq.
  - intros (s & Hin & Hs). pose proof (parse_leaders_no_panic raw).
    destruct (parse_leaders raw) as [keys|e|] eqn:E; [|by eexists|done].
    apply parse_leaders_iff in E. apply list_elem_of_lookup in Hin as [i Hi].
    destruct (Forall2_lookup_l _ _ _ _ _ E Hi) as (k & _ & Hk). by rewrite Hk in Hs.
Qed.

End theorems.

(** ** Witnesses *)

Module ToyNode.
Import ToyCodecs.

(** A node that answers every call with an empty body, which the codecs read as
    fixed values. *)
#[export] Instance silent_node : Transport := λ _ _, GOk [].
Definition zero_text : bytes := Signature_String (zero_array 64).
#[export] Instance text_envelope : Envelope bytes := λ _, GOk (zero_text, None).
Definition sample_leaders : list bytes := [PublicKey_String (zero_array 32); PublicKey_String (repeat 7 32)].
#[export] Instance leaders_envelope : Envelope (list bytes) := λ _, GOk (sample_leaders, None).
Definition sample_simulation : SimulateResult :=
  mkSimulateResult 0 [] ANil None [] [] [] [] [] None None [str "Program log: hi"] None None (Some 150).
#[export] Instance simulation_envelope : Envelope (ContextValue SimulateResult) := λ _, GOk (mkContextValue 77 sample_simulation, None).
End ToyNode.

Import ToyCodecs ToyNode.

Lemma SendTransaction_carries_witness :
  outcome (SendTransaction (Some sample_tx_v0) []) = ROk (zero_array 64).
Proof.
  destruct (SendTransaction_carries sample_tx_v0 []) as (r & _ & _ & H).
  - split; [apply (bool_decide_unpack _); by vm_compute|right; by vm_compute].
  - apply (H [] (zero_array 64)); [done|done|]. split; [done|]. apply (bool_decide_unpack _). by vm_compute.
Defined.

Definition sample_simulate_cfg : SimulateTxCfg :=
  mkSimulateTxCfg [] (Some true) (Some false) None EncodingBase58 None
    (Some (mkSimulateAccountsCfg [] (Some [zero_array 32]))).

Lemma SimulateTransaction_carries_witness :
  outcome (SimulateTransaction (Some sample_tx_v0) [sample_simulate_cfg]) = ROk (set_slot 77 sample_simulation).
Proof.
  destruct (SimulateTransaction_carries sample_tx_v0 [sample_simulate_cfg]) as (text & _ & _ & H).
  - split; [apply (bool_decide_unpack _); by vm_compute|right; by vm_compute].
  - by apply (H [] 77 sample_simulation).
Defined.

Lemma GetSlotLeaders_reads_witness :
  outcome (GetSlotLeaders 10 2) = ROk [zero_array 32; repeat 7 32].
Proof.
  apply (GetSlotLeaders_reads 10 2 [] sample_leaders); [done|done|].
  repeat constructor.
Defined.
