(* ===== verification/SendRpc.v ===== *)
(** * Sending and confirming, on the RPC client

    [Send] leaves what the node does to an environment; here the environment is
    the client's methods ([Rpc]), each call on its own transport, and the two
    specifications compose: what was accepted is what the builder built, and a
    success is a status the node reported. *)

From S2P Require Import Prelude Wire Keys Message MessageCodec Transaction TransactionCodec BigUint Json Base64 AccountInfo AccountInfoSpec TxError JsonRpc Send SendSpec RpcTypes Rpc RpcSpec.

(** ** The calls of [rpc/send.go] *)

Definition blockhash_cfg (cfg : sendConfig) : CommitmentWithMinSlotCfg := mkCommitmentWithMinSlotCfg (commitment cfg) None.
Definition send_cfg (cfg : sendConfig) : SendTxCfg := mkSendTxCfg (skipPreflight cfg) (commitment cfg) None None [].
Definition status_cfg : SignatureStatusesCfg := mkSignatureStatusesCfg (Some true).
Definition height_cfg (cfg : sendConfig) : CommitmentWithMinSlotCfg := mkCommitmentWithMinSlotCfg (commitment cfg) None.

(** Where a call is made: the same request may be answered differently at each. *)
Inductive call_site :=
| AtBlockhash (attempt : Z)
| AtSend (attempt : Z)
| AtStatus (attempt : Z) (sig : Signature) (poll : nat)
| AtHeight (attempt : Z) (sig : Signature) (poll : nat).

(** A value or an error of the environment is what a method's outcome shows;
    the text of the package's own errors is not kept, and no outcome is a
    panic. *)
Inductive agrees {A C} (f : A → C) : or_err C → rpc_result A → Prop :=
| agrees_ok a : agrees f (inl (f a)) (ROk a)
| agrees_call e : agrees f (inr e) (RErr (CallError e))
| agrees_sdk e t : agrees f (inr t) (RErr (SdkError e)).

Lemma agrees_inl {A C} (f : A → C) c r : agrees f (inl c) r → ∃ a, r = ROk a ∧ c = f a.
Proof. inversion 1; subst. by eexists. Qed.

Section client.
Context `{B : Base58}.
Context `{!Envelope (ContextValue LatestBlockhash), !Envelope bytes, !Envelope Z}.
Context `{!Envelope (ContextValue (list (option SignatureStatus)))}.
Context (tr : call_site → Transport).

Definition client_blockhash (cfg : sendConfig) (a : Z) : rpc LatestBlockhash :=
  GetLatestBlockhash (TR := tr (AtBlockhash a)) [blockhash_cfg cfg].
Definition client_send (cfg : sendConfig) (a : Z) (tx : Transaction) : rpc Signature :=
  Rpc.SendTransaction (TR := tr (AtSend a)) (Some tx) [send_cfg cfg].
Definition client_status (a : Z) (sig : Signature) (i : nat) : rpc GetSignatureStatusesResult :=
  GetSignatureStatuses (TR := tr (AtStatus a sig i)) [sig] [status_cfg].
Definition client_height (cfg : sendConfig) (a : Z) (sig : Signature) (i : nat) : rpc Z :=
  GetBlockHeight (TR := tr (AtHeight a sig i)) [height_cfg cfg].

(** The environment is the client's. *)
Record of_client (cfg : sendConfig) (builder : Z → Hash → or_err Transaction) (env : SendTxEnv) : Prop := {
  client_blockhash_ok a :
    agrees (λ b, (LB_Blockhash b, LB_LastValidBlockHeight b)) (get_blockhash env a) (outcome (client_blockhash cfg a));
  client_send_ok a hash last tx :
    get_blockhash env a = inl (hash, last) → builder a hash = inl tx →
    agrees id (Send.SendTransaction env a tx) (outcome (client_send cfg a tx));
  client_status_ok a sig i :
    agrees GS_Statuses (poll_status (confirm_env env a sig) i) (outcome (client_status a sig i));
  client_height_ok a sig i :
    agrees id (poll_height (confirm_env env a sig) i) (outcome (client_height cfg a sig i));
}.
End client.

(** ** Sending, end to end *)

Section end_to_end.
Context `{B : Base58, BL : !Base58Laws, BA : !Base58Alphabet, ZS : Zstd, ZL : !ZstdLaws}.
Context `{!Envelope (ContextValue LatestBlockhash), !Envelope bytes, !Envelope Z}.
Context `{!Envelope (ContextValue (list (option SignatureStatus)))}.
Context (tr : call_site → Transport).

Lemma history_sends env builder cfg a0 l a sig :
  history env builder cfg a0 l → (a, sig) ∈ l → ∃ last, sends env builder a last (inl sig).
Proof.
  revert a0. induction l as [|[b s] l IH]; intros a0; [by intros _ ?%elem_of_nil|].
  intros (_ & Hs & _ & Hl) [[= -> ->]|Hin]%elem_of_cons; [done|by eapply IH].
Qed.

(** What an accepted signature answers: one request, which carries the
    transaction the builder made of the node's latest blockhash, under the
    configured commitment. *)
Definition accepted_by_node (cfg : sendConfig) (builder : Z → Hash → or_err Transaction) (a : Z) (sig : Signature) : Prop :=
  ∃ bh tx r text,
    outcome (client_blockhash tr cfg a) = ROk bh ∧ builder a (LB_Blockhash bh) = inl tx ∧
    requests (client_send tr cfg a tx) = [r] ∧ carries r "sendTransaction" tx ∧
    RequestParams r = [text; SendTxCfg_json (send_defaults (send_cfg cfg))] ∧
    outcome (client_send tr cfg a tx) = ROk sig.

(** What a success rests on: a status the node reported for the signature. *)
Definition confirmed_by_node (cfg : sendConfig) (a : Z) (sig : Signature) : Prop :=
  ∃ i slot st rest,
    outcome (client_status tr a sig i) = ROk (mkGetSignatureStatusesResult slot (Some st :: rest)) ∧
    DecodeTransactionError (ARawMessage (StatusErr st)) = None ∧
    statusReachedCommitment (ConfirmationStatus st) (commitment cfg) = true.

Lemma sends_accepted env builder cfg a last sig :
  of_client tr cfg builder env → (∀ hash tx, builder a hash = inl tx → survives tx) →
  sends env builder a last (inl sig) → accepted_by_node cfg builder a sig.
Proof.
  intros Hc Hb (hash & tx & Hh & Ht & Hs). pose proof (Hb _ _ Ht) as Htx.
  pose proof (client_blockhash_ok _ _ _ _ Hc a) as H1. rewrite Hh in H1.
  apply agrees_inl in H1 as (bh & H1 & [= -> ->]).
  pose proof (client_send_ok _ _ _ _ Hc a _ _ _ Hh Ht) as H2. unfold sendOnce in Hs.
  destruct (Send.SendTransaction env a tx) as [s|e]; [|done]. injection Hs as ->.
  apply agrees_inl in H2 as (s' & H2 & ->).
  destruct (SendTransaction_accepted (TR := tr (AtSend a)) tx [send_cfg cfg] Htx) as (text & Hr & Hcar & _); [by left|].
  by eexists bh, tx, _, text.
Qed.

Lemma confirms_confirmed env builder cfg a sig last :
  of_client tr cfg builder env → confirms env cfg a sig last None → confirmed_by_node cfg a sig.
Proof.
  intros Hc (n & _ & He). inversion He as [| | |s Hp Hv Hd Hr| |]; subst.
  pose proof (client_status_ok _ _ _ _ Hc a sig n) as H1. unfold visible_status in Hv.
  destruct (poll_status _ n) as [[|[st|] rest]|]; simplify_eq.
  apply agrees_inl in H1 as ([slot sts] & H1 & Hsts). simpl in Hsts. subst sts. by exists n, slot, s, rest.
Qed.

(** C14: [SendAndConfirmTransaction] on the RPC client, with a builder all of
    whose transactions survive the wire ([survives]: a well-formed message, one
    slot per required signer, a legacy message with fewer than 128 signers, a v0
    one with any number but 129). If the poll interval is positive and each wait
    of a confirmation takes at least it, the call returns; every signature the
    node accepted answers one sendTransaction request, whose text reads back as
    the transaction the builder made of the latest blockhash of that attempt;
    and a nil error comes with the signature last accepted, for which the node
    reported a status without an error that reaches the commitment asked for.
    The base58 and zstd codecs satisfy their laws. *)
Theorem send_end_to_end (env : SendTxEnv) (opts : list SendAndConfirmOption)
  (builder : Z → Hash → or_err Transaction) (fuel : nat)
  (Hclient : of_client tr (apply_options opts) builder env) (Hb : build env = Some builder)
  (Hwf : ∀ a hash tx, builder a hash = inl tx → survives tx)
  (Hclock : clocks_ok env (apply_options opts))
  (Hfuel : (max_polls (apply_options opts) < fuel)%nat) :
  let cfg := apply_options opts in
  ∃ r, SendAndConfirmTransaction fuel env opts = Some r ∧
    Forall (λ p, accepted_by_node cfg builder p.1 p.2) (accepted r) ∧
    (ret_err r = None → ∃ pre a, accepted r = pre ++ [(a, ret_sig r)] ∧ confirmed_by_node cfg a (ret_sig r)).
Proof.
  intros cfg. destruct (SendAndConfirmTransaction_run env opts builder fuel Hb Hclock Hfuel) as (r & Hr & Hrun).
  exists r. split; [done|]. fold cfg in Hrun. destruct (Z.ltb_spec (maxBlockhashRetries cfg) 0) as [|Hmax]; [by subst r|].
  split.
  - apply Forall_forall. intros [a sig] Hin. simpl.
    destruct (history_sends env builder cfg 0 (accepted r) a sig) as [last Hs];
      [by apply send_run_history|done|]. by eapply sends_accepted; [|intros; by eapply Hwf|].
  - intros Hnone. destruct (send_run_success _ _ _ _ _ Hrun Hnone) as (pre & a & last & E & _ & Hcf).
    exists pre, a. split; [done|]. by eapply confirms_confirmed.
Qed.
End end_to_end.

(** ** Witness *)

Module ToyRun.
Import ToyCodecs ToyNode.

#[export] Instance height_envelope : Envelope Z := λ _, GOk (120, None).
Definition sample_blockhash : LatestBlockhash := mkLatestBlockhash 0 (zero_array 32) 300.
#[export] Instance blockhash_envelope : Envelope (ContextValue LatestBlockhash) := λ _, GOk (mkContextValue 9 sample_blockhash, None).
Definition sample_status : SignatureStatus := mkSignatureStatus 7 None (str "null") CommitmentFinalized.
#[export] Instance status_envelope : Envelope (ContextValue (list (option SignatureStatus))) := λ _, GOk (mkContextValue 9 [Some sample_status], None).

Definition sample_env : SendTxEnv := {|
  get_blockhash a := inl (zero_array 32, 300);
  build := Some (λ _ _, inl sample_tx_v0);
  Send.SendTransaction a tx := inl (zero_array 64);
  confirm_env a sig := {|
    start_time := 0;
    poll_time i := 2000000000 * Z.of_nat i;
    poll_ctx i := None;
    poll_status i := inl [Some sample_status];
    poll_height i := inl 120;
    poll_wait i := None;
  |};
|}.
End ToyRun.

Import ToyCodecs ToyNode ToyRun.

Lemma send_end_to_end_witness :
  ∃ r, SendAndConfirmTransaction 40 sample_env [] = Some r ∧
    (ret_err r = None → ∃ pre a, accepted r = pre ++ [(a, ret_sig r)] ∧
      confirmed_by_node (λ _, silent_node) defaultSendConfig a (ret_sig r)).
Proof.
  destruct (send_end_to_end (λ _, silent_node) sample_env [] (λ _ _, inl sample_tx_v0) 40) as (r & Hr & _ & Hc).
  - constructor.
    + intros a. exact (agrees_ok _ (mkLatestBlockhash 9 (zero_array 32) 300)).
    + intros a hash last tx _ [= <-]. replace (outcome _) with (ROk (zero_array 64)) by (by vm_compute). exact (agrees_ok id (zero_array 64)).
    + intros a sig i. exact (agrees_ok _ (mkGetSignatureStatusesResult 9 [Some sample_status])).
    + intros a sig i. exact (agrees_ok id 120).
  - done.
  - intros a hash tx [= <-]. split; [apply (bool_decide_unpack _); by vm_compute|right; by vm_compute].
  - intros a sig. unfold clock_ok. cbn. split_and!; lia.
  - vm_compute. lia.
  - by exists r.
Defined.
