(* ===== verification/Ws.v ===== *)
(** * The WebSocket client: [ws/client.go]

    The goroutines that share a [Client] interleave; an action is what one of
    them does between two points where another can be observed: a critical
    section under [mu], a channel operation, a callback, a frame read or
    written.  [step a s] is [None] when [a] cannot happen in [s].  A subscribe
    call allocates one [pendingReply] and one [Subscription]; both are the
    [Call] named by its request id.  The reader goroutine is sequential, the
    body of [Close] runs once; any number of [Subscribe] and [Unsubscribe] calls
    run at the same time. *)

From S2P Require Import Prelude.

(** ** State *)

(** What a server's reply carries: an error object, a subscription id, or
    something that does not decode to one. *)
Inductive reply :=
| ReplyError (message : bytes)
| ReplySub (subID : Z)
| ReplyBad.

(** [subEntry]; [e_call] names the closures' call. *)
Record subEntry := mkEntry { e_subID : Z; e_call : Z; e_oneShot : bool }.

(** Where a [Subscribe] call is. *)
Inductive sub_pc :=
| SubSending             (* registered in pendingReqs, about to write *)
| SubWaiting             (* in the select *)
| SubCancelling          (* about to call cancelPending, then to return an error *)
| SubReturned (ok : bool).

Record Call := mkCall {
  c_oneShot : bool;
  c_pc : sub_pc;
  c_errMsg : bytes;        (* pending.errMsg *)
  c_done : bool;           (* pending.done is closed *)
  c_id : Z;                (* sub.id *)
  c_subDone : bool;        (* sub.subDone is closed *)
  c_registered : bool;     (* ghost: was put in the subscriptions map *)
  c_refused : bool;        (* ghost: the server replied with an error *)
  c_displaced : bool;      (* ghost: another subscription took its id in the map *)
}.

(** Where the reader is. *)
Inductive reader_pc :=
| RIdle
| RResolve (id : Z) (r : reply)      (* handleReply holds the pending reply *)
| RRegister (id : Z)                 (* sub.id is set *)
| RSignal (id : Z)                   (* about to close pending.done *)
| RDispatch (e : subEntry)           (* about to call entry.dispatch *)
| RDrop (e : subEntry)               (* one-shot: about to delete the entry *)
| RShutdown (e : subEntry)           (* one-shot: about to call entry.shutdown *)
| RDead.                             (* ReadMessage failed *)

(** Where the body of [Close] is; [CEnding] has taken both maps. *)
Inductive close_pc :=
| CNone
| CClosing
| CEnding (pending : gset Z) (subs : gmap Z subEntry)
| CDone.

(** Where an [Unsubscribe] call is, after its critical section. *)
Record unsub_call := mkUnsub { u_entry : option subEntry; u_closed : bool }.

(** What the user and the server see. *)
Inductive event :=
| EDispatch (id : Z)
| EShutdown (id : Z)
| EUnsubscribe (subID : Z).

Record Client := mkClient {
  nextReqID : Z;
  pendingReqs : option (gset Z);                (* None for the nil map *)
  subscriptions : option (gmap Z subEntry);
  closedFlag : bool;
  done : bool;                                  (* c.done is closed *)
  reader : reader_pc;
  closing : close_pc;
  calls : gmap Z Call;
  unsubs : gmap Z (Z * unsub_call);             (* by request id, with the subscription's id *)
  events : list event;
  panicked : bool;
}.

Definition DialWebSocket_client : Client :=
  mkClient 0 (Some ∅) (Some ∅) false false RIdle CNone ∅ ∅ [] false.

(** ** Updates *)

Definition set_calls (f : gmap Z Call → gmap Z Call) (s : Client) : Client :=
  mkClient (nextReqID s) (pendingReqs s) (subscriptions s) (closedFlag s) (done s) (reader s) (closing s)
    (f (calls s)) (unsubs s) (events s) (panicked s).
Definition set_pending (p : option (gset Z)) (s : Client) : Client :=
  mkClient (nextReqID s) p (subscriptions s) (closedFlag s) (done s) (reader s) (closing s)
    (calls s) (unsubs s) (events s) (panicked s).
Definition set_subs (m : option (gmap Z subEntry)) (s : Client) : Client :=
  mkClient (nextReqID s) (pendingReqs s) m (closedFlag s) (done s) (reader s) (closing s)
    (calls s) (unsubs s) (events s) (panicked s).
Definition set_reader (r : reader_pc) (s : Client) : Client :=
  mkClient (nextReqID s) (pendingReqs s) (subscriptions s) (closedFlag s) (done s) r (closing s)
    (calls s) (unsubs s) (events s) (panicked s).
Definition set_closing (c : close_pc) (s : Client) : Client :=
  mkClient (nextReqID s) (pendingReqs s) (subscriptions s) (closedFlag s) (done s) (reader s) c
    (calls s) (unsubs s) (events s) (panicked s).
Definition set_unsubs (u : gmap Z (Z * unsub_call)) (s : Client) : Client :=
  mkClient (nextReqID s) (pendingReqs s) (subscriptions s) (closedFlag s) (done s) (reader s) (closing s)
    (calls s) u (events s) (panicked s).
Definition set_next (n : Z) (s : Client) : Client :=
  mkClient n (pendingReqs s) (subscriptions s) (closedFlag s) (done s) (reader s) (closing s)
    (calls s) (unsubs s) (events s) (panicked s).
Definition close_flags (closed d : bool) (s : Client) : Client :=
  mkClient (nextReqID s) (pendingReqs s) (subscriptions s) closed d (reader s) (closing s)
    (calls s) (unsubs s) (events s) (panicked s).
Definition emit (e : event) (s : Client) : Client :=
  mkClient (nextReqID s) (pendingReqs s) (subscriptions s) (closedFlag s) (done s) (reader s) (closing s)
    (calls s) (unsubs s) (events s ++ [e]) (panicked s).
Definition panic (s : Client) : Client :=
  mkClient (nextReqID s) (pendingReqs s) (subscriptions s) (closedFlag s) (done s) (reader s) (closing s)
    (calls s) (unsubs s) (events s) true.

Definition with_pc (pc : sub_pc) (c : Call) : Call :=
  mkCall (c_oneShot c) pc (c_errMsg c) (c_done c) (c_id c) (c_subDone c) (c_registered c) (c_refused c) (c_displaced c).
Definition with_err (m : bytes) (refused : bool) (c : Call) : Call :=
  mkCall (c_oneShot c) (c_pc c) m (c_done c) (c_id c) (c_subDone c) (c_registered c) refused (c_displaced c).
Definition with_done (c : Call) : Call :=
  mkCall (c_oneShot c) (c_pc c) (c_errMsg c) true (c_id c) (c_subDone c) (c_registered c) (c_refused c) (c_displaced c).
Definition with_id (i : Z) (c : Call) : Call :=
  mkCall (c_oneShot c) (c_pc c) (c_errMsg c) (c_done c) i (c_subDone c) (c_registered c) (c_refused c) (c_displaced c).
Definition with_subDone (c : Call) : Call :=
  mkCall (c_oneShot c) (c_pc c) (c_errMsg c) (c_done c) (c_id c) true (c_registered c) (c_refused c) (c_displaced c).
Definition with_registered (c : Call) : Call :=
  mkCall (c_oneShot c) (c_pc c) (c_errMsg c) (c_done c) (c_id c) (c_subDone c) true (c_refused c) (c_displaced c).
Definition with_displaced (c : Call) : Call :=
  mkCall (c_oneShot c) (c_pc c) (c_errMsg c) (c_done c) (c_id c) (c_subDone c) (c_registered c) (c_refused c) true.

Definition on_call (id : Z) (f : Call → Call) : Client → Client := set_calls (alter f id).

(** [close(pending.done)], which panics on a closed channel. *)
Definition close_done (id : Z) (s : Client) : Client :=
  match calls s !! id with
  | Some c => if c_done c then panic s else on_call id with_done s
  | None => s
  end.

(** [shutdownFn]: the channel is closed under [sub.once]; the user's callback
    runs every time. *)
Definition shutdown (e : subEntry) (s : Client) : Client :=
  emit (EShutdown (e_call e)) (on_call (e_call e) with_subDone s).

(** [delete(c.pendingReqs, id)], a no-op on the nil map. *)
Definition delete_pending (id : Z) (s : Client) : Client :=
  set_pending ((λ p, p ∖ {[id]}) <$> pendingReqs s) s.

(** ** [Subscribe] *)

(** The first critical section.  With the flag set the call returns an error
    and leaves no trace; a write to the nil map would panic. *)
Definition subscribe_begin (oneShot : bool) (s : Client) : Client :=
  if closedFlag s then s else
  let reqID := u64 (nextReqID s + 1) in
  let s := set_next reqID s in
  match pendingReqs s with
  | None => panic s
  | Some p =>
      set_calls <[reqID := mkCall oneShot SubSending [] false 0 false false false false]>
        (set_pending (Some ({[reqID]} ∪ p)) s)
  end.

(** Marshalling and writing the request, [ok] if neither fails. *)
Definition subscribe_write (id : Z) (ok : bool) (s : Client) : option Client :=
  c ← calls s !! id;
  match c_pc c with
  | SubSending => Some (on_call id (with_pc (if ok then SubWaiting else SubCancelling)) s)
  | _ => None
  end.

(** The select's three branches. *)
Definition subscribe_ctx (id : Z) (s : Client) : option Client :=
  c ← calls s !! id;
  match c_pc c with SubWaiting => Some (on_call id (with_pc SubCancelling) s) | _ => None end.

Definition subscribe_closed (id : Z) (s : Client) : option Client :=
  c ← calls s !! id;
  match c_pc c with
  | SubWaiting => if done s then Some (on_call id (with_pc (SubReturned false)) s) else None
  | _ => None
  end.

Definition subscribe_reply (id : Z) (s : Client) : option Client :=
  c ← calls s !! id;
  match c_pc c with
  | SubWaiting =>
      if c_done c then Some (on_call id (with_pc (SubReturned (bool_decide (c_errMsg c = [])))) s) else None
  | _ => None
  end.

(** [cancelPending], then the error return. *)
Definition subscribe_cancel (id : Z) (s : Client) : option Client :=
  c ← calls s !! id;
  match c_pc c with
  | SubCancelling => Some (on_call id (with_pc (SubReturned false)) (delete_pending id s))
  | _ => None
  end.

(** ** The read loop *)

(** A reply frame: [handleReply] takes the pending request. *)
Definition read_reply (id : Z) (r : reply) (s : Client) : option Client :=
  match reader s with
  | RIdle =>
      match pendingReqs s with
      | Some p => if decide (id ∈ p) then Some (set_reader (RResolve id r) (delete_pending id s)) else Some s
      | None => Some s
      end
  | _ => None
  end.

(** A notification frame: [dispatchIncoming] looks its subscription up. *)
Definition read_notification (subID : Z) (s : Client) : option Client :=
  match reader s with
  | RIdle =>
      match subscriptions s with
      | Some m => match m !! subID with Some e => Some (set_reader (RDispatch e) s) | None => Some s end
      | None => Some s
      end
  | _ => None
  end.

Definition read_error (s : Client) : option Client :=
  match reader s with RIdle => Some (set_reader RDead s) | _ => None end.

(** Registering a subscription; an entry already under its id is overwritten. *)
Definition register (id : Z) (s : Client) : Client :=
  match calls s !! id with
  | None => s
  | Some c =>
      match subscriptions s with
      | None => set_reader (RSignal id) (on_call id (with_err (str "client closed") (c_refused c)) s)
      | Some m =>
          let s := match m !! c_id c with Some e => on_call (e_call e) with_displaced s | None => s end in
          set_reader (RSignal id) (on_call id with_registered
            (set_subs (Some (<[c_id c := mkEntry (c_id c) id (c_oneShot c)]> m)) s))
      end
  end.

(** The reader's next step inside [handleReply] or [dispatchIncoming]. *)
Definition reader_step (s : Client) : option Client :=
  match reader s with
  | RResolve id (ReplyError message) => Some (set_reader (RSignal id) (on_call id (with_err message true) s))
  | RResolve id ReplyBad =>
      Some (set_reader (RSignal id) (on_call id (with_err (str "decode subscription id: ") false) s))
  | RResolve id (ReplySub subID) => Some (set_reader (RRegister id) (on_call id (with_id subID) s))
  | RRegister id => Some (register id s)
  | RSignal id => Some (set_reader RIdle (close_done id s))
  | RDispatch e =>
      Some (set_reader (if e_oneShot e then RDrop e else RIdle) (emit (EDispatch (e_call e)) s))
  | RDrop e => Some (set_reader (RShutdown e) (set_subs (delete (e_subID e) <$> subscriptions s) s))
  | RShutdown e => Some (set_reader RIdle (shutdown e s))
  | RIdle | RDead => None
  end.

(** ** [Unsubscribe], on the handle a successful call returned *)

Definition unsubscribe_begin (id : Z) (s : Client) : option Client :=
  c ← calls s !! id;
  match c_pc c with
  | SubReturned true =>
      let entry := m ← subscriptions s; m !! c_id c in
      let s := set_subs (delete (c_id c) <$> subscriptions s) s in
      let reqID := u64 (nextReqID s + 1) in
      Some (set_unsubs (<[reqID := (c_id c, mkUnsub entry (closedFlag s))]> (unsubs s)) (set_next reqID s))
  | _ => None
  end.

Definition unsubscribe_shutdown (reqID : Z) (s : Client) : option Client :=
  '(i, u) ← unsubs s !! reqID;
  e ← u_entry u;
  Some (shutdown e (set_unsubs (<[reqID := (i, mkUnsub None (u_closed u))]> (unsubs s)) s)).

(** The request is written unless the client was closed. *)
Definition unsubscribe_end (reqID : Z) (s : Client) : option Client :=
  '(i, u) ← unsubs s !! reqID;
  match u_entry u with
  | Some _ => None
  | None =>
      let s := set_unsubs (delete reqID (unsubs s)) s in
      Some (if u_closed u then s else emit (EUnsubscribe i) s)
  end.

(** ** [Close] *)

(** Entering the body of [once.Do]; another caller waits or returns. *)
Definition close_begin (s : Client) : option Client :=
  match closing s with CNone => Some (set_closing CClosing s) | _ => None end.

Definition close_swap (s : Client) : option Client :=
  match closing s with
  | CClosing =>
      Some (set_closing (CEnding (default ∅ (pendingReqs s)) (default ∅ (subscriptions s)))
        (set_pending None (set_subs None (close_flags true (done s) s))))
  | _ => None
  end.

Definition close_pending (id : Z) (s : Client) : option Client :=
  match closing s with
  | CEnding p m =>
      if decide (id ∈ p) then
        let refused := match calls s !! id with Some c => c_refused c | None => false end in
        Some (close_done id (on_call id (with_err (str "connection closed") refused) (set_closing (CEnding (p ∖ {[id]}) m) s)))
      else None
  | _ => None
  end.

(** The subscriptions are ended after the pending requests. *)
Definition close_sub (subID : Z) (s : Client) : option Client :=
  match closing s with
  | CEnding p m =>
      if decide (p = ∅) then
        e ← m !! subID;
        Some (shutdown e (set_closing (CEnding p (delete subID m)) s))
      else None
  | _ => None
  end.

Definition close_end (s : Client) : option Client :=
  match closing s with
  | CEnding p m =>
      if decide (p = ∅ ∧ m = ∅) then Some (set_closing CDone (close_flags (closedFlag s) true s)) else None
  | _ => None
  end.

(** ** Interleaving *)

Inductive action :=
| ASubscribe (oneShot : bool) | AWrite (id : Z) (ok : bool) | ACtx (id : Z) | AClosed (id : Z)
| AReply (id : Z) | ACancel (id : Z)
| AReadReply (id : Z) (r : reply) | AReadNotification (subID : Z) | AReadError | AReader
| AUnsubscribe (id : Z) | AUnsubShutdown (reqID : Z) | AUnsubEnd (reqID : Z)
| AClose | ACloseSwap | AClosePending (id : Z) | ACloseSub (subID : Z) | ACloseEnd.

Definition step (a : action) (s : Client) : option Client :=
  match a with
  | ASubscribe oneShot => Some (subscribe_begin oneShot s)
  | AWrite id ok => subscribe_write id ok s
  | ACtx id => subscribe_ctx id s
  | AClosed id => subscribe_closed id s
  | AReply id => subscribe_reply id s
  | ACancel id => subscribe_cancel id s
  | AReadReply id r => read_reply id r s
  | AReadNotification subID => read_notification subID s
  | AReadError => read_error s
  | AReader => reader_step s
  | AUnsubscribe id => unsubscribe_begin id s
  | AUnsubShutdown reqID => unsubscribe_shutdown reqID s
  | AUnsubEnd reqID => unsubscribe_end reqID s
  | AClose => close_begin s
  | ACloseSwap => close_swap s
  | AClosePending id => close_pending id s
  | ACloseSub subID => close_sub subID s
  | ACloseEnd => close_end s
  end.

Fixpoint run (acts : list action) (s : Client) : option Client :=
  match acts with
  | [] => Some s
  | a :: acts => s ← step a s; run acts s
  end.

(** The histories of a fresh client. *)
Definition history (acts : list action) (s : Client) : Prop := run acts DialWebSocket_client = Some s.
