(* ===== verification/WsInv.v ===== *)
(** * The invariant of the WebSocket client

    Who owns a pending reply, who holds a subscription's entry, and that every
    action of every goroutine keeps it so ([inv_step]). *)

From S2P Require Import Prelude Ws.

(** ** The invariant *)

Definition in_pending (s : Client) (id : Z) : Prop := ∃ p, pendingReqs s = Some p ∧ id ∈ p.
Definition reader_holds (r : reader_pc) : option Z :=
  match r with RResolve id _ | RRegister id | RSignal id => Some id | _ => None end.
Definition in_reader (s : Client) (id : Z) : Prop := reader_holds (reader s) = Some id.
Definition in_closing (s : Client) (id : Z) : Prop := ∃ p m, closing s = CEnding p m ∧ id ∈ p.

(** Somebody is going to close this call's [pending.done]. *)
Definition owned (s : Client) (id : Z) : Prop := in_pending s id ∨ in_reader s id ∨ in_closing s id.

(** Somebody has the entry and will call its [shutdown]. *)
Definition holds (s : Client) (e : subEntry) : Prop :=
  (∃ m, subscriptions s = Some m ∧ m !! e_subID e = Some e) ∨
  reader s = RShutdown e ∨
  (∃ k i b, unsubs s !! k = Some (i, mkUnsub (Some e) b)) ∨
  (∃ p m, closing s = CEnding p m ∧ m !! e_subID e = Some e).

Definition live (s : Client) (id : Z) : Prop := ∃ e, e_call e = id ∧ holds s e.

Record call_ok (s : Client) (id : Z) (c : Call) : Prop := {
  ok_id : 1 ≤ id ≤ nextReqID s;
  ok_open : owned s id → c_done c = false;
  ok_returned : c_pc c = SubReturned true → c_done c = true ∧ c_errMsg c = [];
  ok_answered : c_done c = true ∨ reader s = RSignal id → c_errMsg c = [] → c_registered c = true ∨ c_refused c = true;
  ok_live : c_registered c = true → c_subDone c = true ∨ c_displaced c = true ∨ live s id;
}.

Definition keyed (m : gmap Z subEntry) : Prop := ∀ k e, m !! k = Some e → e_subID e = k.

Definition calls_ok (s : Client) : Prop := ∀ id c, calls s !! id = Some c → call_ok s id c.

(** [n] bounds the number of requests made. *)
Record shape (n : Z) (s : Client) : Prop := {
  sh_next : 0 ≤ nextReqID s ≤ n;
  sh_flag : closedFlag s = true ↔ pendingReqs s = None;
  sh_nil : pendingReqs s = None ↔ subscriptions s = None;
  sh_closing : match closing s with CNone | CClosing => closedFlag s = false | _ => closedFlag s = true end;
  sh_subs : ∀ m, subscriptions s = Some m → keyed m;
  sh_ending : ∀ p m, closing s = CEnding p m → keyed m;
  sh_entry : ∀ e m e', reader s = RDispatch e ∨ reader s = RDrop e →
    subscriptions s = Some m → m !! e_subID e = Some e' → e' = e;
  sh_unsubs : ∀ k u, unsubs s !! k = Some u → k ≤ nextReqID s;
  sh_owned : ∀ id, owned s id → is_Some (calls s !! id);
  sh_excl : ∀ id, in_reader s id → ¬ in_pending s id ∧ ¬ in_closing s id;
  sh_panic : panicked s = false;
}.

Definition inv (n : Z) (s : Client) : Prop := shape n s ∧ calls_ok s.

(** ** Changing one call *)

Lemma shape_on_call n s id f : shape n s → shape n (on_call id f s).
Proof.
  intros []. constructor; try done. intros i Hi. cbn. rewrite lookup_alter_is_Some. by apply sh_owned0.
Qed.

Lemma inv_on_call n s id f :
  inv n s → (∀ c, calls s !! id = Some c → call_ok s id c → call_ok s id (f c)) → inv n (on_call id f s).
Proof.
  intros [Hsh Hc] Hf. split; [by apply shape_on_call|]. intros i c Hi. cbn in Hi.
  destruct (decide (i = id)) as [->|Hne].
  - rewrite lookup_alter_eq in Hi. destruct (calls s !! id) as [c0|] eqn:H0; [|done]. simplify_eq/=.
    destruct (Hf c0 eq_refl (Hc _ _ H0)). by constructor.
  - rewrite lookup_alter_ne in Hi by done. destruct (Hc _ _ Hi). by constructor.
Qed.

Lemma inv_with_pc n s id pc :
  inv n s →
  (pc = SubReturned true → ∀ c, calls s !! id = Some c → c_done c = true ∧ c_errMsg c = []) →
  inv n (on_call id (with_pc pc) s).
Proof.
  intros Hi Hpc. apply inv_on_call; [done|]. intros c Hc []. constructor; try done.
  intros Hr. exact (Hpc Hr c Hc).
Qed.

Lemma inv_with_err n s id m refused :
  inv n s → owned s id → reader s ≠ RSignal id → inv n (on_call id (with_err m refused) s).
Proof.
  intros Hi Ho Hr. apply inv_on_call; [done|]. intros c Hc []. specialize (ok_open0 Ho).
  constructor; try done; cbn.
  - intros Hret. destruct (ok_returned0 Hret). congruence.
  - intros [|]; congruence.
Qed.

Lemma inv_with_id n s id i : inv n s → inv n (on_call id (with_id i) s).
Proof. intros Hi. apply inv_on_call; [done|]. intros c Hc []. by constructor. Qed.

Lemma inv_displaced n s id : inv n s → inv n (on_call id with_displaced s).
Proof. intros Hi. apply inv_on_call; [done|]. intros c Hc []. constructor; try done. cbn. auto. Qed.

Lemma inv_emit n s e : inv n s → inv n (emit e s).
Proof.
  intros [[] Hc]. split; [by constructor|]. intros id c Hi. destruct (Hc _ _ Hi). by constructor.
Qed.

(** ** Changing the rest of the state *)

(** The calls stay in order when nobody new owns one and its holders remain. *)
Lemma calls_ok_mono s s' :
  calls s' = calls s → nextReqID s ≤ nextReqID s' → (∀ id, owned s' id → owned s id) →
  (∀ id c, reader s' = RSignal id → calls s !! id = Some c → c_errMsg c = [] →
     c_registered c = true ∨ c_refused c = true) →
  (∀ e, holds s e → holds s' e) →
  calls_ok s → calls_ok s'.
Proof.
  intros Hcs Hn Ho Hr Hl Hok id c Hc. rewrite Hcs in Hc. destruct (Hok _ _ Hc).
  constructor; [lia|by auto|done| |].
  - intros [|]; [by auto|by eapply Hr].
  - intros H. destruct (ok_live0 H) as [|[|(e & <- & He)]]; [by left|by right; left|].
    right. right. exists e. auto.
Qed.

Lemma shape_shutdown n s e : shape n s → shape n (shutdown e s).
Proof.
  intros Hs. unfold shutdown. destruct (shape_on_call n s (e_call e) with_subDone Hs). by constructor.
Qed.

(** [s] is [s0] without one holder of [e]; shutting [e] down then restores
    order. *)
Lemma calls_ok_shutdown s0 s e :
  calls s = calls s0 → nextReqID s = nextReqID s0 → (∀ id, owned s id → owned s0 id) →
  (∀ id, reader s = RSignal id → reader s0 = RSignal id) →
  (∀ e', holds s0 e' → e' = e ∨ holds s e') →
  calls_ok s0 → calls_ok (shutdown e s).
Proof.
  intros Hcs Hn Ho Hr Hh Hok id c Hc. cbn in Hc. rewrite Hcs in Hc.
  assert (Hs : ∀ id c, calls s0 !! id = Some c →
    1 ≤ id ≤ nextReqID s ∧ (owned s id → c_done c = false) ∧
    (c_pc c = SubReturned true → c_done c = true ∧ c_errMsg c = []) ∧
    (c_done c = true ∨ reader s = RSignal id → c_errMsg c = [] → c_registered c = true ∨ c_refused c = true) ∧
    (c_registered c = true → c_subDone c = true ∨ c_displaced c = true ∨ live s0 id)).
  { clear c Hc id. intros id c Hc. destruct (Hok _ _ Hc). split_and!; [lia..|by auto|done| |done].
    intros [|]; auto. }
  destruct (decide (id = e_call e)) as [->|Hne].
  - rewrite lookup_alter_eq in Hc. destruct (calls s0 !! e_call e) as [c0|] eqn:H0; [|done].
    cbn in Hc. simplify_eq. destruct (Hs _ _ H0) as (? & ? & ? & ? & _). constructor; try done. intros _. by left.
  - rewrite lookup_alter_ne in Hc by done. destruct (Hs _ _ Hc) as (? & ? & ? & ? & Hlive). constructor; try done.
    intros Hreg. destruct (Hlive Hreg) as [|[|(e' & <- & [->|He']%Hh)]]; [by left|by right; left|done|].
    right. right. by exists e'.
Qed.

Lemma shape_weaken n m s : shape n s → n ≤ m → shape m s.
Proof. intros [] ?. constructor; try done. lia. Qed.

Ltac ws_unfold := unfold owned, in_pending, in_reader, in_closing, holds in *; cbn in *.

(** Only one of the reader, the map and [Close] has a pending request. *)
Lemma pending_not_closing n s id : shape n s → in_pending s id → ¬ in_closing s id.
Proof.
  intros [] (p & Hp & _) (p' & m & Hc & _). rewrite Hc in sh_closing0. apply sh_flag0 in sh_closing0. congruence.
Qed.

Lemma owned_bound n s id : inv n s → owned s id → 1 ≤ id ≤ nextReqID s.
Proof. intros [Hs Hc] [c Hi]%(sh_owned _ _ Hs). by destruct (Hc _ _ Hi). Qed.

(** ** [Subscribe] *)

Lemma inv_subscribe_begin n s b : inv n s → n + 1 < 2 ^ 64 → inv (n + 1) (subscribe_begin b s).
Proof.
  intros Hi Hn. pose proof Hi as [Hs Hc]. unfold subscribe_begin.
  destruct (closedFlag s) eqn:Hf; [split; [eapply shape_weaken; [done|lia]|done]|].
  pose proof (sh_next _ _ Hs). cbn [pendingReqs set_next].
  destruct (pendingReqs s) as [p|] eqn:Hp; [|apply (sh_flag _ _ Hs) in Hp; congruence].
  rewrite wrapU_small by (unfold is_u; lia). set (id := nextReqID s + 1).
  assert (Hfresh : ∀ i, owned s i → i ≠ id).
  { intros i Ho. apply (owned_bound _ _ _ Hi) in Ho. lia. }
  assert (Ho : ∀ i, owned (set_calls <[id:=mkCall b SubSending [] false 0 false false false false]>
      (set_pending (Some ({[id]} ∪ p)) (set_next id s))) i → i = id ∨ owned s i).
  { intros i [(p' & Hp' & Hin)|[Hr|Hcl]]; [|by right; right; left|by right; right; right].
    cbn in Hp'. simplify_eq. apply elem_of_union in Hin as [->%elem_of_singleton|Hin]; [by left|].
    right. left. by exists p. }
  split.
  - destruct Hs. constructor; try done.
    + cbn. lia.
    + cbn. by rewrite Hf.
    + cbn. rewrite <- sh_nil0, Hp. done.
    + intros k u Hu. specialize (sh_unsubs0 k u Hu). cbn. lia.
    + intros i [->|Hi']%Ho; cbn.
      * by rewrite lookup_insert_eq.
      * rewrite lookup_insert_ne by (symmetry; by apply Hfresh). auto.
    + intros i Hr. destruct (sh_excl0 i Hr) as [Hnp Hnc].
      assert (i ≠ id) by (apply Hfresh; right; by left). split; [|done].
      intros (p' & Hp' & Hin). cbn in Hp'. simplify_eq.
      apply elem_of_union in Hin as [->%elem_of_singleton|Hin]; [done|]. apply Hnp. by exists p.
  - intros i c Hci. cbn in Hci. destruct (decide (i = id)) as [->|Hne].
    + rewrite lookup_insert_eq in Hci. simplify_eq. constructor; cbn; try done; [lia|].
      intros [|Hr]; [done|]. exfalso. apply (Hfresh id); [|done]. right. left. unfold in_reader. by rewrite Hr.
    + rewrite lookup_insert_ne in Hci by done. destruct (Hc _ _ Hci). constructor; try done; [cbn; lia|].
      intros [->|Hoi]%Ho; [done|auto].
Qed.

Lemma in_pending_delete s id i : in_pending (delete_pending id s) i ↔ in_pending s i ∧ i ≠ id.
Proof.
  unfold in_pending, delete_pending. cbn. destruct (pendingReqs s) as [p|]; cbn.
  - split.
    + intros (? & [= <-] & [Hi Hne%not_elem_of_singleton]%elem_of_difference). naive_solver.
    + intros [(? & [= <-] & Hi) Hne]. eexists. split; [done|]. by rewrite elem_of_difference, not_elem_of_singleton.
  - naive_solver.
Qed.

Lemma owned_delete s id i : owned (delete_pending id s) i → owned s i.
Proof. intros [[Hp _]%in_pending_delete|Ho]; [by left|by right]. Qed.

Lemma inv_delete_pending n s id : inv n s → inv n (delete_pending id s).
Proof.
  intros [Hs Hc]. split.
  - destruct Hs. constructor; try done; cbn.
    + by rewrite fmap_None.
    + by rewrite fmap_None.
    + intros i Ho. apply sh_owned0, (owned_delete s id i Ho).
    + intros i Hr. destruct (sh_excl0 i Hr). split; [|done]. by intros [? _]%in_pending_delete.
  - apply (calls_ok_mono s); [done|done|exact (owned_delete s id)| |done|done].
    intros i c Hr Hi. destruct (Hc _ _ Hi). auto.
Qed.

(** ** The read loop *)

(** Moving the reader.  A request it takes must be nobody else's and
    unanswered; an entry it gives up must not have been waiting for its
    shutdown. *)
Lemma inv_set_reader n s r :
  inv n s →
  (∀ id, reader_holds r = Some id →
     ¬ in_pending s id ∧ ¬ in_closing s id ∧ ∃ c, calls s !! id = Some c ∧ c_done c = false) →
  (∀ e m e', r = RDispatch e ∨ r = RDrop e → subscriptions s = Some m → m !! e_subID e = Some e' → e' = e) →
  (∀ id c, r = RSignal id → calls s !! id = Some c → c_errMsg c = [] → c_registered c = true ∨ c_refused c = true) →
  (∀ e, reader s ≠ RShutdown e) →
  inv n (set_reader r s).
Proof.
  intros [Hs Hc] Hown Hent Hsig Hsd. split.
  - destruct Hs. constructor; try done.
    + intros i [Hp|[Hr|Hcl]]; [by apply sh_owned0; left| |by apply sh_owned0; right; right].
      destruct (Hown i Hr) as (_ & _ & c & Hci & _). by exists c.
    + intros i Hr. by destruct (Hown i Hr) as (? & ? & _).
  - intros i c Hi. destruct (Hc _ _ Hi). constructor; try done.
    + intros [Hp|[Hr|Hcl]]; [by apply ok_open0; left| |by apply ok_open0; right; right].
      destruct (Hown i Hr) as (_ & _ & c' & Hi' & Hd). cbn in Hi. congruence.
    + intros [?|?]; [auto|by eapply Hsig].
    + intros H. destruct (ok_live0 H) as [|[|(e & <- & [He|[He|He]])]]; [by left|by right; left| | |].
      * right. right. exists e. split; [done|by left].
      * by apply Hsd in He.
      * right. right. exists e. split; [done|by right; right].
Qed.

(** The reader keeps what it holds. *)
Lemma reader_owns n s id :
  inv n s → in_reader s id →
  ¬ in_pending s id ∧ ¬ in_closing s id ∧ ∃ c, calls s !! id = Some c ∧ c_done c = false.
Proof.
  intros [Hs Hc] Hr. destruct (sh_excl _ _ Hs _ Hr). split_and!; try done.
  destruct (sh_owned _ _ Hs id) as [c Hi]; [by right; left|]. exists c. split; [done|].
  apply (ok_open _ _ _ (Hc _ _ Hi)). by right; left.
Qed.

Lemma inv_read_reply n s id r s' : inv n s → read_reply id r s = Some s' → inv n s'.
Proof.
  intros Hi. unfold read_reply. destruct (reader s) eqn:Hr; try done.
  destruct (pendingReqs s) as [p|] eqn:Hp; [|by intros [= <-]].
  case_decide as Hin; [|by intros [= <-]]. intros [= <-].
  assert (Hpend : in_pending s id) by (by exists p).
  apply inv_set_reader; [by apply inv_delete_pending| | |done|by cbn; rewrite Hr].
  - intros i [= <-]. split_and!.
    + by intros [_ ?]%in_pending_delete.
    + intros Hcl. by eapply pending_not_closing; [apply Hi|done|].
    + destruct (sh_owned _ _ (proj1 Hi) id) as [c Hc]; [by left|]. exists c. split; [done|].
      apply (ok_open _ _ _ (proj2 Hi _ _ Hc)). by left.
  - by intros ??? [|].
Qed.

Lemma inv_read_notification n s k s' : inv n s → read_notification k s = Some s' → inv n s'.
Proof.
  intros Hi. unfold read_notification. destruct (reader s) eqn:Hr; try done.
  destruct (subscriptions s) as [m|] eqn:Hm; [|by intros [= <-]].
  destruct (m !! k) as [e|] eqn:He; [|by intros [= <-]]. intros [= <-].
  apply inv_set_reader; [done|done| |done|by rewrite Hr].
  intros e0 m0 e' [[= <-]|?]; [|done]. rewrite (sh_subs _ _ (proj1 Hi) _ Hm _ _ He). congruence.
Qed.

Lemma inv_read_error n s s' : inv n s → read_error s = Some s' → inv n s'.
Proof.
  intros Hi. unfold read_error. destruct (reader s) eqn:Hr; try done. intros [= <-].
  apply inv_set_reader; try done; [by intros ??? [|]|by rewrite Hr].
Qed.

(** Recording the outcome, then moving on to signal it. *)
Lemma inv_answer n s id m refused :
  inv n s → in_reader s id → reader s ≠ RSignal id → m ≠ [] ∨ refused = true →
  inv n (set_reader (RSignal id) (on_call id (with_err m refused) s)).
Proof.
  intros Hi Hr Hns Hm. apply inv_set_reader.
  - apply inv_with_err; [done|by right; left|done].
  - intros i [= <-]. destruct (reader_owns _ _ _ Hi Hr) as (? & ? & c & Hc & Hd).
    split_and!; try done. exists (with_err m refused c). split; [|done]. cbn. by rewrite lookup_alter_eq, Hc.
  - by intros ??? [|].
  - intros i c [= <-] Hc. cbn in Hc. rewrite lookup_alter_eq in Hc.
    destruct (calls s !! id); [|done]. simplify_eq/=. tauto.
  - intros e He. unfold in_reader in Hr. cbn in He. by rewrite He in Hr.
Qed.

(** Putting an entry into the map; the one it replaces is displaced. *)
Lemma inv_insert_sub n s m k id b :
  inv n s → subscriptions s = Some m → (∀ e, reader s ≠ RDispatch e ∧ reader s ≠ RDrop e) →
  inv n (set_subs (Some (<[k:=mkEntry k id b]> m))
    (match m !! k with Some e => on_call (e_call e) with_displaced s | None => s end)).
Proof.
  intros Hi Hm Hr.
  assert (Hd : ∀ e, m !! k = Some e → inv n (on_call (e_call e) with_displaced s)) by (intros; by apply inv_displaced).
  assert (H1 : inv n (match m !! k with Some e => on_call (e_call e) with_displaced s | None => s end))
    by (destruct (m !! k) eqn:?; auto).
  assert (Hk : ∀ e i c, m !! k = Some e → i = e_call e →
    calls (match m !! k with Some e => on_call (e_call e) with_displaced s | None => s end) !! i = Some c →
    c_displaced c = true).
  { intros e i c He -> Hc. rewrite He in Hc. cbn in Hc. rewrite lookup_alter_eq in Hc.
    destruct (calls s !! e_call e); [|done]. by simplify_eq/=. }
  set (s1 := match m !! k with Some e => on_call (e_call e) with_displaced s | None => s end) in *.
  assert (subscriptions s1 = Some m ∧ reader s1 = reader s) as [Hm1 Hr1] by (unfold s1; destruct (m !! k); done).
  clearbody s1. destruct H1 as [Hs Hc]. split.
  - destruct Hs. constructor; try done.
    + rewrite sh_nil0, Hm1. done.
    + cbn. intros m' [= <-] k' e' He'. destruct (decide (k' = k)) as [->|Hne].
      * rewrite lookup_insert_eq in He'. by simplify_eq.
      * rewrite lookup_insert_ne in He' by done. by eapply sh_subs0.
    + cbn. rewrite Hr1. intros e ? ? [He|He]; by apply Hr in He.
  - intros i c Hi'. destruct (Hc _ _ Hi'). constructor; try done.
    intros H. destruct (ok_live0 H) as [|[|(e & <- & [(m' & Hm' & He)|He])]]; [by left|by right; left| |].
    + rewrite Hm1 in Hm'. simplify_eq. destruct (decide (e_subID e = k)) as [Hek|Hne].
      * right. left. rewrite Hek in He. by eapply (Hk e).
      * right. right. exists e. split; [done|]. left. eexists. split; [done|]. by rewrite lookup_insert_ne.
    + right. right. exists e. split; [done|by right].
Qed.

Lemma inv_register n s id : inv n s → reader s = RRegister id → inv n (register id s).
Proof.
  intros Hi Hr. unfold register. assert (Hin : in_reader s id) by (unfold in_reader; by rewrite Hr).
  destruct (calls s !! id) as [c|] eqn:Hc; [|done].
  destruct (subscriptions s) as [m|] eqn:Hm.
  2: { apply inv_answer; [done|done|by rewrite Hr|by left]. }
  pose proof (inv_insert_sub n s m (c_id c) id (c_oneShot c) Hi Hm) as H2.
  set (s1 := match m !! c_id c with Some e => on_call (e_call e) with_displaced s | None => s end) in *.
  assert (Hr1 : reader s1 = RRegister id) by (unfold s1; destruct (m !! c_id c); done).
  clearbody s1. specialize (H2 ltac:(by rewrite Hr)).
  set (s2 := set_subs _ s1) in *.
  assert (H3 : inv n (on_call id with_registered s2)).
  { apply inv_on_call; [done|]. intros c0 Hc0 []. constructor; try done.
    - intros [Hd|Hd]; [|cbn in Hd; congruence]. by left.
    - intros _. right. right. exists (mkEntry (c_id c) id (c_oneShot c)). split; [done|]. left.
      eexists. split; [done|]. cbn. by rewrite lookup_insert_eq. }
  apply inv_set_reader; [done| |by intros ??? [|]| |by cbn; rewrite Hr1].
  - intros i [= <-]. eapply reader_owns; [done|]. unfold in_reader. cbn. by rewrite Hr1.
  - intros i c0 [= <-] Hc0. cbn in Hc0. rewrite lookup_alter_eq in Hc0.
    destruct (calls s1 !! id); [|done]. simplify_eq/=. auto.
Qed.

(** Closing [pending.done]: the owner is the only one, so it is open. *)
Lemma inv_close_done n s id :
  (∀ c, calls s !! id = Some c → c_done c = false ∧ (c_errMsg c = [] → c_registered c = true ∨ c_refused c = true)) →
  inv n s → ¬ owned s id → inv n (close_done id s).
Proof.
  intros Hd Hi Hno. unfold close_done. destruct (calls s !! id) as [c|] eqn:Hc; [|done].
  destruct (Hd c) as [-> Ha]; [done|]. apply inv_on_call; [done|]. intros c' Hc' [].
  rewrite Hc in Hc'. simplify_eq. constructor; try done.
  intros Hret. destruct (ok_returned0 Hret). done.
Qed.

Lemma inv_signal n s id : inv n s → reader s = RSignal id → inv n (set_reader RIdle (close_done id s)).
Proof.
  intros Hi Hr. assert (Hin : in_reader s id) by (unfold in_reader; by rewrite Hr).
  destruct (reader_owns _ _ _ Hi Hin) as (Hnp & Hnc & c & Hc & Hd).
  assert (set_reader RIdle (close_done id s) = close_done id (set_reader RIdle s)) as ->.
  { unfold close_done. cbn. rewrite Hc, Hd. done. }
  assert (H1 : inv n (set_reader RIdle s)).
  { apply inv_set_reader; try done; [by intros ??? [|]|by rewrite Hr]. }
  apply inv_close_done; [|done|].
  - intros c' Hc'. cbn in Hc'. rewrite Hc in Hc'. simplify_eq. split; [done|].
    apply (ok_answered _ _ _ (proj2 Hi _ _ Hc)). by right.
  - intros [|[|]]; done.
Qed.

Lemma inv_dispatch n s e :
  inv n s → reader s = RDispatch e →
  inv n (set_reader (if e_oneShot e then RDrop e else RIdle) (emit (EDispatch (e_call e)) s)).
Proof.
  intros Hi Hr. apply inv_set_reader; [by apply inv_emit| | | |by cbn; rewrite Hr]; destruct (e_oneShot e); try done.
  - intros e0 m e' [?|[= <-]]; [done|]. apply (sh_entry _ _ (proj1 Hi)). by left.
  - by intros ??? [|].
Qed.

Lemma inv_drop n s e :
  inv n s → reader s = RDrop e →
  inv n (set_reader (RShutdown e) (set_subs (delete (e_subID e) <$> subscriptions s) s)).
Proof.
  intros [Hs Hc] Hr. split.
  - destruct Hs. constructor; try done; cbn.
    + by rewrite fmap_None.
    + intros m Hm. apply fmap_Some in Hm as (m0 & Hm0 & ->). intros k e' [_ He']%lookup_delete_Some.
      by eapply sh_subs0.
    + by intros ??? [|].
    + intros i [Hp|[Ho|Ho]]; [by apply sh_owned0; left|done|by apply sh_owned0; right; right].
  - apply (calls_ok_mono s); try done.
    + intros i [Hp|[Ho|Ho]]; [by left|done|by right; right].
    + intros e' [(m & Hm & He')|[He'|[He'|He']]].
      * destruct (decide (e_subID e' = e_subID e)) as [Heq|Hne].
        -- right. left. cbn. f_equal. symmetry. rewrite Heq in He'.
           by apply (sh_entry _ _ Hs e m e'); [right| |].
        -- left. exists (delete (e_subID e) m). cbn. rewrite Hm. split; [done|]. by rewrite lookup_delete_ne.
      * congruence.
      * by right; right; left.
      * by right; right; right.
Qed.

Lemma inv_reader_shutdown n s e :
  inv n s → reader s = RShutdown e → inv n (set_reader RIdle (shutdown e s)).
Proof.
  intros [Hs Hc] Hr. change (set_reader RIdle (shutdown e s)) with (shutdown e (set_reader RIdle s)). split.
  - apply shape_shutdown. destruct Hs. constructor; try done.
    + by intros ??? [|].
    + intros i [Hp|[Ho|Ho]]; [by apply sh_owned0; left|done|by apply sh_owned0; right; right].
  - apply (calls_ok_shutdown s); try done.
    + intros i [Hp|[Ho|Ho]]; [by left|done|by right; right].
    + intros e' [He'|[He'|He']]; [right; by left| |right; by right; right].
      left. congruence.
Qed.

Lemma inv_reader_step n s s' : inv n s → reader_step s = Some s' → inv n s'.
Proof.
  intros Hi. unfold reader_step. destruct (reader s) as [|id [m|k|]|id|id|e|e|e|] eqn:Hr; try done; intros [= <-].
  1-3: assert (Hin : in_reader s id) by (unfold in_reader; by rewrite Hr).
  - apply inv_answer; [done|done|by rewrite Hr|by right].
  - apply inv_set_reader; [by apply inv_with_id| |by intros ??? [|]|done|by cbn; rewrite Hr].
    intros i [= <-]. destruct (reader_owns _ _ _ Hi Hin) as (? & ? & c & Hc & Hd).
    split_and!; [done..|]. exists (with_id k c). split; [|done]. cbn. by rewrite lookup_alter_eq, Hc.
  - apply inv_answer; [done|done|by rewrite Hr|by left].
  - by apply inv_register.
  - by apply inv_signal.
  - by apply inv_dispatch.
  - by apply inv_drop.
  - by apply inv_reader_shutdown.
Qed.

(** ** [Unsubscribe] *)

Lemma inv_unsubscribe_begin n s id s' :
  inv n s → n + 1 < 2 ^ 64 → unsubscribe_begin id s = Some s' → inv (n + 1) s'.
Proof.
  intros [Hs Hc] Hn. unfold unsubscribe_begin. destruct (calls s !! id) as [c|]; [|done].
  cbn [mbind option_bind]. destruct (c_pc c) as [| | |[]]; try done. intros [= <-]. cbn.
  pose proof (sh_next _ _ Hs). rewrite wrapU_small by (unfold is_u; lia).
  assert (Hfresh : unsubs s !! (nextReqID s + 1) = None).
  { destruct (unsubs s !! (nextReqID s + 1)) eqn:Hu; [|done]. apply (sh_unsubs _ _ Hs) in Hu. lia. }
  split.
  - destruct Hs. constructor; try done; cbn.
    + lia.
    + by rewrite fmap_None.
    + intros m Hm. apply fmap_Some in Hm as (m0 & Hm0 & ->). intros k e' [_ He']%lookup_delete_Some.
      by eapply sh_subs0.
    + intros e m e' Hr Hm. apply fmap_Some in Hm as (m0 & Hm0 & ->). intros [_ He']%lookup_delete_Some.
      by eapply sh_entry0.
    + intros k u Hk. destruct (decide (k = nextReqID s + 1)) as [->|Hne]; [done|].
      rewrite lookup_insert_ne in Hk by done. apply sh_unsubs0 in Hk. lia.
  - apply (calls_ok_mono s); try done; cbn; [lia|by intros i c0 Hr Hi; destruct (Hc _ _ Hi); auto|].
    intros e' [(m & Hm & He')|[He'|[(k & i & b & Hk)|He']]].
    + destruct (decide (e_subID e' = c_id c)) as [Heq|Hne].
      * right. right. left. exists (nextReqID s + 1), (c_id c), (closedFlag s). cbn.
        rewrite lookup_insert_eq, Hm. cbn. rewrite <- Heq, He'. done.
      * left. exists (delete (c_id c) m). cbn. rewrite Hm. split; [done|]. by rewrite lookup_delete_ne.
    + by right; left.
    + right. right. left. exists k, i, b. cbn. rewrite lookup_insert_ne; [done|]. intros <-. congruence.
    + by right; right; right.
Qed.

Lemma inv_unsubscribe_shutdown n s k s' : inv n s → unsubscribe_shutdown k s = Some s' → inv n s'.
Proof.
  intros [Hs Hc]. unfold unsubscribe_shutdown. destruct (unsubs s !! k) as [[i [[e|] b]]|] eqn:Hk; try done.
  cbn [mbind option_bind u_entry u_closed]. intros [= <-]. split.
  - apply shape_shutdown. destruct Hs. constructor; try done; cbn.
    intros k' u Hk'. destruct (decide (k' = k)) as [->|Hne]; [by eapply sh_unsubs0|].
    rewrite lookup_insert_ne in Hk' by done. by eapply sh_unsubs0.
  - apply (calls_ok_shutdown s); try done.
    intros e' [He'|[He'|[(k' & i' & b' & Hk')|He']]]; [by right; left|by right; right; left| |by right; right; right; right].
    destruct (decide (k' = k)) as [->|Hne]; [left; congruence|]. right. right. right. left.
    exists k', i', b'. cbn. by rewrite lookup_insert_ne.
Qed.

Lemma inv_unsubscribe_end n s k s' : inv n s → unsubscribe_end k s = Some s' → inv n s'.
Proof.
  intros [Hs Hc]. unfold unsubscribe_end. destruct (unsubs s !! k) as [[i [[e|] b]]|] eqn:Hk; try done.
  cbn [mbind option_bind u_entry u_closed]. intros [= <-].
  assert (inv n (set_unsubs (delete k (unsubs s)) s)).
  { split.
    - destruct Hs. constructor; try done; cbn. intros k' u [_ Hk']%lookup_delete_Some. by eapply sh_unsubs0.
    - apply (calls_ok_mono s); try done; [by intros j c Hr Hj; destruct (Hc _ _ Hj); auto|].
      intros e' [He'|[He'|[(k' & i' & b' & Hk')|He']]]; [by left|by right; left| |by right; right; right].
      right. right. left. exists k', i', b'. cbn. rewrite lookup_delete_ne; [done|]. intros <-. congruence. }
  destruct b; [done|]. by apply inv_emit.
Qed.

(** ** [Close] *)

Lemma inv_close_begin n s s' : inv n s → close_begin s = Some s' → inv n s'.
Proof.
  intros [Hs Hc]. unfold close_begin. destruct (closing s) eqn:Hcl; try done. intros [= <-].
  assert (Hno : ∀ i p m, closing s = CEnding p m → ¬ in_closing s i) by (rewrite Hcl; done).
  split.
  - destruct Hs. rewrite Hcl in *. constructor; try done; cbn.
    + intros i [Hp|[Hr|(p & m & ? & _)]]; [by apply sh_owned0; left|by apply sh_owned0; right; left|done].
    + intros i Hr. split; [by apply sh_excl0|]. by intros (p & m & ? & _).
  - apply (calls_ok_mono s); try done; [|by intros j c Hr Hj; destruct (Hc _ _ Hj); auto|].
    + intros i [Hp|[Hr|(p & m & ? & _)]]; [by left|by right; left|done].
    + intros e [He|[He|[He|(p & m & ? & _)]]]; [by left|by right; left|by right; right; left|congruence].
Qed.

Lemma inv_close_swap n s s' : inv n s → close_swap s = Some s' → inv n s'.
Proof.
  intros [Hs Hc]. unfold close_swap. destruct (closing s) eqn:Hcl; try done. intros [= <-].
  assert (Ho : ∀ i, owned (set_closing (CEnding (default ∅ (pendingReqs s)) (default ∅ (subscriptions s)))
      (set_pending None (set_subs None (close_flags true (done s) s)))) i → owned s i).
  { intros i [(p & ? & _)|[Hr|(p & m & [= <- <-] & Hin)]]; [done|by right; left|].
    left. destruct (pendingReqs s) as [p|] eqn:Hpd; [by exists p|]. by apply elem_of_empty in Hin. }
  split.
  - destruct Hs. constructor; try done; cbn.
    + intros p m [= <- <-]. destruct (subscriptions s) as [m|]; [by apply sh_subs0|].
      intros k e. cbn. by rewrite lookup_empty.
    + auto.
    + intros i Hr. destruct (sh_excl0 i Hr) as [Hnp Hnc]. split; [by intros (? & ? & _)|].
      intros (p & m & [= <- <-] & Hin). apply Hnp. destruct (pendingReqs s) as [p|] eqn:Hpd; [by exists p|].
      by apply elem_of_empty in Hin.
  - apply (calls_ok_mono s); try done; [by intros j c Hr Hj; destruct (Hc _ _ Hj); auto|].
    intros e [(m & Hm & He)|[He|[He|(p & m & ? & _)]]]; [|by right; left|by right; right; left|congruence].
    right. right. right. exists (default ∅ (pendingReqs s)), m. cbn. by rewrite Hm.
Qed.

Lemma inv_close_pending n s id s' : inv n s → close_pending id s = Some s' → inv n s'.
Proof.
  intros Hi. unfold close_pending. destruct (closing s) as [| |p m|] eqn:Hcl; try done.
  case_decide as Hin; [|done]. intros [= <-].
  set (refused := match calls s !! id with Some c => c_refused c | None => false end).
  assert (Hown : in_closing s id) by (by exists p, m).
  assert (Hnr : reader s ≠ RSignal id).
  { intros Hr. assert (Hir : in_reader s id) by (unfold in_reader; by rewrite Hr).
    by apply (sh_excl _ _ (proj1 Hi)) in Hir as [_ ?]. }
  pose proof (inv_with_err n s id (str "connection closed") refused Hi ltac:(by right; right) Hnr) as H1.
  set (s1 := on_call id (with_err (str "connection closed") refused) s) in *.
  change (on_call id _ (set_closing _ s)) with (set_closing (CEnding (p ∖ {[id]}) m) s1).
  assert (Ho : ∀ i, owned (set_closing (CEnding (p ∖ {[id]}) m) s1) i → owned s1 i).
  { intros i [Hp|[Hr|(p' & m' & [= <- <-] & [Hi' _]%elem_of_difference)]]; [by left|by right; left|].
    right. right. by exists p, m. }
  apply inv_close_done.
  - intros c Hc. cbn in Hc. rewrite lookup_alter_eq in Hc. destruct (calls s !! id) as [c0|] eqn:H0; [|done].
    simplify_eq/=. split; [|done]. apply (ok_open _ _ _ (proj2 Hi _ _ H0)). by right; right.
  - destruct H1 as [Hs1 Hc1]. split.
    + destruct Hs1. constructor; try done; cbn.
      * pose proof (sh_closing _ _ (proj1 Hi)) as Hf. by rewrite Hcl in Hf.
      * intros p' m' [= <- <-]. by eapply (sh_ending _ _ (proj1 Hi)).
      * auto.
      * intros i Hr. destruct (sh_excl0 i Hr) as [Hnp Hnc]. split; [done|].
        intros (p' & m' & [= <- <-] & [Hi' _]%elem_of_difference). apply Hnc. by exists p, m.
    + apply (calls_ok_mono s1); try done; [by intros j c Hr Hj; destruct (Hc1 _ _ Hj); auto|].
      intros e [He|[He|[He|(p' & m' & He & ?)]]]; [by left|by right; left|by right; right; left|].
      cbn in He. rewrite Hcl in He. simplify_eq. right. right. right. by exists (p' ∖ {[id]}), m'.
  - intros [Hp|[Hr|(p' & m' & [= <- <-] & [_ Hne%not_elem_of_singleton]%elem_of_difference)]]; [| |done].
    + by eapply pending_not_closing; [apply Hi| |].
    + by apply (sh_excl _ _ (proj1 Hi)) in Hr as [_ ?].
Qed.

Lemma inv_close_sub n s k s' : inv n s → close_sub k s = Some s' → inv n s'.
Proof.
  intros [Hs Hc]. unfold close_sub. destruct (closing s) as [| |p m|] eqn:Hcl; try done.
  case_decide as Hp; [|done]. destruct (m !! k) as [e|] eqn:He; [|done]. cbn [mbind option_bind]. intros [= <-].
  assert (Ho : ∀ i, owned (set_closing (CEnding p (delete k m)) s) i → owned s i).
  { intros i [?|[?|(p' & m' & [= <- <-] & ?)]]; [by left|by right; left|]. right. right. by exists p, m. }
  split.
  - apply shape_shutdown. destruct Hs. constructor; try done; cbn.
    + by rewrite Hcl in sh_closing0.
    + intros p' m' [= <- <-] k' e' [_ He']%lookup_delete_Some. by eapply sh_ending0.
    + auto.
    + intros i Hr. destruct (sh_excl0 i Hr) as [Hnp Hnc]. split; [done|].
      intros (p' & m' & [= <- <-] & ?). apply Hnc. by exists p, m.
  - apply (calls_ok_shutdown s); try done.
    intros e' [He'|[He'|[He'|(p' & m' & Hc' & He')]]]; [by right; left|by right; right; left|by right; right; right; left|].
    rewrite Hcl in Hc'. simplify_eq. destruct (decide (e_subID e' = k)) as [<-|Hne]; [left; congruence|].
    right. right. right. right. eexists _, _. split; [done|]. by rewrite lookup_delete_ne.
Qed.

Lemma inv_close_end n s s' : inv n s → close_end s = Some s' → inv n s'.
Proof.
  intros [Hs Hc]. unfold close_end. destruct (closing s) as [| |p m|] eqn:Hcl; try done.
  case_decide as Hp; [|done]. destruct Hp as [-> ->]. intros [= <-]. split.
  - destruct Hs. constructor; try done; cbn.
    + by rewrite Hcl in sh_closing0.
    + intros i [Hp|[Hr|(p & m & ? & _)]]; [by apply sh_owned0; left|by apply sh_owned0; right; left|done].
    + intros i Hr. split; [by apply sh_excl0|]. by intros (p & m & ? & _).
  - apply (calls_ok_mono s); try done; [|by intros j c Hr Hj; destruct (Hc _ _ Hj); auto|].
    + intros i [Hp|[Hr|(p & m & ? & _)]]; [by left|by right; left|done].
    + intros e [He|[He|[He|(p & m & He & Hm)]]]; [by left|by right; left|by right; right; left|].
      rewrite Hcl in He. by simplify_eq.
Qed.

(** ** Every step keeps the invariant *)

Lemma inv_initial : inv 0 DialWebSocket_client.
Proof.
  split; [|done]. constructor; unfold DialWebSocket_client; cbn [nextReqID closedFlag pendingReqs subscriptions
    closing reader unsubs calls panicked]; try done.
  - intros m [= <-]. unfold keyed. intros k e He. by apply lookup_empty_Some in He.
  - by intros ??? [|].
  - intros id [(p & [= <-] & Hin)|[?|(p & m & ? & _)]]; [by apply elem_of_empty in Hin|done|done].
Qed.

Lemma inv_weaken n m s : inv n s → n ≤ m → inv m s.
Proof. intros [Hs Hc] ?. split; [by eapply shape_weaken|done]. Qed.

Lemma inv_step n a s s' : inv n s → n + 1 < 2 ^ 64 → step a s = Some s' → inv (n + 1) s'.
Proof.
  intros Hi Hn Hst. assert (Hw : inv n s' → inv (n + 1) s') by (intros; eapply inv_weaken; [done|lia]).
  destruct a as [b|id ok|id|id|id|id|id r|k| | |id|k|k| | |id|k|]; cbn [step] in Hst;
    try (apply Hw; first [by eapply inv_read_reply|by eapply inv_read_notification|by eapply inv_read_error
      |by eapply inv_reader_step|by eapply inv_unsubscribe_shutdown|by eapply inv_unsubscribe_end
      |by eapply inv_close_begin|by eapply inv_close_swap|by eapply inv_close_pending
      |by eapply inv_close_sub|by eapply inv_close_end]).
  - simplify_eq. by apply inv_subscribe_begin.
  - apply Hw. unfold subscribe_write in Hst. destruct (calls s !! id) as [c|]; [|done]. cbn in Hst.
    destruct (c_pc c); try done. simplify_eq. apply inv_with_pc; [done|by destruct ok].
  - apply Hw. unfold subscribe_ctx in Hst. destruct (calls s !! id) as [c|]; [|done]. cbn in Hst.
    destruct (c_pc c); try done. simplify_eq. by apply inv_with_pc.
  - apply Hw. unfold subscribe_closed in Hst. destruct (calls s !! id) as [c|]; [|done]. cbn in Hst.
    destruct (c_pc c); try done. destruct (done s); [|done]. simplify_eq. by apply inv_with_pc.
  - apply Hw. unfold subscribe_reply in Hst. destruct (calls s !! id) as [c|] eqn:Hc; [|done]. cbn in Hst.
    destruct (c_pc c); try done. destruct (c_done c) eqn:Hd; [|done]. simplify_eq.
    apply inv_with_pc; [done|]. intros [= Hm%bool_decide_eq_true] c0 Hc0. rewrite Hc in Hc0. by simplify_eq.
  - apply Hw. unfold subscribe_cancel in Hst. destruct (calls s !! id) as [c|]; [|done]. cbn in Hst.
    destruct (c_pc c); try done. simplify_eq. apply inv_with_pc; [by apply inv_delete_pending|done].
  - by eapply inv_unsubscribe_begin.
Qed.

Lemma inv_run acts n s s' : inv n s → n + zlen acts < 2 ^ 64 → run acts s = Some s' → inv (n + zlen acts) s'.
Proof.
  revert n s. induction acts as [|a acts IH]; intros n s Hi Hn Hr.
  - simplify_eq/=. by rewrite zlen_nil, Z.add_0_r.
  - rewrite zlen_cons in *. pose proof (zlen_nonneg acts). cbn [run] in Hr.
    destruct (step a s) as [s1|] eqn:Hs; [|done]. cbn [mbind option_bind] in Hr.
    replace (n + (1 + zlen acts)) with (n + 1 + zlen acts) by lia.
    eapply IH; [eapply inv_step; [done|lia|done]|lia|done].
Qed.

Lemma inv_history acts s : history acts s → zlen acts < 2 ^ 64 → inv (zlen acts) s.
Proof. intros Hh Hn. by apply (inv_run acts 0 DialWebSocket_client); [apply inv_initial| |]. Qed.
