(* ===== verification/WsSpec.v ===== *)
(** * What the WebSocket client guarantees under every interleaving *)

From S2P Require Import Prelude Ws WsInv.

(** ** Safety *)

(** C21: under every interleaving of subscribe calls, unsubscribe calls, the read
    loop and [Close], for any frames the server sends and fewer than 2^64
    actions: no channel is closed twice and no nil map is written (the client
    never panics); a [Subscribe] that returns a handle was registered, unless
    the server refused it with an empty error message; a registered
    subscription whose [Done] is still open has an entry that somebody holds and
    will shut down, unless another one took its id in the map; hence, once
    [Close] has returned and no shutdown is in flight, every registered
    subscription that was not displaced is done. *)
Theorem ws_client_safe acts s :
  history acts s → zlen acts < 2 ^ 64 →
  panicked s = false ∧
  (∀ id c, calls s !! id = Some c → c_pc c = SubReturned true →
     c_registered c = true ∨ (c_refused c = true ∧ c_errMsg c = [])) ∧
  (∀ id c, calls s !! id = Some c → c_registered c = true →
     c_subDone c = true ∨ c_displaced c = true ∨ ∃ e, e_call e = id ∧ holds s e) ∧
  (closing s = CDone → (∀ e, reader s ≠ RShutdown e) → unsubs s = ∅ →
     ∀ id c, calls s !! id = Some c → c_registered c = true → c_subDone c = true ∨ c_displaced c = true).
Proof.
  intros Hh Hn. destruct (inv_history acts s Hh Hn) as [Hs Hc]. split_and!.
  - apply Hs.
  - intros id c Hi Hr. destruct (Hc _ _ Hi) as [_ _ Hret Hans _]. destruct (Hret Hr) as [Hd He].
    destruct (Hans (or_introl Hd) He); auto.
  - intros id c Hi. apply (Hc _ _ Hi).
  - intros Hcl Hr Hu id c Hi Hreg. destruct (ok_live _ _ _ (Hc _ _ Hi) Hreg) as [?|[?|(e & _ & He)]]; [by left|by right|].
    assert (subscriptions s = None) as Hnil.
    { apply (sh_nil _ _ Hs), (sh_flag _ _ Hs). pose proof (sh_closing _ _ Hs) as Hf. by rewrite Hcl in Hf. }
    destruct He as [(m & Hm & _)|[He|[(k & i & b & Hk)|(p & m & He & _)]]]; [congruence|by apply Hr in He| |congruence].
    by rewrite Hu in Hk.
Qed.

(** Two subscriptions, one ended by its owner, one by [Close]. *)
Definition sample_history : list action :=
  [ASubscribe false; AWrite 1 true; ASubscribe true; AReadReply 1 (ReplySub 7); AReader; AWrite 2 true; AReader;
   AReader; AReadReply 2 (ReplySub 9); AReader; AReply 1; AReader; AReader; AReadNotification 7; AReader; AReply 2;
   AUnsubscribe 1; AClose; AUnsubShutdown 3; ACloseSwap; AUnsubEnd 3; ACloseSub 9; ACloseEnd].

Lemma ws_client_safe_witness :
  ∃ s, history sample_history s ∧ panicked s = false ∧ closing s = CDone ∧
    events s = [EDispatch 1; EShutdown 1; EUnsubscribe 7; EShutdown 2].
Proof.
  destruct (run sample_history DialWebSocket_client) as [s|] eqn:Hr; [|by vm_compute in Hr].
  exists s. split; [exact Hr|]. split; [by apply (ws_client_safe sample_history s Hr)|].
  vm_compute in Hr. injection Hr as <-. done.
Defined.

(** ** [Close] ends everything *)

Definition close_action (a : action) : bool :=
  match a with AClosePending _ | ACloseSub _ | ACloseEnd => true | _ => false end.

(** A call that has been answered stays answered. *)
Definition answered (s : Client) (id : Z) : Prop := ∃ c, calls s !! id = Some c ∧ c_done c = true.

Lemma answered_alter s id j f : (∀ c, c_done c = true → c_done (f c) = true) →
  answered s id → answered (on_call j f s) id.
Proof.
  intros Hf (c & Hc & Hd). destruct (decide (id = j)) as [->|Hne].
  - exists (f c). cbn. rewrite lookup_alter_eq, Hc. auto.
  - exists c. cbn. by rewrite lookup_alter_ne.
Qed.

Lemma answered_close_done s id j : answered s id → answered (close_done j s) id.
Proof.
  intros H. unfold close_done. destruct (calls s !! j) as [c|]; [|done]. destruct (c_done c); [by destruct H as (c' & ? & ?); exists c'|].
  by apply answered_alter.
Qed.

Lemma close_pending_answers s id c : calls s !! id = Some c → answered (close_done id s) id.
Proof.
  intros Hc. unfold close_done. rewrite Hc. destruct (c_done c) eqn:Hd; [by exists c|].
  exists (with_done c). cbn. by rewrite lookup_alter_eq, Hc.
Qed.

Lemma close_subs_run m s p :
  p = ∅ → closing s = CEnding p m →
  ∃ acts s', forallb close_action acts = true ∧ length acts = S (size m) ∧ run acts s = Some s' ∧
    closing s' = CDone ∧ done s' = true ∧ ∀ id, answered s id → answered s' id.
Proof.
  intros ->. revert s. induction m as [|k e m Hk IH] using map_ind; intros s Hcl.
  - exists [ACloseEnd]. eexists. split; [done|]. rewrite map_size_empty. split; [done|].
    cbn [run step]. unfold close_end. rewrite Hcl, decide_True by done. cbn. split_and!; try done.
  - destruct (IH (shutdown e (set_closing (CEnding ∅ m) s)) eq_refl) as (acts & s' & Ha & Hl & Hr & Hc & Hd & Han).
    exists (ACloseSub k :: acts), s'. split; [done|]. rewrite map_size_insert_None by done. split; [cbn; lia|].
    split_and!; try done.
    + cbn [run step]. unfold close_sub. rewrite Hcl, decide_True by done. rewrite lookup_insert_eq. cbn [mbind option_bind].
      by rewrite delete_insert_id by done.
    + intros id Hid. apply Han. unfold shutdown. by apply (answered_alter (set_closing _ s)).
Qed.

(** C36: [Close] always completes.  Whatever the other goroutines were doing when
    it took the maps, the goroutine that runs it can finish alone, in one step
    per request that was still pending, one per subscription and one more; then
    [Done] is closed, and every one of those [Subscribe] calls has been woken
    up. *)
Theorem close_completes acts s p m :
  history acts s → zlen acts < 2 ^ 64 → closing s = CEnding p m →
  ∃ acts' s', forallb close_action acts' = true ∧ length acts' = (size p + size m + 1)%nat ∧
    run acts' s = Some s' ∧ closing s' = CDone ∧ done s' = true ∧ ∀ id, id ∈ p → answered s' id.
Proof.
  intros Hh Hn Hcl. destruct (inv_history _ _ Hh Hn) as [Hs _].
  assert (Hp : ∀ id, id ∈ p → is_Some (calls s !! id)).
  { intros id Hid. apply (sh_owned _ _ Hs). right. right. by exists p, m. }
  assert (Hgo : ∀ s, closing s = CEnding p m → (∀ id, id ∈ p → is_Some (calls s !! id)) →
    ∃ acts' s', forallb close_action acts' = true ∧ length acts' = (size p + size m + 1)%nat ∧
      run acts' s = Some s' ∧ closing s' = CDone ∧ done s' = true ∧
      ∀ id, id ∈ p ∨ answered s id → answered s' id).
  2: { destruct (Hgo s Hcl Hp) as (acts' & s' & ? & ? & ? & ? & ? & Ha). exists acts', s'. split_and!; try done. auto. }
  clear acts s Hh Hn Hcl Hs Hp. induction p as [|id p Hid IH] using set_ind_L; intros s Hcl Hp.
  - destruct (close_subs_run m s ∅ eq_refl Hcl) as (acts & s' & Ha & Hl & Hr & Hc & Hd & Han).
    exists acts, s'. split_and!; try done; [rewrite size_empty; lia|]. intros id [?%elem_of_empty|?]; [done|auto].
  - destruct (Hp id) as [c Hc]; [set_solver|].
    set (s1 := on_call id (with_err (str "connection closed") (c_refused c)) (set_closing (CEnding p m) s)).
    assert (Hc1 : calls s1 !! id = Some (with_err (str "connection closed") (c_refused c) c)).
    { cbn. by rewrite lookup_alter_eq, Hc. }
    destruct (IH (close_done id s1)) as (acts & s' & Ha & Hl & Hr & Hcl' & Hd & Han).
    { unfold close_done. rewrite Hc1. by destruct (c_done _). }
    { intros j Hj. unfold close_done. rewrite Hc1. assert (is_Some (calls s1 !! j)).
      { cbn. rewrite lookup_alter_is_Some. apply Hp. set_solver. }
      destruct (c_done _); [done|]. cbn in *. by rewrite lookup_alter_is_Some. }
    exists (AClosePending id :: acts), s'. split_and!; try done.
    + rewrite size_union by set_solver. rewrite size_singleton. cbn. lia.
    + cbn [run step]. unfold close_pending. rewrite Hcl, decide_True by set_solver.
      rewrite Hc. cbn [mbind option_bind]. assert (({[id]} ∪ p) ∖ {[id]} = p) as -> by set_solver. done.
    + intros j [Hj|Hj].
      * apply Han. destruct (decide (j = id)) as [->|Hne]; [|left; set_solver].
        right. by eapply close_pending_answers.
      * apply Han. right. apply answered_close_done. by apply (answered_alter (set_closing _ s)).
Qed.

Lemma close_completes_witness :
  ∃ s p m, history [ASubscribe false; AWrite 1 true; AClose; ACloseSwap] s ∧ closing s = CEnding p m ∧
    ∃ acts' s', run acts' s = Some s' ∧ closing s' = CDone ∧ answered s' 1.
Proof.
  destruct (run [ASubscribe false; AWrite 1 true; AClose; ACloseSwap] DialWebSocket_client) as [s|] eqn:Hr;
    [|by vm_compute in Hr].
  assert (Hcl : closing s = CEnding ({[1]} ∪ ∅) ∅) by (vm_compute in Hr; by injection Hr as <-).
  exists s, ({[1]} ∪ ∅), ∅. split; [done|]. split; [done|].
  destruct (close_completes _ s _ _ Hr eq_refl Hcl) as (acts' & s' & _ & _ & Hrun & Hc & _ & Ha).
  exists acts', s'. split; [done|]. split; [done|]. apply Ha. set_solver.
Defined.

(** ** Routing *)

Lemma run_cons a acts s s1 : step a s = Some s1 → run (a :: acts) s = run acts s1.
Proof. intros Hs. cbn [run]. by rewrite Hs. Qed.

Lemma register_spec s id c m :
  calls s !! id = Some c → subscriptions s = Some m →
  reader (register id s) = RSignal id ∧ events (register id s) = events s ∧
  subscriptions (register id s) = Some (<[c_id c:=mkEntry (c_id c) id (c_oneShot c)]> m) ∧
  ∃ c', calls (register id s) !! id = Some c' ∧ c_registered c' = true ∧ c_done c' = c_done c ∧ c_id c' = c_id c.
Proof.
  intros Hc Hm. unfold register. rewrite Hc, Hm. split_and!; [done|by destruct (m !! c_id c)|done|].
  cbn. rewrite lookup_alter_eq. destruct (m !! c_id c) as [e|]; [|by rewrite Hc; eexists].
  cbn. destruct (decide (e_call e = id)) as [->|Hne].
  - rewrite lookup_alter_eq, Hc. by eexists.
  - rewrite lookup_alter_ne, Hc by done. by eexists.
Qed.

Lemma close_done_spec s id c :
  calls s !! id = Some c → c_done c = false →
  reader (close_done id s) = reader s ∧ events (close_done id s) = events s ∧
  subscriptions (close_done id s) = subscriptions s ∧ calls (close_done id s) !! id = Some (with_done c).
Proof. intros Hc Hd. unfold close_done. rewrite Hc, Hd. cbn. by rewrite lookup_alter_eq, Hc. Qed.

(** C37: no notification is lost between the reply and the registration.  When a
    pending request is answered with a subscription id and the next frame is a
    notification for that id, the reader, which registers before it reads on,
    dispatches it to that subscription. *)
Theorem reply_then_notification n s id k c m :
  inv n s → reader s = RIdle → in_pending s id → calls s !! id = Some c → subscriptions s = Some m →
  ∃ s', run [AReadReply id (ReplySub k); AReader; AReader; AReader; AReadNotification k; AReader] s = Some s' ∧
    events s' = events s ++ [EDispatch id] ∧
    ∃ c', calls s' !! id = Some c' ∧ c_registered c' = true ∧ c_done c' = true ∧ c_id c' = k.
Proof.
  intros Hi Hr Hpend Hc Hm.
  assert (Hd : c_done c = false) by (by apply (ok_open _ _ _ (proj2 Hi _ _ Hc)); left).
  destruct Hpend as (p & Hp & Hin).
  set (t1 := set_reader (RResolve id (ReplySub k)) (delete_pending id s)).
  set (t2 := set_reader (RRegister id) (on_call id (with_id k) t1)).
  assert (Hc2 : calls t2 !! id = Some (with_id k c)) by (cbn; by rewrite lookup_alter_eq, Hc).
  destruct (register_spec t2 id (with_id k c) m Hc2 Hm) as (Hr3 & Hev3 & Hm3 & c3 & Hc3 & Hreg & Hd3 & Hid).
  set (t3 := register id t2) in *.
  assert (Hs1 : step (AReadReply id (ReplySub k)) s = Some t1).
  { cbn [step]. unfold read_reply. by rewrite Hr, Hp, decide_True. }
  assert (Hs3 : step AReader t2 = Some t3) by done.
  clearbody t3. cbn [c_id c_oneShot with_id] in *.
  destruct (close_done_spec t3 id c3 Hc3) as (Hr4 & Hev4 & Hm4 & Hc4); [by rewrite Hd3|].
  set (t4 := set_reader RIdle (close_done id t3)).
  assert (Hs4 : step AReader t3 = Some t4) by (cbn [step]; unfold reader_step; by rewrite Hr3).
  set (e := mkEntry k id (c_oneShot c)) in *.
  assert (Hs5 : step (AReadNotification k) t4 = Some (set_reader (RDispatch e) t4)).
  { cbn [step]. unfold read_notification. cbn [reader t4 set_reader subscriptions].
    by rewrite Hm4, Hm3, lookup_insert_eq. }
  rewrite (run_cons _ _ _ _ Hs1), (run_cons AReader _ t1 t2 eq_refl), (run_cons _ _ _ _ Hs3), (run_cons _ _ _ _ Hs4),
    (run_cons _ _ _ _ Hs5).
  eexists. split; [done|]. split.
  - cbn. by rewrite Hev4, Hev3.
  - exists (with_done c3). split; [done|]. split_and!; [done|done|]. cbn. by rewrite Hid.
Qed.

Lemma reply_then_notification_witness :
  ∃ s', run [AReadReply 1 (ReplySub 7); AReader; AReader; AReader; AReadNotification 7; AReader]
      (subscribe_begin false DialWebSocket_client) = Some s' ∧ events s' = [EDispatch 1].
Proof.
  assert (Hi : inv 1 (subscribe_begin false DialWebSocket_client)).
  { apply (inv_subscribe_begin 0); [apply inv_initial|done]. }
  edestruct (reply_then_notification 1 (subscribe_begin false DialWebSocket_client) 1 7) as (s' & Hr & He & _);
    [done|done|by exists ({[1]} ∪ ∅); split; [|set_solver]|by vm_compute|by vm_compute|].
  exists s'. by rewrite He.
Defined.

(** ** What the client does not promise *)

(** A one-shot subscription that is unsubscribed while its notification is being
    delivered has its callback run twice. *)
Lemma shutdown_runs_twice :
  ∃ s, history [ASubscribe true; AWrite 1 true; AReadReply 1 (ReplySub 7); AReader; AReader; AReader; AReply 1;
      AReadNotification 7; AUnsubscribe 1; AReader; AReader; AReader; AUnsubShutdown 2] s ∧
    events s = [EDispatch 1; EShutdown 1; EShutdown 1].
Proof. eexists. split; [vm_compute; reflexivity|by vm_compute]. Qed.

(** A context that ends just as the reply is handled leaves a registered
    subscription nobody has a handle to. *)
Lemma cancelled_but_registered :
  ∃ s c, history [ASubscribe false; AWrite 1 true; AReadReply 1 (ReplySub 7); AReader; AReader; AReader; ACtx 1;
      ACancel 1] s ∧
    calls s !! 1 = Some c ∧ c_pc c = SubReturned false ∧ c_registered c = true ∧ c_subDone c = false ∧
    subscriptions s = Some {[7 := mkEntry 7 1 false]}.
Proof. eexists _, _. split; [vm_compute; reflexivity|]. split; [vm_compute; reflexivity|by vm_compute]. Qed.

(** A refusal with an empty message is reported as success. *)
Lemma empty_refusal_succeeds :
  ∃ s c, history [ASubscribe false; AWrite 1 true; AReadReply 1 (ReplyError []); AReader; AReader; AReply 1] s ∧
    calls s !! 1 = Some c ∧ c_pc c = SubReturned true ∧ c_registered c = false.
Proof. eexists _, _. split; [vm_compute; reflexivity|]. split; [vm_compute; reflexivity|by vm_compute]. Qed.

(** A second [Unsubscribe] is not a no-op: it sends another request, and if the
    server has given the id to a new subscription it ends that one. *)
Lemma second_unsubscribe_ends_another :
  ∃ s, history [ASubscribe false; AWrite 1 true; AReadReply 1 (ReplySub 7); AReader; AReader; AReader; AReply 1;
      AUnsubscribe 1; AUnsubShutdown 2; AUnsubEnd 2;
      ASubscribe false; AWrite 3 true; AReadReply 3 (ReplySub 7); AReader; AReader; AReader; AReply 3;
      AUnsubscribe 1; AUnsubShutdown 4; AUnsubEnd 4] s ∧
    events s = [EShutdown 1; EUnsubscribe 7; EShutdown 3; EUnsubscribe 7].
Proof. eexists. split; [vm_compute; reflexivity|by vm_compute]. Qed.
