(* ===== verification/WsSubs.v ===== *)
(** * Typed subscriptions: [ws/util.go] and [ws/wsclient_*.go]

    A typed subscription is a request, a decoder of its notifications and a
    bounded channel the reader fills through [sendOrDropOldest].  The consumer
    receives between any two of its channel operations. *)

From S2P Require Import Prelude Keys Json TxError AccountInfo JsonRpc RpcTypes Rpc.

(** ** [sendOrDropOldest] *)

Section channel.
Context {T : Type}.

(** Where the reader is inside the call with [v]: about to try the send, to
    drop the oldest element, to send again. *)
Inductive send_pc := SIdle | STry (v : T) | SDropOldest (v : T) | SRetry (v : T).

(** [received] is what the consumer took; ghost: [offered] are the values the
    calls were made with, [dropped] the elements taken out to make room, [lost]
    the values no select could send. *)
Record channel := mkChannel {
  capacity : nat;
  buffer : list T;
  sending : send_pc;
  received : list T;
  offered : list T;
  dropped : list T;
  lost : list T;
}.

Definition make_chan (n : nat) : channel := mkChannel n [] SIdle [] [] [] [].

Definition set_sending (pc : send_pc) (c : channel) : channel :=
  mkChannel (capacity c) (buffer c) pc (received c) (offered c) (dropped c) (lost c).

Definition has_room (c : channel) : bool := (length (buffer c) <? capacity c)%nat.

Definition enqueue (v : T) (c : channel) : channel :=
  mkChannel (capacity c) (buffer c ++ [v]) SIdle (received c) (offered c) (dropped c) (lost c).

Definition send_begin (v : T) (c : channel) : option channel :=
  match sending c with
  | SIdle => Some (mkChannel (capacity c) (buffer c) (STry v) (received c) (offered c ++ [v]) (dropped c) (lost c))
  | _ => None
  end.

(** One select. *)
Definition send_step (c : channel) : option channel :=
  match sending c with
  | SIdle => None
  | STry v => Some (if has_room c then enqueue v c else set_sending (SDropOldest v) c)
  | SDropOldest v =>
      Some (match buffer c with
            | x :: rest => mkChannel (capacity c) rest (SRetry v) (received c) (offered c) (dropped c ++ [x]) (lost c)
            | [] => set_sending (SRetry v) c
            end)
  | SRetry v =>
      Some (if has_room c then enqueue v c else
        mkChannel (capacity c) (buffer c) SIdle (received c) (offered c) (dropped c) (lost c ++ [v]))
  end.

Definition receive (c : channel) : option channel :=
  match buffer c with
  | x :: rest => Some (mkChannel (capacity c) rest (sending c) (received c ++ [x]) (offered c) (dropped c) (lost c))
  | [] => None
  end.

(** A call that nothing interrupts. *)
Definition sendOrDropOldest (v : T) (c : channel) : option channel :=
  c ← send_begin v c;
  c ← send_step c;
  match sending c with
  | SIdle => Some c
  | _ => c ← send_step c; send_step c
  end.
End channel.
Arguments send_pc T : clear implicits.
Arguments channel T : clear implicits.

(** ** Subscriptions *)

(** [codec.Unmarshal] of a notification's payload. *)
Class Unmarshal (T : Type) := unmarshal : bytes → option T.

(** What [Subscribe] is called with, the channel's capacity, and the decoder
    [dispatch] applies before it sends. *)
Record subscription (T : Type) := mkSubscription {
  method : bytes;
  unsubMethod : bytes;
  params : json;                      (* null for a nil slice *)
  chan_capacity : nat;
  oneShot : bool;
  notification : bytes → option T;
}.
Arguments mkSubscription {T} _ _ _ _ _ _.
Arguments method {T} _.
Arguments unsubMethod {T} _.
Arguments params {T} _.
Arguments chan_capacity {T} _.
Arguments oneShot {T} _.
Arguments notification {T} _ _.

(** The request of [subscribe] and the one of [Unsubscribe]. *)
Definition subscribe_request {T} (id : Z) (sub : subscription T) : json := Request_json id (method sub) (params sub).
Definition unsubscribe_request {T} (id subID : Z) (sub : subscription T) : json :=
  Request_json id (unsubMethod sub) (JArr [jnum subID]).

(** [dispatch], up to the send. *)
Definition dispatch {T} (sub : subscription T) (raw : bytes) (c : channel T) : option (channel T) :=
  match notification sub raw with
  | Some n => send_begin n c
  | None => match sending c with SIdle => Some c | _ => None end
  end.

Inductive sub_action := SFrame (raw : bytes) | SSelect | SReceive.

Definition sub_step {T} (sub : subscription T) (a : sub_action) (c : channel T) : option (channel T) :=
  match a with
  | SFrame raw => dispatch sub raw c
  | SSelect => send_step c
  | SReceive => receive c
  end.

Fixpoint sub_run {T} (sub : subscription T) (acts : list sub_action) (c : channel T) : option (channel T) :=
  match acts with
  | [] => Some c
  | a :: acts => c ← sub_step sub a c; sub_run sub acts c
  end.

Definition sub_history {T} (sub : subscription T) (acts : list sub_action) (c : channel T) : Prop :=
  sub_run sub acts (make_chan (chan_capacity sub)) = Some c.

(** The payloads the reader dispatched, in order. *)
Definition frames (acts : list sub_action) : list bytes :=
  omap (λ a, match a with SFrame raw => Some raw | _ => None end) acts.

(** *** Notifications *)

Record AccountNotification := mkAccountNotification { AN_Slot : Z; AN_Value : option AccountInfo }.
Record ProgramNotification := mkProgramNotification { PN_Slot : Z; PN_Pubkey : PublicKey; PN_Account : option AccountInfo }.
Record SignatureNotification := mkSignatureNotification { SG_Slot : Z; SG_Err : any }.
Record BlockNotification := mkBlockNotification { BN_Slot : Z; BN_Err : bytes; BN_Block : option GetBlockResult }.
Record SlotUpdate := mkSlotUpdate { UP_Type : bytes; UP_Slot : Z; UP_Parent : Z; UP_Timestamp : Z; UP_Err : bytes }.
Record LogNotification := mkLogNotification { LN_Slot : Z; LN_Signature : bytes; LN_Err : any; LN_Logs : list bytes }.
Record SlotInfo := mkSlotInfo { SL_Parent : Z; SL_Root : Z; SL_Slot : Z }.

(** *** Requests *)

Record BlockFilter := mkBlockFilter { BF_All : bool; MentionsAccountOrProgram : PublicKey }.
Record LogsFilter := mkLogsFilter { LF_All : bool; AllWithVotes : bool; Mentions : list PublicKey }.

Definition buildCommitmentWithEncoding (cfg : CommitmentWithEncodingCfg) : json :=
  let enc := if decide (CE_Encoding cfg = []) then EncodingBase64 else CE_Encoding cfg in
  JObj (opt_str "commitment" (CE_Commitment cfg) ++ [(str "encoding", JStr enc)]).

Section subscribe.
Context `{Base58}.

Definition AccountSubscribe `{Unmarshal (ContextValue (option AccountInfo))}
    (pubkey : PublicKey) (cfg : list CommitmentWithEncodingCfg) : subscription AccountNotification :=
  mkSubscription (str "accountSubscribe") (str "accountUnsubscribe")
    (JArr [pubkey_json pubkey; buildCommitmentWithEncoding (FirstOrZero cfg)]) 64 false
    (λ raw, envelope ← unmarshal raw; Some (mkAccountNotification (CV_Slot envelope) (CV_Value envelope))).

Definition ProgramSubscribe `{Unmarshal (ContextValue ProgramNotification)}
    (programID : PublicKey) (cfg : list CommitmentWithEncodingCfg) : subscription ProgramNotification :=
  mkSubscription (str "programSubscribe") (str "programUnsubscribe")
    (JArr [pubkey_json programID; buildCommitmentWithEncoding (FirstOrZero cfg)]) 64 false
    (λ raw, envelope ← unmarshal raw;
       let n := CV_Value envelope in Some (mkProgramNotification (CV_Slot envelope) (PN_Pubkey n) (PN_Account n))).

Definition SignatureSubscribe `{Unmarshal (ContextValue SignatureNotification)}
    (sig : Signature) (cfg : list SignatureSubscribeCfg) : subscription SignatureNotification :=
  mkSubscription (str "signatureSubscribe") (str "signatureUnsubscribe")
    (JArr [JStr (Signature_String sig); SignatureSubscribeCfg_json (FirstOrZero cfg)]) 4 true
    (λ raw, envelope ← unmarshal raw; Some (mkSignatureNotification (CV_Slot envelope) (SG_Err (CV_Value envelope)))).

Definition block_filter_json (filter : BlockFilter) : json :=
  if negb (PublicKey_IsZero (MentionsAccountOrProgram filter))
  then JObj [(str "mentionsAccountOrProgram", pubkey_json (MentionsAccountOrProgram filter))]
  else JStr (str "all").

(** The slot is the value's own here. *)
Definition BlockSubscribe `{Unmarshal (ContextValue BlockNotification)}
    (filter : BlockFilter) (cfg : list GetBlockCfg) : subscription BlockNotification :=
  mkSubscription (str "blockSubscribe") (str "blockUnsubscribe")
    (JArr [block_filter_json filter; GetBlockCfg_json (block_defaults (FirstOrZero cfg))]) 16 false
    (λ raw, envelope ← unmarshal raw; Some (CV_Value envelope)).

Definition SlotsUpdatesSubscribe `{Unmarshal SlotUpdate} : subscription SlotUpdate :=
  mkSubscription (str "slotsUpdatesSubscribe") (str "slotsUpdatesUnsubscribe") JNull 64 false unmarshal.

Definition logs_filter_json (filter : LogsFilter) : json :=
  if AllWithVotes filter then JStr (str "allWithVotes")
  else match Mentions filter with
       | [] => JStr (str "all")
       | mentions => JObj [(str "mentions", keys_json mentions)]
       end.

Definition LogsSubscribe `{Unmarshal (ContextValue LogNotification)}
    (filter : LogsFilter) (cfg : list LogsSubscribeCfg) : subscription LogNotification :=
  mkSubscription (str "logsSubscribe") (str "logsUnsubscribe")
    (JArr [logs_filter_json filter; LogsSubscribeCfg_json (FirstOrZero cfg)]) 64 false
    (λ raw, envelope ← unmarshal raw;
       let n := CV_Value envelope in Some (mkLogNotification (CV_Slot envelope) (LN_Signature n) (LN_Err n) (LN_Logs n))).

Definition SlotSubscribe `{Unmarshal SlotInfo} : subscription SlotInfo :=
  mkSubscription (str "slotSubscribe") (str "slotUnsubscribe") JNull 64 false unmarshal.

Definition RootSubscribe `{Unmarshal Z} : subscription Z :=
  mkSubscription (str "rootSubscribe") (str "rootUnsubscribe") JNull 64 false unmarshal.
End subscribe.
