(* ===== verification/WsSubsSpec.v ===== *)
(** * Typed subscriptions: theorems

    Whatever the consumer does, the channel holds the newest notifications and
    what was taken out of it, received or dropped, is everything before them in
    order. *)

From S2P Require Import Prelude Keys Json TxError AccountInfo JsonRpc RpcTypes Rpc RpcSpec WsSubs.

(** ** The channel's invariant *)

(** [l] is [a] and [b] interleaved. *)
Inductive shuffle {T} : list T → list T → list T → Prop :=
| shuffle_nil : shuffle [] [] []
| shuffle_l x a b l : shuffle a b l → shuffle (x :: a) b (x :: l)
| shuffle_r x a b l : shuffle a b l → shuffle a (x :: b) (x :: l).
#[export] Hint Constructors shuffle : core.

Lemma shuffle_snoc_l {T} (a b l : list T) x : shuffle a b l → shuffle (a ++ [x]) b (l ++ [x]).
Proof. induction 1; simpl; auto. Qed.
Lemma shuffle_snoc_r {T} (a b l : list T) x : shuffle a b l → shuffle a (b ++ [x]) (l ++ [x]).
Proof. induction 1; simpl; auto. Qed.
Lemma shuffle_sublist {T} (a b l : list T) : shuffle a b l → a `sublist_of` l.
Proof. induction 1; by constructor. Qed.
Lemma shuffle_length {T} (a b l : list T) : shuffle a b l → length l = (length a + length b)%nat.
Proof. induction 1; simpl; lia. Qed.

(** The value a call holds that is not in the channel yet. *)
Definition in_flight {T} (c : channel T) : list T :=
  match sending c with SIdle => [] | STry v | SDropOldest v | SRetry v => [v] end.

Definition chan_inv {T} (n : nat) (c : channel T) : Prop :=
  capacity c = n ∧ (length (buffer c) ≤ n)%nat ∧ lost c = [] ∧
  (∀ v, sending c = SRetry v → (length (buffer c) < n)%nat) ∧
  ∃ gone, offered c = gone ++ buffer c ++ in_flight c ∧ shuffle (received c) (dropped c) gone.

Section channel.
Context {T : Type}.
Implicit Types c : channel T.

Lemma chan_inv_make n : chan_inv n (make_chan (T:=T) n).
Proof. split_and!; try done; [simpl; lia|]. by exists []. Qed.

Lemma chan_inv_begin n c v c' : chan_inv n c → send_begin v c = Some c' → chan_inv n c'.
Proof.
  intros (Hn & Hl & Hlost & _ & gone & Ho & Hs). unfold send_begin. destruct (sending c) eqn:E; [|done..].
  intros [= <-]. split_and!; try done. exists gone. cbn. split; [|done].
  unfold in_flight in Ho. rewrite E in Ho. by rewrite Ho, app_nil_r, <- !app_assoc.
Qed.

Lemma chan_inv_enqueue n c v :
  chan_inv n c → in_flight c = [v] → has_room c = true → chan_inv n (enqueue v c).
Proof.
  intros (Hn & Hl & Hlost & _ & gone & Ho & Hs) Hf Hr%Nat.ltb_lt. unfold enqueue. split_and!; try done.
  - cbn. rewrite length_app. simpl. lia.
  - exists gone. cbn. rewrite app_nil_r. by rewrite Ho, Hf.
Qed.

Lemma chan_inv_step n c c' : (0 < n)%nat → chan_inv n c → send_step c = Some c' → chan_inv n c'.
Proof.
  intros Hpos Hc. pose proof Hc as (Hn & Hl & Hlost & Hretry & gone & Ho & Hs). unfold send_step.
  destruct (sending c) as [|v|v|v] eqn:E; [done| | |]; intros [= <-].
  - destruct (has_room c) eqn:Hr; [apply chan_inv_enqueue; [done| |done]; unfold in_flight; by rewrite E|].
    split_and!; try done. exists gone. unfold in_flight in *. by rewrite E in Ho.
  - unfold in_flight in Ho. rewrite E in Ho. destruct (buffer c) as [|x rest] eqn:Eb; simpl in Hl.
    + unfold set_sending. split_and!; try done; cbn; rewrite Eb; [simpl; lia|intros; simpl; lia|].
      by exists gone.
    + split_and!; try done; [simpl; lia|].
      exists (gone ++ [x]). split; [by rewrite Ho, <- app_assoc|]. by apply shuffle_snoc_r.
  - assert (has_room c = true) as Hr by (apply Nat.ltb_lt; rewrite Hn; by eapply Hretry).
    rewrite Hr. apply chan_inv_enqueue; [done| |done]. unfold in_flight. by rewrite E.
Qed.

Lemma chan_inv_receive n c c' : chan_inv n c → receive c = Some c' → chan_inv n c'.
Proof.
  intros (Hn & Hl & Hlost & Hretry & gone & Ho & Hs). unfold receive.
  destruct (buffer c) as [|x rest] eqn:Eb; [done|]. intros [= <-]. simpl in Hl.
  split_and!; try done; [simpl; lia|].
  exists (gone ++ [x]). split; [by rewrite Ho, <- app_assoc|]. by apply shuffle_snoc_l.
Qed.

Lemma send_step_offered c c' : send_step c = Some c' → offered c' = offered c.
Proof. unfold send_step. intros. by destruct (sending c), (buffer c), (has_room c); simplify_eq/=. Qed.

Lemma receive_offered c c' : receive c = Some c' → offered c' = offered c.
Proof. unfold receive. intros. by destruct (buffer c); simplify_eq/=. Qed.
End channel.

(** ** Runs *)

Section runs.
Context {T : Type} (sub : subscription T).

(** The notifications of the payloads that decode. *)
Definition decoded (acts : list sub_action) : list T := omap (notification sub) (frames acts).

Lemma sub_step_inv n a c c' :
  (0 < n)%nat → chan_inv n c → sub_step sub a c = Some c' →
  chan_inv n c' ∧ offered c' = offered c ++ decoded [a].
Proof.
  intros Hn Hc. destruct a as [raw| |]; cbn [sub_step]; intros E.
  - unfold dispatch, decoded in *. cbn. destruct (notification sub raw) as [v|].
    + split; [by eapply chan_inv_begin|]. unfold send_begin in E. by destruct (sending c); simplify_eq.
    + rewrite app_nil_r. by destruct (sending c); simplify_eq.
  - unfold decoded. cbn. rewrite app_nil_r. split; [by eapply chan_inv_step|by apply send_step_offered].
  - unfold decoded. cbn. rewrite app_nil_r. split; [by eapply chan_inv_receive|by apply receive_offered].
Qed.

Lemma decoded_cons a acts : decoded (a :: acts) = decoded [a] ++ decoded acts.
Proof. unfold decoded, frames. destruct a; try done. cbn. by destruct (notification sub raw). Qed.

Lemma sub_run_inv n acts c c' :
  (0 < n)%nat → chan_inv n c → sub_run sub acts c = Some c' →
  chan_inv n c' ∧ offered c' = offered c ++ decoded acts.
Proof.
  intros Hn. revert c. induction acts as [|a acts IH]; intros c Hc; cbn [sub_run].
  { intros [= <-]. split; [done|]. by rewrite app_nil_r. }
  destruct (sub_step sub a c) as [c1|] eqn:E; [|done]. cbn [mbind option_bind]. intros Hr.
  destruct (sub_step_inv n a c c1 Hn Hc E) as [H1 O1]. destruct (IH c1 H1 Hr) as [H2 O2].
  split; [done|]. by rewrite O2, O1, (decoded_cons a acts), app_assoc.
Qed.

(** C17: Whatever the consumer does between the reader's operations, no
    notification that decodes fails to enter the channel, the channel never
    exceeds its capacity and holds the newest ones, and what left it, received
    or dropped, is everything before them in order, so that the consumer sees
    the notifications in order. *)
Theorem newest_notifications_kept (acts : list sub_action) (c : channel T)
  (Hcap : (0 < chan_capacity sub)%nat) (Hh : sub_history sub acts c) :
  lost c = [] ∧ (length (buffer c) ≤ chan_capacity sub)%nat ∧
  ∃ gone, decoded acts = gone ++ buffer c ++ in_flight c ∧ shuffle (received c) (dropped c) gone ∧
    received c `sublist_of` decoded acts ∧
    length (decoded acts) = (length (received c) + length (dropped c) + length (buffer c) + length (in_flight c))%nat.
Proof.
  destruct (sub_run_inv _ acts _ c Hcap (chan_inv_make _) Hh) as [(_ & Hl & Hlost & _ & gone & Ho & Hs) Hd].
  split; [done|]. split; [done|]. exists gone. rewrite Hd in Ho. split; [done|]. split; [done|].
  cbn [offered make_chan app] in Ho. rewrite Ho. split.
  - transitivity gone; [by eapply shuffle_sublist|by apply sublist_inserts_r].
  - rewrite !length_app, (shuffle_length _ _ _ Hs). lia.
Qed.

Lemma send_step_try (c : channel T) v :
  sending c = STry v → send_step c = Some (if has_room c then enqueue v c else set_sending (SDropOldest v) c).
Proof. unfold send_step. by intros ->. Qed.

(** C35: [sendOrDropOldest] always returns: on a channel with room it appends
    the value, on a full one it takes the oldest element out first; nothing
    else changes. *)
Theorem sendOrDropOldest_spec (v : T) (c : channel T) (Hidle : sending c = SIdle)
  (Hcap : (0 < capacity c)%nat) (Hlen : (length (buffer c) ≤ capacity c)%nat) :
  ∃ c', sendOrDropOldest v c = Some c' ∧ sending c' = SIdle ∧ received c' = received c ∧ lost c' = lost c ∧
    if has_room c then buffer c' = buffer c ++ [v] ∧ dropped c' = dropped c
    else ∃ x, buffer c = x :: tail (buffer c) ∧ buffer c' = tail (buffer c) ++ [v] ∧ dropped c' = dropped c ++ [x].
Proof.
  unfold sendOrDropOldest, send_begin. rewrite Hidle. cbn [mbind option_bind].
  rewrite (send_step_try _ v) by done. unfold has_room. cbn [buffer capacity].
  destruct (length (buffer c) <? capacity c)%nat eqn:Hr; cbn.
  { eexists. split; [done|]. by split_and!. }
  apply Nat.ltb_ge in Hr. destruct (buffer c) as [|x rest] eqn:Eb; simpl in Hr, Hlen; [lia|].
  assert ((length rest <? capacity c)%nat = true) as Hroom by (apply Nat.ltb_lt; lia).
  unfold has_room. cbn.
  change (match capacity c with O => false | S m => (length rest <=? m)%nat end) with (length rest <? capacity c)%nat.
  rewrite Hroom.
  eexists. split; [done|]. cbn. split_and!; try done. by exists x.
Qed.
End runs.

(** A consumer that receives between the first select and the second makes
    room, and the oldest element left is dropped all the same. *)
Lemma drop_with_room :
  ∃ c c', chan_inv 2 c ∧ sending c = SDropOldest 3 ∧ has_room c = true ∧
    send_step c = Some c' ∧ dropped c' = [2].
Proof.
  eexists (mkChannel 2 [2] (SDropOldest 3) [1] [1; 2; 3] [] []), _. split.
  { split_and!; [done|simpl; lia|done|done|]. exists [1]. split; [done|]. by repeat constructor. }
  by split_and!.
Qed.

(** ** Requests *)

Lemma buildCommitmentWithEncoding_encoding cfg :
  json_field "encoding" (buildCommitmentWithEncoding cfg) = Some (JStr (effective (CE_Encoding cfg))).
Proof. unfold json_field, buildCommitmentWithEncoding. fold (effective (CE_Encoding cfg)). by solve_field. Qed.

(** Votes before mentions, mentions before everything; a filter with nothing
    set, or with [All] alone, is everything. *)
Lemma logs_filter_precedence `{Base58} all mentions :
  logs_filter_json (mkLogsFilter all true mentions) = JStr (str "allWithVotes") ∧
  logs_filter_json (mkLogsFilter all false []) = JStr (str "all") ∧
  (mentions ≠ [] → logs_filter_json (mkLogsFilter all false mentions) = JObj [(str "mentions", keys_json mentions)]).
Proof. split_and!; [done..|]. by destruct mentions. Qed.

(** ** Witnesses *)

Module ToySubs.
(** The first byte of a payload is the slot. *)
#[export] Instance first_byte : Unmarshal (ContextValue SignatureNotification) := λ raw,
  match raw with [] => None | b :: _ => Some (mkContextValue b (mkSignatureNotification 0 ANil)) end.

Definition note (slot : Z) : SignatureNotification := mkSignatureNotification slot ANil.

Definition busy_run : list sub_action :=
  flat_map (λ b, [SFrame [b]; SSelect]) [1; 2; 3; 4] ++
  [SFrame []; SReceive; SFrame [5]; SSelect; SFrame [6]; SSelect; SSelect; SReceive; SSelect].
End ToySubs.

Import Keys.ToyBase58 ToySubs.

Lemma newest_notifications_kept_witness :
  ∃ c, sub_history (SignatureSubscribe [] []) busy_run c ∧
    received c = [note 1; note 3] ∧ dropped c = [note 2] ∧ buffer c = [note 4; note 5; note 6] ∧ lost c = [].
Proof.
  eexists. assert (sub_history (SignatureSubscribe [] []) busy_run _) as Hh by (vm_compute; reflexivity).
  split; [exact Hh|]. split; [done|]. split; [done|]. split; [done|].
  apply (newest_notifications_kept (SignatureSubscribe [] []) busy_run _ ltac:(simpl; lia) Hh).
Defined.

Lemma sendOrDropOldest_spec_witness :
  ∃ c', sendOrDropOldest 9 (mkChannel 2 [7; 8] SIdle [] [7; 8] [] []) = Some c' ∧ buffer c' = [8; 9].
Proof.
  destruct (sendOrDropOldest_spec 9 (mkChannel 2 [7; 8] SIdle [] [7; 8] [] [])) as (c' & E & _ & _ & _ & x & _ & Hb & _);
    [done|simpl; lia|simpl; lia|].
  exists c'. by split.
Defined.
